(** * Hotline back office: permission resolution and the stock ledger

    A shallow embedding of the request handlers of the Hotline point-of-sale
    back end (Express + Mongoose) and of the schema validators they rely on.

    Conventions of the embedding
    - Mongo documents are records.  The [Product] and [Stock] collections are
      finite maps keyed by the product id ([Stock] has a unique index on
      [product], so it maps a product to its quantity); the other collections
      are lists in insertion order, and a document's [_id] is its position.
    - A handler is a function from the database to the database it leaves
      behind and the response it sends.  The handlers run no transaction, so a
      handler that fails half way keeps every write made before the failure:
      the monad [M] threads the database through failures as well.
    - JavaScript numbers that hold money are exact rationals ([Q]); counts,
      stock quantities and durations are integers ([Z]).  [Math.round] is
      rounding half up.
    - A text field holds the text the handler wrote: the [trim] setters of
      the schemas are applied where a validator reads the field ([required]
      and [maxlength] look at the trimmed text), not to the stored value.
    - Of the timestamps only the end date of a warranty is kept.  The clock,
      the acting user and the clock-derived business numbers (sale, return,
      job, warranty and claim numbers) reach a handler in its context. *)

From Stdlib Require Import ZArith QArith Qround Lia String List Bool.
From Stdlib Require Import Sorted.
From stdpp Require Import gmap strings list pretty.

Local Open Scope string_scope.
Local Open Scope list_scope.
Local Open Scope Z_scope.

(* ===================================================================== *)
(** * Part I: the model                                                  *)
(* ===================================================================== *)

(** ** JavaScript helpers *)

(** [v || d] on an optional number: [undefined], [null] and [0] are falsy. *)
Definition orZ (v : option Z) (d : Z) : Z :=
  match v with
  | Some x => if Z.eqb x 0 then d else x
  | None => d
  end.

Definition orQ (v : option Q) (d : Q) : Q :=
  match v with
  | Some x => if Qeq_bool x 0 then d else x
  | None => d
  end.

(** [v || d] on an optional string: [undefined], [null] and [""] are falsy. *)
Definition orS (v : option string) (d : string) : string :=
  match v with
  | Some x => if String.eqb x "" then d else x
  | None => d
  end.

(** Truthiness of an optional string ([!reason], [customer.name && ...]). *)
Definition truthyS (v : option string) : bool :=
  match v with
  | Some x => negb (String.eqb x "")
  | None => false
  end.

(** [v || null] on an optional string. *)
Definition orNull (v : option string) : option string :=
  if truthyS v then v else None.

(** [a === b] on optional strings ([undefined] is [None]). *)
Definition strictEq (a b : option string) : bool :=
  match a, b with
  | Some x, Some y => String.eqb x y
  | None, None => true
  | _, _ => false
  end.

(** [Math.round(x * 100) / 100]: [Math.round] rounds half up. *)
Definition round2 (x : Q) : Q :=
  (inject_Z (Qfloor (x * 100 + (1 # 2))) / 100)%Q.

Definition Qmax (a b : Q) : Q := if Qle_bool b a then a else b.

Definition Qlt_bool (a b : Q) : bool := negb (Qle_bool b a).

(** [Array.prototype.includes] on strings. *)
Definition includes (l : list string) (s : string) : bool :=
  List.existsb (String.eqb s) l.

Definition Qsum (l : list Q) : Q := List.fold_left Qplus l 0%Q.

(* ===================================================================== *)
(** ** Authorization middleware (middlewares/auth/authorize.js)          *)
(* ===================================================================== *)

Module Auth.

Inductive OverrideType := ALLOW | DENY.

Record Permission := { code : string }.

(** An entry of [user.directPermissions] after [populate]: the referenced
    permission is [null] when the permission document no longer exists. *)
Record DirectPermission := {
  dp_permission : option Permission;
  dp_type : OverrideType
}.

(** A populated role; [permissions] may be missing on the document. *)
Record Role := { r_permissions : option (list Permission) }.

Record User := {
  roles : list Role;
  directPermissions : list DirectPermission;
  isSuperAdmin : bool
}.

Inductive Reason := denied | direct | role | missing.

Record PermissionResult := {
  pr_code : string;
  allowed : bool;
  reason : Reason
}.

(** [dp => dp.permission && dp.permission.code === permCode] *)
Definition matchesCode (permCode : string) (dp : DirectPermission) : bool :=
  match dp_permission dp with
  | Some p => String.eqb (code p) permCode
  | None => false
  end.

(** [user.roles.flatMap(r => r.permissions ? r.permissions.map(p => p.code) : [])] *)
Definition rolePerms (user : User) : list string :=
  List.flat_map
    (fun r => match r_permissions r with
              | Some ps => List.map code ps
              | None => []
              end)
    (roles user).

(** The body of the loop over [requiredPermissions]: one result per code. *)
Definition checkPermission (user : User) (permCode : string) : PermissionResult :=
  match List.find (matchesCode permCode) (directPermissions user) with
  | Some directPerm =>
      match dp_type directPerm with
      | DENY => {| pr_code := permCode; allowed := false; reason := denied |}
      | ALLOW => {| pr_code := permCode; allowed := true; reason := direct |}
      end
  | None =>
      if includes (rolePerms user) permCode
      then {| pr_code := permCode; allowed := true; reason := role |}
      else {| pr_code := permCode; allowed := false; reason := missing |}
  end.

Inductive Response :=
| Next                                            (* next() *)
| UserNotFound                                    (* 401 *)
| AccessDenied (required missingPerms : list string).  (* 403 *)

(** [authorize(permissionCode, { requireAll })] applied to the user that
    [User.findById(req.userId)] returned. *)
Definition authorize (requiredPermissions : list string) (requireAll : bool)
    (found : option User) : Response :=
  match found with
  | None => UserNotFound
  | Some user =>
      if isSuperAdmin user then Next
      else
        let permissionResults := List.map (checkPermission user) requiredPermissions in
        let allowedCount := length (List.filter allowed permissionResults) in
        let accessGranted :=
          if requireAll
          then Nat.eqb allowedCount (length requiredPermissions)
          else Nat.ltb 0 allowedCount in
        if accessGranted then Next
        else AccessDenied requiredPermissions
               (List.map pr_code
                  (List.filter (fun r => negb (allowed r)) permissionResults))
  end.

(** [userSchema.methods.hasPermission] (models/auth/userModel.js). *)
Definition hasPermission (user : User) (permissionCode : string) : bool :=
  if isSuperAdmin user then true
  else
    match List.find (matchesCode permissionCode) (directPermissions user) with
    | Some directPerm =>
        match dp_type directPerm with ALLOW => true | DENY => false end
    | None => includes (rolePerms user) permissionCode
    end.

(** A JavaScript [Set] of strings kept as a duplicate-free list in insertion
    order. *)
Definition setAdd (s : list string) (x : string) : list string :=
  if includes s x then s else s ++ [x].

Definition setDelete (s : list string) (x : string) : list string :=
  List.filter (fun y => negb (String.eqb x y)) s.

(** [effectivePermissions] of [userSchema.methods.getEffectivePermissions]
    for a user who is not a super admin: the role permissions with the
    direct overrides applied in list order. *)
Definition effectivePermissions (user : User) : list string :=
  List.fold_left
    (fun allowedPerms dp =>
       match dp_permission dp with
       | Some p =>
           match dp_type dp with
           | ALLOW => setAdd allowedPerms (code p)
           | DENY => setDelete allowedPerms (code p)
           end
       | None => allowedPerms
       end)
    (directPermissions user)
    (List.fold_left setAdd (rolePerms user) []).

(** A direct override of type [t] for [permCode] is present on the user. *)
Definition hasOverride (t : OverrideType) (permCode : string) (user : User) : Prop :=
  exists dp, In dp (directPermissions user) /\
             matchesCode permCode dp = true /\ dp_type dp = t.

(** The codes the direct overrides of a user name, one per populated
    entry. *)
Definition overrideCodes (user : User) : list string :=
  List.flat_map
    (fun dp => match dp_permission dp with
               | Some p => [code p]
               | None => []
               end)
    (directPermissions user).

(** *** controllers/auth: assignDirectPermissions *)

(** An entry of the request body: [{ permissionId, type }]. *)
Record OverrideInput := {
  ov_permissionId : nat;
  ov_type : string
}.

(** [Permission.find({ _id: { $in: permIds } })], by the ids of the documents
    found: a permission's [_id] is its position in the collection, and a
    document whose id is listed twice is still found once. *)
Definition findPermissions (permissions : list Permission) (permIds : list nat)
    : list nat :=
  List.filter (fun id => List.existsb (Nat.eqb id) permIds)
    (List.seq 0 (length permissions)).

Inductive Assignment :=
| PermissionsArrayRequired                   (* 400 *)
| NoSuchUser                                 (* 404 *)
| InvalidPermissionIds                       (* 400 *)
| InvalidPermissionType                      (* 400 *)
| Assigned (user : User).                    (* handed to [user.save()] *)

(** [assignDirectPermissions], the only handler that writes
    [directPermissions], up to the user it hands to [user.save()], in the
    populated form [authorize] reads.  [permissions] is the collection of
    permission documents, [found] what [User.findById] returned. *)
Definition assignDirectPermissions (permissions : list Permission)
    (body : option (list OverrideInput)) (found : option User) : Assignment :=
  match body with
  | None => PermissionsArrayRequired
  | Some overrides =>
      match found with
      | None => NoSuchUser
      | Some user =>
          let permIds := List.map ov_permissionId overrides in
          let foundPerms := findPermissions permissions permIds in
          if negb (Nat.eqb (length foundPerms) (length permIds))
          then InvalidPermissionIds
          else if negb (List.forallb
                          (fun perm => includes ["ALLOW"; "DENY"] (ov_type perm))
                          overrides)
          then InvalidPermissionType
          else
            Assigned
              {| roles := roles user;
                 directPermissions :=
                   List.map
                     (fun p =>
                        {| dp_permission :=
                             List.nth_error permissions (ov_permissionId p);
                           dp_type :=
                             if String.eqb (ov_type p) "ALLOW" then ALLOW else DENY |})
                     overrides;
                 isSuperAdmin := isSuperAdmin user |}
      end
  end.

(** *** Users for the examples *)

Definition viewSales : Permission := {| code := "VIEW_SALES" |}.

(** A cashier without roles who was first allowed and then denied
    [VIEW_SALES] directly.  No request stores such a user: the document
    shows how [authorize] reads a list that names a code twice. *)
Definition allowedThenDenied : User :=
  {| roles := [];
     directPermissions :=
       [ {| dp_permission := Some viewSales; dp_type := ALLOW |};
         {| dp_permission := Some viewSales; dp_type := DENY |} ];
     isSuperAdmin := false |}.

(** The same overrides in the other order, on top of a role that grants the
    permission. *)
Definition deniedThenAllowed : User :=
  {| roles := [ {| r_permissions := Some [viewSales] |} ];
     directPermissions :=
       [ {| dp_permission := Some viewSales; dp_type := DENY |};
         {| dp_permission := Some viewSales; dp_type := ALLOW |} ];
     isSuperAdmin := false |}.

End Auth.

(* ===================================================================== *)
(** ** Documents and collections                                         *)
(* ===================================================================== *)

(** [String.prototype.trim] on the ASCII white space characters (the schemas
    declare [trim: true] on their free-text fields, and [maxlength] is
    checked on the trimmed value). *)
Definition isSpace (c : Ascii.ascii) : bool :=
  let n := Ascii.nat_of_ascii c in
  (Nat.eqb n 32 || (Nat.leb 9 n && Nat.leb n 13))%bool.

Fixpoint trimStart (s : string) : string :=
  match s with
  | String c s' => if isSpace c then trimStart s' else s
  | EmptyString => EmptyString
  end.

Fixpoint trimEnd (s : string) : string :=
  match s with
  | String c s' =>
      match trimEnd s' with
      | EmptyString => if isSpace c then EmptyString else String c EmptyString
      | t => String c t
      end
  | EmptyString => EmptyString
  end.

Definition trim (s : string) : string := trimEnd (trimStart s).

(** The [maxlength] validator of a trimmed optional string field. *)
Definition maxlength (n : nat) (v : option string) : bool :=
  match v with
  | Some s => Nat.leb (String.length (trim s)) n
  | None => true
  end.

(** The [required] validator of a string field. *)
Definition requiredS (v : option string) : bool :=
  match v with
  | Some s => negb (String.eqb s "")
  | None => false
  end.

(** The [enum] validator: [undefined] and [null] pass, a string must be one
    of the listed values. *)
Definition enum (values : list string) (v : option string) : bool :=
  match v with
  | Some s => includes values s
  | None => true
  end.

(** A constant table such as [ADJUSTMENT_TYPES]: its keys and values. *)
Definition Table := list (string * string).

(** [TABLE.KEY]: a property read, [undefined] when the key is absent. *)
Fixpoint prop (t : Table) (key : string) : option string :=
  match t with
  | (k, v) :: t' => if String.eqb k key then Some v else prop t' key
  | [] => None
  end.

(** [Object.values(TABLE)] *)
Definition values (t : Table) : list string := List.map snd t.

(** models/inventory/stockAdjustmentModel.js *)
Definition ADJUSTMENT_TYPES : Table :=
  [ ("ADDITION", "ADDITION"); ("REDUCTION", "REDUCTION");
    ("PURCHASE", "PURCHASE"); ("SALE", "SALE"); ("RETURN", "RETURN");
    ("DAMAGE", "DAMAGE"); ("THEFT", "THEFT"); ("CORRECTION", "CORRECTION");
    ("TRANSFER_IN", "TRANSFER_IN"); ("TRANSFER_OUT", "TRANSFER_OUT") ].

(** models/sale/returnModel.js *)
Definition RETURN_TYPES : Table :=
  [ ("REFUND", "REFUND"); ("EXCHANGE", "EXCHANGE") ].

Definition RETURN_STATUS : Table :=
  [ ("PENDING", "PENDING"); ("COMPLETED", "COMPLETED"); ("CANCELLED", "CANCELLED") ].

(** models/sale/saleModel.js *)
Definition PAYMENT_METHODS : Table :=
  [ ("CASH", "CASH"); ("CARD", "CARD"); ("OTHER", "OTHER") ].

Inductive SaleStatus := SALE_PENDING | SALE_COMPLETED | SALE_VOIDED.

Definition DISCOUNT_TYPES : Table :=
  [ ("PERCENTAGE", "PERCENTAGE"); ("FIXED", "FIXED") ].

(** models/warranty/warrantyModel.js *)
Inductive WarrantyStatus := ACTIVE | EXPIRED | CLAIMED | VOID.

Definition WARRANTY_TYPES : Table :=
  [ ("MANUFACTURER", "MANUFACTURER"); ("SHOP", "SHOP");
    ("EXTENDED", "EXTENDED"); ("REPAIR", "REPAIR") ].

Definition CLAIM_RESOLUTIONS : Table :=
  [ ("REPAIR", "REPAIR"); ("REPLACE", "REPLACE");
    ("REFUND", "REFUND"); ("REJECTED", "REJECTED") ].

(** Document ids.  A collection kept as a list gives a document its position
    as [_id]; an embedded sale line is identified by its position in
    [sale.items]. *)
Abbreviation ObjectId := nat.

(** models/product/productModel.js (the fields the handlers read). *)
Record Product := {
  p_name : string;
  p_sku : option string;
  p_costPrice : Q;
  p_sellingPrice : Q;
  p_taxRate : Q;
  p_warrantyDuration : Z;
  p_warrantyType : string;
  p_isActive : bool
}.

(** models/inventory/stockAdjustmentModel.js *)
Record StockAdjustment := {
  sa_product : ObjectId;
  sa_type : option string;
  sa_quantity : Z;
  sa_previousQuantity : Z;
  sa_newQuantity : Z;
  sa_reason : option string;
  sa_reference : option string;
  sa_referenceType : option string;
  sa_createdBy : ObjectId
}.

(** The validators of [stockAdjustmentSchema]. *)
Definition validStockAdjustment (a : StockAdjustment) : bool :=
  (requiredS (sa_type a) && enum (values ADJUSTMENT_TYPES) (sa_type a)
   && (1 <=? sa_quantity a)
   && maxlength 500 (sa_reason a)
   && enum ["Sale"; "Purchase"; "Transfer"; "Manual"] (sa_referenceType a))%bool.

(** models/sale/saleModel.js *)
Record SaleItem := {
  si_product : ObjectId;
  si_productName : string;
  si_sku : option string;
  si_serialNumber : option string;
  si_quantity : Z;
  si_unitPrice : Q;
  si_discount : Q;
  si_total : Q
}.

Record Payment := {
  pay_method : string;
  pay_amount : Q;
  pay_reference : option string
}.

Record Customer := {
  c_name : option string;
  c_phone : option string;
  c_email : option string
}.

Record Sale := {
  s_saleNumber : string;
  s_customer : option Customer;
  s_items : list SaleItem;
  s_payments : list Payment;
  s_subtotal : Q;
  s_discountType : option string;
  s_discountValue : Q;
  s_discountTotal : Q;
  s_grandTotal : Q;
  s_amountPaid : Q;
  s_changeGiven : Q;
  s_status : SaleStatus;
  s_notes : option string;
  s_createdBy : ObjectId;
  s_voidedBy : option ObjectId;
  s_voidReason : option string
}.

Definition validSaleItem (i : SaleItem) : bool :=
  (negb (String.eqb (si_productName i) "")
   && (1 <=? si_quantity i)
   && Qle_bool 0 (si_unitPrice i)
   && Qle_bool 0 (si_discount i))%bool.

Definition validPayment (p : Payment) : bool :=
  (includes (values PAYMENT_METHODS) (pay_method p)
   && Qle_bool (1 # 100) (pay_amount p))%bool.

(** The validators of [saleSchema]. *)
Definition validSale (s : Sale) : bool :=
  (negb (String.eqb (s_saleNumber s) "")
   && negb (Nat.eqb (length (s_items s)) 0)
   && List.forallb validSaleItem (s_items s)
   && List.forallb validPayment (s_payments s)
   && Qle_bool 0 (s_subtotal s)
   && enum (values DISCOUNT_TYPES) (s_discountType s)
   && Qle_bool 0 (s_discountValue s)
   && Qle_bool 0 (s_discountTotal s)
   && Qle_bool 0 (s_grandTotal s)
   && Qle_bool 0 (s_amountPaid s)
   && Qle_bool 0 (s_changeGiven s)
   && maxlength 500 (s_notes s)
   && maxlength 500 (s_voidReason s))%bool.

(** models/sale/returnModel.js *)
Record ReturnItem := {
  ri_product : ObjectId;
  ri_productName : string;
  ri_sku : option string;
  ri_serialNumber : option string;
  ri_quantity : Z;
  ri_unitPrice : Q;
  ri_refundAmount : Q
}.

Record Return := {
  rt_returnNumber : string;
  rt_originalSale : option ObjectId;
  rt_returnType : option string;
  rt_items : list ReturnItem;
  rt_totalRefund : Q;
  rt_exchangeSale : option ObjectId;
  rt_exchangeAmountDue : Q;
  rt_reason : option string;
  rt_refundMethod : option string;
  rt_status : option string;
  rt_notes : option string;
  rt_createdBy : ObjectId
}.

Definition validReturnItem (i : ReturnItem) : bool :=
  (negb (String.eqb (ri_productName i) "")
   && (1 <=? ri_quantity i)
   && Qle_bool 0 (ri_unitPrice i)
   && Qle_bool 0 (ri_refundAmount i))%bool.

(** The validators of [returnSchema]. *)
Definition validReturn (r : Return) : bool :=
  (negb (String.eqb (rt_returnNumber r) "")
   && (match rt_originalSale r with Some _ => true | None => false end)
   && requiredS (rt_returnType r) && enum (values RETURN_TYPES) (rt_returnType r)
   && negb (Nat.eqb (length (rt_items r)) 0)
   && List.forallb validReturnItem (rt_items r)
   && Qle_bool 0 (rt_totalRefund r)
   && requiredS (option_map trim (rt_reason r)) && maxlength 500 (rt_reason r)
   && enum ["CASH"; "CARD"; "ORIGINAL_METHOD"] (rt_refundMethod r)
   && enum (values RETURN_STATUS) (rt_status r)
   && maxlength 500 (rt_notes r))%bool.

(** [id.toString()] *)
Definition toString (id : ObjectId) : string := pretty id.

(** models/repair/repairJobModel.js (the sources hold this file inside
    models/promotion/promotionModel.js, after the promotion model) *)
Inductive RepairStatus :=
  RECEIVED | IN_PROGRESS | READY | COMPLETED | CANCELLED.

Definition REPAIR_PRIORITY : Table :=
  [ ("LOW", "LOW"); ("NORMAL", "NORMAL"); ("HIGH", "HIGH"); ("URGENT", "URGENT") ].

Definition DEVICE_TYPES : Table :=
  [ ("MOBILE_PHONE", "MOBILE_PHONE"); ("TABLET", "TABLET"); ("LAPTOP", "LAPTOP");
    ("SMARTWATCH", "SMARTWATCH"); ("OTHER", "OTHER") ].

Definition PAYMENT_STATUS : Table :=
  [ ("PENDING", "PENDING"); ("PARTIAL", "PARTIAL"); ("PAID", "PAID") ].

Record Part := {
  pt_product : ObjectId;
  pt_productName : string;
  pt_sku : option string;
  pt_quantity : Z;
  pt_unitPrice : Q;
  pt_total : Q
}.

(** The validators of [partUsedSchema]. *)
Definition validPart (p : Part) : bool :=
  (negb (String.eqb (pt_productName p) "")
   && (1 <=? pt_quantity p)
   && Qle_bool 0 (pt_unitPrice p)
   && Qle_bool 0 (pt_total p))%bool.

(** [deviceSchema]: the fields the handlers set and the ones with a
    validator. *)
Record Device := {
  dv_type : option string;
  dv_brand : option string;
  dv_model : option string;
  dv_serialNumber : option string;
  dv_condition : option string
}.

(** [repairJobSchema].  The customer sub-document has the fields of
    [Customer] (its [address] has no validator and no handler reads it); the
    handlers always give a customer and a device, which [required] asks
    for. *)
Record RepairJob := {
  rj_jobNumber : string;
  rj_status : RepairStatus;
  rj_priority : option string;
  rj_customer : Customer;
  rj_device : Device;
  rj_problemDescription : string;
  rj_diagnosisNotes : option string;
  rj_repairNotes : option string;
  rj_assignedTo : option ObjectId;
  rj_partsUsed : list Part;
  rj_laborCost : Q;
  rj_partsTotal : Q;
  rj_totalCost : Q;
  rj_estimatedCost : Q;
  rj_advancePayment : Q;
  rj_finalPayment : Q;
  rj_paymentStatus : option string;
  rj_createdBy : ObjectId;
  rj_completedBy : option ObjectId;
  rj_cancelledBy : option ObjectId;
  rj_cancelReason : option string
}.

(** The validators of [repairJobSchema], of [customerSchema] and of
    [deviceSchema]; they run on the document as the handler left it, before
    the pre-save hook. *)
Definition validRepairJob (r : RepairJob) : bool :=
  (negb (String.eqb (rj_jobNumber r) "")
   && enum (values REPAIR_PRIORITY) (rj_priority r)
   && requiredS (option_map trim (c_name (rj_customer r)))
   && requiredS (option_map trim (c_phone (rj_customer r)))
   && enum (values DEVICE_TYPES) (dv_type (rj_device r))
   && requiredS (option_map trim (dv_brand (rj_device r)))
   && requiredS (option_map trim (dv_model (rj_device r)))
   && maxlength 500 (dv_condition (rj_device r))
   && negb (String.eqb (trim (rj_problemDescription r)) "")
   && Nat.leb (String.length (trim (rj_problemDescription r))) 1000
   && maxlength 2000 (rj_diagnosisNotes r)
   && maxlength 2000 (rj_repairNotes r)
   && List.forallb validPart (rj_partsUsed r)
   && Qle_bool 0 (rj_laborCost r)
   && Qle_bool 0 (rj_partsTotal r)
   && Qle_bool 0 (rj_totalCost r)
   && Qle_bool 0 (rj_estimatedCost r)
   && Qle_bool 0 (rj_advancePayment r)
   && Qle_bool 0 (rj_finalPayment r)
   && enum (values PAYMENT_STATUS) (rj_paymentStatus r)
   && maxlength 500 (rj_cancelReason r))%bool.

(** The pre-save hook of [repairJobSchema]: the totals and the payment
    status are recomputed. *)
Definition repairPreSave (r : RepairJob) : RepairJob :=
  let partsTotal := Qsum (List.map pt_total (rj_partsUsed r)) in
  let totalCost := (rj_laborCost r + partsTotal)%Q in
  let totalPaid := (rj_advancePayment r + rj_finalPayment r)%Q in
  {| rj_jobNumber := rj_jobNumber r;
     rj_status := rj_status r;
     rj_priority := rj_priority r;
     rj_customer := rj_customer r;
     rj_device := rj_device r;
     rj_problemDescription := rj_problemDescription r;
     rj_diagnosisNotes := rj_diagnosisNotes r;
     rj_repairNotes := rj_repairNotes r;
     rj_assignedTo := rj_assignedTo r;
     rj_partsUsed := rj_partsUsed r;
     rj_laborCost := rj_laborCost r;
     rj_partsTotal := partsTotal;
     rj_totalCost := totalCost;
     rj_estimatedCost := rj_estimatedCost r;
     rj_advancePayment := rj_advancePayment r;
     rj_finalPayment := rj_finalPayment r;
     rj_paymentStatus :=
       if (Qle_bool totalCost totalPaid && Qlt_bool 0 totalCost)%bool
       then prop PAYMENT_STATUS "PAID"
       else if Qlt_bool 0 totalPaid then prop PAYMENT_STATUS "PARTIAL"
       else prop PAYMENT_STATUS "PENDING";
     rj_createdBy := rj_createdBy r;
     rj_completedBy := rj_completedBy r;
     rj_cancelledBy := rj_cancelledBy r;
     rj_cancelReason := rj_cancelReason r |}.

(** models/warranty/warrantyModel.js *)
Record Claim := {
  cl_claimNumber : string;
  cl_issue : string;
  cl_resolution : option string;
  cl_notes : option string;
  cl_processedBy : ObjectId;
  cl_claimCost : Q;
  cl_refundAmount : Q;
  cl_repairJob : option ObjectId;
  cl_replacementProduct : option ObjectId;
  cl_returnRecord : option ObjectId
}.

Record Warranty := {
  w_warrantyNumber : string;
  w_sourceType : string;
  w_sale : option ObjectId;
  w_product : ObjectId;
  w_productName : string;
  w_serialNumber : option string;
  w_customer : Customer;
  w_warrantyType : string;
  w_durationMonths : Z;
  w_endDate : Z;             (* milliseconds since the epoch *)
  w_status : WarrantyStatus;
  w_claims : list Claim;
  w_voidedBy : option ObjectId;
  w_voidReason : option string;
  w_createdBy : ObjectId
}.

Definition validClaim (c : Claim) : bool :=
  (negb (String.eqb (cl_claimNumber c) "")
   && negb (String.eqb (trim (cl_issue c)) "")
   && Nat.leb (String.length (trim (cl_issue c))) 1000
   && enum (values CLAIM_RESOLUTIONS) (cl_resolution c)
   && Qle_bool 0 (cl_refundAmount c)
   && Qle_bool 0 (cl_claimCost c)
   && maxlength 1000 (cl_notes c))%bool.

(** The validators of [warrantySchema]. *)
Definition validWarranty (w : Warranty) : bool :=
  (negb (String.eqb (w_warrantyNumber w) "")
   && includes ["SALE"; "REPAIR"; "MANUAL"] (w_sourceType w)
   && negb (String.eqb (w_productName w) "")
   && requiredS (option_map trim (c_name (w_customer w)))
   && requiredS (option_map trim (c_phone (w_customer w)))
   && includes (values WARRANTY_TYPES) (w_warrantyType w)
   && (1 <=? w_durationMonths w)
   && List.forallb validClaim (w_claims w)
   && maxlength 500 (w_voidReason w))%bool.

Definition withStatus (w : Warranty) (st : WarrantyStatus) : Warranty :=
  {| w_warrantyNumber := w_warrantyNumber w; w_sourceType := w_sourceType w;
     w_sale := w_sale w; w_product := w_product w;
     w_productName := w_productName w; w_serialNumber := w_serialNumber w;
     w_customer := w_customer w; w_warrantyType := w_warrantyType w;
     w_durationMonths := w_durationMonths w; w_endDate := w_endDate w;
     w_status := st; w_claims := w_claims w;
     w_voidedBy := w_voidedBy w; w_voidReason := w_voidReason w;
     w_createdBy := w_createdBy w |}.

(** The pre-save hook of [warrantySchema]: an ACTIVE warranty past its end
    date becomes EXPIRED. *)
Definition warrantyPreSave (now : Z) (w : Warranty) : Warranty :=
  match w_status w with
  | ACTIVE => if w_endDate w <? now then withStatus w EXPIRED else w
  | _ => w
  end.

(** The database: one field per collection. *)
Record DB := {
  products : gmap ObjectId Product;
  stocks : gmap ObjectId Z;              (* Stock: product |-> quantity *)
  adjustments : list StockAdjustment;    (* StockAdjustment, oldest first *)
  sales : list Sale;
  returns : list Return;
  repairs : list RepairJob;
  warranties : list Warranty
}.

Definition withStocks (db : DB) (s : gmap ObjectId Z) : DB :=
  {| products := products db; stocks := s; adjustments := adjustments db;
     sales := sales db; returns := returns db; repairs := repairs db;
     warranties := warranties db |}.

Definition withAdjustments (db : DB) (a : list StockAdjustment) : DB :=
  {| products := products db; stocks := stocks db; adjustments := a;
     sales := sales db; returns := returns db; repairs := repairs db;
     warranties := warranties db |}.

Definition withSales (db : DB) (s : list Sale) : DB :=
  {| products := products db; stocks := stocks db; adjustments := adjustments db;
     sales := s; returns := returns db; repairs := repairs db;
     warranties := warranties db |}.

Definition withReturns (db : DB) (r : list Return) : DB :=
  {| products := products db; stocks := stocks db; adjustments := adjustments db;
     sales := sales db; returns := r; repairs := repairs db;
     warranties := warranties db |}.

Definition withRepairs (db : DB) (r : list RepairJob) : DB :=
  {| products := products db; stocks := stocks db; adjustments := adjustments db;
     sales := sales db; returns := returns db; repairs := r;
     warranties := warranties db |}.

Definition withWarranties (db : DB) (w : list Warranty) : DB :=
  {| products := products db; stocks := stocks db; adjustments := adjustments db;
     sales := sales db; returns := returns db; repairs := repairs db;
     warranties := w |}.

(** The quantity on hand of a product: [stock ? stock.quantity : 0]. *)
Definition quantityOf (db : DB) (p : ObjectId) : Z :=
  default 0 (stocks db !! p).

(* ===================================================================== *)
(** ** Handlers as database transformers                                 *)
(* ===================================================================== *)

(** What [next(new AppError(message, statusCode))] reports. *)
Inductive Failure :=
| RequiredFields
| InvalidAdjustmentType
| QuantityNotPositive
| ProductNotFound (id : ObjectId)
| ProductNotAvailable (id : ObjectId)
| InsufficientStock (current requested : Z)
| SaleNeedsItems
| VoidReasonRequired
| SaleNotFound
| SaleAlreadyVoided
| ReturnReasonRequired
| OriginalSaleNotFound
| ReturnFromVoidedSale
| SaleItemNotFound (saleItemId : ObjectId)
| ReturnMoreThanPurchased (purchased requested : Z)
| NewItemsRequired
| InsufficientPayment (due paid : Q)
| RepairNotFound
| NotAssigned
| CannotComplete (status : RepairStatus)
| CancelReasonRequired
| CannotCancelCompleted
| IssueRequired
| WarrantyNotFound
| CannotCreateClaim
| ReplacementNotFound
| InsufficientReplacementStock (available : Z).

Inductive Error :=
| AppError (what : Failure) (statusCode : Z)
| ValidationError (model : string)       (* thrown by [create] and [save] *)
| TypeError.                             (* a property read on [null] *)

Inductive Result (A : Type) :=
| Ok (a : A)
| Err (e : Error).
Arguments Ok {A} a.
Arguments Err {A} e.

(** A handler step: the database after it, and its outcome.  A failure
    keeps the database as the step left it: nothing is rolled back. *)
Definition M (A : Type) : Type := DB -> DB * Result A.

Definition ret {A} (a : A) : M A := fun db => (db, Ok a).

Definition throw {A} (e : Error) : M A := fun db => (db, Err e).

Definition bind {A B} (m : M A) (f : A -> M B) : M B :=
  fun db =>
    match m db with
    | (db', Ok a) => f a db'
    | (db', Err e) => (db', Err e)
    end.

Notation "'do' x <- c1 ; c2" := (bind c1 (fun x => c2))
  (at level 10, x name, c1 at level 100, c2 at level 200).
Notation "'exec' c1 ; c2" := (bind c1 (fun _ => c2))
  (at level 10, c1 at level 100, c2 at level 200).

Definition gets {A} (f : DB -> A) : M A := fun db => (db, Ok (f db)).

Definition lift {A} (r : Result A) : M A := fun db => (db, r).

(** A read-only step that may fail. *)
Definition attempt {A} (f : DB -> Result A) : M A := fun db => (db, f db).

(** [for (const x of l) { await f(x) }] *)
Fixpoint forEach {A} (f : A -> M unit) (l : list A) : M unit :=
  match l with
  | [] => ret tt
  | x :: l' => exec f x; forEach f l'
  end.

(** A loop body run [n] times. *)
Fixpoint times (n : nat) (m : M unit) : M unit :=
  match n with
  | O => ret tt
  | S n' => exec m; times n' m
  end.

(** The request context: the authenticated user, the clock, and the
    business numbers the [generate...Number] statics derive from the clock
    and the day's documents. *)
Record Ctx := {
  userId : ObjectId;
  now : Z;
  addMonths : Z -> Z -> Z;      (* [d.setMonth(d.getMonth() + n)] *)
  saleNumber : string;
  returnNumber : string;
  jobNumber : string;
  claimNumber : string;
  warrantyNumber : nat -> string   (* by the number of warranties on file *)
}.

(** *** Collection primitives *)

Definition Product_findById (id : ObjectId) : M (option Product) :=
  gets (fun db => products db !! id).

(** [Stock.findOne({ product })]: the quantity of the record, if any. *)
Definition Stock_findOne (product : ObjectId) : M (option Z) :=
  gets (fun db => stocks db !! product).

(** [stockSchema.statics.getOrCreate] *)
Definition Stock_getOrCreate (product : ObjectId) : M Z :=
  fun db =>
    match stocks db !! product with
    | Some q => (db, Ok q)
    | None => (withStocks db (<[product := 0]> (stocks db)), Ok 0)
    end.

(** [stock.quantity = q; await stock.save()]: the schema refuses a negative
    quantity ([min: 0]). *)
Definition Stock_save (product : ObjectId) (q : Z) : M unit :=
  fun db =>
    if q <? 0 then (db, Err (ValidationError "Stock"))
    else (withStocks db (<[product := q]> (stocks db)), Ok tt).

Definition StockAdjustment_create (a : StockAdjustment) : M unit :=
  fun db =>
    if validStockAdjustment a
    then (withAdjustments db (adjustments db ++ [a]), Ok tt)
    else (db, Err (ValidationError "StockAdjustment")).

(** [Sale.create]: the new document's id. *)
Definition Sale_create (s : Sale) : M ObjectId :=
  fun db =>
    if validSale s
    then (withSales db (sales db ++ [s]), Ok (length (sales db)))
    else (db, Err (ValidationError "Sale")).

Definition Sale_findById (id : ObjectId) : M (option Sale) :=
  gets (fun db => sales db !! id).

(** [sale.save()]: the document is validated again. *)
Definition Sale_save (id : ObjectId) (s : Sale) : M unit :=
  fun db =>
    if validSale s
    then (withSales db (<[id := s]> (sales db)), Ok tt)
    else (db, Err (ValidationError "Sale")).

Definition Return_create (r : Return) : M ObjectId :=
  fun db =>
    if validReturn r
    then (withReturns db (returns db ++ [r]), Ok (length (returns db)))
    else (db, Err (ValidationError "Return")).

Definition RepairJob_findById (id : ObjectId) : M (option RepairJob) :=
  gets (fun db => repairs db !! id).

Definition RepairJob_create (r : RepairJob) : M ObjectId :=
  fun db =>
    if validRepairJob r
    then (withRepairs db (repairs db ++ [repairPreSave r]), Ok (length (repairs db)))
    else (db, Err (ValidationError "RepairJob")).

Definition RepairJob_save (id : ObjectId) (r : RepairJob) : M unit :=
  fun db =>
    if validRepairJob r
    then (withRepairs db (<[id := repairPreSave r]> (repairs db)), Ok tt)
    else (db, Err (ValidationError "RepairJob")).

Definition Warranty_findById (id : ObjectId) : M (option Warranty) :=
  gets (fun db => warranties db !! id).

Definition Warranty_create (now : Z) (w : Warranty) : M ObjectId :=
  fun db =>
    if validWarranty w
    then (withWarranties db (warranties db ++ [warrantyPreSave now w]),
          Ok (length (warranties db)))
    else (db, Err (ValidationError "Warranty")).

Definition Warranty_save (now : Z) (id : ObjectId) (w : Warranty) : M unit :=
  fun db =>
    if validWarranty w
    then (withWarranties db (<[id := warrantyPreSave now w]> (warranties db)), Ok tt)
    else (db, Err (ValidationError "Warranty")).

(** [Warranty.updateMany({ sale, product, status: ACTIVE }, { $set: { status:
    VOID, voidedBy, voidedAt, voidReason } })]: no validation, no hook. *)
Definition voidWarrantiesOf (sale product voidedBy : ObjectId) (voidReason : string)
    : M unit :=
  fun db =>
    (withWarranties db
       (List.map
          (fun w =>
             match w_sale w, w_status w with
             | Some s, ACTIVE =>
                 if (Nat.eqb s sale && Nat.eqb (w_product w) product)%bool then
                   {| w_warrantyNumber := w_warrantyNumber w;
                      w_sourceType := w_sourceType w;
                      w_sale := w_sale w; w_product := w_product w;
                      w_productName := w_productName w;
                      w_serialNumber := w_serialNumber w;
                      w_customer := w_customer w;
                      w_warrantyType := w_warrantyType w;
                      w_durationMonths := w_durationMonths w;
                      w_endDate := w_endDate w;
                      w_status := VOID; w_claims := w_claims w;
                      w_voidedBy := Some voidedBy;
                      w_voidReason := Some voidReason;
                      w_createdBy := w_createdBy w |}
                 else w
             | _, _ => w
             end)
          (warranties db)),
     Ok tt).

(* ===================================================================== *)
(** ** controllers/inventory: adjustStock                                *)
(* ===================================================================== *)

Record AdjustStockBody := {
  as_productId : option ObjectId;
  as_type : option string;
  as_quantity : option Z;
  as_reason : option string;
  as_reference : option string;
  as_referenceType : option string
}.

(** What the 201 response reports under [data.stock]. *)
Record StockChange := {
  previousQuantity : Z;
  newQuantity : Z
}.

Definition adjustStock (ctx : Ctx) (body : AdjustStockBody) : M StockChange :=
  match as_productId body, as_type body, as_quantity body with
  | Some productId, Some type, Some quantity =>
      if (String.eqb type "" || Z.eqb quantity 0)%bool
      then throw (AppError RequiredFields 400)
      else if negb (includes (values ADJUSTMENT_TYPES) type)
      then throw (AppError InvalidAdjustmentType 400)
      else if quantity <=? 0
      then throw (AppError QuantityNotPositive 400)
      else
        do product <- Product_findById productId;
        match product with
        | None => throw (AppError (ProductNotFound productId) 404)
        | Some _ =>
            do previousQuantity <- Stock_getOrCreate productId;
            let isAddition :=
              includes ["ADDITION"; "PURCHASE"; "RETURN"; "TRANSFER_IN"; "CORRECTION"]
                       type in
            let newQuantity :=
              if String.eqb type "CORRECTION"
              then (if isAddition then previousQuantity + quantity
                    else previousQuantity - quantity)
              else (if isAddition then previousQuantity + quantity
                    else previousQuantity - quantity) in
            if newQuantity <? 0
            then throw (AppError (InsufficientStock previousQuantity quantity) 400)
            else
              exec Stock_save productId newQuantity;
              exec StockAdjustment_create
                {| sa_product := productId;
                   sa_type := Some type;
                   sa_quantity := quantity;
                   sa_previousQuantity := previousQuantity;
                   sa_newQuantity := newQuantity;
                   sa_reason := as_reason body;
                   sa_reference := as_reference body;
                   sa_referenceType := Some (orS (as_referenceType body) "Manual");
                   sa_createdBy := userId ctx |};
              ret {| previousQuantity := previousQuantity;
                     newQuantity := newQuantity |}
        end
  | _, _, _ => throw (AppError RequiredFields 400)
  end.

(** [direction] as [getAdjustmentTypes] reports it for a type. *)
Definition reportedDirection (value : string) : string :=
  if includes ["ADDITION"; "PURCHASE"; "RETURN"; "TRANSFER_IN"] value
  then "IN" else "OUT".

(* ===================================================================== *)
(** ** controllers/sale: createSale, voidSale                            *)
(* ===================================================================== *)

Record SaleItemInput := {
  i_productId : ObjectId;
  i_quantity : Z;
  i_unitPrice : option Q;
  i_discount : option Q;
  i_serialNumber : option string
}.

Record PaymentInput := {
  pi_method : option string;
  pi_amount : Q;
  pi_reference : option string
}.

Record CreateSaleBody := {
  cs_items : list SaleItemInput;
  cs_payments : option (list PaymentInput);
  cs_discountType : option string;
  cs_discountValue : option Q;
  cs_customer : option Customer;
  cs_notes : option string
}.

(** The running totals of the first loop of [createSale]. *)
Record Processed := {
  processedItems : list SaleItem;
  subtotal : Q;
  taxTotal : Q
}.

(** The first loop of [createSale]: every line is checked against the
    stock on file and priced.  It reads the database and writes nothing. *)
Fixpoint processItems (db : DB) (items : list SaleItemInput) (acc : Processed)
    : Result Processed :=
  match items with
  | [] => Ok acc
  | item :: rest =>
      match products db !! i_productId item with
      | None => Err (AppError (ProductNotFound (i_productId item)) 404)
      | Some product =>
          if negb (p_isActive product)
          then Err (AppError (ProductNotAvailable (i_productId item)) 400)
          else
            let currentQty := quantityOf db (i_productId item) in
            if currentQty <? i_quantity item
            then Err (AppError (InsufficientStock currentQty (i_quantity item)) 400)
            else
              let unitPrice := orQ (i_unitPrice item) (p_sellingPrice product) in
              let quantity := i_quantity item in
              let taxRate := p_taxRate product in
              let itemDiscount := orQ (i_discount item) 0 in
              let itemSubtotal := (unitPrice * inject_Z quantity)%Q in
              let taxAmount := ((itemSubtotal - itemDiscount) * (taxRate / 100))%Q in
              let itemTotal := (itemSubtotal - itemDiscount + taxAmount)%Q in
              processItems db rest
                {| processedItems :=
                     processedItems acc ++
                     [ {| si_product := i_productId item;
                          si_productName := p_name product;
                          si_sku := p_sku product;
                          si_serialNumber := orNull (i_serialNumber item);
                          si_quantity := quantity;
                          si_unitPrice := unitPrice;
                          si_discount := itemDiscount;
                          si_total := round2 itemTotal |} ];
                   subtotal := (subtotal acc + itemSubtotal)%Q;
                   taxTotal := (taxTotal acc + taxAmount)%Q |}
      end
  end.

(** The payments loop, shared by [createSale] and [createExchange]:
    payments with a positive amount are kept and summed. *)
Fixpoint processPayments (payments : list PaymentInput)
    (acc : list Payment * Q) : list Payment * Q :=
  match payments with
  | [] => acc
  | payment :: rest =>
      if Qlt_bool 0 (pi_amount payment)
      then processPayments rest
             (fst acc ++ [ {| pay_method := orS (pi_method payment) "CASH";
                              pay_amount := pi_amount payment;
                              pay_reference := orNull (pi_reference payment) |} ],
              (snd acc + pi_amount payment)%Q)
      else processPayments rest acc
  end.

(** One turn of the inventory loop of [createSale]. *)
Definition deductItem (ctx : Ctx) (saleId : ObjectId) (item : SaleItem) : M unit :=
  do previousQuantity <- Stock_getOrCreate (si_product item);
  let newQuantity := previousQuantity - si_quantity item in
  exec Stock_save (si_product item) newQuantity;
  StockAdjustment_create
    {| sa_product := si_product item;
       sa_type := prop ADJUSTMENT_TYPES "SALE";
       sa_quantity := si_quantity item;
       sa_previousQuantity := previousQuantity;
       sa_newQuantity := newQuantity;
       sa_reason := Some ("Sale: " +:+ saleNumber ctx);
       sa_reference := Some (toString saleId);
       sa_referenceType := Some "Sale";
       sa_createdBy := userId ctx |}.

(** One turn of the warranty loop of [createSale]: a warranty per unit sold
    of a product that carries one. *)
Definition issueWarranties (ctx : Ctx) (saleId : ObjectId) (customer : Customer)
    (name phone : string) (item : SaleItem) : M unit :=
  do product <- Product_findById (si_product item);
  match product with
  | Some product =>
      if 0 <? p_warrantyDuration product then
        times (Z.to_nat (si_quantity item))
          (do n <- gets (fun db => length (warranties db));
           exec Warranty_create (now ctx)
             {| w_warrantyNumber := warrantyNumber ctx n;
                w_sourceType := "SALE";
                w_sale := Some saleId;
                w_product := si_product item;
                w_productName := p_name product;
                w_serialNumber := si_serialNumber item;
                w_customer := {| c_name := Some name; c_phone := Some phone;
                                 c_email := orNull (c_email customer) |};
                w_warrantyType :=
                  if String.eqb (p_warrantyType product) "" then "SHOP"
                  else p_warrantyType product;
                w_durationMonths := p_warrantyDuration product;
                w_endDate := addMonths ctx (now ctx) (p_warrantyDuration product);
                w_status := ACTIVE;
                w_claims := [];
                w_voidedBy := None;
                w_voidReason := None;
                w_createdBy := userId ctx |};
           ret tt)
      else ret tt
  | None => ret tt
  end.

Definition createSale (ctx : Ctx) (body : CreateSaleBody) : M ObjectId :=
  match cs_items body with
  | [] => throw (AppError SaleNeedsItems 400)
  | items =>
      do processed <-
        attempt (fun db => processItems db items
                             {| processedItems := []; subtotal := 0; taxTotal := 0 |});
      let subtotal := subtotal processed in
      let taxTotal := taxTotal processed in
      let discountValue := cs_discountValue body in
      let discountTotal :=
        if (truthyS (cs_discountType body) && Qlt_bool 0 (default 0%Q discountValue))%bool
        then
          if strictEq (cs_discountType body) (prop DISCOUNT_TYPES "PERCENTAGE")
          then (subtotal * default 0%Q discountValue / 100)%Q
          else if strictEq (cs_discountType body) (prop DISCOUNT_TYPES "FIXED")
          then default 0%Q discountValue
          else 0%Q
        else 0%Q in
      let grandTotal := round2 (subtotal - discountTotal + taxTotal) in
      let paid := processPayments (default [] (cs_payments body)) ([], 0%Q) in
      let amountPaid := snd paid in
      let changeGiven := Qmax 0 (amountPaid - grandTotal) in
      do saleId <- Sale_create
        {| s_saleNumber := saleNumber ctx;
           s_customer :=
             option_map
               (fun c => {| c_name := orNull (c_name c); c_phone := orNull (c_phone c);
                            c_email := orNull (c_email c) |})
               (cs_customer body);
           s_items := processedItems processed;
           s_payments := fst paid;
           s_subtotal := round2 subtotal;
           s_discountType := orNull (cs_discountType body);
           s_discountValue := orQ discountValue 0;
           s_discountTotal := round2 discountTotal;
           s_grandTotal := grandTotal;
           s_amountPaid := amountPaid;
           s_changeGiven := round2 changeGiven;
           s_status := SALE_COMPLETED;
           s_notes := cs_notes body;
           s_createdBy := userId ctx;
           s_voidedBy := None;
           s_voidReason := None |};
      exec forEach (deductItem ctx saleId) (processedItems processed);
      exec match cs_customer body with
           | Some customer =>
               if (truthyS (c_phone customer) && truthyS (c_name customer))%bool
               then forEach
                      (issueWarranties ctx saleId customer
                         (default "" (c_name customer)) (default "" (c_phone customer)))
                      (processedItems processed)
               else ret tt
           | None => ret tt
           end;
      ret saleId
  end.

(** One turn of the inventory loop of [voidSale]. *)
Definition restoreItem (ctx : Ctx) (saleId : ObjectId) (sale : Sale) (reason : string)
    (item : SaleItem) : M unit :=
  do previousQuantity <- Stock_getOrCreate (si_product item);
  let newQuantity := previousQuantity + si_quantity item in
  exec Stock_save (si_product item) newQuantity;
  StockAdjustment_create
    {| sa_product := si_product item;
       sa_type := prop ADJUSTMENT_TYPES "RETURN";
       sa_quantity := si_quantity item;
       sa_previousQuantity := previousQuantity;
       sa_newQuantity := newQuantity;
       sa_reason := Some ("Void Sale: " +:+ s_saleNumber sale +:+ " - " +:+ reason);
       sa_reference := Some (toString saleId);
       sa_referenceType := Some "Sale";
       sa_createdBy := userId ctx |}.

Definition voided (ctx : Ctx) (sale : Sale) (reason : string) : Sale :=
  {| s_saleNumber := s_saleNumber sale;
     s_customer := s_customer sale;
     s_items := s_items sale;
     s_payments := s_payments sale;
     s_subtotal := s_subtotal sale;
     s_discountType := s_discountType sale;
     s_discountValue := s_discountValue sale;
     s_discountTotal := s_discountTotal sale;
     s_grandTotal := s_grandTotal sale;
     s_amountPaid := s_amountPaid sale;
     s_changeGiven := s_changeGiven sale;
     s_status := SALE_VOIDED;
     s_notes := s_notes sale;
     s_createdBy := s_createdBy sale;
     s_voidedBy := Some (userId ctx);
     s_voidReason := Some reason |}.

Definition voidSale (ctx : Ctx) (saleId : ObjectId) (reason : option string)
    : M Sale :=
  if negb (truthyS reason) then throw (AppError VoidReasonRequired 400)
  else
    let reason := default "" reason in
    do sale <- Sale_findById saleId;
    match sale with
    | None => throw (AppError SaleNotFound 404)
    | Some sale =>
        match s_status sale with
        | SALE_VOIDED => throw (AppError SaleAlreadyVoided 400)
        | _ =>
            exec forEach (restoreItem ctx saleId sale reason) (s_items sale);
            exec Sale_save saleId (voided ctx sale reason);
            ret (voided ctx sale reason)
        end
    end.

(* ===================================================================== *)
(** ** controllers/sale/returnController.js: createReturn, createExchange *)
(* ===================================================================== *)

Record ReturnItemInput := {
  rin_saleItemId : ObjectId;
  rin_quantity : option Z
}.

Record CreateReturnBody := {
  cr_originalSaleId : option ObjectId;
  cr_items : list ReturnItemInput;
  cr_reason : option string;
  cr_refundMethod : option string;
  cr_notes : option string
}.

(** The running state of the return loop. *)
Record Returned := {
  returnedItems : list ReturnItem;
  totalRefund : Q                  (* the sum of the unrounded item refunds *)
}.

(** [const itemRefund = (saleItem.unitPrice * returnQty) - (saleItem.discount || 0)] *)
Definition itemRefund (saleItem : SaleItem) (returnQty : Z) : Q :=
  (si_unitPrice saleItem * inject_Z returnQty - si_discount saleItem)%Q.

(** The refund as the specification words it, for comparison with
    [itemRefund]: the unit price times the returned quantity, minus the
    per-unit share of the line's discount for the returned quantity. *)
Definition proRatedRefund (saleItem : SaleItem) (returnQty : Z) : Q :=
  (si_unitPrice saleItem * inject_Z returnQty
   - si_discount saleItem / inject_Z (si_quantity saleItem) * inject_Z returnQty)%Q.

(** The unrounded refund of one requested return line, 0 when the line does
    not exist. *)
Definition refundOf (originalSale : Sale) (item : ReturnItemInput) : Q :=
  match s_items originalSale !! rin_saleItemId item with
  | Some saleItem => itemRefund saleItem (orZ (rin_quantity item) (si_quantity saleItem))
  | None => 0
  end.

(** The return loop of [createReturn] and of [createExchange]. *)
Fixpoint processReturnItems (originalSale : Sale) (items : list ReturnItemInput)
    (acc : Returned) : Result Returned :=
  match items with
  | [] => Ok acc
  | item :: rest =>
      match s_items originalSale !! rin_saleItemId item with
      | None => Err (AppError (SaleItemNotFound (rin_saleItemId item)) 404)
      | Some saleItem =>
          let returnQty := orZ (rin_quantity item) (si_quantity saleItem) in
          if si_quantity saleItem <? returnQty
          then Err (AppError (ReturnMoreThanPurchased (si_quantity saleItem) returnQty) 400)
          else
            processReturnItems originalSale rest
              {| returnedItems :=
                   returnedItems acc ++
                   [ {| ri_product := si_product saleItem;
                        ri_productName := si_productName saleItem;
                        ri_sku := si_sku saleItem;
                        ri_serialNumber := si_serialNumber saleItem;
                        ri_quantity := returnQty;
                        ri_unitPrice := si_unitPrice saleItem;
                        ri_refundAmount := round2 (itemRefund saleItem returnQty) |} ];
                 totalRefund := (totalRefund acc + itemRefund saleItem returnQty)%Q |}
      end
  end.

(** One turn of the stock loop over the returned items: the stock is put
    back, the adjustment is recorded, and the ACTIVE warranties of the
    product from the original sale are voided. *)
Definition restoreReturned (ctx : Ctx) (returnId originalSaleId : ObjectId)
    (adjustmentReason voidReason : string) (item : ReturnItem) : M unit :=
  do previousQuantity <- Stock_getOrCreate (ri_product item);
  let newQuantity := previousQuantity + ri_quantity item in
  exec Stock_save (ri_product item) newQuantity;
  exec StockAdjustment_create
    {| sa_product := ri_product item;
       sa_type := prop ADJUSTMENT_TYPES "RETURN";
       sa_quantity := ri_quantity item;
       sa_previousQuantity := previousQuantity;
       sa_newQuantity := newQuantity;
       sa_reason := Some adjustmentReason;
       sa_reference := Some (toString returnId);
       sa_referenceType := Some "Sale";
       sa_createdBy := userId ctx |};
  voidWarrantiesOf originalSaleId (ri_product item) (userId ctx) voidReason.

Definition createReturn (ctx : Ctx) (body : CreateReturnBody) : M Return :=
  match cr_originalSaleId body, cr_items body with
  | None, _ | _, [] => throw (AppError RequiredFields 400)
  | Some originalSaleId, items =>
      if negb (truthyS (cr_reason body))
      then throw (AppError ReturnReasonRequired 400)
      else
        let reason := default "" (cr_reason body) in
        do originalSale <- Sale_findById originalSaleId;
        match originalSale with
        | None => throw (AppError OriginalSaleNotFound 404)
        | Some originalSale =>
            match s_status originalSale with
            | SALE_VOIDED => throw (AppError ReturnFromVoidedSale 400)
            | _ =>
                do processed <-
                  lift (processReturnItems originalSale items
                          {| returnedItems := []; totalRefund := 0 |});
                let returnRecord :=
                  {| rt_returnNumber := returnNumber ctx;
                     rt_originalSale := Some originalSaleId;
                     rt_returnType := prop RETURN_TYPES "REFUND";
                     rt_items := returnedItems processed;
                     rt_totalRefund := round2 (totalRefund processed);
                     rt_exchangeSale := None;
                     rt_exchangeAmountDue := 0;
                     rt_reason := Some reason;
                     rt_refundMethod := Some (orS (cr_refundMethod body) "CASH");
                     rt_status := prop RETURN_STATUS "COMPLETED";
                     rt_notes := cr_notes body;
                     rt_createdBy := userId ctx |} in
                do returnId <- Return_create returnRecord;
                exec forEach
                  (restoreReturned ctx returnId originalSaleId
                     ("Return: " +:+ returnNumber ctx +:+ " - " +:+ reason)
                     ("Product returned: " +:+ returnNumber ctx))
                  (returnedItems processed);
                ret returnRecord
            end
        end
  end.

Record NewItemInput := {
  n_productId : ObjectId;
  n_quantity : Z;
  n_unitPrice : option Q;
  n_serialNumber : option string
}.

Record CreateExchangeBody := {
  ce_originalSaleId : option ObjectId;
  ce_returnItems : list ReturnItemInput;
  ce_newItems : list NewItemInput;
  ce_payments : option (list PaymentInput);
  ce_reason : option string;
  ce_customer : option Customer;
  ce_notes : option string
}.

(** The running state of the new-items loop of [createExchange]. *)
Record Purchased := {
  processedNewItems : list SaleItem;
  newItemsTotal : Q                (* the sum of the unrounded line totals *)
}.

Fixpoint processNewItems (db : DB) (items : list NewItemInput) (acc : Purchased)
    : Result Purchased :=
  match items with
  | [] => Ok acc
  | item :: rest =>
      match products db !! n_productId item with
      | None => Err (AppError (ProductNotFound (n_productId item)) 404)
      | Some product =>
          if negb (p_isActive product)
          then Err (AppError (ProductNotAvailable (n_productId item)) 400)
          else
            let currentQty := quantityOf db (n_productId item) in
            if currentQty <? n_quantity item
            then Err (AppError (InsufficientStock currentQty (n_quantity item)) 400)
            else
              let unitPrice := orQ (n_unitPrice item) (p_sellingPrice product) in
              let quantity := n_quantity item in
              let taxRate := p_taxRate product in
              let itemSubtotal := (unitPrice * inject_Z quantity)%Q in
              let taxAmount := (itemSubtotal * (taxRate / 100))%Q in
              let itemTotal := (itemSubtotal + taxAmount)%Q in
              processNewItems db rest
                {| processedNewItems :=
                     processedNewItems acc ++
                     [ {| si_product := n_productId item;
                          si_productName := p_name product;
                          si_sku := p_sku product;
                          si_serialNumber := orNull (n_serialNumber item);
                          si_quantity := quantity;
                          si_unitPrice := unitPrice;
                          si_discount := 0;
                          si_total := round2 itemTotal |} ];
                   newItemsTotal := (newItemsTotal acc + itemTotal)%Q |}
      end
  end.

(** One turn of the stock loop over the new items of an exchange. *)
Definition deductNewItem (ctx : Ctx) (newSaleId : ObjectId) (item : SaleItem) : M unit :=
  do previousQuantity <- Stock_getOrCreate (si_product item);
  let newQuantity := previousQuantity - si_quantity item in
  exec Stock_save (si_product item) newQuantity;
  StockAdjustment_create
    {| sa_product := si_product item;
       sa_type := prop ADJUSTMENT_TYPES "SALE";
       sa_quantity := si_quantity item;
       sa_previousQuantity := previousQuantity;
       sa_newQuantity := newQuantity;
       sa_reason := Some ("Exchange Sale: " +:+ saleNumber ctx);
       sa_reference := Some (toString newSaleId);
       sa_referenceType := Some "Sale";
       sa_createdBy := userId ctx |}.

(** [const exchangeAmountDue = Math.round((newItemsTotal - totalRefund) * 100) / 100] *)
Definition exchangeAmountDue (newItemsTotal totalRefund : Q) : Q :=
  round2 (newItemsTotal - totalRefund).

Definition createExchange (ctx : Ctx) (body : CreateExchangeBody) : M Return :=
  match ce_originalSaleId body, ce_returnItems body with
  | None, _ | _, [] => throw (AppError RequiredFields 400)
  | Some originalSaleId, returnItems =>
      match ce_newItems body with
      | [] => throw (AppError NewItemsRequired 400)
      | newItems =>
          if negb (truthyS (ce_reason body))
          then throw (AppError ReturnReasonRequired 400)
          else
            let reason := default "" (ce_reason body) in
            do originalSale <- Sale_findById originalSaleId;
            match originalSale with
            | None => throw (AppError OriginalSaleNotFound 404)
            | Some originalSale =>
                match s_status originalSale with
                | SALE_VOIDED => throw (AppError ReturnFromVoidedSale 400)
                | _ =>
                    do returned <-
                      lift (processReturnItems originalSale returnItems
                              {| returnedItems := []; totalRefund := 0 |});
                    do purchased <-
                      attempt (fun db => processNewItems db newItems
                                           {| processedNewItems := [];
                                              newItemsTotal := 0 |});
                    let due :=
                      exchangeAmountDue (newItemsTotal purchased) (totalRefund returned) in
                    let paid :=
                      processPayments (default [] (ce_payments body)) ([], 0%Q) in
                    let amountPaid := snd paid in
                    if (Qlt_bool 0 due && Qlt_bool amountPaid due)%bool
                    then throw (AppError (InsufficientPayment due amountPaid) 400)
                    else
                      let changeGiven := Qmax 0 (amountPaid - Qmax 0 due) in
                      do newSaleId <- Sale_create
                        {| s_saleNumber := saleNumber ctx;
                           s_customer :=
                             match ce_customer body with
                             | Some c => Some c
                             | None => s_customer originalSale
                             end;
                           s_items := processedNewItems purchased;
                           s_payments := fst paid;
                           s_subtotal := round2 (newItemsTotal purchased);
                           s_discountType := None;
                           s_discountValue := 0;
                           s_discountTotal := 0;
                           s_grandTotal := round2 (newItemsTotal purchased);
                           s_amountPaid := amountPaid;
                           s_changeGiven := round2 changeGiven;
                           s_status := SALE_COMPLETED;
                           s_notes := Some ("Exchange from Return: " +:+ returnNumber ctx);
                           s_createdBy := userId ctx;
                           s_voidedBy := None;
                           s_voidReason := None |};
                      let returnRecord :=
                        {| rt_returnNumber := returnNumber ctx;
                           rt_originalSale := Some originalSaleId;
                           rt_returnType := prop RETURN_TYPES "EXCHANGE";
                           rt_items := returnedItems returned;
                           rt_totalRefund := round2 (totalRefund returned);
                           rt_exchangeSale := Some newSaleId;
                           rt_exchangeAmountDue := Qmax 0 due;
                           rt_reason := Some reason;
                           rt_refundMethod :=
                             if Qlt_bool due 0 then Some "CASH" else None;
                           rt_status := prop RETURN_STATUS "COMPLETED";
                           rt_notes := ce_notes body;
                           rt_createdBy := userId ctx |} in
                      do returnId <- Return_create returnRecord;
                      exec forEach
                        (restoreReturned ctx returnId originalSaleId
                           ("Exchange Return: " +:+ returnNumber ctx)
                           ("Product exchanged: " +:+ returnNumber ctx))
                        (returnedItems returned);
                      exec forEach (deductNewItem ctx newSaleId)
                        (processedNewItems purchased);
                      ret returnRecord
                end
            end
      end
  end.

(* ===================================================================== *)
(** ** controllers/repair/repairController.js: completeRepair, cancelRepair *)
(* ===================================================================== *)

Record PartInput := {
  pin_productId : ObjectId;
  pin_quantity : Z;
  pin_unitPrice : option Q
}.

Record CompleteRepairBody := {
  cp_laborCost : option Q;
  cp_partsUsed : option (list PartInput);
  cp_diagnosisNotes : option string;
  cp_repairNotes : option string
}.

(** The parts loop of [completeRepair]: each part is checked against the
    stock on file and deducted before the next one is looked at. *)
Fixpoint consumeParts (ctx : Ctx) (repairId : ObjectId) (repair : RepairJob)
    (parts : list PartInput) (processedParts : list Part) : M (list Part) :=
  match parts with
  | [] => ret processedParts
  | part :: rest =>
      do product <- Product_findById (pin_productId part);
      match product with
      | None => throw (AppError (ProductNotFound (pin_productId part)) 404)
      | Some product =>
          do stock <- Stock_findOne (pin_productId part);
          let currentQty := default 0 stock in
          if currentQty <? pin_quantity part
          then throw (AppError (InsufficientStock currentQty (pin_quantity part)) 400)
          else
            let unitPrice := orQ (pin_unitPrice part) (p_sellingPrice product) in
            let processedParts :=
              processedParts ++
              [ {| pt_product := pin_productId part;
                   pt_productName := p_name product;
                   pt_sku := p_sku product;
                   pt_quantity := pin_quantity part;
                   pt_unitPrice := unitPrice;
                   pt_total := (unitPrice * inject_Z (pin_quantity part))%Q |} ] in
            match stock with
            | None => throw TypeError          (* [stock.quantity] on [null] *)
            | Some previousQuantity =>
                let quantity := previousQuantity - pin_quantity part in
                exec Stock_save (pin_productId part) quantity;
                exec StockAdjustment_create
                  {| sa_product := pin_productId part;
                     sa_type := prop ADJUSTMENT_TYPES "SALE";
                     sa_quantity := pin_quantity part;
                     sa_previousQuantity := previousQuantity;
                     sa_newQuantity := quantity;
                     sa_reason := Some ("Repair: " +:+ rj_jobNumber repair);
                     sa_reference := Some (toString repairId);
                     sa_referenceType := Some "Sale";
                     sa_createdBy := userId ctx |};
                consumeParts ctx repairId repair rest processedParts
            end
      end
  end.

(** The repair as [completeRepair] hands it to [repair.save()]. *)
Definition completed (ctx : Ctx) (repair : RepairJob) (body : CompleteRepairBody)
    (processedParts : list Part) : RepairJob :=
  {| rj_jobNumber := rj_jobNumber repair;
     rj_status := READY;
     rj_priority := rj_priority repair;
     rj_customer := rj_customer repair;
     rj_device := rj_device repair;
     rj_problemDescription := rj_problemDescription repair;
     rj_diagnosisNotes :=
       if truthyS (cp_diagnosisNotes body) then cp_diagnosisNotes body
       else rj_diagnosisNotes repair;
     rj_repairNotes :=
       if truthyS (cp_repairNotes body) then cp_repairNotes body
       else rj_repairNotes repair;
     rj_assignedTo := rj_assignedTo repair;
     rj_partsUsed := processedParts;
     rj_laborCost := orQ (cp_laborCost body) 0;
     rj_partsTotal := rj_partsTotal repair;
     rj_totalCost := rj_totalCost repair;
     rj_estimatedCost := rj_estimatedCost repair;
     rj_advancePayment := rj_advancePayment repair;
     rj_finalPayment := rj_finalPayment repair;
     rj_paymentStatus := rj_paymentStatus repair;
     rj_createdBy := rj_createdBy repair;
     rj_completedBy := Some (userId ctx);
     rj_cancelledBy := rj_cancelledBy repair;
     rj_cancelReason := rj_cancelReason repair |}.

Definition completeRepair (ctx : Ctx) (repairId : ObjectId) (body : CompleteRepairBody)
    : M RepairJob :=
  do repair <- RepairJob_findById repairId;
  match repair with
  | None => throw (AppError RepairNotFound 404)
  | Some repair =>
      if negb (match rj_assignedTo repair with
               | Some t => Nat.eqb t (userId ctx)
               | None => false
               end)
      then throw (AppError NotAssigned 403)
      else
        match rj_status repair with
        | IN_PROGRESS | RECEIVED =>
            do processedParts <-
              consumeParts ctx repairId repair (default [] (cp_partsUsed body)) [];
            exec RepairJob_save repairId (completed ctx repair body processedParts);
            ret (repairPreSave (completed ctx repair body processedParts))
        | st => throw (AppError (CannotComplete st) 400)
        end
  end.

(** One turn of the inventory loop of [cancelRepair]. *)
Definition restorePart (ctx : Ctx) (repairId : ObjectId) (repair : RepairJob)
    (part : Part) : M unit :=
  do previousQuantity <- Stock_getOrCreate (pt_product part);
  let quantity := previousQuantity + pt_quantity part in
  exec Stock_save (pt_product part) quantity;
  StockAdjustment_create
    {| sa_product := pt_product part;
       sa_type := prop ADJUSTMENT_TYPES "RETURN";
       sa_quantity := pt_quantity part;
       sa_previousQuantity := previousQuantity;
       sa_newQuantity := quantity;
       sa_reason := Some ("Cancel Repair: " +:+ rj_jobNumber repair);
       sa_reference := Some (toString repairId);
       sa_referenceType := Some "Manual";
       sa_createdBy := userId ctx |}.

(** The repair as [cancelRepair] hands it to [repair.save()]. *)
Definition cancelled (ctx : Ctx) (repair : RepairJob) (reason : string) : RepairJob :=
  {| rj_jobNumber := rj_jobNumber repair;
     rj_status := CANCELLED;
     rj_priority := rj_priority repair;
     rj_customer := rj_customer repair;
     rj_device := rj_device repair;
     rj_problemDescription := rj_problemDescription repair;
     rj_diagnosisNotes := rj_diagnosisNotes repair;
     rj_repairNotes := rj_repairNotes repair;
     rj_assignedTo := rj_assignedTo repair;
     rj_partsUsed := rj_partsUsed repair;
     rj_laborCost := rj_laborCost repair;
     rj_partsTotal := rj_partsTotal repair;
     rj_totalCost := rj_totalCost repair;
     rj_estimatedCost := rj_estimatedCost repair;
     rj_advancePayment := rj_advancePayment repair;
     rj_finalPayment := rj_finalPayment repair;
     rj_paymentStatus := rj_paymentStatus repair;
     rj_createdBy := rj_createdBy repair;
     rj_completedBy := rj_completedBy repair;
     rj_cancelledBy := Some (userId ctx);
     rj_cancelReason := Some reason |}.

Definition cancelRepair (ctx : Ctx) (repairId : ObjectId) (reason : option string)
    : M RepairJob :=
  if negb (truthyS reason) then throw (AppError CancelReasonRequired 400)
  else
    let reason := default "" reason in
    do repair <- RepairJob_findById repairId;
    match repair with
    | None => throw (AppError RepairNotFound 404)
    | Some repair =>
        match rj_status repair with
        | COMPLETED => throw (AppError CannotCancelCompleted 400)
        | _ =>
            exec forEach (restorePart ctx repairId repair) (rj_partsUsed repair);
            exec RepairJob_save repairId (cancelled ctx repair reason);
            ret (repairPreSave (cancelled ctx repair reason))
        end
    end.

(* ===================================================================== *)
(** ** controllers/warranty: createClaim                                 *)
(* ===================================================================== *)

Record CreateClaimBody := {
  cc_issue : option string;
  cc_resolution : option string;
  cc_repairJobId : option ObjectId;
  cc_replacementProductId : option ObjectId;
  cc_notes : option string
}.

(** [warrantySchema.methods.checkValidity], its [valid] field. *)
Definition checkValidity (now : Z) (w : Warranty) : bool :=
  match w_status w with
  | VOID => false
  | _ => negb (w_endDate w <? now)
  end.

Definition withClaim (w : Warranty) (claim : Claim) : Warranty :=
  {| w_warrantyNumber := w_warrantyNumber w; w_sourceType := w_sourceType w;
     w_sale := w_sale w; w_product := w_product w;
     w_productName := w_productName w; w_serialNumber := w_serialNumber w;
     w_customer := w_customer w; w_warrantyType := w_warrantyType w;
     w_durationMonths := w_durationMonths w; w_endDate := w_endDate w;
     w_status := w_status w; w_claims := w_claims w ++ [claim];
     w_voidedBy := w_voidedBy w; w_voidReason := w_voidReason w;
     w_createdBy := w_createdBy w |}.

Definition voidedBy (ctx : Ctx) (w : Warranty) (reason : string) : Warranty :=
  {| w_warrantyNumber := w_warrantyNumber w; w_sourceType := w_sourceType w;
     w_sale := w_sale w; w_product := w_product w;
     w_productName := w_productName w; w_serialNumber := w_serialNumber w;
     w_customer := w_customer w; w_warrantyType := w_warrantyType w;
     w_durationMonths := w_durationMonths w; w_endDate := w_endDate w;
     w_status := VOID; w_claims := w_claims w;
     w_voidedBy := Some (userId ctx); w_voidReason := Some reason;
     w_createdBy := w_createdBy w |}.

(** The claim as [createClaim] initialises it. *)
Definition newClaim (ctx : Ctx) (issue : string) (body : CreateClaimBody) : Claim :=
  {| cl_claimNumber := claimNumber ctx;
     cl_issue := issue;
     cl_resolution := orNull (cc_resolution body);
     cl_notes := orNull (cc_notes body);
     cl_processedBy := userId ctx;
     cl_claimCost := 0;
     cl_refundAmount := 0;
     cl_repairJob := None;
     cl_replacementProduct := None;
     cl_returnRecord := None |}.

Definition withRepairJob (c : Claim) (id : ObjectId) : Claim :=
  {| cl_claimNumber := cl_claimNumber c; cl_issue := cl_issue c;
     cl_resolution := cl_resolution c; cl_notes := cl_notes c;
     cl_processedBy := cl_processedBy c; cl_claimCost := cl_claimCost c;
     cl_refundAmount := cl_refundAmount c; cl_repairJob := Some id;
     cl_replacementProduct := cl_replacementProduct c;
     cl_returnRecord := cl_returnRecord c |}.

Definition withReplacement (c : Claim) (cost : Q) (product : ObjectId) : Claim :=
  {| cl_claimNumber := cl_claimNumber c; cl_issue := cl_issue c;
     cl_resolution := cl_resolution c; cl_notes := cl_notes c;
     cl_processedBy := cl_processedBy c; cl_claimCost := cost;
     cl_refundAmount := cl_refundAmount c; cl_repairJob := cl_repairJob c;
     cl_replacementProduct := Some product;
     cl_returnRecord := cl_returnRecord c |}.

Definition withRefund (c : Claim) (refundAmount : Q) (returnId : ObjectId) : Claim :=
  {| cl_claimNumber := cl_claimNumber c; cl_issue := cl_issue c;
     cl_resolution := cl_resolution c; cl_notes := cl_notes c;
     cl_processedBy := cl_processedBy c; cl_claimCost := refundAmount;
     cl_refundAmount := refundAmount; cl_repairJob := cl_repairJob c;
     cl_replacementProduct := cl_replacementProduct c;
     cl_returnRecord := Some returnId |}.

(** The repair job the REPAIR branch opens; what the handler leaves out
    takes the schema's default. *)
Definition warrantyRepair (ctx : Ctx) (warranty : Warranty) (issue : string) : RepairJob :=
  {| rj_jobNumber := jobNumber ctx;
     rj_status := RECEIVED;
     rj_priority := Some "NORMAL";
     rj_customer :=
       {| c_name := c_name (w_customer warranty);
          c_phone := c_phone (w_customer warranty);
          c_email := orNull (c_email (w_customer warranty)) |};
     rj_device :=
       {| dv_type := prop DEVICE_TYPES "OTHER";
          dv_brand := Some "N/A";
          dv_model := Some (w_productName warranty);
          dv_serialNumber := orNull (w_serialNumber warranty);
          dv_condition := None |};
     rj_problemDescription := "Warranty Claim: " +:+ issue;
     rj_diagnosisNotes :=
       Some ("Warranty Claim: " +:+ claimNumber ctx
             +:+ String (Ascii.ascii_of_nat 10) "Original Warranty: "
             +:+ w_warrantyNumber warranty);
     rj_repairNotes := None;
     rj_assignedTo := None;
     rj_partsUsed := [];
     rj_laborCost := 0;
     rj_partsTotal := 0;
     rj_totalCost := 0;
     rj_estimatedCost := 0;
     rj_advancePayment := 0;
     rj_finalPayment := 0;
     rj_paymentStatus := prop PAYMENT_STATUS "PENDING";
     rj_createdBy := userId ctx;
     rj_completedBy := None;
     rj_cancelledBy := None;
     rj_cancelReason := None |}.

(** The REPAIR branch: link the given repair job or open a new one. *)
Definition claimRepair (ctx : Ctx) (warranty : Warranty) (issue : string)
    (body : CreateClaimBody) (claim : Claim) : M (Warranty * Claim) :=
  match cc_repairJobId body with
  | Some repairJobId =>
      do existingRepair <- RepairJob_findById repairJobId;
      match existingRepair with
      | None => throw (AppError RepairNotFound 404)
      | Some _ => ret (warranty, withRepairJob claim repairJobId)
      end
  | None =>
      do repairJobId <- RepairJob_create (warrantyRepair ctx warranty issue);
      ret (warranty, withRepairJob claim repairJobId)
  end.

(** The REPLACE branch: one unit of the replacement product leaves the
    stock. *)
Definition claimReplace (ctx : Ctx) (warrantyId : ObjectId) (warranty : Warranty)
    (body : CreateClaimBody) (claim : Claim) : M (Warranty * Claim) :=
  let productId := default (w_product warranty) (cc_replacementProductId body) in
  do productToReplace <- Product_findById productId;
  match productToReplace with
  | None => throw (AppError ReplacementNotFound 404)
  | Some productToReplace =>
      do previousQuantity <- Stock_getOrCreate productId;
      if previousQuantity <? 1
      then throw (AppError (InsufficientReplacementStock previousQuantity) 400)
      else
        let quantity := previousQuantity - 1 in
        exec Stock_save productId quantity;
        exec StockAdjustment_create
          {| sa_product := productId;
             sa_type := prop ADJUSTMENT_TYPES "WARRANTY_REPLACE";
             sa_quantity := 1;
             sa_previousQuantity := previousQuantity;
             sa_newQuantity := quantity;
             sa_reason :=
               Some ("Warranty Replacement: " +:+ claimNumber ctx +:+ " - "
                     +:+ w_warrantyNumber warranty);
             sa_reference := Some (toString warrantyId);
             sa_referenceType := Some "Manual";
             sa_createdBy := userId ctx |};
        ret (warranty, withReplacement claim (p_costPrice productToReplace) productId)
  end.

(** [refundAmount] of the REFUND branch: the total of the first line of the
    original sale that sold the product, else the current selling price. *)
Definition refundAmountOf (db : DB) (warranty : Warranty) (product : Product) : Q :=
  match w_sale warranty with
  | Some saleId =>
      match sales db !! saleId with
      | Some originalSale =>
          match List.find (fun item => Nat.eqb (si_product item) (w_product warranty))
                          (s_items originalSale) with
          | Some saleItem => si_total saleItem
          | None => p_sellingPrice product
          end
      | None => p_sellingPrice product
      end
  | None => p_sellingPrice product
  end.

(** The REFUND branch: a return record is created and the warranty voided. *)
Definition claimRefund (ctx : Ctx) (warranty : Warranty) (issue : string)
    (claim : Claim) : M (Warranty * Claim) :=
  do product <- Product_findById (w_product warranty);
  match product with
  | None => throw TypeError           (* [warranty.product] is [null] *)
  | Some product =>
      do refundAmount <- gets (fun db => refundAmountOf db warranty product);
      do populatedSale <-
        gets (fun db => match w_sale warranty with
                        | Some saleId =>
                            match sales db !! saleId with
                            | Some _ => Some saleId
                            | None => None
                            end
                        | None => None
                        end);
      do returnId <- Return_create
        {| rt_returnNumber := returnNumber ctx;
           rt_originalSale := populatedSale;
           rt_returnType := prop RETURN_TYPES "WARRANTY_REFUND";
           rt_items :=
             [ {| ri_product := w_product warranty;
                  ri_productName := w_productName warranty;
                  ri_sku := orNull (p_sku product);
                  ri_serialNumber := orNull (w_serialNumber warranty);
                  ri_quantity := 1;
                  ri_unitPrice := refundAmount;
                  ri_refundAmount := refundAmount |} ];
           rt_totalRefund := refundAmount;
           rt_exchangeSale := None;
           rt_exchangeAmountDue := 0;
           rt_reason :=
             Some ("Warranty Refund: " +:+ claimNumber ctx +:+ " - " +:+ issue);
           rt_refundMethod := Some "CASH";
           rt_status := prop RETURN_STATUS "COMPLETED";
           rt_notes :=
             Some ("Warranty Claim Refund" +:+ String (Ascii.ascii_of_nat 10) "Warranty: "
                   +:+ w_warrantyNumber warranty
                   +:+ String (Ascii.ascii_of_nat 10) "Claim: " +:+ claimNumber ctx);
           rt_createdBy := userId ctx |};
      ret (voidedBy ctx warranty ("Refunded via claim: " +:+ claimNumber ctx),
           withRefund claim refundAmount returnId)
  end.

Definition createClaim (ctx : Ctx) (warrantyId : ObjectId) (body : CreateClaimBody)
    : M Warranty :=
  if negb (truthyS (cc_issue body)) then throw (AppError IssueRequired 400)
  else
    let issue := default "" (cc_issue body) in
    do warranty <- Warranty_findById warrantyId;
    match warranty with
    | None => throw (AppError WarrantyNotFound 404)
    | Some warranty =>
        if negb (checkValidity (now ctx) warranty)
        then throw (AppError CannotCreateClaim 400)
        else
          let claim := newClaim ctx issue body in
          let resolution := cc_resolution body in
          do resolved <-
            (if strictEq resolution (prop CLAIM_RESOLUTIONS "REPAIR")
             then claimRepair ctx warranty issue body claim
             else if strictEq resolution (prop CLAIM_RESOLUTIONS "REPLACE")
             then claimReplace ctx warrantyId warranty body claim
             else if strictEq resolution (prop CLAIM_RESOLUTIONS "REFUND")
             then claimRefund ctx warranty issue claim
             else ret (warranty, claim));
          let warranty := withClaim (fst resolved) (snd resolved) in
          let warranty :=
            match w_status warranty with
            | ACTIVE => withStatus warranty CLAIMED
            | _ => warranty
            end in
          exec Warranty_save (now ctx) warrantyId warranty;
          ret (warrantyPreSave (now ctx) warranty)
    end.

(* ===================================================================== *)
(** ** models/inventory/stockModel.js: getLowStock                       *)
(* ===================================================================== *)

(** [Array.prototype.sort(compare)]: the sort is stable, so the result is
    the one of a stable insertion sort. *)
Fixpoint insertSorted {A} (compare : A -> A -> Z) (x : A) (l : list A) : list A :=
  match l with
  | [] => [x]
  | y :: l' =>
      if compare x y <=? 0 then x :: l else y :: insertSorted compare x l'
  end.

Definition sortBy {A} (compare : A -> A -> Z) (l : list A) : list A :=
  List.fold_right (insertSorted compare) [] l.

(** A product document as [getLowStock] reads it: [isActive] for the query,
    [_id], [name] and [minStockLevel] for the report. *)
Record ProductLevel := {
  pl_id : ObjectId;
  pl_name : string;
  pl_minStockLevel : Z;
  pl_isActive : bool
}.

Record LowStockItem := {
  ls_product : ObjectId;
  ls_name : string;
  currentQuantity : Z;
  minStockLevel : Z;
  shortfall : Z
}.

Definition lowStockItem (db : DB) (product : ProductLevel) : LowStockItem :=
  let currentQty := quantityOf db (pl_id product) in
  {| ls_product := pl_id product;
     ls_name := pl_name product;
     currentQuantity := currentQty;
     minStockLevel := pl_minStockLevel product;
     shortfall := pl_minStockLevel product - currentQty |}.

(** [stockSchema.statics.getLowStock], over the product documents on file. *)
Definition getLowStock (catalogue : list ProductLevel) (db : DB) : list LowStockItem :=
  let products := List.filter pl_isActive catalogue in
  let lowStockItems :=
    List.fold_left
      (fun lowStockItems product =>
         let currentQty := quantityOf db (pl_id product) in
         if currentQty <=? pl_minStockLevel product
         then lowStockItems ++ [lowStockItem db product]
         else lowStockItems)
      products [] in
  sortBy (fun a b => shortfall b - shortfall a) lowStockItems.

(* ===================================================================== *)
(** ** controllers/inventory: getAdjustmentTypes                         *)
(* ===================================================================== *)

Record AdjustmentType := {
  at_key : string;
  at_value : string;
  at_direction : string
}.

(** [Object.entries(ADJUSTMENT_TYPES).map(([key, value]) => ...)] *)
Definition getAdjustmentTypes : list AdjustmentType :=
  List.map
    (fun kv => {| at_key := fst kv; at_value := snd kv;
                  at_direction := reportedDirection (snd kv) |})
    ADJUSTMENT_TYPES.

(* ===================================================================== *)
(** ** Handlers that answer with a refusal of their own                  *)
(* ===================================================================== *)

(** The refusals of the handlers below that [Failure] does not list. *)
Inductive Refusal :=
| CannotStart (status : RepairStatus)
| PaymentAmountRequired
| CannotCollectPayment (status : RepairStatus)
| WarrantyAlreadyVoided
| ClaimNotFound.

(** What such a handler answers: [return next(new AppError(...))] ends the
    handler with the refusal, where a failed write throws. *)
Inductive Answer (A : Type) :=
| Done (a : A)
| Refused (what : Failure + Refusal) (statusCode : Z).
Arguments Done {A} a.
Arguments Refused {A} what statusCode.

(** *** controllers/repair/repairController.js: startRepair, collectPayment *)

Definition withRepairStatus (repair : RepairJob) (status : RepairStatus) : RepairJob :=
  {| rj_jobNumber := rj_jobNumber repair;
     rj_status := status;
     rj_priority := rj_priority repair;
     rj_customer := rj_customer repair;
     rj_device := rj_device repair;
     rj_problemDescription := rj_problemDescription repair;
     rj_diagnosisNotes := rj_diagnosisNotes repair;
     rj_repairNotes := rj_repairNotes repair;
     rj_assignedTo := rj_assignedTo repair;
     rj_partsUsed := rj_partsUsed repair;
     rj_laborCost := rj_laborCost repair;
     rj_partsTotal := rj_partsTotal repair;
     rj_totalCost := rj_totalCost repair;
     rj_estimatedCost := rj_estimatedCost repair;
     rj_advancePayment := rj_advancePayment repair;
     rj_finalPayment := rj_finalPayment repair;
     rj_paymentStatus := rj_paymentStatus repair;
     rj_createdBy := rj_createdBy repair;
     rj_completedBy := rj_completedBy repair;
     rj_cancelledBy := rj_cancelledBy repair;
     rj_cancelReason := rj_cancelReason repair |}.

Definition startRepair (ctx : Ctx) (repairId : ObjectId) : M (Answer RepairJob) :=
  do repair <- RepairJob_findById repairId;
  match repair with
  | None => ret (Refused (inl RepairNotFound) 404)
  | Some repair =>
      if negb (match rj_assignedTo repair with
               | Some t => Nat.eqb t (userId ctx)
               | None => false
               end)
      then ret (Refused (inl NotAssigned) 403)
      else
        match rj_status repair with
        | RECEIVED =>
            exec RepairJob_save repairId (withRepairStatus repair IN_PROGRESS);
            ret (Done (repairPreSave (withRepairStatus repair IN_PROGRESS)))
        | st => ret (Refused (inr (CannotStart st)) 400)
        end
  end.

(** [paymentBreakdown] of the response of [collectPayment]. *)
Record PaymentBreakdown := {
  pb_totalCost : Q;
  pb_advancePaid : Q;
  pb_balanceDue : Q;
  pb_amountReceived : Q;
  pb_change : Q
}.

(** The repair as [collectPayment] hands it to [repair.save()]. *)
Definition paidRepair (repair : RepairJob) (amount : Q) : RepairJob :=
  {| rj_jobNumber := rj_jobNumber repair;
     rj_status := COMPLETED;
     rj_priority := rj_priority repair;
     rj_customer := rj_customer repair;
     rj_device := rj_device repair;
     rj_problemDescription := rj_problemDescription repair;
     rj_diagnosisNotes := rj_diagnosisNotes repair;
     rj_repairNotes := rj_repairNotes repair;
     rj_assignedTo := rj_assignedTo repair;
     rj_partsUsed := rj_partsUsed repair;
     rj_laborCost := rj_laborCost repair;
     rj_partsTotal := rj_partsTotal repair;
     rj_totalCost := rj_totalCost repair;
     rj_estimatedCost := rj_estimatedCost repair;
     rj_advancePayment := rj_advancePayment repair;
     rj_finalPayment := amount;
     rj_paymentStatus := rj_paymentStatus repair;
     rj_createdBy := rj_createdBy repair;
     rj_completedBy := rj_completedBy repair;
     rj_cancelledBy := rj_cancelledBy repair;
     rj_cancelReason := rj_cancelReason repair |}.

Definition collectPayment (repairId : ObjectId) (amount : option Q)
    : M (Answer (RepairJob * PaymentBreakdown)) :=
  match amount with
  | None => ret (Refused (inr PaymentAmountRequired) 400)
  | Some amount =>
      if Qle_bool amount 0 then ret (Refused (inr PaymentAmountRequired) 400)
      else
        do repair <- RepairJob_findById repairId;
        match repair with
        | None => ret (Refused (inl RepairNotFound) 404)
        | Some repair =>
            match rj_status repair with
            | READY =>
                let totalCost := rj_totalCost repair in
                let advancePaid := rj_advancePayment repair in
                let balanceDue := Qmax 0 (totalCost - advancePaid) in
                let amountReceived := amount in
                let change := Qmax 0 (amountReceived - balanceDue) in
                exec RepairJob_save repairId (paidRepair repair amount);
                ret (Done (repairPreSave (paidRepair repair amount),
                           {| pb_totalCost := totalCost;
                              pb_advancePaid := advancePaid;
                              pb_balanceDue := balanceDue;
                              pb_amountReceived := amountReceived;
                              pb_change := change |}))
            | st => ret (Refused (inr (CannotCollectPayment st)) 400)
            end
        end
  end.

(** *** controllers/warranty: voidWarranty *)

Definition voidWarranty (ctx : Ctx) (warrantyId : ObjectId) (reason : option string)
    : M (Answer Warranty) :=
  if negb (truthyS reason) then ret (Refused (inl VoidReasonRequired) 400)
  else
    let reason := default "" reason in
    do warranty <- Warranty_findById warrantyId;
    match warranty with
    | None => ret (Refused (inl WarrantyNotFound) 404)
    | Some warranty =>
        match w_status warranty with
        | VOID => ret (Refused (inr WarrantyAlreadyVoided) 400)
        | _ =>
            exec Warranty_save (now ctx) warrantyId (voidedBy ctx warranty reason);
            ret (Done (voidedBy ctx warranty reason))
        end
    end.

(** *** controllers/warranty: updateClaim *)

(** The body of [updateClaim]; [notes] may be absent ([undefined]), [null]
    or a string. *)
Record UpdateClaimBody := {
  uc_resolution : option string;
  uc_repairJobId : option ObjectId;
  uc_notes : option (option string)
}.

(** The claim with the fields of the body written over it. *)
Definition updatedClaim (body : UpdateClaimBody) (claim : Claim) : Claim :=
  {| cl_claimNumber := cl_claimNumber claim;
     cl_issue := cl_issue claim;
     cl_resolution :=
       if truthyS (uc_resolution body) then uc_resolution body
       else cl_resolution claim;
     cl_notes :=
       match uc_notes body with
       | Some notes => notes
       | None => cl_notes claim
       end;
     cl_processedBy := cl_processedBy claim;
     cl_claimCost := cl_claimCost claim;
     cl_refundAmount := cl_refundAmount claim;
     cl_repairJob :=
       match uc_repairJobId body with
       | Some repairJobId => Some repairJobId
       | None => cl_repairJob claim
       end;
     cl_replacementProduct := cl_replacementProduct claim;
     cl_returnRecord := cl_returnRecord claim |}.

Definition withClaims (w : Warranty) (claims : list Claim) : Warranty :=
  {| w_warrantyNumber := w_warrantyNumber w; w_sourceType := w_sourceType w;
     w_sale := w_sale w; w_product := w_product w;
     w_productName := w_productName w; w_serialNumber := w_serialNumber w;
     w_customer := w_customer w; w_warrantyType := w_warrantyType w;
     w_durationMonths := w_durationMonths w; w_endDate := w_endDate w;
     w_status := w_status w; w_claims := claims;
     w_voidedBy := w_voidedBy w; w_voidReason := w_voidReason w;
     w_createdBy := w_createdBy w |}.

(** [warranty.claims.id(claimId)] finds the claim by its [_id], which is its
    position among the claims; the status of the warranty is not looked at. *)
Definition updateClaim (ctx : Ctx) (warrantyId claimId : ObjectId)
    (body : UpdateClaimBody) : M (Answer Warranty) :=
  do warranty <- Warranty_findById warrantyId;
  match warranty with
  | None => ret (Refused (inl WarrantyNotFound) 404)
  | Some warranty =>
      match w_claims warranty !! claimId with
      | None => ret (Refused (inr ClaimNotFound) 404)
      | Some claim =>
          let warranty :=
            withClaims warranty
              (<[claimId := updatedClaim body claim]> (w_claims warranty)) in
          exec Warranty_save (now ctx) warrantyId warranty;
          ret (Done (warrantyPreSave (now ctx) warranty))
      end
  end.

(** *** models/warranty/warrantyModel.js: updateExpiredWarranties *)

(** The filter [{ status: ACTIVE, endDate: { $lt: now } }]. *)
Definition pastEndDate (now : Z) (w : Warranty) : bool :=
  match w_status w with
  | ACTIVE => w_endDate w <? now
  | _ => false
  end.

(** [updateMany(filter, { $set: { status: EXPIRED } })] and its
    [modifiedCount]: no validation, no hook. *)
Definition updateExpiredWarranties (now : Z) : M nat :=
  fun db =>
    (withWarranties db
       (List.map (fun w => if pastEndDate now w then withStatus w EXPIRED else w)
          (warranties db)),
     Ok (length (List.filter (pastEndDate now) (warranties db)))).

(** ** models/sale/saleModel.js: paymentStatus *)

(** The virtual [paymentStatus] of [saleSchema]. *)
Definition paymentStatus (s : Sale) : string :=
  if Qle_bool (s_grandTotal s) (s_amountPaid s) then "PAID"
  else if Qlt_bool 0 (s_amountPaid s) then "PARTIAL"
  else "UNPAID".

(** The request without its payments. *)
Definition withoutPayments (body : CreateSaleBody) : CreateSaleBody :=
  {| cs_items := cs_items body; cs_payments := None;
     cs_discountType := cs_discountType body;
     cs_discountValue := cs_discountValue body;
     cs_customer := cs_customer body; cs_notes := cs_notes body |}.

(** ** Requests *)

(** The stock-mutating requests of the API. *)
Inductive Request :=
| AdjustStock (body : AdjustStockBody)
| CreateSale (body : CreateSaleBody)
| VoidSale (saleId : ObjectId) (reason : option string)
| CreateReturn (body : CreateReturnBody)
| CreateExchange (body : CreateExchangeBody)
| CompleteRepair (repairId : ObjectId) (body : CompleteRepairBody)
| CancelRepair (repairId : ObjectId) (reason : option string)
| CreateClaim (warrantyId : ObjectId) (body : CreateClaimBody).

(** A request served in its context; the response body is dropped. *)
Definition handle (cr : Ctx * Request) : M unit :=
  let ctx := fst cr in
  match snd cr with
  | AdjustStock body => exec adjustStock ctx body; ret tt
  | CreateSale body => exec createSale ctx body; ret tt
  | VoidSale saleId reason => exec voidSale ctx saleId reason; ret tt
  | CreateReturn body => exec createReturn ctx body; ret tt
  | CreateExchange body => exec createExchange ctx body; ret tt
  | CompleteRepair repairId body => exec completeRepair ctx repairId body; ret tt
  | CancelRepair repairId reason => exec cancelRepair ctx repairId reason; ret tt
  | CreateClaim warrantyId body => exec createClaim ctx warrantyId body; ret tt
  end.

(** The databases a sequence of requests goes through: the database after
    each request, in order. *)
Fixpoint states (db : DB) (requests : list (Ctx * Request)) : list DB :=
  match requests with
  | [] => []
  | r :: rest =>
      let db' := fst (handle r db) in
      db' :: states db' rest
  end.

(** ** Properties of a database *)

(** No stock record holds a negative quantity. *)
Definition stockNonNegative (db : DB) : Prop :=
  forall product q, stocks db !! product = Some q -> 0 <= q.

(** The signed change an adjustment records. *)
Definition change (a : StockAdjustment) : Z :=
  sa_newQuantity a - sa_previousQuantity a.

(** The sum of the changes the adjustment history records for a product. *)
Fixpoint ledgerChange (product : ObjectId) (history : list StockAdjustment) : Z :=
  match history with
  | [] => 0
  | a :: rest =>
      (if Nat.eqb (sa_product a) product then change a else 0)
      + ledgerChange product rest
  end.

(** The stock on hand of every product is what its adjustment history adds
    up to: no stock update without its adjustment, no adjustment without its
    stock update. *)
Definition ledgerBalanced (db : DB) : Prop :=
  forall product, quantityOf db product = ledgerChange product (adjustments db).

(** The units of a product on the lines of a sale. *)
Fixpoint unitsOf (product : ObjectId) (items : list SaleItem) : Z :=
  match items with
  | [] => 0
  | item :: rest =>
      (if Nat.eqb (si_product item) product then si_quantity item else 0)
      + unitsOf product rest
  end.

(** The units of a product among the parts of a repair job. *)
Fixpoint partUnitsOf (product : ObjectId) (parts : list Part) : Z :=
  match parts with
  | [] => 0
  | part :: rest =>
      (if Nat.eqb (pt_product part) product then pt_quantity part else 0)
      + partUnitsOf product rest
  end.

(** What an adjustment says besides the quantities before and after. *)
Definition entry (a : StockAdjustment) : ObjectId * option string * Z :=
  (sa_product a, sa_type a, sa_quantity a).

(** ** Properties of a handler *)

(** A property of the database that every step of a handler keeps, whether
    the step succeeds or fails. *)
Definition preserves {A} (I : DB -> Prop) (m : M A) : Prop :=
  forall db, I db -> I (fst (m db)).

(** From a database that satisfies [P], a successful run of [m] ends in a
    database that satisfies [Q] of its result. *)
Definition onSuccess {A} (P : DB -> Prop) (m : M A) (Q : A -> DB -> Prop) : Prop :=
  forall db db' a, P db -> m db = (db', Ok a) -> Q a db'.

(** [db] has the stock records and the adjustment history of [db0]. *)
Definition sameLedger (db0 db : DB) : Prop :=
  stocks db = stocks db0 /\ adjustments db = adjustments db0.

(** A property that only looks at the stock records and the history. *)
Definition ledgerOnly (P : DB -> Prop) : Prop :=
  forall db db', sameLedger db db' -> P db -> P db'.

(** Between the two writes: the stock record of [product] already holds
    [new] while the history still adds up to [prev]. *)
Definition pending (product : ObjectId) (prev new : Z) (db : DB) : Prop :=
  forall p, quantityOf db p
            = ledgerChange p (adjustments db)
              + (if Nat.eqb product p then new - prev else 0).

(** The collections a stock movement does not touch. *)
Definition sameDocuments (db db' : DB) : Prop :=
  products db' = products db /\ sales db' = sales db /\ returns db' = returns db /\
  repairs db' = repairs db /\ warranties db' = warranties db.

(** [db] has the ledger and the sales of [db0]. *)
Definition sameBooks (db0 db : DB) : Prop :=
  sameLedger db0 db /\ sales db = sales db0.

Definition saleEntry (item : SaleItem) : ObjectId * option string * Z :=
  (si_product item, Some "SALE", si_quantity item).

Definition returnEntry (item : SaleItem) : ObjectId * option string * Z :=
  (si_product item, Some "RETURN", si_quantity item).

(** A returned line as [createReturn] books it for a requested line. *)
Definition booksLine (originalSale : Sale) (input : ReturnItemInput) (item : ReturnItem)
    : Prop :=
  exists saleItem,
    s_items originalSale !! rin_saleItemId input = Some saleItem /\
    ri_quantity item = orZ (rin_quantity input) (si_quantity saleItem) /\
    ri_quantity item <= si_quantity saleItem /\
    ri_product item = si_product saleItem /\
    ri_unitPrice item = si_unitPrice saleItem /\
    ri_refundAmount item
    = round2 (si_unitPrice saleItem * inject_Z (ri_quantity item) - si_discount saleItem).

Definition partEntry (part : Part) : ObjectId * option string * Z :=
  (pt_product part, Some "RETURN", pt_quantity part).

(** ** Further properties of a database *)

(** The adjustment history of a product read as a chain, from the quantity
    [q] on: every adjustment starts at the quantity the one before it ended
    at.  The result is the quantity the chain ends at, [None] when a link
    does not fit. *)
Fixpoint replay (product : ObjectId) (history : list StockAdjustment) (q : Z)
    : option Z :=
  match history with
  | [] => Some q
  | a :: rest =>
      if Nat.eqb (sa_product a) product
      then if Z.eqb (sa_previousQuantity a) q
           then replay product rest (sa_newQuantity a)
           else None
      else replay product rest q
  end.

(** The history of every product is a chain that starts at 0 and ends at
    the quantity on hand. *)
Definition ledgerChained (db : DB) : Prop :=
  forall product, replay product (adjustments db) 0 = Some (quantityOf db product).

(** Between the two writes of a stock movement: the stock record of
    [product] holds [new] while its chain still ends at [prev]. *)
Definition pendingLink (product : ObjectId) (prev new : Z) (db : DB) : Prop :=
  quantityOf db product = new /\
  forall p, replay p (adjustments db) 0
            = Some (if Nat.eqb product p then prev else quantityOf db p).

(** The units of a product on the lines of a return. *)
Fixpoint returnedUnits (product : ObjectId) (items : list ReturnItem) : Z :=
  match items with
  | [] => 0
  | item :: rest =>
      (if Nat.eqb (ri_product item) product then ri_quantity item else 0)
      + returnedUnits product rest
  end.

Definition returnedEntry (item : ReturnItem) : ObjectId * option string * Z :=
  (ri_product item, Some "RETURN", ri_quantity item).

Definition partSaleEntry (part : Part) : ObjectId * option string * Z :=
  (pt_product part, Some "SALE", pt_quantity part).

(** The warranties [createSale] issues for a line: one per unit when the
    product carries a warranty. *)
Definition warrantiesDue (db : DB) (item : SaleItem) : nat :=
  match products db !! si_product item with
  | Some product =>
      if 0 <? p_warrantyDuration product then Z.to_nat (si_quantity item) else O
  | None => O
  end.

(** A warranty of [db0] that is VOID is on file in [db], unchanged. *)
Definition voidKept (db0 db : DB) : Prop :=
  forall id w, warranties db0 !! id = Some w -> w_status w = VOID ->
               warranties db !! id = Some w.

(** A step that never ends in an application error: when it fails, a write
    has thrown. *)
Definition failsInWrites {A} (m : M A) : Prop :=
  forall db db' what statusCode, m db <> (db', Err (AppError what statusCode)).

(** A handler that answers with an application error only while the
    database is as it found it. *)
Definition refusesUnwritten {A} (m : M A) : Prop :=
  forall db db' what statusCode,
    m db = (db', Err (AppError what statusCode)) -> db' = db.

(** The warranties a sale owes its customer: one per unit of every line
    whose product carries a warranty, when the customer left a name and a
    phone number; none otherwise. *)
Definition warrantiesOwed (db : DB) (customer : option Customer) (items : list SaleItem)
    : nat :=
  match customer with
  | Some customer =>
      if (truthyS (c_phone customer) && truthyS (c_name customer))%bool
      then list_sum (List.map (warrantiesDue db) items)
      else O
  | None => O
  end.

(** The warranties the [Warranty.updateMany] of a return reaches: those of
    the sale and the product that are ACTIVE. *)
Definition reached (sale product : ObjectId) (w : Warranty) : bool :=
  match w_sale w, w_status w with
  | Some s, ACTIVE => (Nat.eqb s sale && Nat.eqb (w_product w) product)%bool
  | _, _ => false
  end.

(** A warranty before and after the stock loop of a return of [items] from
    [sale]: voided when the loop reached it, untouched otherwise. *)
Definition voidedByReturn (sale : ObjectId) (items : list ReturnItem) (w w' : Warranty)
    : Prop :=
  if List.existsb (fun item => reached sale (ri_product item) w) items
  then w_status w' = VOID /\ w_sale w' = w_sale w /\ w_product w' = w_product w /\
       w_warrantyNumber w' = w_warrantyNumber w /\ w_claims w' = w_claims w
  else w' = w.

(** A part of a repair as booked for a requested part. *)
Definition booksPart (input : PartInput) (part : Part) : Prop :=
  pt_product part = pin_productId input /\ pt_quantity part = pin_quantity input.

(** What the parts loop of [completeRepair] has done for the parts it got
    through. *)
Definition partsConsumed (db db' : DB) (consumed : list Part) : Prop :=
  (forall p, quantityOf db' p = quantityOf db p - partUnitsOf p consumed) /\
  List.map entry (adjustments db')
  = List.map entry (adjustments db) ++ List.map partSaleEntry consumed /\
  Forall (fun part => 1 <= pt_quantity part) consumed /\
  sameDocuments db db'.

(** A step that never fails with the error [e]. *)
Definition neverThrows {A} (e : Error) (m : M A) : Prop :=
  forall db db', m db <> (db', Err e).

(** [db'] differs from [db] in its sales at most. *)
Definition sameButSales (db db' : DB) : Prop :=
  products db' = products db /\ stocks db' = stocks db /\
  adjustments db' = adjustments db /\ returns db' = returns db /\
  repairs db' = repairs db /\ warranties db' = warranties db.

(** A step that neither reads nor writes the sales. *)
Definition blindToSales {A} (m : M A) : Prop :=
  forall db db',
    sameButSales db db' ->
    sameButSales (fst (m db)) (fst (m db')) /\ snd (m db') = snd (m db).

(** A claim after [updateClaim]: its resolution, repair job and notes may
    have changed, nothing else. *)
Definition revised (claim claim' : Claim) : Prop :=
  cl_claimNumber claim' = cl_claimNumber claim /\
  cl_issue claim' = cl_issue claim /\
  cl_processedBy claim' = cl_processedBy claim /\
  cl_claimCost claim' = cl_claimCost claim /\
  cl_refundAmount claim' = cl_refundAmount claim /\
  cl_replacementProduct claim' = cl_replacementProduct claim /\
  cl_returnRecord claim' = cl_returnRecord claim.

(** Every repair job on file satisfies the validators of its schema. *)
Definition repairsValid (db : DB) : Prop :=
  Forall (fun r => validRepairJob r = true) (repairs db).

(** The moves of a repair job between its states. *)
Inductive transition : RepairStatus -> RepairStatus -> Prop :=
| started : transition RECEIVED IN_PROGRESS
| finished_early : transition RECEIVED READY
| finished : transition IN_PROGRESS READY
| collected : transition READY COMPLETED
| called_off (status : RepairStatus) : status <> COMPLETED -> transition status CANCELLED.

(* ===================================================================== *)
(** ** A shop for the examples                                           *)
(* ===================================================================== *)

(** Product 1 costs 100, sells at 150 with 10% tax; five are in stock. *)
Definition phone : Product :=
  {| p_name := "Phone"; p_sku := Some "PH-1";
     p_costPrice := 100; p_sellingPrice := 150; p_taxRate := 10;
     p_warrantyDuration := 0; p_warrantyType := "NONE"; p_isActive := true |}.

(** The purchase that brought the five phones in. *)
Definition delivery : StockAdjustment :=
  {| sa_product := 1%nat; sa_type := Some "PURCHASE"; sa_quantity := 5;
     sa_previousQuantity := 0; sa_newQuantity := 5;
     sa_reason := Some "first delivery"; sa_reference := None;
     sa_referenceType := Some "Purchase"; sa_createdBy := 7%nat |}.

Definition shop : DB :=
  {| products := {[ 1%nat := phone ]};
     stocks := {[ 1%nat := 5 ]};
     adjustments := [delivery];
     sales := []; returns := []; repairs := []; warranties := [] |}.

(** An addition of three whose [referenceType] is not one the adjustment
    schema lists. *)
Definition mislabelled : AdjustStockBody :=
  {| as_productId := Some 1%nat; as_type := Some "ADDITION";
     as_quantity := Some 3; as_reason := Some "returned by the workshop";
     as_reference := None; as_referenceType := Some "Repair" |}.

Definition clerk : Ctx :=
  {| userId := 7%nat;
     now := 1000;
     addMonths := fun date months => date + 30 * months;
     saleNumber := "SL-20250101-0001";
     returnNumber := "RT-20250101-0001";
     jobNumber := "RJ-20250101-0001";
     claimNumber := "CLM-20250101-0001";
     warrantyNumber := fun n => "WR-20250101-" +:+ pretty (S n) |}.

Definition adjustBody (type : string) (quantity : Z) : AdjustStockBody :=
  {| as_productId := Some 1%nat; as_type := Some type;
     as_quantity := Some quantity; as_reason := Some "stock take";
     as_reference := None; as_referenceType := None |}.

Definition line (quantity : Z) : SaleItemInput :=
  {| i_productId := 1%nat; i_quantity := quantity; i_unitPrice := None;
     i_discount := None; i_serialNumber := None |}.

Definition saleOf (items : list SaleItemInput) : CreateSaleBody :=
  {| cs_items := items; cs_payments := None; cs_discountType := None;
     cs_discountValue := None; cs_customer := None; cs_notes := None |}.

(** Two phones, paid in cash to the cent. *)
Definition paidInFull : CreateSaleBody :=
  {| cs_items := [line 2];
     cs_payments := Some [ {| pi_method := Some "CASH"; pi_amount := 330;
                              pi_reference := None |} ];
     cs_discountType := None; cs_discountValue := None; cs_customer := None;
     cs_notes := None |}.

(** A day at the counter: a reduction that is refused, a sale with the
    same product on two lines, a sale of two, and its void. *)
Definition busyDay : list (Ctx * Request) :=
  [ (clerk, AdjustStock (adjustBody "REDUCTION" 7));
    (clerk, CreateSale (saleOf [line 3; line 3]));
    (clerk, CreateSale (saleOf [line 2]));
    (clerk, VoidSale 1%nat (Some "customer changed their mind")) ].

(** The phone was sold to Ada a month ago for 150, with a warranty that is
    still running. *)
Definition ada : Customer :=
  {| c_name := Some "Ada"; c_phone := Some "0771234567"; c_email := None |}.

Definition soldPhone : Sale :=
  {| s_saleNumber := "SL-20241201-0001";
     s_customer := Some ada;
     s_items :=
       [ {| si_product := 1%nat; si_productName := "Phone"; si_sku := Some "PH-1";
            si_serialNumber := None; si_quantity := 1; si_unitPrice := 150;
            si_discount := 0; si_total := 150 |} ];
     s_payments :=
       [ {| pay_method := "CASH"; pay_amount := 150; pay_reference := None |} ];
     s_subtotal := 150; s_discountType := None; s_discountValue := 0;
     s_discountTotal := 0; s_grandTotal := 150; s_amountPaid := 150;
     s_changeGiven := 0; s_status := SALE_COMPLETED; s_notes := None;
     s_createdBy := 7%nat; s_voidedBy := None; s_voidReason := None |}.

Definition phoneWarranty : Warranty :=
  {| w_warrantyNumber := "WR-20241201-0001"; w_sourceType := "SALE";
     w_sale := Some 0%nat; w_product := 1%nat; w_productName := "Phone";
     w_serialNumber := None; w_customer := ada; w_warrantyType := "SHOP";
     w_durationMonths := 12; w_endDate := 2000; w_status := ACTIVE;
     w_claims := []; w_voidedBy := None; w_voidReason := None;
     w_createdBy := 7%nat |}.

Definition servicedShop : DB :=
  withWarranties (withSales shop [soldPhone]) [phoneWarranty].

Definition claimWith (resolution : string) : CreateClaimBody :=
  {| cc_issue := Some "screen stays black"; cc_resolution := Some resolution;
     cc_repairJobId := None; cc_replacementProductId := None; cc_notes := None |}.

(** Two chargers at 100 each were sold with 20 off the line (product 1
    stands in for the charger); the customer brings one back. *)
Definition discountedSale : Sale :=
  {| s_saleNumber := "SL-20241215-0001";
     s_customer := None;
     s_items :=
       [ {| si_product := 1%nat; si_productName := "Charger"; si_sku := None;
            si_serialNumber := None; si_quantity := 2; si_unitPrice := 100;
            si_discount := 20; si_total := 198 |} ];
     s_payments :=
       [ {| pay_method := "CASH"; pay_amount := 198; pay_reference := None |} ];
     s_subtotal := 200; s_discountType := None; s_discountValue := 0;
     s_discountTotal := 0; s_grandTotal := 198; s_amountPaid := 198;
     s_changeGiven := 0; s_status := SALE_COMPLETED; s_notes := None;
     s_createdBy := 7%nat; s_voidedBy := None; s_voidReason := None |}.

Definition discountShop : DB := withSales shop [discountedSale].

Definition oneBack : CreateReturnBody :=
  {| cr_originalSaleId := Some 0%nat;
     cr_items := [ {| rin_saleItemId := 0%nat; rin_quantity := Some 1 |} ];
     cr_reason := Some "one was enough";
     cr_refundMethod := None; cr_notes := None |}.

(** Both chargers are exchanged for one phone at 150 plus 10% tax: the new
    item costs 165, the refund is 180. *)
Definition bothForAPhone : CreateExchangeBody :=
  {| ce_originalSaleId := Some 0%nat;
     ce_returnItems := [ {| rin_saleItemId := 0%nat; rin_quantity := None |} ];
     ce_newItems :=
       [ {| n_productId := 1%nat; n_quantity := 1; n_unitPrice := None;
            n_serialNumber := None |} ];
     ce_payments := None;
     ce_reason := Some "wants the phone instead";
     ce_customer := None; ce_notes := None |}.

(** The device Ada brought in. *)
Definition adasPhone : Device :=
  {| dv_type := Some "MOBILE_PHONE"; dv_brand := Some "Nokia"; dv_model := Some "3310";
     dv_serialNumber := None; dv_condition := None |}.

(** A repair job that used two units of product 1 and was cancelled by the
    owner of the shop (user 1). *)
Definition cancelledJob : RepairJob :=
  {| rj_jobNumber := "RJ-20241220-0001";
     rj_status := CANCELLED;
     rj_priority := Some "NORMAL";
     rj_customer := ada;
     rj_device := adasPhone;
     rj_problemDescription := "screen stays black";
     rj_diagnosisNotes := None;
     rj_repairNotes := None;
     rj_assignedTo := Some 7%nat;
     rj_partsUsed :=
       [ {| pt_product := 1%nat; pt_productName := "Phone"; pt_sku := Some "PH-1";
            pt_quantity := 2; pt_unitPrice := 150; pt_total := 300 |} ];
     rj_laborCost := 50; rj_partsTotal := 300; rj_totalCost := 350;
     rj_estimatedCost := 0; rj_advancePayment := 0; rj_finalPayment := 0;
     rj_paymentStatus := Some "PENDING";
     rj_createdBy := 7%nat;
     rj_completedBy := Some 7%nat;
     rj_cancelledBy := Some 1%nat;
     rj_cancelReason := Some "customer did not answer" |}.

Definition workshop : DB := withRepairs shop [cancelledJob].

(** The phone with a shop warranty of twelve months, five in stock. *)
Definition warrantedPhone : Product :=
  {| p_name := "Phone"; p_sku := Some "PH-1";
     p_costPrice := 100; p_sellingPrice := 150; p_taxRate := 10;
     p_warrantyDuration := 12; p_warrantyType := "SHOP"; p_isActive := true |}.

Definition warrantyShop : DB :=
  {| products := {[ 1%nat := warrantedPhone ]};
     stocks := {[ 1%nat := 5 ]};
     adjustments := [delivery];
     sales := []; returns := []; repairs := []; warranties := [] |}.

Definition saleTo (customer : Customer) (items : list SaleItemInput) : CreateSaleBody :=
  {| cs_items := items; cs_payments := None; cs_discountType := None;
     cs_discountValue := None; cs_customer := Some customer; cs_notes := None |}.

(** The clerk at the next return of the day. *)
Definition clerkAgain : Ctx :=
  {| userId := 7%nat;
     now := 1000;
     addMonths := fun date months => date + 30 * months;
     saleNumber := "SL-20250101-0002";
     returnNumber := "RT-20250101-0002";
     jobNumber := "RJ-20250101-0002";
     claimNumber := "CLM-20250101-0002";
     warrantyNumber := fun n => "WR-20250101-" +:+ pretty (S n) |}.

(** A repair job the clerk is working on, and the same job once it is
    ready to be handed over for 350. *)
Definition openJob : RepairJob :=
  {| rj_jobNumber := "RJ-20241221-0001";
     rj_status := IN_PROGRESS;
     rj_priority := Some "NORMAL";
     rj_customer := ada;
     rj_device := adasPhone;
     rj_problemDescription := "screen stays black";
     rj_diagnosisNotes := None;
     rj_repairNotes := None;
     rj_assignedTo := Some 7%nat;
     rj_partsUsed := [];
     rj_laborCost := 0; rj_partsTotal := 0; rj_totalCost := 0;
     rj_estimatedCost := 0; rj_advancePayment := 0; rj_finalPayment := 0;
     rj_paymentStatus := Some "PENDING";
     rj_createdBy := 7%nat;
     rj_completedBy := None; rj_cancelledBy := None; rj_cancelReason := None |}.

Definition bench : DB := withRepairs shop [openJob].

Definition readyJob : RepairJob :=
  {| rj_jobNumber := "RJ-20241221-0001";
     rj_status := READY;
     rj_priority := Some "NORMAL";
     rj_customer := ada;
     rj_device := adasPhone;
     rj_problemDescription := "screen stays black";
     rj_diagnosisNotes := None;
     rj_repairNotes := None;
     rj_assignedTo := Some 7%nat;
     rj_partsUsed :=
       [ {| pt_product := 1%nat; pt_productName := "Phone"; pt_sku := Some "PH-1";
            pt_quantity := 2; pt_unitPrice := 150; pt_total := 300 |} ];
     rj_laborCost := 50; rj_partsTotal := 300; rj_totalCost := 350;
     rj_estimatedCost := 0; rj_advancePayment := 0; rj_finalPayment := 0;
     rj_paymentStatus := Some "PENDING";
     rj_createdBy := 7%nat;
     rj_completedBy := Some 7%nat; rj_cancelledBy := None; rj_cancelReason := None |}.

Definition counter : DB := withRepairs shop [readyJob].

(** Phones used as parts, by the quantities asked for. *)
Definition partsOf (quantities : list Z) : CompleteRepairBody :=
  {| cp_laborCost := Some 50%Q;
     cp_partsUsed :=
       Some (List.map
               (fun q => {| pin_productId := 1%nat; pin_quantity := q;
                            pin_unitPrice := None |})
               quantities);
     cp_diagnosisNotes := Some "battery swollen";
     cp_repairNotes := None |}.

(** The phone's warranty with a claim that is still open, voided after the
    maker recalled the model. *)
Definition openClaim : Claim :=
  {| cl_claimNumber := "CLM-20241210-0001"; cl_issue := "screen stays black";
     cl_resolution := None; cl_notes := None; cl_processedBy := 7%nat;
     cl_claimCost := 0; cl_refundAmount := 0; cl_repairJob := None;
     cl_replacementProduct := None; cl_returnRecord := None |}.

Definition withdrawn : Warranty :=
  voidedBy clerk (withClaims phoneWarranty [openClaim]) "recalled by the maker".

Definition withdrawnShop : DB := withWarranties servicedShop [withdrawn].

Definition rejectIt : UpdateClaimBody :=
  {| uc_resolution := Some "REJECTED"; uc_repairJobId := None;
     uc_notes := Some (Some "out of scope") |}.

(** A cashier whose role grants [VIEW_SALES] and who was denied it
    directly, once. *)
Definition deniedCashier : Auth.User :=
  {| Auth.roles := [ {| Auth.r_permissions := Some [Auth.viewSales] |} ];
     Auth.directPermissions :=
       [ {| Auth.dp_permission := Some Auth.viewSales; Auth.dp_type := Auth.DENY |} ];
     Auth.isSuperAdmin := false |}.

(* ===================================================================== *)
(** * Part II: the properties                                            *)
(* ===================================================================== *)

(** [includes] decides membership. *)
Lemma includes_In (l : list string) (s : string) :
  includes l s = true <-> In s l.
Proof.
  unfold includes. rewrite List.existsb_exists. split.
  - intros [x [Hx Heq]]. apply String.eqb_eq in Heq. now subst.
  - intros H. exists s. split; [exact H | apply String.eqb_refl].
Qed.

(** ** Permission resolution *)

Module AuthFacts.
Import Auth.

(** The super admin passes before any permission is looked at. *)
Lemma authorize_superAdmin (user : User) codes requireAll :
  isSuperAdmin user = true -> authorize codes requireAll (Some user) = Next.
Proof. intros H. unfold authorize. now rewrite H. Qed.

(** For one required code, access is the result of the check of that code,
    whatever [requireAll] says. *)
Lemma authorize_single (user : User) permCode requireAll :
  isSuperAdmin user = false ->
  authorize [permCode] requireAll (Some user) = Next <->
  allowed (checkPermission user permCode) = true.
Proof.
  intros Hsa. unfold authorize. rewrite Hsa. cbn [List.map List.filter].
  destruct (allowed (checkPermission user permCode)) eqn:E;
    destruct requireAll; cbn; split; intros H; try reflexivity; discriminate.
Qed.

(** The first matching override decides. *)
Lemma checkPermission_first (user : User) permCode dp :
  List.find (matchesCode permCode) (directPermissions user) = Some dp ->
  allowed (checkPermission user permCode)
  = match dp_type dp with ALLOW => true | DENY => false end.
Proof.
  intros H. unfold checkPermission. rewrite H. now destruct (dp_type dp).
Qed.

Lemma checkPermission_no_override (user : User) permCode :
  List.find (matchesCode permCode) (directPermissions user) = None ->
  allowed (checkPermission user permCode) = includes (rolePerms user) permCode.
Proof.
  intros H. unfold checkPermission. rewrite H.
  now destruct (includes (rolePerms user) permCode).
Qed.


Lemma find_none_no_override (user : User) permCode t :
  List.find (matchesCode permCode) (directPermissions user) = None ->
  ~ hasOverride t permCode user.
Proof.
  intros E [dp [Hin [Hm _]]]. apply (List.find_none _ _ E) in Hin. congruence.
Qed.

(** [hasPermission] of the user model agrees with the middleware. *)
Lemma hasPermission_authorize (user : User) permCode :
  isSuperAdmin user = false ->
  hasPermission user permCode = allowed (checkPermission user permCode).
Proof.
  intros H. unfold hasPermission, checkPermission. rewrite H.
  destruct (List.find _ _) as [dp|]; [now destruct (dp_type dp)|].
  now destruct (includes _ _).
Qed.

(** How [authorize] reads a list that names a code twice, which no request
    can store: with an ALLOW and a DENY override for the same code, ALLOW
    listed first, the check of that code passes. *)
Lemma authorize_allow_listed_first_wins :
  hasOverride ALLOW "VIEW_SALES" allowedThenDenied /\
  hasOverride DENY "VIEW_SALES" allowedThenDenied /\
  isSuperAdmin allowedThenDenied = false /\
  allowed (checkPermission allowedThenDenied "VIEW_SALES") = true /\
  authorize ["VIEW_SALES"] false (Some allowedThenDenied) = Next.
Proof.
  repeat split.
  - eexists. split; [left; reflexivity | split; reflexivity].
  - eexists. split; [right; left; reflexivity | split; reflexivity].
Qed.

(** The list of effective permissions reads the same overrides the other
    way round: there the last override of a code decides. *)
Lemma effectivePermissions_last_override_wins :
  effectivePermissions allowedThenDenied = [] /\
  effectivePermissions deniedThenAllowed = ["VIEW_SALES"] /\
  allowed (checkPermission deniedThenAllowed "VIEW_SALES") = false.
Proof. repeat split. Qed.


(** The ids [assignDirectPermissions] lets through are distinct ids of
    documents on file. *)
Lemma findPermissions_all (permissions : list Permission) (permIds : list nat) :
  length (findPermissions permissions permIds) = length permIds ->
  List.NoDup permIds /\ forall id, In id permIds -> (id < length permissions)%nat.
Proof.
  intros Hlen. unfold findPermissions in Hlen.
  set (found := List.filter _ _) in Hlen.
  assert (Hnd : List.NoDup found) by (apply List.NoDup_filter, List.seq_NoDup).
  assert (Hincl : List.incl found permIds).
  { intros id Hid. apply List.filter_In in Hid. destruct Hid as [_ Hid].
    apply List.existsb_exists in Hid. destruct Hid as (x & Hx & E).
    apply Nat.eqb_eq in E. now subst. }
  assert (Hle : (length permIds <= length found)%nat) by lia.
  split.
  - exact (List.NoDup_incl_NoDup Hnd Hle Hincl).
  - intros id Hid.
    pose proof (List.NoDup_length_incl Hnd Hle Hincl id Hid) as Hfound.
    apply List.filter_In in Hfound. destruct Hfound as [Hseq _].
    apply List.in_seq in Hseq. lia.
Qed.

(** What [assignDirectPermissions] hands to [user.save()] names every
    permission code at most once, the codes of the permission documents
    being unique (the index on [code]); so does the empty list a new user
    starts with. *)
Lemma assignDirectPermissions_unique permissions body found user :
  List.NoDup (List.map code permissions) ->
  assignDirectPermissions permissions body found = Assigned user ->
  List.NoDup (overrideCodes user).
Proof.
  intros Hcodes. unfold assignDirectPermissions.
  destruct body as [overrides|]; [|discriminate].
  destruct found as [user0|]; [|discriminate]. cbv zeta.
  destruct (negb (Nat.eqb _ _)) eqn:Hfound; [discriminate|].
  destruct (negb (List.forallb _ _)); [discriminate|].
  intros [= <-]. apply negb_false_iff, Nat.eqb_eq in Hfound.
  apply findPermissions_all in Hfound. destruct Hfound as [Hnd Hbound].
  unfold overrideCodes. cbn [directPermissions].
  induction overrides as [|p overrides IH]; cbn [List.map List.flat_map]; [constructor|].
  cbn [List.map] in Hnd, Hbound. inversion Hnd as [|? ? Hnotin Hrest]; subst.
  cbn [dp_permission].
  destruct (List.nth_error permissions (ov_permissionId p)) as [perm|] eqn:Eperm.
  - cbn [app]. constructor.
    + intros Hin. apply List.in_flat_map in Hin. destruct Hin as (dp & Hdp & Hc).
      apply List.in_map_iff in Hdp. destruct Hdp as (q & <- & Hq). cbn [dp_permission] in Hc.
      destruct (List.nth_error permissions (ov_permissionId q)) as [perm'|] eqn:Eperm';
        [|destruct Hc].
      destruct Hc as [Hc|[]].
      assert (ov_permissionId p = ov_permissionId q) as Hsame.
      { apply (proj1 (List.NoDup_nth_error (List.map code permissions)) Hcodes).
        - rewrite List.length_map. apply Hbound. now left.
        - rewrite !List.nth_error_map, Eperm, Eperm'. cbn. now rewrite Hc. }
      apply Hnotin. rewrite Hsame. now apply List.in_map.
    + apply IH; [exact Hrest | intros id Hid; apply Hbound; now right].
  - cbn [app]. apply IH; [exact Hrest | intros id Hid; apply Hbound; now right].
Qed.



End AuthFacts.

(** ** Reasoning about handlers *)

Section Preservation.

Context (I : DB -> Prop).

Lemma preserves_ret {A} (a : A) : preserves I (ret a).
Proof. intros db H. exact H. Qed.

Lemma preserves_throw {A} (e : Error) : preserves I (@throw A e).
Proof. intros db H. exact H. Qed.

Lemma preserves_gets {A} (f : DB -> A) : preserves I (gets f).
Proof. intros db H. exact H. Qed.

Lemma preserves_lift {A} (r : Result A) : preserves I (lift r).
Proof. intros db H. exact H. Qed.

Lemma preserves_attempt {A} (f : DB -> Result A) : preserves I (attempt f).
Proof. intros db H. exact H. Qed.

Lemma preserves_bind {A B} (m : M A) (f : A -> M B) :
  preserves I m -> (forall a, preserves I (f a)) -> preserves I (bind m f).
Proof.
  intros Hm Hf db H. unfold bind. specialize (Hm db H).
  destruct (m db) as [db' [a|e]]; cbn in *; [now apply Hf | exact Hm].
Qed.

Lemma preserves_forEach {A} (f : A -> M unit) (l : list A) :
  (forall x, preserves I (f x)) -> preserves I (forEach f l).
Proof.
  intros Hf. induction l as [|x l IH]; cbn [forEach].
  - apply preserves_ret.
  - apply preserves_bind; [apply Hf | intros _; exact IH].
Qed.

Lemma preserves_times (n : nat) (m : M unit) :
  preserves I m -> preserves I (times n m).
Proof.
  intros Hm. induction n as [|n IH]; cbn [times].
  - apply preserves_ret.
  - apply preserves_bind; [exact Hm | intros _; exact IH].
Qed.

End Preservation.

(** One step through the body of a handler. *)
Ltac step_preserves :=
  first
    [ apply preserves_ret | apply preserves_throw | apply preserves_gets
    | apply preserves_lift | apply preserves_attempt
    | apply preserves_bind; [| intros ?]
    | apply preserves_forEach; intros ?
    | apply preserves_times
    | match goal with
      | |- preserves _ (match ?x with _ => _ end) => destruct x
      | |- preserves _ (if ?x then _ else _) => destruct x
      end ].

(** ** The stock never goes negative *)

Lemma stockNonNegative_insert (db : DB) (product : ObjectId) (q : Z) :
  stockNonNegative db -> 0 <= q ->
  stockNonNegative (withStocks db (<[product := q]> (stocks db))).
Proof.
  intros H Hq p q'. cbn. rewrite lookup_insert. case_decide.
  - intros [= <-]. exact Hq.
  - apply H.
Qed.

Lemma stockNonNegative_same_stocks (db db' : DB) :
  stocks db' = stocks db -> stockNonNegative db -> stockNonNegative db'.
Proof. intros E H p q. rewrite E. apply H. Qed.

Lemma nonneg_getOrCreate product : preserves stockNonNegative (Stock_getOrCreate product).
Proof.
  intros db H. unfold Stock_getOrCreate. destruct (stocks db !! product); cbn.
  - exact H.
  - now apply stockNonNegative_insert.
Qed.

(** [stock.save()] is where the schema's [min: 0] holds the line. *)
Lemma nonneg_save product q : preserves stockNonNegative (Stock_save product q).
Proof.
  intros db H. unfold Stock_save. destruct (q <? 0) eqn:E; cbn.
  - exact H.
  - apply stockNonNegative_insert; [exact H | lia].
Qed.

Lemma nonneg_adjustment a : preserves stockNonNegative (StockAdjustment_create a).
Proof.
  intros db H. unfold StockAdjustment_create.
  destruct (validStockAdjustment a); exact H.
Qed.

Lemma nonneg_Sale_create s : preserves stockNonNegative (Sale_create s).
Proof. intros db H. unfold Sale_create. destruct (validSale s); exact H. Qed.

Lemma nonneg_Sale_save id s : preserves stockNonNegative (Sale_save id s).
Proof. intros db H. unfold Sale_save. destruct (validSale s); exact H. Qed.

Lemma nonneg_Return_create r : preserves stockNonNegative (Return_create r).
Proof. intros db H. unfold Return_create. destruct (validReturn r); exact H. Qed.

Lemma nonneg_RepairJob_create r : preserves stockNonNegative (RepairJob_create r).
Proof. intros db H. unfold RepairJob_create. destruct (validRepairJob r); exact H. Qed.

Lemma nonneg_RepairJob_save id r : preserves stockNonNegative (RepairJob_save id r).
Proof. intros db H. unfold RepairJob_save. destruct (validRepairJob r); exact H. Qed.

Lemma nonneg_Warranty_create now w : preserves stockNonNegative (Warranty_create now w).
Proof. intros db H. unfold Warranty_create. destruct (validWarranty w); exact H. Qed.

Lemma nonneg_Warranty_save now id w : preserves stockNonNegative (Warranty_save now id w).
Proof. intros db H. unfold Warranty_save. destruct (validWarranty w); exact H. Qed.

Lemma nonneg_voidWarrantiesOf sale product by_ reason :
  preserves stockNonNegative (voidWarrantiesOf sale product by_ reason).
Proof. intros db H. exact H. Qed.

Create HintDb nonneg.
#[local] Hint Resolve nonneg_getOrCreate nonneg_save nonneg_adjustment
  nonneg_Sale_create nonneg_Sale_save nonneg_Return_create
  nonneg_RepairJob_create nonneg_RepairJob_save nonneg_Warranty_create
  nonneg_Warranty_save nonneg_voidWarrantiesOf : nonneg.

Ltac nonneg := repeat first [ solve [auto with nonneg] | step_preserves ].

Lemma nonneg_adjustStock ctx body : preserves stockNonNegative (adjustStock ctx body).
Proof. unfold adjustStock, Product_findById. nonneg. Qed.

Lemma nonneg_createSale ctx body : preserves stockNonNegative (createSale ctx body).
Proof.
  unfold createSale. destruct (cs_items body) as [|item items]; nonneg.
Qed.

Lemma nonneg_voidSale ctx saleId reason :
  preserves stockNonNegative (voidSale ctx saleId reason).
Proof. unfold voidSale, Sale_findById. nonneg. Qed.

Lemma nonneg_createReturn ctx body : preserves stockNonNegative (createReturn ctx body).
Proof.
  unfold createReturn, Sale_findById. nonneg.
Qed.

Lemma nonneg_createExchange ctx body :
  preserves stockNonNegative (createExchange ctx body).
Proof.
  unfold createExchange, Sale_findById. nonneg.
Qed.

Lemma nonneg_consumeParts ctx repairId repair parts processedParts :
  preserves stockNonNegative (consumeParts ctx repairId repair parts processedParts).
Proof.
  revert processedParts.
  induction parts as [|part rest IH]; intros processedParts; cbn [consumeParts].
  - nonneg.
  - unfold Product_findById, Stock_findOne. nonneg.
Qed.

Lemma nonneg_completeRepair ctx repairId body :
  preserves stockNonNegative (completeRepair ctx repairId body).
Proof.
  unfold completeRepair, RepairJob_findById.
  pose proof (nonneg_consumeParts ctx repairId) as Hparts. nonneg.
Qed.

Lemma nonneg_cancelRepair ctx repairId reason :
  preserves stockNonNegative (cancelRepair ctx repairId reason).
Proof.
  unfold cancelRepair, RepairJob_findById. nonneg.
Qed.

Lemma nonneg_createClaim ctx warrantyId body :
  preserves stockNonNegative (createClaim ctx warrantyId body).
Proof.
  unfold createClaim, claimRepair, claimReplace, claimRefund, Warranty_findById.
  nonneg.
Qed.

Lemma nonneg_handle cr : preserves stockNonNegative (handle cr).
Proof.
  destruct cr as [ctx []]; unfold handle; cbn [fst snd];
    (apply preserves_bind; [| intros ?; apply preserves_ret]).
  - apply nonneg_adjustStock.
  - apply nonneg_createSale.
  - apply nonneg_voidSale.
  - apply nonneg_createReturn.
  - apply nonneg_createExchange.
  - apply nonneg_completeRepair.
  - apply nonneg_cancelRepair.
  - apply nonneg_createClaim.
Qed.

Lemma nonneg_states requests : forall db,
  stockNonNegative db -> Forall stockNonNegative (states db requests).
Proof.
  induction requests as [|r rest IH]; intros db H; cbn [states].
  - constructor.
  - pose proof (nonneg_handle r db H) as H1. constructor; [exact H1 | now apply IH].
Qed.

Lemma includes_nonempty (l : list string) (s : string) :
  includes l s = true -> ~ In "" l -> String.eqb s "" = false.
Proof.
  intros H Hn. destruct (String.eqb s "") eqn:E; [|reflexivity].
  apply String.eqb_eq in E. subst s. exfalso. apply Hn.
  unfold includes in H. apply List.existsb_exists in H.
  destruct H as [x [Hx Heq]]. apply String.eqb_eq in Heq. now subst x.
Qed.

Lemma ADJUSTMENT_TYPES_nonempty : ~ In "" (values ADJUSTMENT_TYPES).
Proof. cbn. intros H. repeat (destruct H as [H|H]; [discriminate|]). exact H. Qed.

Lemma quantityOf_getOrCreate (db : DB) (product p : ObjectId) :
  quantityOf (fst (Stock_getOrCreate product db)) p = quantityOf db p.
Proof.
  unfold Stock_getOrCreate, quantityOf.
  destruct (stocks db !! product) eqn:E; cbn; [reflexivity|].
  rewrite lookup_insert. case_decide; [subst; now rewrite E | reflexivity].
Qed.

Lemma getOrCreate_result (db : DB) (product : ObjectId) :
  snd (Stock_getOrCreate product db) = Ok (quantityOf db product).
Proof.
  unfold Stock_getOrCreate, quantityOf. now destruct (stocks db !! product).
Qed.

Lemma getOrCreate_keeps (db : DB) (product : ObjectId) :
  let db' := fst (Stock_getOrCreate product db) in
  adjustments db' = adjustments db /\ sales db' = sales db /\
  returns db' = returns db /\ repairs db' = repairs db /\
  warranties db' = warranties db /\ products db' = products db /\
  (forall p q, stocks db !! p = Some q -> stocks db' !! p = Some q) /\
  stocks db' !! product = Some (quantityOf db product).
Proof.
  unfold Stock_getOrCreate, quantityOf.
  destruct (stocks db !! product) eqn:E; cbn; repeat split; auto.
  - intros p q H. rewrite lookup_insert. case_decide; [congruence | exact H].
  - apply lookup_insert_eq.
Qed.

(** A reduction that asks for more than is on hand is refused before
    anything but the stock record of a product that had none is written. *)
Lemma adjustStock_insufficient_run ctx body db productId type quantity product :
  as_productId body = Some productId ->
  as_type body = Some type ->
  as_quantity body = Some quantity ->
  includes (values ADJUSTMENT_TYPES) type = true ->
  includes ["ADDITION"; "PURCHASE"; "RETURN"; "TRANSFER_IN"; "CORRECTION"] type = false ->
  0 < quantity ->
  products db !! productId = Some product ->
  quantityOf db productId - quantity < 0 ->
  adjustStock ctx body db
  = (fst (Stock_getOrCreate productId db),
     Err (AppError (InsufficientStock (quantityOf db productId) quantity) 400)).
Proof.
  intros Hp Ht Hq Hvalid Hred Hpos Hprod Hneg.
  unfold adjustStock. rewrite Hp, Ht, Hq.
  rewrite (includes_nonempty _ _ Hvalid ADJUSTMENT_TYPES_nonempty), Hvalid.
  replace (Z.eqb quantity 0) with false by (symmetry; apply Z.eqb_neq; lia).
  replace (quantity <=? 0) with false by (symmetry; apply Z.leb_gt; lia).
  cbn [orb negb]. unfold bind, Product_findById, gets. rewrite Hprod.
  pose proof (getOrCreate_result db productId) as Hres.
  destruct (Stock_getOrCreate productId db) as [db1 r]. cbn in Hres.
  subst r. rewrite Hred.
  replace (if String.eqb type "CORRECTION"
           then quantityOf db productId - quantity
           else quantityOf db productId - quantity)
    with (quantityOf db productId - quantity) by (now destruct (String.eqb _ _)).
  replace (quantityOf db productId - quantity <? 0) with true
    by (symmetry; apply Z.ltb_lt; lia).
  reflexivity.
Qed.

Lemma adjustStock_insufficient ctx body db productId type quantity product :
  as_productId body = Some productId ->
  as_type body = Some type ->
  as_quantity body = Some quantity ->
  includes (values ADJUSTMENT_TYPES) type = true ->
  includes ["ADDITION"; "PURCHASE"; "RETURN"; "TRANSFER_IN"; "CORRECTION"] type = false ->
  0 < quantity ->
  products db !! productId = Some product ->
  quantityOf db productId - quantity < 0 ->
  snd (adjustStock ctx body db)
  = Err (AppError (InsufficientStock (quantityOf db productId) quantity) 400) /\
  (forall p, quantityOf (fst (adjustStock ctx body db)) p = quantityOf db p) /\
  (forall p q, stocks db !! p = Some q ->
               stocks (fst (adjustStock ctx body db)) !! p = Some q) /\
  adjustments (fst (adjustStock ctx body db)) = adjustments db.
Proof.
  intros Hp Ht Hq Hvalid Hred Hpos Hprod Hneg.
  rewrite (adjustStock_insufficient_run _ _ _ _ _ _ _ Hp Ht Hq Hvalid Hred Hpos Hprod Hneg).
  cbn [fst snd]. pose proof (getOrCreate_keeps db productId) as Hkeep. cbn in Hkeep.
  repeat split; try tauto. apply quantityOf_getOrCreate.
Qed.

(** C1: whatever sequence of stock-mutating requests is served (stock
    adjustments, sales, voids, returns, exchanges, repair completions and
    cancellations, warranty claims), no stock record ever holds a negative
    quantity, after a request that succeeded as after one that failed; and
    a stock adjustment of a reducing type that asks for more than is on hand
    fails with the insufficient-stock error, leaving the quantity of every
    product, every existing stock record and the adjustment history as they
    were. *)
Theorem stock_quantity_never_negative (db : DB) (requests : list (Ctx * Request)) :
  stockNonNegative db ->
  Forall stockNonNegative (states db requests) /\
  (forall ctx body productId type quantity product,
     as_productId body = Some productId ->
     as_type body = Some type ->
     as_quantity body = Some quantity ->
     includes (values ADJUSTMENT_TYPES) type = true ->
     includes ["ADDITION"; "PURCHASE"; "RETURN"; "TRANSFER_IN"; "CORRECTION"] type
     = false ->
     0 < quantity ->
     products db !! productId = Some product ->
     quantityOf db productId - quantity < 0 ->
     snd (adjustStock ctx body db)
     = Err (AppError (InsufficientStock (quantityOf db productId) quantity) 400) /\
     (forall p, quantityOf (fst (adjustStock ctx body db)) p = quantityOf db p) /\
     (forall p q, stocks db !! p = Some q ->
                  stocks (fst (adjustStock ctx body db)) !! p = Some q) /\
     adjustments (fst (adjustStock ctx body db)) = adjustments db).
Proof.
  intros H. split.
  - now apply nonneg_states.
  - intros ctx body productId type quantity product.
    apply adjustStock_insufficient.
Qed.

Lemma shop_nonneg : stockNonNegative shop.
Proof.
  intros p q H. cbn in H. apply lookup_singleton_Some in H. lia.
Qed.

(** The day at the counter never shows a negative quantity, and its first
    request, a reduction by seven with five in stock, is refused with
    nothing written. *)
Lemma stock_quantity_never_negative_witness :
  Forall stockNonNegative (states shop busyDay) /\
  snd (adjustStock clerk (adjustBody "REDUCTION" 7) shop)
  = Err (AppError (InsufficientStock 5 7) 400) /\
  adjustments (fst (adjustStock clerk (adjustBody "REDUCTION" 7) shop))
  = adjustments shop.
Proof.
  destruct (stock_quantity_never_negative shop busyDay shop_nonneg) as [Hall Hadj].
  split; [exact Hall|].
  destruct (Hadj clerk (adjustBody "REDUCTION" 7) 1%nat "REDUCTION" 7 phone)
    as [Herr [_ [_ Hhist]]]; try reflexivity.
  split; [exact Herr | exact Hhist].
Defined.

(** ** What a successful handler leaves behind *)

Section Success.

Lemma onSuccess_ret {A} (P : DB -> Prop) (a : A) :
  onSuccess P (ret a) (fun _ => P).
Proof. intros db db' a' H E. inversion E; subst. exact H. Qed.

Lemma onSuccess_throw {A} (P : DB -> Prop) (e : Error) (Q : A -> DB -> Prop) :
  onSuccess P (throw e) Q.
Proof. intros db db' a H [=]. Qed.

Lemma onSuccess_gets {A} (P : DB -> Prop) (f : DB -> A) :
  onSuccess P (gets f) (fun a db => P db /\ a = f db).
Proof. intros db db' a H E. inversion E; subst. auto. Qed.

Lemma onSuccess_lift {A} (P : DB -> Prop) (r : Result A) :
  onSuccess P (lift r) (fun _ => P).
Proof. intros db db' a H E. inversion E; subst. exact H. Qed.

Lemma onSuccess_attempt {A} (P : DB -> Prop) (f : DB -> Result A) :
  onSuccess P (attempt f) (fun _ => P).
Proof. intros db db' a H E. inversion E; subst. exact H. Qed.

Lemma onSuccess_bind {A B} (P : DB -> Prop) (Q : A -> DB -> Prop)
    (R : B -> DB -> Prop) (m : M A) (f : A -> M B) :
  onSuccess P m Q -> (forall a, onSuccess (Q a) (f a) R) ->
  onSuccess P (bind m f) R.
Proof.
  intros Hm Hf db db' b HP. unfold bind.
  destruct (m db) as [db1 [a|e]] eqn:E; [|discriminate].
  intros Hrun. exact (Hf a db1 db' b (Hm db db1 a HP E) Hrun).
Qed.

Lemma onSuccess_weaken {A} (P P' : DB -> Prop) (Q Q' : A -> DB -> Prop) (m : M A) :
  onSuccess P' m Q' -> (forall db, P db -> P' db) ->
  (forall a db, Q' a db -> Q a db) -> onSuccess P m Q.
Proof. intros Hm HP HQ db db' a H E. apply HQ, (Hm db db' a); auto. Qed.

Lemma onSuccess_forEach {A} (I : DB -> Prop) (f : A -> M unit) (l : list A) :
  (forall x, onSuccess I (f x) (fun _ => I)) ->
  onSuccess I (forEach f l) (fun _ => I).
Proof.
  intros Hf. induction l as [|x l IH]; cbn [forEach].
  - apply onSuccess_ret.
  - eapply onSuccess_bind; [apply Hf | intros ?; exact IH].
Qed.

Lemma onSuccess_preserves {A} (I : DB -> Prop) (m : M A) :
  preserves I m -> onSuccess I m (fun _ => I).
Proof. intros Hm db db' a H E. specialize (Hm db H). now rewrite E in Hm. Qed.

End Success.

(** *** Steps that leave the ledger alone *)

Lemma sameLedger_refl db : sameLedger db db.
Proof. split; reflexivity. Qed.

Lemma same_Sale_create db0 s : preserves (sameLedger db0) (Sale_create s).
Proof. intros db H. unfold Sale_create. destruct (validSale s); exact H. Qed.

Lemma same_Sale_save db0 id s : preserves (sameLedger db0) (Sale_save id s).
Proof. intros db H. unfold Sale_save. destruct (validSale s); exact H. Qed.

Lemma same_Return_create db0 r : preserves (sameLedger db0) (Return_create r).
Proof. intros db H. unfold Return_create. destruct (validReturn r); exact H. Qed.

Lemma same_RepairJob_create db0 r : preserves (sameLedger db0) (RepairJob_create r).
Proof. intros db H. unfold RepairJob_create. destruct (validRepairJob r); exact H. Qed.

Lemma same_RepairJob_save db0 id r : preserves (sameLedger db0) (RepairJob_save id r).
Proof. intros db H. unfold RepairJob_save. destruct (validRepairJob r); exact H. Qed.

Lemma same_Warranty_create db0 now w : preserves (sameLedger db0) (Warranty_create now w).
Proof. intros db H. unfold Warranty_create. destruct (validWarranty w); exact H. Qed.

Lemma same_Warranty_save db0 now id w :
  preserves (sameLedger db0) (Warranty_save now id w).
Proof. intros db H. unfold Warranty_save. destruct (validWarranty w); exact H. Qed.

Lemma same_voidWarrantiesOf db0 sale product by_ reason :
  preserves (sameLedger db0) (voidWarrantiesOf sale product by_ reason).
Proof. intros db H. exact H. Qed.

Create HintDb ledger.
#[local] Hint Resolve same_Sale_create same_Sale_save same_Return_create
  same_RepairJob_create same_RepairJob_save same_Warranty_create
  same_Warranty_save same_voidWarrantiesOf : ledger.

Ltac neutral := repeat first [ solve [auto with ledger] | step_preserves ].

Lemma same_issueWarranties db0 ctx saleId customer name phone item :
  preserves (sameLedger db0) (issueWarranties ctx saleId customer name phone item).
Proof. unfold issueWarranties, Product_findById. neutral. Qed.

Lemma onSuccess_neutral {A} (P : DB -> Prop) (m : M A) :
  ledgerOnly P -> (forall db0, preserves (sameLedger db0) m) ->
  onSuccess P m (fun _ => P).
Proof.
  intros HP Hm db db' a H E.
  specialize (Hm db db (sameLedger_refl db)). rewrite E in Hm. cbn in Hm.
  exact (HP db db' Hm H).
Qed.

(** *** The two writes of a stock movement *)

Lemma quantityOf_sameLedger db db' p :
  sameLedger db db' -> quantityOf db' p = quantityOf db p.
Proof. intros [Hs _]. unfold quantityOf. now rewrite Hs. Qed.

Lemma ledgerOnly_balanced : ledgerOnly ledgerBalanced.
Proof.
  intros db db' H Hb p. rewrite (quantityOf_sameLedger _ _ _ H).
  destruct H as [_ Ha]. rewrite Ha. apply Hb.
Qed.

Lemma ledgerChange_app product history a :
  ledgerChange product (history ++ [a])
  = ledgerChange product history
    + (if Nat.eqb (sa_product a) product then change a else 0).
Proof.
  induction history as [|b history IH]; cbn [ledgerChange app].
  - lia.
  - rewrite IH. lia.
Qed.

Lemma quantityOf_insert db product q p :
  quantityOf (withStocks db (<[product := q]> (stocks db))) p
  = if Nat.eqb product p then q else quantityOf db p.
Proof.
  unfold quantityOf. cbn. rewrite lookup_insert.
  destruct (Nat.eqb_spec product p); case_decide; try congruence; reflexivity.
Qed.

Lemma balanced_getOrCreate product :
  onSuccess ledgerBalanced (Stock_getOrCreate product)
    (fun prev db => ledgerBalanced db /\ prev = quantityOf db product).
Proof.
  intros db db' prev H E.
  pose proof (getOrCreate_result db product) as Hr.
  pose proof (quantityOf_getOrCreate db product) as Hq.
  pose proof (getOrCreate_keeps db product) as Hk.
  rewrite E in Hr, Hq, Hk. cbn in Hr, Hq, Hk. injection Hr as ->. split.
  - intros p. rewrite Hq. destruct Hk as [-> _]. apply H.
  - now rewrite Hq.
Qed.

Lemma balanced_save product prev new :
  onSuccess (fun db => ledgerBalanced db /\ prev = quantityOf db product)
    (Stock_save product new) (fun _ => pending product prev new).
Proof.
  intros db db' [] [Hb ->]. unfold Stock_save.
  destruct (new <? 0); [discriminate|]. intros [= <-] p.
  rewrite quantityOf_insert. cbn [adjustments withStocks]. rewrite <- Hb.
  destruct (Nat.eqb_spec product p); [subst|]; lia.
Qed.

Lemma balanced_adjustment a product prev new :
  sa_product a = product -> sa_previousQuantity a = prev -> sa_newQuantity a = new ->
  onSuccess (pending product prev new) (StockAdjustment_create a)
    (fun _ => ledgerBalanced).
Proof.
  intros Hp Hprev Hnew db db' [] H. unfold StockAdjustment_create.
  destruct (validStockAdjustment a); [|discriminate]. intros [= <-] p.
  cbn. rewrite ledgerChange_app, Hp. unfold change. rewrite Hprev, Hnew.
  unfold quantityOf in *. cbn. apply H.
Qed.

Lemma ledgerOnly_pending product prev new : ledgerOnly (pending product prev new).
Proof.
  intros db db' H Hp p. rewrite (quantityOf_sameLedger _ _ _ H).
  destruct H as [_ Ha]. rewrite Ha. apply Hp.
Qed.

(** One step through a handler that succeeded. *)
Ltac bind_neutral :=
  eapply onSuccess_bind;
  [ apply onSuccess_neutral; [apply ledgerOnly_balanced | intros ?; solve [neutral]]
  | intros ? ].

Ltac bind_any :=
  eapply (onSuccess_bind _ (fun _ => ledgerBalanced)); [ | intros ? ].

Ltac step_balanced :=
  lazymatch goal with
  | |- onSuccess _ (let _ := _ in _) _ => cbv zeta
  | |- onSuccess _ (ret _) _ => apply onSuccess_ret
  | |- onSuccess _ (throw _) _ => apply onSuccess_throw
  | |- onSuccess _ (lift _) _ => apply onSuccess_lift
  | |- onSuccess _ (attempt _) _ => apply onSuccess_attempt
  | |- onSuccess _ (bind ?m _) _ =>
      lazymatch m with
      | Stock_getOrCreate _ =>
          eapply onSuccess_bind; [apply balanced_getOrCreate | intros ?]
      | Stock_save _ _ =>
          eapply onSuccess_bind; [apply balanced_save | intros ?]
      | StockAdjustment_create _ =>
          eapply onSuccess_bind; [apply balanced_adjustment; reflexivity | intros ?]
      | forEach _ _ => first [ bind_neutral | bind_any ]
      | match _ with _ => _ end => first [ bind_neutral | bind_any ]
      | _ => bind_neutral
      end
  | |- onSuccess _ (StockAdjustment_create _) _ =>
      apply balanced_adjustment; reflexivity
  | |- onSuccess _ (forEach _ _) _ => apply onSuccess_forEach; intros ?
  | |- onSuccess _ (match ?x with _ => _ end) _ => destruct x
  | |- onSuccess _ _ _ =>
      apply onSuccess_neutral; [apply ledgerOnly_balanced | intros ?; solve [neutral]]
  end.

Ltac balanced := repeat step_balanced.

Lemma balanced_adjustStock ctx body :
  onSuccess ledgerBalanced (adjustStock ctx body) (fun _ => ledgerBalanced).
Proof. unfold adjustStock, Product_findById. balanced. Qed.

Lemma balanced_createSale ctx body :
  onSuccess ledgerBalanced (createSale ctx body) (fun _ => ledgerBalanced).
Proof.
  unfold createSale. destruct (cs_items body) as [|item items]; [balanced|].
  pose proof same_issueWarranties as Hw. unfold deductItem. balanced.
Qed.

Lemma balanced_voidSale ctx saleId reason :
  onSuccess ledgerBalanced (voidSale ctx saleId reason) (fun _ => ledgerBalanced).
Proof. unfold voidSale, Sale_findById, restoreItem. balanced. Qed.

Lemma balanced_createReturn ctx body :
  onSuccess ledgerBalanced (createReturn ctx body) (fun _ => ledgerBalanced).
Proof. unfold createReturn, Sale_findById, restoreReturned. balanced. Qed.

Lemma balanced_createExchange ctx body :
  onSuccess ledgerBalanced (createExchange ctx body) (fun _ => ledgerBalanced).
Proof.
  unfold createExchange, Sale_findById, restoreReturned, deductNewItem. balanced.
Qed.

Lemma balanced_consumeParts ctx repairId repair parts : forall processedParts,
  onSuccess ledgerBalanced (consumeParts ctx repairId repair parts processedParts)
    (fun _ => ledgerBalanced).
Proof.
  induction parts as [|part rest IH]; intros processedParts; cbn [consumeParts].
  - balanced.
  - unfold Product_findById.
    eapply onSuccess_bind; [apply onSuccess_gets | intros product].
    destruct product as [product|]; [|apply onSuccess_throw].
    eapply onSuccess_bind; [apply onSuccess_gets | intros stock].
    destruct (default 0 stock <? pin_quantity part); [apply onSuccess_throw|].
    destruct stock as [previousQuantity|]; [|apply onSuccess_throw].
    eapply onSuccess_bind.
    { eapply onSuccess_weaken; [apply (balanced_save (pin_productId part) previousQuantity)| |].
      - intros db [[Hb _] Hs]. split; [exact Hb|]. unfold quantityOf. now rewrite <- Hs.
      - intros a db H. exact H. }
    intros ?. eapply onSuccess_bind; [apply balanced_adjustment; reflexivity | intros ?].
    apply IH.
Qed.

Lemma balanced_completeRepair ctx repairId body :
  onSuccess ledgerBalanced (completeRepair ctx repairId body) (fun _ => ledgerBalanced).
Proof.
  unfold completeRepair, RepairJob_findById.
  eapply onSuccess_bind; [apply onSuccess_neutral;
    [apply ledgerOnly_balanced | intros ?; neutral] | intros repair].
  destruct repair as [repair|]; [|balanced].
  destruct (negb _); [balanced|].
  destruct (rj_status repair); try apply onSuccess_throw;
    (eapply onSuccess_bind; [apply balanced_consumeParts | intros ?; balanced]).
Qed.

Lemma balanced_cancelRepair ctx repairId reason :
  onSuccess ledgerBalanced (cancelRepair ctx repairId reason) (fun _ => ledgerBalanced).
Proof. unfold cancelRepair, RepairJob_findById, restorePart. balanced. Qed.

Lemma balanced_createClaim ctx warrantyId body :
  onSuccess ledgerBalanced (createClaim ctx warrantyId body) (fun _ => ledgerBalanced).
Proof.
  unfold createClaim, claimRepair, claimReplace, claimRefund, Warranty_findById,
    RepairJob_findById, Product_findById.
  balanced.
Qed.

Lemma balanced_handle cr :
  onSuccess ledgerBalanced (handle cr) (fun _ => ledgerBalanced).
Proof.
  destruct cr as [ctx []]; unfold handle; cbn [fst snd];
    (eapply onSuccess_bind; [| intros ?; apply onSuccess_ret]).
  - apply balanced_adjustStock.
  - apply balanced_createSale.
  - apply balanced_voidSale.
  - apply balanced_createReturn.
  - apply balanced_createExchange.
  - apply balanced_completeRepair.
  - apply balanced_cancelRepair.
  - apply balanced_createClaim.
Qed.

(** ** The stock update and its adjustment *)

Lemma shop_balanced : ledgerBalanced shop.
Proof.
  intros p. destruct (decide (p = 1%nat)) as [->|Hne]; [reflexivity|].
  unfold quantityOf. cbn [shop stocks]. rewrite lookup_singleton_ne by congruence.
  destruct p as [|[|p]]; [reflexivity | congruence | reflexivity].
Qed.

(** C2, counterexample: an addition whose adjustment document the schema
    refuses.  The stock record has been saved with the new quantity by then,
    and stays: the request fails with the stock at 8 and the history still
    adding up to 5. *)
Lemma adjustStock_stock_saved_adjustment_refused :
  ledgerBalanced shop /\
  snd (adjustStock clerk mislabelled shop) = Err (ValidationError "StockAdjustment") /\
  quantityOf shop 1 = 5 /\
  quantityOf (fst (adjustStock clerk mislabelled shop)) 1 = 8 /\
  adjustments (fst (adjustStock clerk mislabelled shop)) = adjustments shop /\
  ~ ledgerBalanced (fst (adjustStock clerk mislabelled shop)).
Proof.
  split; [exact shop_balanced|].
  repeat (split; [reflexivity|]).
  intros H. specialize (H 1%nat). vm_compute in H. discriminate.
Qed.

(** Every way [adjustStock] can end: with both writes made, with the stock
    saved and the adjustment refused, or with neither. *)
Lemma adjustStock_outcomes ctx body db :
  match adjustStock ctx body db with
  | (db', Ok moved) =>
      exists productId a,
        as_productId body = Some productId /\
        previousQuantity moved = quantityOf db productId /\
        quantityOf db' productId = newQuantity moved /\
        adjustments db' = adjustments db ++ [a] /\
        sa_product a = productId /\
        sa_previousQuantity a = previousQuantity moved /\
        sa_newQuantity a = newQuantity moved
  | (db', Err (ValidationError _)) =>
      adjustments db' = adjustments db
  | (db', Err _) =>
      (forall p, quantityOf db' p = quantityOf db p) /\
      adjustments db' = adjustments db
  end.
Proof.
  unfold adjustStock.
  destruct (as_productId body) as [productId|]; [|cbn; auto].
  destruct (as_type body) as [type|]; [|cbn; auto].
  destruct (as_quantity body) as [quantity|]; [|cbn; auto].
  destruct (_ || _)%bool; [cbn; auto|].
  destruct (negb _); [cbn; auto|].
  destruct (quantity <=? 0); [cbn; auto|].
  unfold bind, Product_findById, gets.
  destruct (products db !! productId); [|cbn; auto].
  pose proof (getOrCreate_result db productId) as Hr.
  pose proof (quantityOf_getOrCreate db productId) as Hq.
  pose proof (getOrCreate_keeps db productId) as Hk.
  destruct (Stock_getOrCreate productId db) as [db1 r]. cbn in Hr, Hq, Hk. subst r.
  destruct Hk as [Ha _].
  match goal with
  | |- context [if ?n <? 0 then _ else _] => set (new := n); destruct (new <? 0)
  end; [cbn; split; [exact Hq | exact Ha]|].
  unfold Stock_save. destruct (new <? 0); [cbn; exact Ha|].
  unfold StockAdjustment_create.
  match goal with
  | |- context [validStockAdjustment ?x] => set (a := x); destruct (validStockAdjustment a)
  end; [|cbn; exact Ha].
  unfold ret. exists productId, a. cbn [previousQuantity newQuantity].
  repeat split; try reflexivity.
  - unfold quantityOf. cbn [stocks withAdjustments withStocks].
    now rewrite lookup_insert_eq.
  - cbn. now rewrite Ha.
Qed.

(** C2, amended: the stock record is saved first and its adjustment
    created next, as two writes without a transaction.  When a handler
    completes successfully every stock update it made has its adjustment:
    if the quantity on hand of every product was the sum of the changes in
    its adjustment history before the request, it is so after it.  For
    [adjustStock], a request that fails has written neither, unless the
    validation error of a write stopped it, and then no adjustment was
    written. *)
Theorem ledger_writes_paired_on_success (cr : Ctx * Request) (db db' : DB) :
  ledgerBalanced db ->
  handle cr db = (db', Ok tt) ->
  ledgerBalanced db' /\
  forall ctx body,
    match adjustStock ctx body db with
    | (db1, Ok moved) =>
        exists productId a,
          as_productId body = Some productId /\
          previousQuantity moved = quantityOf db productId /\
          quantityOf db1 productId = newQuantity moved /\
          adjustments db1 = adjustments db ++ [a] /\
          sa_product a = productId /\
          sa_previousQuantity a = previousQuantity moved /\
          sa_newQuantity a = newQuantity moved
    | (db1, Err (ValidationError _)) =>
        adjustments db1 = adjustments db
    | (db1, Err _) =>
        (forall p, quantityOf db1 p = quantityOf db p) /\
        adjustments db1 = adjustments db
    end.
Proof.
  intros Hb Hrun. split.
  - exact (balanced_handle cr db db' tt Hb Hrun).
  - intros ctx body. apply adjustStock_outcomes.
Qed.

(** A sale of two phones from the shop: the stock goes from 5 to 3 and the
    history gains the adjustment that says so. *)
Lemma ledger_writes_paired_on_success_witness :
  ledgerBalanced (fst (handle (clerk, CreateSale (saleOf [line 2])) shop)) /\
  quantityOf (fst (handle (clerk, CreateSale (saleOf [line 2])) shop)) 1 = 3 /\
  length (adjustments (fst (handle (clerk, CreateSale (saleOf [line 2])) shop))) = 2%nat.
Proof.
  split; [|split; reflexivity].
  refine (proj1 (ledger_writes_paired_on_success
                   (clerk, CreateSale (saleOf [line 2])) shop _ shop_balanced _)).
  vm_compute. reflexivity.
Defined.

(** ** The direction table of stock adjustments *)

(** An adjustment of a type the table does not hold is refused. *)
Lemma adjustStock_unknown_type ctx body db productId type quantity :
  as_productId body = Some productId ->
  as_type body = Some type ->
  as_quantity body = Some quantity ->
  type <> "" -> quantity <> 0 ->
  ~ In type (values ADJUSTMENT_TYPES) ->
  adjustStock ctx body db = (db, Err (AppError InvalidAdjustmentType 400)).
Proof.
  intros Hp Ht Hq Hne Hq0 Hnot. unfold adjustStock. rewrite Hp, Ht, Hq.
  replace (String.eqb type "") with false
    by (symmetry; now apply String.eqb_neq).
  replace (Z.eqb quantity 0) with false by (symmetry; now apply Z.eqb_neq).
  cbn [orb].
  destruct (includes (values ADJUSTMENT_TYPES) type) eqn:E; [|reflexivity].
  apply includes_In in E. contradiction.
Qed.

(** What the code does for the types it accepts: the four additive types
    and CORRECTION add the quantity, the five reducing types subtract it. *)
Lemma adjustStock_direction ctx body db db' moved type quantity :
  as_type body = Some type ->
  as_quantity body = Some quantity ->
  adjustStock ctx body db = (db', Ok moved) ->
  (In type ["ADDITION"; "PURCHASE"; "RETURN"; "TRANSFER_IN"; "CORRECTION"] ->
   newQuantity moved = previousQuantity moved + quantity) /\
  (In type ["REDUCTION"; "SALE"; "DAMAGE"; "THEFT"; "TRANSFER_OUT"] ->
   newQuantity moved = previousQuantity moved - quantity).
Proof.
  intros Ht Hq. unfold adjustStock. rewrite Ht, Hq.
  destruct (as_productId body) as [productId|]; [|discriminate].
  destruct (_ || _)%bool; [discriminate|].
  destruct (negb _); [discriminate|].
  destruct (quantity <=? 0); [discriminate|].
  unfold bind, Product_findById, gets.
  destruct (products db !! productId); [|discriminate].
  destruct (Stock_getOrCreate productId db) as [db1 [prev|e]]; [|discriminate].
  match goal with
  | |- context [if ?n <? 0 then _ else _] => set (new := n); destruct (new <? 0)
  end; [discriminate|].
  destruct (Stock_save productId new db1) as [db2 [[]|e]]; [|discriminate].
  destruct (StockAdjustment_create _ db2) as [db3 [[]|e]]; [|discriminate].
  intros [= _ <-]. cbn [newQuantity previousQuantity]. subst new. split; intros Hin.
  - apply includes_In in Hin. rewrite Hin. now destruct (String.eqb type "CORRECTION").
  - assert (includes ["ADDITION"; "PURCHASE"; "RETURN"; "TRANSFER_IN"; "CORRECTION"]
                     type = false) as ->
      by (cbn in Hin; repeat (destruct Hin as [<-|Hin]; [reflexivity|]); contradiction).
    now destruct (String.eqb type "CORRECTION").
Qed.

(** C4, the code at the inputs where it leaves the table: WARRANTY_REPLACE is
    no entry of ADJUSTMENT_TYPES, so [adjustStock] refuses it as an invalid
    type and the REPLACE claim, which reads [ADJUSTMENT_TYPES.WARRANTY_REPLACE],
    saves the stock at 4 and then fails to record its adjustment; a
    CORRECTION by 2 can only add, 5 becomes 7, while [getAdjustmentTypes]
    reports the direction of CORRECTION as OUT. *)
Theorem adjustStock_off_the_direction_table :
  prop ADJUSTMENT_TYPES "WARRANTY_REPLACE" = None /\
  adjustStock clerk (adjustBody "WARRANTY_REPLACE" 1) shop
  = (shop, Err (AppError InvalidAdjustmentType 400)) /\
  snd (createClaim clerk 0%nat (claimWith "REPLACE") servicedShop)
  = Err (ValidationError "StockAdjustment") /\
  quantityOf (fst (createClaim clerk 0%nat (claimWith "REPLACE") servicedShop)) 1 = 4 /\
  adjustments (fst (createClaim clerk 0%nat (claimWith "REPLACE") servicedShop))
  = adjustments servicedShop /\
  snd (adjustStock clerk (adjustBody "CORRECTION" 2) shop)
  = Ok {| previousQuantity := 5; newQuantity := 7 |} /\
  reportedDirection "CORRECTION" = "OUT".
Proof. repeat split; vm_compute; reflexivity. Qed.

(** ** Warranty claims resolved by a refund *)

Lemma validReturn_needs_type r : rt_returnType r = None -> validReturn r = false.
Proof.
  intros H. unfold validReturn. rewrite H. cbn [requiredS].
  now rewrite !andb_false_r.
Qed.

Lemma bind_ok {A B} (m : M A) (f : A -> M B) db db' a :
  m db = (db', Ok a) -> bind m f db = f a db'.
Proof. intros H. unfold bind. now rewrite H. Qed.

Lemma bind_err {A B} (m : M A) (f : A -> M B) db db' e :
  m db = (db', Err e) -> bind m f db = (db', Err e).
Proof. intros H. unfold bind. now rewrite H. Qed.

(** A REFUND claim never gets past [Return.create]: the return type it
    passes, [RETURN_TYPES.WARRANTY_REFUND], does not exist. *)
Lemma createClaim_refund_always_fails ctx warrantyId body db :
  cc_resolution body = Some "REFUND" ->
  exists e, createClaim ctx warrantyId body db = (db, Err e).
Proof.
  intros Hres. unfold createClaim.
  destruct (negb (truthyS (cc_issue body))); [eexists; reflexivity|].
  erewrite bind_ok by reflexivity.
  destruct (warranties db !! warrantyId) as [warranty|]; [|eexists; reflexivity].
  destruct (negb (checkValidity (now ctx) warranty)); [eexists; reflexivity|].
  rewrite Hres.
  replace (strictEq (Some "REFUND") (prop CLAIM_RESOLUTIONS "REPAIR")) with false
    by reflexivity.
  replace (strictEq (Some "REFUND") (prop CLAIM_RESOLUTIONS "REPLACE")) with false
    by reflexivity.
  replace (strictEq (Some "REFUND") (prop CLAIM_RESOLUTIONS "REFUND")) with true
    by reflexivity.
  destruct (products db !! w_product warranty) as [product|] eqn:Hp.
  - exists (ValidationError "Return"). apply bind_err. unfold claimRefund.
    erewrite bind_ok by reflexivity. cbv beta. rewrite Hp.
    erewrite bind_ok by reflexivity. erewrite bind_ok by reflexivity.
    apply bind_err. unfold Return_create.
    rewrite validReturn_needs_type by reflexivity. reflexivity.
  - exists TypeError. apply bind_err. unfold claimRefund.
    erewrite bind_ok by reflexivity. cbv beta. now rewrite Hp.
Qed.

(** C5, the code at a REFUND claim on a valid warranty whose sale line
    totals 150: the claim fails with the validation error of [Return.create],
    no return record exists afterwards, and the warranty is as it was, ACTIVE
    and without a claim. *)
Theorem createClaim_refund_creates_no_return :
  checkValidity (now clerk) phoneWarranty = true /\
  prop RETURN_TYPES "WARRANTY_REFUND" = None /\
  createClaim clerk 0%nat (claimWith "REFUND") servicedShop
  = (servicedShop, Err (ValidationError "Return")) /\
  returns servicedShop = [] /\
  warranties servicedShop = [phoneWarranty] /\
  w_status phoneWarranty = ACTIVE.
Proof. repeat split; vm_compute; reflexivity. Qed.

(** ** The same product on two lines of a sale *)

(** A line whose deduction would leave less than nothing is stopped by
    [stock.save()], after the sale itself was stored. *)
Lemma deductItem_overdraw ctx saleId item db :
  quantityOf db (si_product item) - si_quantity item < 0 ->
  deductItem ctx saleId item db
  = (fst (Stock_getOrCreate (si_product item) db), Err (ValidationError "Stock")).
Proof.
  intros H. unfold deductItem.
  pose proof (getOrCreate_result db (si_product item)) as Hr.
  destruct (Stock_getOrCreate (si_product item) db) as [db1 r] eqn:E.
  cbn in Hr. subst r. erewrite bind_ok by exact E.
  apply bind_err. unfold Stock_save.
  now replace (quantityOf db (si_product item) - si_quantity item <? 0) with true
    by (symmetry; apply Z.ltb_lt; lia).
Qed.

(** C9: with five phones in stock, a sale that lists the phone on two lines
    of three passes the stock check of every line, each line being checked
    against the five on file, although six are asked for; the sale is
    stored, the first line takes the stock to 2, and the second line then
    asks [stock.save()] for 2 - 3 = -1, which the schema refuses: the request
    fails with the sale on file and the stock at 2. *)
Theorem createSale_checks_each_line_alone :
  Forall (fun item => i_quantity item <= quantityOf shop (i_productId item))
         [line 3; line 3] /\
  (exists processed,
     processItems shop [line 3; line 3]
       {| processedItems := []; subtotal := 0; taxTotal := 0 |} = Ok processed /\
     List.map si_quantity (processedItems processed) = [3; 3]) /\
  quantityOf shop 1 < 3 + 3 /\
  snd (createSale clerk (saleOf [line 3; line 3]) shop) = Err (ValidationError "Stock") /\
  length (sales (fst (createSale clerk (saleOf [line 3; line 3]) shop))) = 1%nat /\
  quantityOf (fst (createSale clerk (saleOf [line 3; line 3]) shop)) 1 = 2 /\
  quantityOf (fst (createSale clerk (saleOf [line 3; line 3]) shop)) 1 - 3 < 0 /\
  List.map entry (adjustments (fst (createSale clerk (saleOf [line 3; line 3]) shop)))
  = [(1%nat, Some "PURCHASE", 5); (1%nat, Some "SALE", 3)].
Proof.
  split; [repeat constructor; vm_compute; discriminate|].
  split; [eexists; split; vm_compute; reflexivity|].
  repeat split; vm_compute; reflexivity.
Qed.

(** ** A sale and its void *)

Lemma bind_inv {A B} (m : M A) (f : A -> M B) db db' b :
  bind m f db = (db', Ok b) ->
  exists db1 a, m db = (db1, Ok a) /\ f a db1 = (db', Ok b).
Proof.
  unfold bind. destruct (m db) as [db1 [a|e]]; [|discriminate].
  intros H. now exists db1, a.
Qed.

(** What a stock movement that went through has done: the stock record of
    the product is saved with the new quantity, read off the quantity on
    hand, and the adjustment is the last entry of the history. *)
Lemma stock_movement_run product (newOf : Z -> Z) (adjOf : Z -> StockAdjustment) db db' :
  (do prev <- Stock_getOrCreate product;
   exec Stock_save product (newOf prev);
   StockAdjustment_create (adjOf prev)) db = (db', Ok tt) ->
  (forall p, quantityOf db' p
             = if Nat.eqb product p then newOf (quantityOf db product)
               else quantityOf db p) /\
  adjustments db' = adjustments db ++ [adjOf (quantityOf db product)] /\
  0 <= newOf (quantityOf db product) /\
  validStockAdjustment (adjOf (quantityOf db product)) = true /\
  sameDocuments db db'.
Proof.
  intros H. apply bind_inv in H. destruct H as [db1 [prev [H1 H]]].
  pose proof (getOrCreate_result db product) as Hr.
  pose proof (quantityOf_getOrCreate db product) as Hq.
  pose proof (getOrCreate_keeps db product) as Hk.
  rewrite H1 in Hr, Hq, Hk. cbn in Hr, Hq, Hk. injection Hr as ->.
  apply bind_inv in H. destruct H as [db2 [[] [H2 H3]]].
  unfold Stock_save in H2.
  destruct (newOf (quantityOf db product) <? 0) eqn:Hneg; [discriminate|].
  injection H2 as <-. unfold StockAdjustment_create in H3.
  destruct (validStockAdjustment _) eqn:Hv; [|discriminate].
  injection H3 as <-.
  destruct Hk as (Ha & Hs & Hrt & Hrp & Hw & Hp & _).
  split; [|split; [|split; [|split]]].
  - intros p. unfold quantityOf at 1. cbn [stocks withAdjustments withStocks].
    rewrite lookup_insert.
    destruct (Nat.eqb_spec product p); case_decide; try congruence; [reflexivity|].
    apply Hq.
  - cbn. now rewrite Ha.
  - lia.
  - reflexivity.
  - repeat split; cbn; assumption.
Qed.

Lemma sameDocuments_refl db : sameDocuments db db.
Proof. repeat split. Qed.

Lemma sameDocuments_trans db1 db2 db3 :
  sameDocuments db1 db2 -> sameDocuments db2 db3 -> sameDocuments db1 db3.
Proof.
  intros (A1 & A2 & A3 & A4 & A5) (B1 & B2 & B3 & B4 & B5).
  repeat split; congruence.
Qed.

(** The inventory loop of [createSale], when every line went through. *)
Lemma forEach_deductItem ctx saleId items : forall db db',
  forEach (deductItem ctx saleId) items db = (db', Ok tt) ->
  (forall p, quantityOf db' p = quantityOf db p - unitsOf p items) /\
  List.map entry (adjustments db')
  = List.map entry (adjustments db)
    ++ List.map (fun item => (si_product item, Some "SALE", si_quantity item)) items /\
  sameDocuments db db'.
Proof.
  induction items as [|item items IH]; intros db db' H; cbn [forEach] in H.
  - injection H as <-. cbn [unitsOf List.map]. rewrite app_nil_r.
    split; [intros p; lia | split; [reflexivity | apply sameDocuments_refl]].
  - apply bind_inv in H. destruct H as [db1 [[] [H1 H2]]].
    unfold deductItem in H1. apply stock_movement_run in H1.
    destruct H1 as (Hq1 & Ha1 & _ & _ & Hd1).
    apply IH in H2. destruct H2 as (Hq2 & Ha2 & Hd2).
    split; [|split].
    + intros p. rewrite Hq2, Hq1. cbn [unitsOf].
      destruct (Nat.eqb_spec (si_product item) p) as [<-|]; cbv beta; lia.
    + rewrite Ha2, Ha1, List.map_app. cbn [List.map entry sa_product sa_type sa_quantity].
      now rewrite <- app_assoc.
    + exact (sameDocuments_trans _ _ _ Hd1 Hd2).
Qed.

(** The inventory loop of [voidSale], when every line went through. *)
Lemma forEach_restoreItem ctx saleId sale reason items : forall db db',
  forEach (restoreItem ctx saleId sale reason) items db = (db', Ok tt) ->
  (forall p, quantityOf db' p = quantityOf db p + unitsOf p items) /\
  List.map entry (adjustments db')
  = List.map entry (adjustments db)
    ++ List.map (fun item => (si_product item, Some "RETURN", si_quantity item)) items /\
  sameDocuments db db'.
Proof.
  induction items as [|item items IH]; intros db db' H; cbn [forEach] in H.
  - injection H as <-. cbn [unitsOf List.map]. rewrite app_nil_r.
    split; [intros p; lia | split; [reflexivity | apply sameDocuments_refl]].
  - apply bind_inv in H. destruct H as [db1 [[] [H1 H2]]].
    unfold restoreItem in H1. apply stock_movement_run in H1.
    destruct H1 as (Hq1 & Ha1 & _ & _ & Hd1).
    apply IH in H2. destruct H2 as (Hq2 & Ha2 & Hd2).
    split; [|split].
    + intros p. rewrite Hq2, Hq1. cbn [unitsOf].
      destruct (Nat.eqb_spec (si_product item) p) as [<-|]; cbv beta; lia.
    + rewrite Ha2, Ha1, List.map_app. cbn [List.map entry sa_product sa_type sa_quantity].
      now rewrite <- app_assoc.
    + exact (sameDocuments_trans _ _ _ Hd1 Hd2).
Qed.

Lemma books_Warranty_create db0 now w : preserves (sameBooks db0) (Warranty_create now w).
Proof. intros db H. unfold Warranty_create. destruct (validWarranty w); exact H. Qed.

Lemma books_issueWarranties db0 ctx saleId customer name phone item :
  preserves (sameBooks db0) (issueWarranties ctx saleId customer name phone item).
Proof.
  pose proof books_Warranty_create as Hw.
  unfold issueWarranties, Product_findById. repeat first [ solve [auto] | step_preserves ].
Qed.

Lemma preserves_run {A} (I : DB -> DB -> Prop) (m : M A) db db' r :
  (forall db0, preserves (I db0) m) -> I db db -> m db = (db', r) -> I db db'.
Proof. intros Hm H0 E. specialize (Hm db db H0). now rewrite E in Hm. Qed.

Lemma sameBooks_refl db : sameBooks db db.
Proof. split; [apply sameLedger_refl | reflexivity]. Qed.

(** What a sale that was created has done to the books. *)
Lemma createSale_ok ctx body db db' saleId :
  createSale ctx body db = (db', Ok saleId) ->
  exists sale,
    saleId = length (sales db) /\
    sales db' = sales db ++ [sale] /\
    s_status sale = SALE_COMPLETED /\
    (exists processed,
       processItems db (cs_items body)
         {| processedItems := []; subtotal := 0; taxTotal := 0 |} = Ok processed /\
       s_items sale = processedItems processed) /\
    (forall p, quantityOf db' p = quantityOf db p - unitsOf p (s_items sale)) /\
    List.map entry (adjustments db')
    = List.map entry (adjustments db) ++ List.map saleEntry (s_items sale).
Proof.
  unfold createSale. destruct (cs_items body) as [|item items] eqn:Hitems;
    [discriminate|].
  intros H. apply bind_inv in H. destruct H as (db0 & processed & Hproc & H).
  unfold attempt in Hproc. injection Hproc as <- Hproc.
  cbv zeta in H. apply bind_inv in H. destruct H as (db1 & sid & Hsale & H).
  unfold Sale_create in Hsale.
  match type of Hsale with
  | context [validSale ?s] => set (sale := s) in *; destruct (validSale sale)
  end; [|discriminate].
  injection Hsale as <- <-.
  apply bind_inv in H. destruct H as (db2 & [] & Hloop & H).
  apply forEach_deductItem in Hloop. destruct Hloop as (Hq & Ha & Hd).
  apply bind_inv in H. destruct H as (db3 & [] & Hw & H).
  injection H as <- <-.
  assert (sameBooks db2 db3) as [[Hs3 Ha3] Hsales3].
  { eapply (preserves_run sameBooks); [| apply sameBooks_refl | exact Hw].
    intros db0'. pose proof books_issueWarranties as Hi.
    repeat first [ solve [auto] | step_preserves ]. }
  exists sale. repeat split.
  - rewrite Hsales3. destruct Hd as (_ & -> & _). reflexivity.
  - exists processed. split; [exact Hproc | reflexivity].
  - intros p. unfold quantityOf. rewrite Hs3. apply Hq.
  - rewrite Ha3. exact Ha.
Qed.

(** What a void that went through has done to the books. *)
Lemma voidSale_ok ctx saleId reason db db' sale' :
  voidSale ctx saleId reason db = (db', Ok sale') ->
  exists sale text,
    reason = Some text /\
    sales db !! saleId = Some sale /\
    s_status sale <> SALE_VOIDED /\
    sale' = voided ctx sale text /\
    sales db' = <[saleId := sale']> (sales db) /\
    (forall p, quantityOf db' p = quantityOf db p + unitsOf p (s_items sale)) /\
    List.map entry (adjustments db')
    = List.map entry (adjustments db) ++ List.map returnEntry (s_items sale).
Proof.
  unfold voidSale. destruct reason as [text|]; [|discriminate].
  destruct (negb (truthyS (Some text))); [discriminate|].
  intros H. apply bind_inv in H. destruct H as (db0 & found & Hfind & H).
  unfold Sale_findById, gets in Hfind. injection Hfind as <- <-.
  destruct (sales db !! saleId) as [sale|] eqn:Hsale; [|discriminate].
  assert (s_status sale <> SALE_VOIDED /\
          (exec forEach (restoreItem ctx saleId sale (default "" (Some text))) (s_items sale);
           exec Sale_save saleId (voided ctx sale (default "" (Some text)));
           ret (voided ctx sale (default "" (Some text)))) db = (db', Ok sale'))
    as [Hst H'] by (destruct (s_status sale); [split; [discriminate | exact H] ..| discriminate]).
  clear H. cbn [default] in H'.
  apply bind_inv in H'. destruct H' as (db1 & [] & Hloop & H).
  apply forEach_restoreItem in Hloop. destruct Hloop as (Hq & Ha & Hd).
  apply bind_inv in H. destruct H as (db2 & [] & Hsave & H).
  injection H as <- <-. unfold Sale_save in Hsave.
  destruct (validSale _); [|discriminate]. injection Hsave as <-.
  exists sale, text. repeat split; try assumption.
  cbn. destruct Hd as (_ & -> & _). reflexivity.
Qed.

(** C6, amended: a sale that a [createSale] request completed and that
    [voidSale] then voided leaves the stock of every product at its level
    before the sale: the void puts back, line by line, the quantity the sale
    took out (the history gains one SALE adjustment per line and then one
    RETURN adjustment per line, for the same product and quantity), the sale
    ends VOIDED, and voiding it again fails with nothing written. *)
Theorem voidSale_restores_stock ctx body db db1 saleId ctx' reason db2 sale' :
  createSale ctx body db = (db1, Ok saleId) ->
  voidSale ctx' saleId reason db1 = (db2, Ok sale') ->
  (forall p, quantityOf db2 p = quantityOf db p) /\
  List.map entry (adjustments db2)
  = List.map entry (adjustments db)
    ++ List.map saleEntry (s_items sale') ++ List.map returnEntry (s_items sale') /\
  (forall p, quantityOf db1 p = quantityOf db p - unitsOf p (s_items sale')) /\
  s_status sale' = SALE_VOIDED /\
  sales db2 !! saleId = Some sale' /\
  (forall ctx'' again,
     truthyS again = true ->
     voidSale ctx'' saleId again db2 = (db2, Err (AppError SaleAlreadyVoided 400))).
Proof.
  intros Hcreate Hvoid.
  apply createSale_ok in Hcreate.
  destruct Hcreate as (sale & Hid & Hsales & Hst & _ & Hq1 & Ha1).
  apply voidSale_ok in Hvoid.
  destruct Hvoid as (sale0 & text & -> & Hfind & _ & -> & Hsales2 & Hq2 & Ha2).
  assert (sale0 = sale) as ->.
  { rewrite Hsales, Hid in Hfind.
    rewrite lookup_app_r in Hfind by lia.
    rewrite Nat.sub_diag in Hfind. now injection Hfind. }
  assert (Hlook : sales db2 !! saleId = Some (voided ctx' sale text)).
  { rewrite Hsales2. apply list_lookup_insert_eq.
    rewrite Hsales, Hid, length_app. cbn. lia. }
  cbn [voided s_items s_status]. repeat split.
  - intros p. rewrite Hq2, Hq1. lia.
  - rewrite Ha2, Ha1. now rewrite <- app_assoc.
  - exact Hq1.
  - exact Hlook.
  - intros ctx'' again Hagain. unfold voidSale. rewrite Hagain. cbn [negb].
    erewrite bind_ok by reflexivity. now rewrite Hlook.
Qed.

(** The sale of two phones of the spec's example, and its void: 5, then 3,
    then 5 again. *)
Lemma voidSale_restores_stock_witness :
  quantityOf shop 1 = 5 /\
  quantityOf (fst (createSale clerk (saleOf [line 2]) shop)) 1 = 3 /\
  (forall p,
     quantityOf
       (fst (voidSale clerk 0%nat (Some "wrong model")
               (fst (createSale clerk (saleOf [line 2]) shop)))) p
     = quantityOf shop p).
Proof.
  split; [reflexivity|]. split; [reflexivity|].
  refine (proj1 (voidSale_restores_stock clerk (saleOf [line 2]) shop
                   (fst (createSale clerk (saleOf [line 2]) shop)) 0%nat
                   clerk (Some "wrong model")
                   (fst (voidSale clerk 0%nat (Some "wrong model")
                           (fst (createSale clerk (saleOf [line 2]) shop))))
                   (voided clerk
                      (default soldPhone
                         (sales (fst (createSale clerk (saleOf [line 2]) shop)) !! 0%nat))
                      "wrong model")
                   _ _)).
  - vm_compute. reflexivity.
  - vm_compute. reflexivity.
Defined.

(** C6, counterexample: a sale that [createSale] created is not always
    one its request completed.  The sale with the phone on two lines of three
    fails in its deduction loop, after the sale was stored as COMPLETED and
    after its first line was deducted; the stored sale can be voided, and the
    void puts both lines back: 5, then 2, then 8, not the 5 before the
    sale. *)
Lemma voidSale_after_failed_createSale :
  snd (createSale clerk (saleOf [line 3; line 3]) shop) = Err (ValidationError "Stock") /\
  option_map s_status (sales (fst (createSale clerk (saleOf [line 3; line 3]) shop)) !! 0%nat)
  = Some SALE_COMPLETED /\
  quantityOf shop 1 = 5 /\
  quantityOf (fst (createSale clerk (saleOf [line 3; line 3]) shop)) 1 = 2 /\
  option_map s_status
    (match snd (voidSale clerk 0%nat (Some "never completed")
                  (fst (createSale clerk (saleOf [line 3; line 3]) shop))) with
     | Ok sale' => Some sale'
     | Err _ => None
     end) = Some SALE_VOIDED /\
  quantityOf
    (fst (voidSale clerk 0%nat (Some "never completed")
            (fst (createSale clerk (saleOf [line 3; line 3]) shop)))) 1 = 8.
Proof. repeat split; vm_compute; reflexivity. Qed.

(** ** Returns and exchanges *)

Lemma processReturnItems_ok originalSale items : forall acc res,
  processReturnItems originalSale items acc = Ok res ->
  exists booked,
    returnedItems res = returnedItems acc ++ booked /\
    Forall2 (booksLine originalSale) items booked /\
    totalRefund res
    = List.fold_left Qplus (List.map (refundOf originalSale) items) (totalRefund acc).
Proof.
  induction items as [|item items IH]; intros acc res H; cbn [processReturnItems] in H.
  - injection H as <-. exists []. rewrite app_nil_r. repeat split. constructor.
  - destruct (s_items originalSale !! rin_saleItemId item) as [saleItem|] eqn:Hline;
      [|discriminate].
    destruct (si_quantity saleItem <? _) eqn:Hqty; [discriminate|].
    apply IH in H. destruct H as (booked & Hitems & Hall & Htotal).
    cbn [returnedItems totalRefund] in Hitems, Htotal.
    eexists (_ :: booked). split; [|split].
    + rewrite Hitems, <- app_assoc. reflexivity.
    + constructor; [|exact Hall]. exists saleItem.
      cbn [ri_quantity ri_product ri_unitPrice ri_refundAmount].
      repeat split; try assumption. apply Z.ltb_ge in Hqty. exact Hqty.
    + rewrite Htotal. cbn [List.map List.fold_left].
      assert (refundOf originalSale item
              = itemRefund saleItem (orZ (rin_quantity item) (si_quantity saleItem)))
        as -> by (unfold refundOf; now rewrite Hline).
      reflexivity.
Qed.

(** The stock loops of a return leave the return records alone. *)
Lemma returns_restoreReturned ctx returnId saleId text voidText item db0 :
  preserves (fun db => returns db = returns db0)
    (restoreReturned ctx returnId saleId text voidText item).
Proof.
  intros db H. unfold restoreReturned, bind, Stock_getOrCreate, Stock_save,
    StockAdjustment_create, voidWarrantiesOf.
  destruct (stocks db !! ri_product item); cbn;
    repeat match goal with
           | |- context [if ?c then _ else _] => destruct c; cbn
           end; exact H.
Qed.

Lemma returns_deductNewItem ctx saleId item db0 :
  preserves (fun db => returns db = returns db0) (deductNewItem ctx saleId item).
Proof.
  intros db H. unfold deductNewItem, bind, Stock_getOrCreate, Stock_save,
    StockAdjustment_create.
  destruct (stocks db !! si_product item); cbn;
    repeat match goal with
           | |- context [if ?c then _ else _] => destruct c; cbn
           end; exact H.
Qed.

Lemma validReturn_items r :
  validReturn r = true -> Forall (fun item => 1 <= ri_quantity item) (rt_items r).
Proof.
  unfold validReturn. rewrite !andb_true_iff. intros H.
  decompose [and] H. clear H.
  match goal with
  | Hf : List.forallb validReturnItem _ = true |- _ =>
      rewrite List.forallb_forall in Hf; apply List.Forall_forall; intros x Hx;
      specialize (Hf x Hx); unfold validReturnItem in Hf;
      rewrite !andb_true_iff in Hf; decompose [and] Hf
  end.
  now apply Z.leb_le.
Qed.

(** C7, amended: a return that [createReturn] accepts is of a sale that is
    not voided; each of its items is a line of that sale (found by the id of
    the embedded item) with 1 <= returnQty <= the quantity purchased on that
    line, and its refund is unitPrice x returnQty minus the whole discount of
    the line, rounded to two decimals; totalRefund is the sum of the item
    refunds before rounding, rounded to two decimals. *)
Theorem createReturn_refund_amounts ctx body db db' made :
  createReturn ctx body db = (db', Ok made) ->
  exists originalSaleId originalSale,
    cr_originalSaleId body = Some originalSaleId /\
    sales db !! originalSaleId = Some originalSale /\
    s_status originalSale <> SALE_VOIDED /\
    rt_returnType made = Some "REFUND" /\
    Forall2 (booksLine originalSale) (cr_items body) (rt_items made) /\
    Forall (fun item => 1 <= ri_quantity item) (rt_items made) /\
    rt_totalRefund made
    = round2 (Qsum (List.map (refundOf originalSale) (cr_items body))) /\
    returns db' = returns db ++ [made].
Proof.
  unfold createReturn.
  destruct (cr_originalSaleId body) as [originalSaleId|]; [|discriminate].
  destruct (cr_items body) as [|item0 items0] eqn:Hitems; [discriminate|].
  rewrite <- Hitems. clear Hitems.
  destruct (negb (truthyS (cr_reason body))); [discriminate|].
  intros H. apply bind_inv in H. destruct H as (db0 & found & Hfind & H).
  unfold Sale_findById, gets in Hfind. injection Hfind as <- <-.
  destruct (sales db !! originalSaleId) as [originalSale|] eqn:Hsale; [|discriminate].
  assert (Hst : s_status originalSale <> SALE_VOIDED)
    by (destruct (s_status originalSale); [discriminate..| discriminate H]).
  assert (exists processed,
            processReturnItems originalSale (cr_items body)
              {| returnedItems := []; totalRefund := 0 |} = Ok processed /\
            exists returnId db1,
              Return_create
                {| rt_returnNumber := returnNumber ctx;
                   rt_originalSale := Some originalSaleId;
                   rt_returnType := prop RETURN_TYPES "REFUND";
                   rt_items := returnedItems processed;
                   rt_totalRefund := round2 (totalRefund processed);
                   rt_exchangeSale := None;
                   rt_exchangeAmountDue := 0;
                   rt_reason := Some (default "" (cr_reason body));
                   rt_refundMethod := Some (orS (cr_refundMethod body) "CASH");
                   rt_status := prop RETURN_STATUS "COMPLETED";
                   rt_notes := cr_notes body;
                   rt_createdBy := userId ctx |} db = (db1, Ok returnId) /\
              returns db' = returns db1 /\
              made = {| rt_returnNumber := returnNumber ctx;
                       rt_originalSale := Some originalSaleId;
                       rt_returnType := prop RETURN_TYPES "REFUND";
                       rt_items := returnedItems processed;
                       rt_totalRefund := round2 (totalRefund processed);
                       rt_exchangeSale := None;
                       rt_exchangeAmountDue := 0;
                       rt_reason := Some (default "" (cr_reason body));
                       rt_refundMethod := Some (orS (cr_refundMethod body) "CASH");
                       rt_status := prop RETURN_STATUS "COMPLETED";
                       rt_notes := cr_notes body;
                       rt_createdBy := userId ctx |})
    as (processed & Hproc & returnId & db1 & Hcreate & Hreturns & ->).
  { assert (H' :
      (do processed <-
         lift (processReturnItems originalSale (cr_items body)
                 {| returnedItems := []; totalRefund := 0 |});
       let returnRecord :=
         {| rt_returnNumber := returnNumber ctx;
            rt_originalSale := Some originalSaleId;
            rt_returnType := prop RETURN_TYPES "REFUND";
            rt_items := returnedItems processed;
            rt_totalRefund := round2 (totalRefund processed);
            rt_exchangeSale := None;
            rt_exchangeAmountDue := 0;
            rt_reason := Some (default "" (cr_reason body));
            rt_refundMethod := Some (orS (cr_refundMethod body) "CASH");
            rt_status := prop RETURN_STATUS "COMPLETED";
            rt_notes := cr_notes body;
            rt_createdBy := userId ctx |} in
       do returnId <- Return_create returnRecord;
       exec forEach
         (restoreReturned ctx returnId originalSaleId
            ("Return: " +:+ returnNumber ctx +:+ " - " +:+ default "" (cr_reason body))
            ("Product returned: " +:+ returnNumber ctx))
         (returnedItems processed);
       ret returnRecord) db = (db', Ok made))
      by (destruct (s_status originalSale); [exact H | exact H | contradiction]).
    clear H. apply bind_inv in H'. destruct H' as (db0 & processed & Hproc & H).
    unfold lift in Hproc. injection Hproc as <- Hproc.
    cbv zeta in H. apply bind_inv in H. destruct H as (db1 & returnId & Hcreate & H).
    apply bind_inv in H. destruct H as (db2 & [] & Hloop & H).
    injection H as <- <-.
    exists processed. split; [exact Hproc|]. exists returnId, db1.
    split; [exact Hcreate|]. split; [|reflexivity].
    eapply (preserves_run (fun d0 d => returns d = returns d0));
      [| reflexivity | exact Hloop].
    intros d0. apply preserves_forEach. intros x. apply returns_restoreReturned. }
  apply processReturnItems_ok in Hproc.
  destruct Hproc as (booked & Hbooked & Hall & Htotal).
  cbn [returnedItems totalRefund app] in Hbooked, Htotal.
  unfold Return_create in Hcreate.
  destruct (validReturn _) eqn:Hvalid; [|discriminate].
  injection Hcreate as <- _.
  exists originalSaleId, originalSale.
  cbn [rt_returnType rt_items rt_totalRefund].
  rewrite Hbooked in *. repeat split; try assumption.
  - apply validReturn_items in Hvalid. exact Hvalid.
  - now rewrite Htotal.
Qed.

(** C7, counterexample: one of two chargers bought at 100 each with 20 off
    the line is returned.  The refund is 100 x 1 - 20 = 80: the whole discount
    of the line is taken off, where its per-unit share for one unit would
    leave 100 - 10 = 90. *)
Lemma createReturn_takes_whole_discount :
  exists made item saleItem,
    snd (createReturn clerk oneBack discountShop) = Ok made /\
    rt_items made = [item] /\
    s_items discountedSale !! 0%nat = Some saleItem /\
    ri_quantity item = 1 /\
    (ri_refundAmount item == 80)%Q /\
    (proRatedRefund saleItem (ri_quantity item) == 90)%Q /\
    ~ (ri_refundAmount item == proRatedRefund saleItem (ri_quantity item))%Q /\
    (rt_totalRefund made == 80)%Q.
Proof.
  eexists. eexists. eexists.
  split; [vm_compute; reflexivity|].
  split; [reflexivity|]. split; [reflexivity|]. split; [reflexivity|].
  split; [vm_compute; reflexivity|]. split; [vm_compute; reflexivity|].
  split; [vm_compute; discriminate | vm_compute; reflexivity].
Qed.

Lemma round2_compat (x y : Q) : (x == y)%Q -> round2 x = round2 y.
Proof.
  intros H. unfold round2.
  assert (x * 100 + (1 # 2) == y * 100 + (1 # 2))%Q as E by (now rewrite H).
  now rewrite (Qfloor_comp _ _ E).
Qed.

(** When the whole line comes back the two readings agree. *)
Lemma itemRefund_whole_line (saleItem : SaleItem) :
  si_quantity saleItem <> 0 ->
  round2 (itemRefund saleItem (si_quantity saleItem))
  = round2 (proRatedRefund saleItem (si_quantity saleItem)).
Proof.
  intros H. apply round2_compat. unfold itemRefund, proRatedRefund.
  assert (~ inject_Z (si_quantity saleItem) == 0)%Q as Hq.
  { intros E. apply H. unfold Qeq in E. cbn in E. lia. }
  field. exact Hq.
Qed.


(** The charger that came back, as the return record holds it. *)
Lemma createReturn_refund_amounts_witness :
  exists made,
    snd (createReturn clerk oneBack discountShop) = Ok made /\
    Forall2 (booksLine discountedSale) (cr_items oneBack) (rt_items made) /\
    rt_totalRefund made
    = round2 (Qsum (List.map (refundOf discountedSale) (cr_items oneBack))).
Proof.
  destruct (createReturn clerk oneBack discountShop) as [db' [made|e]] eqn:E;
    [|vm_compute in E; discriminate].
  exists made. split; [reflexivity|].
  destruct (createReturn_refund_amounts clerk oneBack discountShop db' made E)
    as (sid & sale & Hid & Hsale & _ & _ & Hall & _ & Htotal & _).
  injection Hid as <-. vm_compute in Hsale. injection Hsale as <-.
  split; [exact Hall | exact Htotal].
Defined.

Lemma returns_forEach_restoreReturned ctx returnId saleId text voidText items db db' r :
  forEach (restoreReturned ctx returnId saleId text voidText) items db = (db', r) ->
  returns db' = returns db.
Proof.
  intros H. eapply (preserves_run (fun d0 d => returns d = returns d0));
    [| reflexivity | exact H].
  intros d0. apply preserves_forEach. intros x. apply returns_restoreReturned.
Qed.

Lemma returns_forEach_deductNewItem ctx saleId items db db' r :
  forEach (deductNewItem ctx saleId) items db = (db', r) ->
  returns db' = returns db.
Proof.
  intros H. eapply (preserves_run (fun d0 d => returns d = returns d0));
    [| reflexivity | exact H].
  intros d0. apply preserves_forEach. intros x. apply returns_deductNewItem.
Qed.

(** What an exchange that was created holds. *)
Lemma createExchange_ok ctx body db db' made :
  createExchange ctx body db = (db', Ok made) ->
  exists originalSaleId originalSale returned purchased,
    ce_originalSaleId body = Some originalSaleId /\
    sales db !! originalSaleId = Some originalSale /\
    s_status originalSale <> SALE_VOIDED /\
    processReturnItems originalSale (ce_returnItems body)
      {| returnedItems := []; totalRefund := 0 |} = Ok returned /\
    processNewItems db (ce_newItems body)
      {| processedNewItems := []; newItemsTotal := 0 |} = Ok purchased /\
    rt_returnType made = Some "EXCHANGE" /\
    rt_items made = returnedItems returned /\
    rt_totalRefund made = round2 (totalRefund returned) /\
    rt_exchangeSale made = Some (length (sales db)) /\
    rt_exchangeAmountDue made
    = Qmax 0 (round2 (newItemsTotal purchased - totalRefund returned)) /\
    rt_refundMethod made
    = (if Qlt_bool (round2 (newItemsTotal purchased - totalRefund returned)) 0
       then Some "CASH" else None) /\
    returns db' = returns db ++ [made].
Proof.
  unfold createExchange.
  destruct (ce_originalSaleId body) as [originalSaleId|]; [|discriminate].
  destruct (ce_returnItems body) as [|r0 rs] eqn:Hr; [discriminate|].
  rewrite <- Hr. clear Hr.
  destruct (ce_newItems body) as [|n0 ns] eqn:Hn; [discriminate|].
  rewrite <- Hn. clear Hn.
  destruct (negb (truthyS (ce_reason body))); [discriminate|].
  intros H. apply bind_inv in H. destruct H as (db0 & found & Hfind & H).
  unfold Sale_findById, gets in Hfind. injection Hfind as <- <-.
  destruct (sales db !! originalSaleId) as [originalSale|] eqn:Hsale; [|discriminate].
  assert (Hst : s_status originalSale <> SALE_VOIDED)
    by (destruct (s_status originalSale); [discriminate..| discriminate H]).
  exists originalSaleId, originalSale.
  destruct (s_status originalSale); [ | | contradiction];
    (apply bind_inv in H; destruct H as (db0 & returned & Hret & H);
     unfold lift in Hret; injection Hret as <- Hret;
     apply bind_inv in H; destruct H as (db0 & purchased & Hnew & H);
     unfold attempt in Hnew; injection Hnew as <- Hnew;
     cbv zeta in H; unfold exchangeAmountDue in H;
     destruct (_ && _)%bool; [discriminate|];
     apply bind_inv in H; destruct H as (db1 & newSaleId & Hcreate & H);
     apply bind_inv in H; destruct H as (db2 & returnId & Hrec & H);
     apply bind_inv in H; destruct H as (db3 & [] & Hloop1 & H);
     apply bind_inv in H; destruct H as (db4 & [] & Hloop2 & H);
     injection H as <- <-;
     unfold Sale_create in Hcreate;
     destruct (validSale _); [|discriminate];
     injection Hcreate as <- <-;
     unfold Return_create in Hrec;
     destruct (validReturn _); [|discriminate];
     injection Hrec as <- _;
     exists returned, purchased;
     repeat (split; [first [assumption | reflexivity]|]);
     rewrite (returns_forEach_deductNewItem _ _ _ _ _ _ Hloop2);
     rewrite (returns_forEach_restoreReturned _ _ _ _ _ _ _ _ _ Hloop1);
     reflexivity).
Qed.

Lemma Qmax_0_nonneg (d : Q) : (0 <= d)%Q -> (Qmax 0 d == d)%Q.
Proof.
  intros H. unfold Qmax. destruct (Qle_bool d 0) eqn:E; [|reflexivity].
  apply Qle_bool_iff in E. now apply Qle_antisym.
Qed.

Lemma Qmax_0_neg (d : Q) : (d < 0)%Q -> Qmax 0 d = 0%Q /\ Qlt_bool d 0 = true.
Proof.
  intros H. unfold Qmax, Qlt_bool.
  assert (Qle_bool d 0 = true) as -> by (apply Qle_bool_iff; now apply Qlt_le_weak).
  split; [reflexivity|].
  destruct (Qle_bool 0 d) eqn:E; [|reflexivity].
  apply Qle_bool_iff in E. exfalso. exact (Qlt_not_le _ _ H E).
Qed.

(** C8, counterexample: two chargers refunded at 180 are exchanged for a
    phone at 165.  The difference is -15; the return record holds an
    [exchangeAmountDue] of 0, not -15. *)
Lemma createExchange_clamps_negative_due :
  exists made returned purchased,
    snd (createExchange clerk bothForAPhone discountShop) = Ok made /\
    processReturnItems discountedSale (ce_returnItems bothForAPhone)
      {| returnedItems := []; totalRefund := 0 |} = Ok returned /\
    processNewItems discountShop (ce_newItems bothForAPhone)
      {| processedNewItems := []; newItemsTotal := 0 |} = Ok purchased /\
    (totalRefund returned == 180)%Q /\
    (newItemsTotal purchased == 165)%Q /\
    (newItemsTotal purchased - totalRefund returned == -15)%Q /\
    (rt_exchangeAmountDue made == 0)%Q /\
    ~ (rt_exchangeAmountDue made == newItemsTotal purchased - totalRefund returned)%Q.
Proof.
  eexists. eexists. eexists.
  split; [vm_compute; reflexivity|].
  split; [vm_compute; reflexivity|].
  split; [vm_compute; reflexivity|].
  split; [vm_compute; reflexivity|].
  split; [vm_compute; reflexivity|].
  split; [vm_compute; reflexivity|].
  split; [vm_compute; reflexivity | vm_compute; discriminate].
Qed.

(** C8, amended: the return record of an exchange that [createExchange]
    created is of type EXCHANGE and holds
    exchangeAmountDue = max(0, round2(newItemsTotal - totalRefund)): a
    difference that is not negative is kept, rounded to two decimals; a
    negative difference is not kept but stored as 0, and that a refund is owed
    to the customer shows in [refundMethod], set to CASH. *)
Theorem createExchange_amount_due ctx body db db' made :
  createExchange ctx body db = (db', Ok made) ->
  exists originalSaleId originalSale returned purchased,
    ce_originalSaleId body = Some originalSaleId /\
    sales db !! originalSaleId = Some originalSale /\
    processReturnItems originalSale (ce_returnItems body)
      {| returnedItems := []; totalRefund := 0 |} = Ok returned /\
    processNewItems db (ce_newItems body)
      {| processedNewItems := []; newItemsTotal := 0 |} = Ok purchased /\
    rt_returnType made = Some "EXCHANGE" /\
    returns db' = returns db ++ [made] /\
    rt_totalRefund made = round2 (totalRefund returned) /\
    let due := round2 (newItemsTotal purchased - totalRefund returned) in
    rt_exchangeAmountDue made = Qmax 0 due /\
    ((0 <= due)%Q -> (rt_exchangeAmountDue made == due)%Q) /\
    ((due < 0)%Q ->
     rt_exchangeAmountDue made = 0%Q /\ rt_refundMethod made = Some "CASH").
Proof.
  intros H. apply createExchange_ok in H.
  destruct H as (sid & sale & returned & purchased & Hid & Hsale & _ & Hret & Hnew
                 & Htype & _ & Htotal & _ & Hdue & Hmethod & Hreturns).
  exists sid, sale, returned, purchased.
  repeat (split; [assumption|]). cbv zeta. repeat (split; [assumption|]). split.
  - intros Hpos. rewrite Hdue. now apply Qmax_0_nonneg.
  - intros Hneg. apply Qmax_0_neg in Hneg. destruct Hneg as [Hmax Hlt].
    rewrite Hdue, Hmethod, Hlt. split; [exact Hmax | reflexivity].
Qed.

(** The two chargers exchanged for a phone, as the return record holds
    them. *)
Lemma createExchange_amount_due_witness :
  exists made,
    snd (createExchange clerk bothForAPhone discountShop) = Ok made /\
    rt_returnType made = Some "EXCHANGE" /\
    rt_exchangeAmountDue made = 0%Q /\
    rt_refundMethod made = Some "CASH".
Proof.
  destruct (createExchange clerk bothForAPhone discountShop) as [db' [made|e]] eqn:E;
    [|vm_compute in E; discriminate].
  exists made. split; [reflexivity|].
  destruct (createExchange_amount_due clerk bothForAPhone discountShop db' made E)
    as (sid & sale & returned & purchased & Hid & Hsale & Hret & Hnew & Htype & _
        & _ & _ & _ & Hneg).
  split; [exact Htype|]. apply Hneg.
  injection Hid as <-. vm_compute in Hsale. injection Hsale as <-.
  vm_compute in Hret. injection Hret as <-.
  vm_compute in Hnew. injection Hnew as <-.
  vm_compute. reflexivity.
Defined.

(** ** Cancelling a repair *)

Lemma quantityOf_nonneg db p : stockNonNegative db -> 0 <= quantityOf db p.
Proof.
  intros H. unfold quantityOf. destruct (stocks db !! p) as [q|] eqn:E; cbn.
  - exact (H p q E).
  - lia.
Qed.

(** A stock movement goes through when the new quantity is not negative
    and the schema accepts the adjustment. *)
Lemma stock_movement_succeeds product (newOf : Z -> Z) (adjOf : Z -> StockAdjustment) db :
  0 <= newOf (quantityOf db product) ->
  validStockAdjustment (adjOf (quantityOf db product)) = true ->
  exists db',
    (do prev <- Stock_getOrCreate product;
     exec Stock_save product (newOf prev);
     StockAdjustment_create (adjOf prev)) db = (db', Ok tt).
Proof.
  intros Hnew Hvalid.
  pose proof (getOrCreate_result db product) as Hr.
  destruct (Stock_getOrCreate product db) as [db1 r] eqn:E. cbn in Hr. subst r.
  erewrite bind_ok by exact E.
  unfold bind at 1, Stock_save.
  replace (newOf (quantityOf db product) <? 0) with false
    by (symmetry; apply Z.ltb_ge; exact Hnew).
  unfold StockAdjustment_create. rewrite Hvalid. eauto.
Qed.

Lemma restorePart_valid ctx repairId repair part prev :
  1 <= pt_quantity part ->
  maxlength 500 (Some ("Cancel Repair: " +:+ rj_jobNumber repair)) = true ->
  validStockAdjustment
    {| sa_product := pt_product part;
       sa_type := prop ADJUSTMENT_TYPES "RETURN";
       sa_quantity := pt_quantity part;
       sa_previousQuantity := prev;
       sa_newQuantity := prev + pt_quantity part;
       sa_reason := Some ("Cancel Repair: " +:+ rj_jobNumber repair);
       sa_reference := Some (toString repairId);
       sa_referenceType := Some "Manual";
       sa_createdBy := userId ctx |} = true.
Proof.
  intros Hq Hlen. unfold validStockAdjustment.
  cbn [sa_type sa_quantity sa_reason sa_referenceType]. rewrite Hlen.
  replace (1 <=? pt_quantity part) with true by (symmetry; now apply Z.leb_le).
  reflexivity.
Qed.

(** The inventory loop of [cancelRepair] goes through, and puts every part
    back. *)
Lemma forEach_restorePart ctx repairId repair parts : forall db,
  stockNonNegative db ->
  Forall (fun part => 1 <= pt_quantity part) parts ->
  maxlength 500 (Some ("Cancel Repair: " +:+ rj_jobNumber repair)) = true ->
  exists db',
    forEach (restorePart ctx repairId repair) parts db = (db', Ok tt) /\
    (forall p, quantityOf db' p = quantityOf db p + partUnitsOf p parts) /\
    List.map entry (adjustments db')
    = List.map entry (adjustments db) ++ List.map partEntry parts /\
    sameDocuments db db'.
Proof.
  induction parts as [|part parts IH]; intros db Hnn Hparts Hlen; cbn [forEach].
  - exists db. cbn [partUnitsOf List.map]. rewrite app_nil_r.
    repeat split. intros p. lia.
  - inversion Hparts as [|? ? Hq Hrest]; subst.
    destruct (stock_movement_succeeds (pt_product part)
                (fun prev => prev + pt_quantity part)
                (fun prev =>
                   {| sa_product := pt_product part;
                      sa_type := prop ADJUSTMENT_TYPES "RETURN";
                      sa_quantity := pt_quantity part;
                      sa_previousQuantity := prev;
                      sa_newQuantity := prev + pt_quantity part;
                      sa_reason := Some ("Cancel Repair: " +:+ rj_jobNumber repair);
                      sa_reference := Some (toString repairId);
                      sa_referenceType := Some "Manual";
                      sa_createdBy := userId ctx |}) db) as [db1 Hstep].
    { pose proof (quantityOf_nonneg db (pt_product part) Hnn). cbv beta. lia. }
    { now apply restorePart_valid. }
    change (restorePart ctx repairId repair part db = (db1, Ok tt)) in Hstep.
    assert (Hnn1 : stockNonNegative db1).
    { assert (preserves stockNonNegative (restorePart ctx repairId repair part)) as Hp
        by (unfold restorePart; nonneg).
      specialize (Hp db Hnn). now rewrite Hstep in Hp. }
    destruct (IH db1 Hnn1 Hrest Hlen) as (db2 & Hloop & Hq2 & Ha2 & Hd2).
    exists db2. erewrite bind_ok by exact Hstep. split; [exact Hloop|].
    unfold restorePart in Hstep. apply stock_movement_run in Hstep.
    destruct Hstep as (Hq1 & Ha1 & _ & _ & Hd1).
    split; [|split].
    + intros p. rewrite Hq2, Hq1. cbn [partUnitsOf].
      destruct (Nat.eqb_spec (pt_product part) p) as [<-|]; cbv beta; lia.
    + rewrite Ha2, Ha1, List.map_app.
      cbn [List.map entry sa_product sa_type sa_quantity partEntry].
      now rewrite <- app_assoc.
    + exact (sameDocuments_trans _ _ _ Hd1 Hd2).
Qed.

(** Splits a validator that passed into its checks and rewrites them in the
    goal. *)
Ltac validators H :=
  repeat match type of H with
         | (_ && _)%bool = true =>
             let H' := fresh "V" in
             apply andb_true_iff in H; destruct H as [H H']
         end;
  repeat match goal with
         | V : ?check = true |- context [?check] => rewrite V
         end.

Lemma validRepairJob_parts (r : RepairJob) :
  validRepairJob r = true ->
  Forall (fun part => 1 <= pt_quantity part) (rj_partsUsed r).
Proof.
  intros H. unfold validRepairJob in H. validators H.
  apply List.Forall_forall. intros part Hin.
  match goal with
  | V : List.forallb validPart _ = true |- _ =>
      rewrite List.forallb_forall in V; specialize (V part Hin); unfold validPart in V;
      validators V
  end.
  now apply Z.leb_le.
Qed.

(** [cancelRepair] changes one validated field: the reason. *)
Lemma validRepairJob_cancelled ctx (repair : RepairJob) (text : string) :
  validRepairJob repair = true ->
  validRepairJob (cancelled ctx repair text) = maxlength 500 (Some text).
Proof.
  intros H. unfold validRepairJob in *.
  cbn [cancelled rj_jobNumber rj_priority rj_customer rj_device rj_problemDescription
       rj_diagnosisNotes rj_repairNotes rj_partsUsed rj_laborCost rj_partsTotal
       rj_totalCost rj_estimatedCost rj_advancePayment rj_finalPayment rj_paymentStatus
       rj_cancelReason].
  validators H. reflexivity.
Qed.

(** C10: [cancelRepair] turns away a COMPLETED job and no other.  Called
    with a reason the schema accepts (at most 500 characters) on a valid job
    that is not COMPLETED, a job that is already CANCELLED included, it
    succeeds: every part of [partsUsed] is added to the stock again, one
    RETURN adjustment per part joins the history, and the job is saved
    CANCELLED with the caller as [cancelledBy] and the new reason.  With a
    longer reason the parts are put back all the same and [repair.save()]
    then refuses the job, which stays as it was. *)
Theorem cancelRepair_rejects_only_completed ctx repairId text db repair :
  repairs db !! repairId = Some repair ->
  validRepairJob repair = true ->
  text <> "" ->
  stockNonNegative db ->
  maxlength 500 (Some ("Cancel Repair: " +:+ rj_jobNumber repair)) = true ->
  (rj_status repair = COMPLETED ->
   cancelRepair ctx repairId (Some text) db
   = (db, Err (AppError CannotCancelCompleted 400))) /\
  (rj_status repair <> COMPLETED ->
   maxlength 500 (Some text) = true ->
   exists db',
     cancelRepair ctx repairId (Some text) db
     = (db', Ok (repairPreSave (cancelled ctx repair text))) /\
     (forall p, quantityOf db' p
                = quantityOf db p + partUnitsOf p (rj_partsUsed repair)) /\
     List.map entry (adjustments db')
     = List.map entry (adjustments db) ++ List.map partEntry (rj_partsUsed repair) /\
     repairs db' !! repairId = Some (repairPreSave (cancelled ctx repair text)) /\
     rj_status (repairPreSave (cancelled ctx repair text)) = CANCELLED /\
     rj_cancelledBy (repairPreSave (cancelled ctx repair text)) = Some (userId ctx) /\
     rj_cancelReason (repairPreSave (cancelled ctx repair text)) = Some text) /\
  (rj_status repair <> COMPLETED ->
   maxlength 500 (Some text) = false ->
   exists db',
     cancelRepair ctx repairId (Some text) db
     = (db', Err (ValidationError "RepairJob")) /\
     (forall p, quantityOf db' p
                = quantityOf db p + partUnitsOf p (rj_partsUsed repair)) /\
     List.map entry (adjustments db')
     = List.map entry (adjustments db) ++ List.map partEntry (rj_partsUsed repair) /\
     repairs db' = repairs db).
Proof.
  intros Hjob Hvalid Htext Hnn Hlen.
  assert (Htruthy : negb (truthyS (Some text)) = false).
  { cbn. apply String.eqb_neq in Htext. now rewrite Htext. }
  pose proof (validRepairJob_parts repair Hvalid) as Hparts.
  pose proof (validRepairJob_cancelled ctx repair text Hvalid) as Hsaved.
  assert (Hrun : forall db1,
             forEach (restorePart ctx repairId repair) (rj_partsUsed repair) db
             = (db1, Ok tt) ->
             rj_status repair <> COMPLETED ->
             cancelRepair ctx repairId (Some text) db
             = (exec RepairJob_save repairId (cancelled ctx repair text);
                ret (repairPreSave (cancelled ctx repair text))) db1).
  { intros db1 Hloop Hst. unfold cancelRepair. rewrite Htruthy.
    erewrite bind_ok by reflexivity. rewrite Hjob.
    change (default "" (Some text)) with text.
    destruct (rj_status repair); try contradiction;
      (erewrite bind_ok by exact Hloop; reflexivity). }
  destruct (forEach_restorePart ctx repairId repair (rj_partsUsed repair) db
              Hnn Hparts Hlen) as (db1 & Hloop & Hq & Ha & Hd).
  split; [|split].
  - intros Hst. unfold cancelRepair. rewrite Htruthy.
    erewrite bind_ok by reflexivity. rewrite Hjob, Hst. reflexivity.
  - intros Hst Hreason. rewrite Hreason in Hsaved.
    exists (withRepairs db1
              (<[repairId := repairPreSave (cancelled ctx repair text)]> (repairs db1))).
    split; [|split; [|split; [|split; [|split; [|split]]]]].
    + rewrite (Hrun db1 Hloop Hst). unfold bind, RepairJob_save. rewrite Hsaved.
      reflexivity.
    + intros p. rewrite <- Hq. reflexivity.
    + exact Ha.
    + cbn [repairs withRepairs]. apply list_lookup_insert_eq.
      destruct Hd as (_ & _ & _ & -> & _). now apply lookup_lt_Some in Hjob.
    + reflexivity.
    + reflexivity.
    + reflexivity.
  - intros Hst Hreason. rewrite Hreason in Hsaved.
    exists db1. split; [|split; [|split]].
    + rewrite (Hrun db1 Hloop Hst). unfold bind, RepairJob_save. rewrite Hsaved.
      reflexivity.
    + exact Hq.
    + exact Ha.
    + destruct Hd as (_ & _ & _ & Hr & _). exact Hr.
Qed.

Lemma workshop_nonneg : stockNonNegative workshop.
Proof. exact shop_nonneg. Qed.

(** The job that was already cancelled is cancelled again: the two units
    of its part are added to the five in stock once more. *)
Lemma cancelRepair_rejects_only_completed_witness :
  rj_status cancelledJob = CANCELLED /\
  exists db',
    cancelRepair clerk 0%nat (Some "cancelled twice") workshop
    = (db', Ok (repairPreSave (cancelled clerk cancelledJob "cancelled twice"))) /\
    quantityOf workshop 1 = 5 /\
    quantityOf db' 1 = 7 /\
    List.map entry (adjustments db')
    = List.map entry (adjustments workshop) ++ [(1%nat, Some "RETURN", 2)].
Proof.
  split; [reflexivity|].
  destruct (cancelRepair_rejects_only_completed clerk 0%nat "cancelled twice"
              workshop cancelledJob) as (_ & Hagain & _).
  - reflexivity.
  - reflexivity.
  - discriminate.
  - exact workshop_nonneg.
  - reflexivity.
  - destruct Hagain as (db' & Hrun & Hq & Ha & _); [discriminate | reflexivity |].
    exists db'. split; [exact Hrun|]. split; [reflexivity|].
    split; [rewrite Hq; reflexivity | exact Ha].
Defined.

(* ===================================================================== *)
(** * Part III: more of the handlers                                     *)
(* ===================================================================== *)

(** ** Permission checks over several codes *)


Lemma filter_length_all {A} (f : A -> bool) (l : list A) :
  length (List.filter f l) = length l <-> forall x, In x l -> f x = true.
Proof.
  induction l as [|a l IH]; cbn [List.filter length].
  - split; [intros _ x [] | reflexivity].
  - pose proof (List.filter_length_le f l) as Hle.
    destruct (f a) eqn:E; cbn [length].
    + split.
      * intros H x [<-|Hx]; [exact E|]. apply IH; [lia | exact Hx].
      * intros H. f_equal. apply IH. intros x Hx. apply H. now right.
    + split; [intros H; lia|].
      intros H. specialize (H a (or_introl eq_refl)). congruence.
Qed.

Lemma filter_length_zero {A} (f : A -> bool) (l : list A) :
  length (List.filter f l) = 0%nat <-> forall x, In x l -> f x = false.
Proof.
  induction l as [|a l IH]; cbn [List.filter length].
  - split; [intros _ x [] | reflexivity].
  - destruct (f a) eqn:E; cbn [length].
    + split; [discriminate|].
      intros H. specialize (H a (or_introl eq_refl)). congruence.
    + rewrite IH. split.
      * intros H x [<-|Hx]; [exact E | now apply H].
      * intros H x Hx. apply H. now right.
Qed.

Module AccessFacts.
Import Auth.

Lemma pr_code_checkPermission (user : User) (c : string) :
  pr_code (checkPermission user c) = c.
Proof.
  unfold checkPermission.
  destruct (List.find _ _) as [dp|]; [now destruct (dp_type dp)|].
  now destruct (includes _ _).
Qed.

Lemma allowed_all (user : User) (codes : list string) :
  length (List.filter allowed (List.map (checkPermission user) codes)) = length codes <->
  forall c, In c codes -> allowed (checkPermission user c) = true.
Proof.
  rewrite <- (List.length_map (checkPermission user) codes).
  rewrite filter_length_all. split.
  - intros H c Hc. apply H. now apply List.in_map.
  - intros H r Hr. apply List.in_map_iff in Hr. destruct Hr as [c [<- Hc]]. now apply H.
Qed.

Lemma allowed_none (user : User) (codes : list string) :
  length (List.filter allowed (List.map (checkPermission user) codes)) = 0%nat <->
  forall c, In c codes -> allowed (checkPermission user c) = false.
Proof.
  rewrite filter_length_zero. split.
  - intros H c Hc. apply H. now apply List.in_map.
  - intros H r Hr. apply List.in_map_iff in Hr. destruct Hr as [c [<- Hc]]. now apply H.
Qed.

Lemma missing_codes (user : User) (codes : list string) :
  List.map pr_code
    (List.filter (fun r => negb (allowed r)) (List.map (checkPermission user) codes))
  = List.filter (fun c => negb (allowed (checkPermission user c))) codes.
Proof.
  induction codes as [|c codes IH]; cbn [List.map List.filter]; [reflexivity|].
  destruct (negb (allowed (checkPermission user c))); cbn [List.map].
  - now rewrite IH, pr_code_checkPermission.
  - exact IH.
Qed.

(** X1: when several permission codes are required, [authorize] lets a
    user who is not a super admin through in the default mode exactly when
    the check of at least one code passes, and with [requireAll] exactly when
    the check of every code passes.  With no code at all, [requireAll] lets
    everyone through and the default mode nobody but a super admin. *)
Theorem authorize_any_or_all (user : User) (codes : list string) :
  (authorize codes false (Some user) = Next <->
   isSuperAdmin user = true \/
   exists c, In c codes /\ allowed (checkPermission user c) = true) /\
  (authorize codes true (Some user) = Next <->
   isSuperAdmin user = true \/
   forall c, In c codes -> allowed (checkPermission user c) = true) /\
  authorize [] true (Some user) = Next /\
  (isSuperAdmin user = false -> authorize [] false (Some user) = AccessDenied [] []).
Proof.
  unfold authorize. destruct (isSuperAdmin user) eqn:Hsa.
  - repeat split; auto; discriminate.
  - cbv zeta. split; [|split; [|split]].
    + destruct (Nat.ltb 0 _) eqn:E.
      * split; [intros _; right | reflexivity].
        apply Nat.ltb_lt in E.
        destruct (List.filter allowed (List.map (checkPermission user) codes))
          as [|r rs] eqn:Hf; [cbn in E; lia|].
        assert (In r (List.filter allowed (List.map (checkPermission user) codes)))
          as Hin by (rewrite Hf; now left).
        apply List.filter_In in Hin. destruct Hin as [Hin Hr].
        apply List.in_map_iff in Hin. destruct Hin as [c [<- Hc]]. now exists c.
      * split; [discriminate|]. intros [H|[c [Hc Hok]]]; [discriminate|].
        apply Nat.ltb_ge in E.
        assert (length (List.filter allowed (List.map (checkPermission user) codes)) = 0%nat)
          as Hz by lia.
        rewrite allowed_none in Hz. rewrite (Hz c Hc) in Hok. discriminate.
    + destruct (Nat.eqb _ _) eqn:E.
      * split; [intros _; right | reflexivity].
        apply Nat.eqb_eq in E. now apply allowed_all.
      * split; [discriminate|]. intros [H|H]; [discriminate|].
        apply allowed_all in H. apply Nat.eqb_neq in E. contradiction.
    + reflexivity.
    + reflexivity.
Qed.

(** X2: the 403 answer of [authorize] repeats the required codes and lists
    as missing exactly the required codes whose check failed, in the order
    they were required.  In the default mode that is every required code;
    with [requireAll] the list is never empty. *)
Theorem authorize_denied_lists_failed_codes (user : User) (codes : list string)
    (requireAll : bool) (required missingPerms : list string) :
  authorize codes requireAll (Some user) = AccessDenied required missingPerms ->
  isSuperAdmin user = false /\
  required = codes /\
  missingPerms = List.filter (fun c => negb (allowed (checkPermission user c))) codes /\
  (requireAll = false -> missingPerms = codes) /\
  (requireAll = true -> missingPerms <> []).
Proof.
  unfold authorize. destruct (isSuperAdmin user); [discriminate|]. cbv zeta.
  rewrite missing_codes.
  destruct requireAll.
  - destruct (Nat.eqb _ _) eqn:E; [discriminate|]. intros [= <- <-].
    repeat split; [discriminate|]. intros _ Hnil.
    apply Nat.eqb_neq in E. apply E. apply allowed_all. intros c Hc.
    destruct (allowed (checkPermission user c)) eqn:Hok; [reflexivity|].
    assert (In c (List.filter (fun c => negb (allowed (checkPermission user c))) codes))
      as Hin by (apply List.filter_In; split; [exact Hc | now rewrite Hok]).
    rewrite Hnil in Hin. destruct Hin.
  - destruct (Nat.ltb 0 _) eqn:E; [discriminate|]. intros [= <- <-].
    repeat split; [|discriminate]. intros _.
    apply Nat.ltb_ge in E.
    assert (length (List.filter allowed (List.map (checkPermission user) codes)) = 0%nat)
      as Hz by lia.
    rewrite allowed_none in Hz.
    apply List.forallb_filter_id. apply List.forallb_forall. intros c Hc.
    now rewrite (Hz c Hc).
Qed.

(** X3: [User.hasPermission] and the middleware agree: the method answers
    true for a code exactly when [authorize] with that one code lets the
    user through, whatever [requireAll] says. *)
Theorem hasPermission_agrees_with_authorize (user : User) (permCode : string)
    (requireAll : bool) :
  hasPermission user permCode = true <->
  authorize [permCode] requireAll (Some user) = Next.
Proof.
  destruct (isSuperAdmin user) eqn:Hsa.
  - rewrite (AuthFacts.authorize_superAdmin user [permCode] requireAll Hsa).
    unfold hasPermission. rewrite Hsa. tauto.
  - rewrite (AuthFacts.hasPermission_authorize user permCode Hsa).
    symmetry. now apply AuthFacts.authorize_single.
Qed.

Lemma In_setAdd (s : list string) (x c : string) :
  In c (setAdd s x) <-> In c s \/ c = x.
Proof.
  unfold setAdd. destruct (includes s x) eqn:E.
  - apply includes_In in E. split; [now left|]. intros [H| ->]; assumption.
  - rewrite List.in_app_iff. cbn. intuition congruence.
Qed.

Lemma In_setDelete (s : list string) (x c : string) :
  In c (setDelete s x) <-> In c s /\ c <> x.
Proof.
  unfold setDelete. rewrite List.filter_In.
  destruct (String.eqb_spec x c); cbn; intuition congruence.
Qed.

Lemma NoDup_setAdd (s : list string) (x : string) :
  List.NoDup s -> List.NoDup (setAdd s x).
Proof.
  intros H. unfold setAdd. destruct (includes s x) eqn:E; [exact H|].
  apply List.NoDup_app; [exact H | repeat constructor; intros [] |].
  intros y Hy [<-|[]].
  apply includes_In in Hy. congruence.
Qed.

Lemma NoDup_setDelete (s : list string) (x : string) :
  List.NoDup s -> List.NoDup (setDelete s x).
Proof. intros H. now apply List.NoDup_filter. Qed.

Lemma In_roleSet (l : list string) (c : string) : forall s,
  In c (List.fold_left setAdd l s) <-> In c s \/ In c l.
Proof.
  induction l as [|x l IH]; intros s; cbn [List.fold_left].
  - cbn. tauto.
  - rewrite IH, In_setAdd. cbn. intuition congruence.
Qed.

Lemma NoDup_roleSet (l : list string) : forall s,
  List.NoDup s -> List.NoDup (List.fold_left setAdd l s).
Proof.
  induction l as [|x l IH]; intros s H; cbn [List.fold_left]; [exact H|].
  apply IH. now apply NoDup_setAdd.
Qed.

(** The overrides applied in list order to a set [s]: whether a code ends
    up in the set is decided by the last override that names it. *)
Lemma overrides_fold (dps : list DirectPermission) (c : string) : forall s,
  In c (List.fold_left
          (fun allowedPerms dp =>
             match dp_permission dp with
             | Some p =>
                 match dp_type dp with
                 | ALLOW => setAdd allowedPerms (code p)
                 | DENY => setDelete allowedPerms (code p)
                 end
             | None => allowedPerms
             end) dps s) <->
  match List.find (matchesCode c) (List.rev dps) with
  | Some dp => dp_type dp = ALLOW
  | None => In c s
  end.
Proof.
  induction dps as [|dp dps IH] using List.rev_ind; intros s.
  - cbn. tauto.
  - rewrite List.fold_left_app, List.rev_app_distr. cbn [List.fold_left List.rev app List.find].
    unfold matchesCode at 1.
    destruct (dp_permission dp) as [p|]; [|apply IH].
    destruct (String.eqb_spec (code p) c) as [->|Hne].
    + destruct (dp_type dp).
      * rewrite In_setAdd. intuition.
      * rewrite In_setDelete. intuition congruence.
    + destruct (dp_type dp).
      * rewrite In_setAdd, IH. intuition congruence.
      * rewrite In_setDelete, IH. intuition congruence.
Qed.

Lemma NoDup_overrides (dps : list DirectPermission) : forall s,
  List.NoDup s ->
  List.NoDup (List.fold_left
          (fun allowedPerms dp =>
             match dp_permission dp with
             | Some p =>
                 match dp_type dp with
                 | ALLOW => setAdd allowedPerms (code p)
                 | DENY => setDelete allowedPerms (code p)
                 end
             | None => allowedPerms
             end) dps s).
Proof.
  induction dps as [|dp dps IH]; intros s H; cbn [List.fold_left]; [exact H|].
  apply IH. destruct (dp_permission dp) as [p|]; [|exact H].
  destruct (dp_type dp); [now apply NoDup_setAdd | now apply NoDup_setDelete].
Qed.

(** X4: in the list [getEffectivePermissions] reports, a code is present
    exactly when the last direct override that names it is an ALLOW, or, when
    no override names it, when a role grants it; no code is listed twice. *)
Theorem effectivePermissions_last_override_decides (user : User) (c : string) :
  (In c (effectivePermissions user) <->
   match List.find (matchesCode c) (List.rev (directPermissions user)) with
   | Some dp => dp_type dp = ALLOW
   | None => In c (rolePerms user)
   end) /\
  List.NoDup (effectivePermissions user).
Proof.
  unfold effectivePermissions. split.
  - rewrite overrides_fold.
    destruct (List.find _ _); [tauto|].
    rewrite In_roleSet. cbn. tauto.
  - apply NoDup_overrides, NoDup_roleSet. constructor.
Qed.

(** X5: for a user who is not a super admin and whose direct overrides for
    a code do not contradict each other, the code is among the effective
    permissions exactly when [authorize] lets the user through for it. *)
Theorem effectivePermissions_agree_with_authorize (user : User) (c : string)
    (requireAll : bool) :
  isSuperAdmin user = false ->
  (forall dp1 dp2,
     In dp1 (directPermissions user) -> In dp2 (directPermissions user) ->
     matchesCode c dp1 = true -> matchesCode c dp2 = true ->
     dp_type dp1 = dp_type dp2) ->
  In c (effectivePermissions user) <-> authorize [c] requireAll (Some user) = Next.
Proof.
  intros Hsa Hsame.
  rewrite (AuthFacts.authorize_single user c requireAll Hsa).
  unfold effectivePermissions. rewrite overrides_fold.
  destruct (List.find (matchesCode c) (List.rev (directPermissions user))) as [last|] eqn:Hlast.
  - apply List.find_some in Hlast. destruct Hlast as [Hin Hm].
    apply List.in_rev in Hin.
    destruct (List.find (matchesCode c) (directPermissions user)) as [first|] eqn:Hfirst.
    + rewrite (AuthFacts.checkPermission_first _ _ _ Hfirst).
      apply List.find_some in Hfirst. destruct Hfirst as [Hin1 Hm1].
      rewrite (Hsame last first Hin Hin1 Hm Hm1).
      destruct (dp_type first); split; congruence.
    + exfalso. apply (List.find_none _ _ Hfirst) in Hin. congruence.
  - assert (List.find (matchesCode c) (directPermissions user) = None) as Hnone.
    { destruct (List.find (matchesCode c) (directPermissions user)) as [dp|] eqn:E;
        [|reflexivity].
      apply List.find_some in E. destruct E as [Hin Hm].
      apply List.in_rev in Hin. apply (List.find_none _ _ Hlast) in Hin. congruence. }
    rewrite (AuthFacts.checkPermission_no_override _ _ Hnone).
    rewrite In_roleSet, includes_In. cbn. tauto.
Qed.

(** The cashier denied [VIEW_SALES]: the code is not among the effective
    permissions and the middleware turns the cashier away. *)
Lemma effectivePermissions_agree_with_authorize_witness :
  In "VIEW_SALES" (effectivePermissions deniedCashier) <->
  authorize ["VIEW_SALES"] false (Some deniedCashier) = Next.
Proof.
  apply effectivePermissions_agree_with_authorize.
  - reflexivity.
  - intros dp1 dp2 [<-|[]] [<-|[]] _ _. reflexivity.
Defined.

(** [VIEW_SALES] and [VOID_SALE] are both required of the cashier who was
    allowed [VIEW_SALES] first: [VOID_SALE] is reported missing. *)
Lemma authorize_denied_lists_failed_codes_witness :
  authorize ["VIEW_SALES"; "VOID_SALE"] true (Some allowedThenDenied)
  = AccessDenied ["VIEW_SALES"; "VOID_SALE"] ["VOID_SALE"] /\
  ["VOID_SALE"]
  = List.filter (fun c => negb (allowed (checkPermission allowedThenDenied c)))
      ["VIEW_SALES"; "VOID_SALE"].
Proof.
  split; [reflexivity|].
  destruct (authorize_denied_lists_failed_codes allowedThenDenied
              ["VIEW_SALES"; "VOID_SALE"] true
              ["VIEW_SALES"; "VOID_SALE"] ["VOID_SALE"] eq_refl)
    as (_ & _ & Hmissing & _).
  exact Hmissing.
Defined.

End AccessFacts.

(** ** Warranties: expiry, void, claims *)

Lemma lookup_map {A B} (f : A -> B) (l : list A) (i : nat) :
  List.map f l !! i = option_map f (l !! i).
Proof.
  revert i. induction l as [|x l IH]; intros [|i]; cbn; try reflexivity. apply IH.
Qed.

Lemma bind_run {A B} (m : M A) (f : A -> M B) db db' r :
  bind m f db = (db', r) ->
  (exists e, m db = (db', Err e) /\ r = Err e) \/
  (exists db1 a, m db = (db1, Ok a) /\ f a db1 = (db', r)).
Proof.
  unfold bind. destruct (m db) as [db1 [a|e]].
  - intros H. right. now exists db1, a.
  - intros [= <- <-]. left. now exists e.
Qed.

(** The sweep does to every warranty what the pre-save hook does to the one
    being saved. *)
Lemma pastEndDate_preSave now w :
  (if pastEndDate now w then withStatus w EXPIRED else w) = warrantyPreSave now w.
Proof.
  unfold pastEndDate, warrantyPreSave. now destruct (w_status w).
Qed.

Lemma warrantyPreSave_later now now' w :
  now <= now' -> warrantyPreSave now' (warrantyPreSave now w) = warrantyPreSave now' w.
Proof.
  intros Hle. unfold warrantyPreSave.
  destruct (w_status w) eqn:Hst; try (rewrite Hst; reflexivity).
  destruct (w_endDate w <? now) eqn:E1.
  - cbn [withStatus w_status]. apply Z.ltb_lt in E1.
    replace (w_endDate w <? now') with true by (symmetry; apply Z.ltb_lt; lia).
    reflexivity.
  - now rewrite Hst.
Qed.

Lemma pastEndDate_after now now' w :
  pastEndDate now' (warrantyPreSave now w)
  = (pastEndDate now' w && negb (pastEndDate now w))%bool.
Proof.
  unfold pastEndDate, warrantyPreSave.
  destruct (w_status w) eqn:Hst; try (rewrite Hst; reflexivity).
  destruct (w_endDate w <? now) eqn:E1; cbn [withStatus w_status negb].
  - now rewrite andb_false_r.
  - now rewrite Hst, andb_true_r.
Qed.

Lemma swept_count now now' (l : list Warranty) :
  now <= now' ->
  length (List.filter (pastEndDate now') l)
  = (length (List.filter (pastEndDate now) l)
     + length (List.filter (pastEndDate now') (List.map (warrantyPreSave now) l)))%nat.
Proof.
  intros Hle. induction l as [|w l IH]; cbn [List.filter List.map length]; [reflexivity|].
  rewrite pastEndDate_after.
  destruct (pastEndDate now w) eqn:E.
  - assert (pastEndDate now' w = true) as ->.
    { unfold pastEndDate in *. destruct (w_status w); try discriminate.
      apply Z.ltb_lt in E. apply Z.ltb_lt. lia. }
    cbn [andb negb length]. lia.
  - rewrite andb_true_r. destruct (pastEndDate now' w); cbn [length]; lia.
Qed.

(** X6: [Warranty.updateExpiredWarranties] does to every warranty on
    file what the pre-save hook does to the one being saved: an ACTIVE
    warranty past its end date becomes EXPIRED, every other warranty stays as
    it is, and no ACTIVE warranty past its end date is left.  A second sweep
    at the same time changes nothing and counts 0; a sweep at a later time
    leaves the warranties a single sweep at that time would have left, and
    the two counts add up to the count of the single sweep. *)
Theorem updateExpiredWarranties_sweep (now : Z) (db : DB) :
  warranties (fst (updateExpiredWarranties now db))
  = List.map (warrantyPreSave now) (warranties db) /\
  (forall id w, warranties db !! id = Some w -> w_status w <> ACTIVE ->
                warranties (fst (updateExpiredWarranties now db)) !! id = Some w) /\
  (forall id w, warranties (fst (updateExpiredWarranties now db)) !! id = Some w ->
                w_status w = ACTIVE -> now <= w_endDate w) /\
  updateExpiredWarranties now (fst (updateExpiredWarranties now db))
  = (fst (updateExpiredWarranties now db), Ok 0%nat) /\
  (forall now' n n' total,
     now <= now' ->
     snd (updateExpiredWarranties now db) = Ok n ->
     snd (updateExpiredWarranties now' (fst (updateExpiredWarranties now db))) = Ok n' ->
     snd (updateExpiredWarranties now' db) = Ok total ->
     total = (n + n')%nat /\
     warranties (fst (updateExpiredWarranties now' (fst (updateExpiredWarranties now db))))
     = warranties (fst (updateExpiredWarranties now' db))).
Proof.
  assert (Hmap : forall t d, warranties (fst (updateExpiredWarranties t d))
                             = List.map (warrantyPreSave t) (warranties d)).
  { intros t d. cbn. apply List.map_ext. intros w. apply pastEndDate_preSave. }
  split; [apply Hmap|]. split; [|split; [|split]].
  - intros id w Hw Hst. rewrite Hmap, lookup_map, Hw. cbn.
    unfold warrantyPreSave. now destruct (w_status w).
  - intros id w Hw Hst. rewrite Hmap, lookup_map in Hw.
    destruct (warranties db !! id) as [w0|]; [|discriminate].
    cbn in Hw. injection Hw as <-. unfold warrantyPreSave in *.
    destruct (w_status w0) eqn:E0; try (rewrite E0 in Hst; discriminate).
    destruct (w_endDate w0 <? now) eqn:E1; [discriminate|].
    apply Z.ltb_ge in E1. exact E1.
  - assert (Hnone : forall l, List.filter (pastEndDate now) (List.map (warrantyPreSave now) l) = []).
    { induction l as [|w l IH]; cbn [List.map List.filter]; [reflexivity|].
      rewrite pastEndDate_after. now rewrite andb_negb_r. }
    assert (Hsame : forall l, List.map (warrantyPreSave now) (List.map (warrantyPreSave now) l)
                              = List.map (warrantyPreSave now) l).
    { intros l. rewrite List.map_map. apply List.map_ext. intros w.
      apply warrantyPreSave_later. lia. }
    unfold updateExpiredWarranties at 1.
    rewrite (List.map_ext _ _ (pastEndDate_preSave now)).
    rewrite Hmap, Hnone, Hsame. cbn [length]. f_equal.
    destruct db; cbn. unfold withWarranties. cbn. f_equal.
    rewrite (List.map_ext _ _ (pastEndDate_preSave now)). reflexivity.
  - intros now' n n' total Hle Hn Hn' Ht. cbn [snd updateExpiredWarranties] in Hn, Ht.
    injection Hn as <-. injection Ht as <-.
    unfold updateExpiredWarranties at 1 in Hn'. cbn [snd] in Hn'. injection Hn' as <-.
    split.
    + rewrite (List.map_ext _ _ (pastEndDate_preSave now)). now apply swept_count.
    + rewrite !Hmap, List.map_map. apply List.map_ext. intros w.
      now apply warrantyPreSave_later.
Qed.

(** *** A voided warranty is left alone *)

Lemma voidKept_refl db : voidKept db db.
Proof. intros id w H _. exact H. Qed.

Lemma kept_getOrCreate db0 product : preserves (voidKept db0) (Stock_getOrCreate product).
Proof.
  intros db H. unfold Stock_getOrCreate. destruct (stocks db !! product); exact H.
Qed.

Lemma kept_save db0 product q : preserves (voidKept db0) (Stock_save product q).
Proof. intros db H. unfold Stock_save. destruct (q <? 0); exact H. Qed.

Lemma kept_adjustment db0 a : preserves (voidKept db0) (StockAdjustment_create a).
Proof.
  intros db H. unfold StockAdjustment_create. destruct (validStockAdjustment a); exact H.
Qed.

Lemma kept_Sale_create db0 s : preserves (voidKept db0) (Sale_create s).
Proof. intros db H. unfold Sale_create. destruct (validSale s); exact H. Qed.

Lemma kept_Sale_save db0 id s : preserves (voidKept db0) (Sale_save id s).
Proof. intros db H. unfold Sale_save. destruct (validSale s); exact H. Qed.

Lemma kept_Return_create db0 r : preserves (voidKept db0) (Return_create r).
Proof. intros db H. unfold Return_create. destruct (validReturn r); exact H. Qed.

Lemma kept_RepairJob_create db0 r : preserves (voidKept db0) (RepairJob_create r).
Proof. intros db H. unfold RepairJob_create. destruct (validRepairJob r); exact H. Qed.

Lemma kept_RepairJob_save db0 id r : preserves (voidKept db0) (RepairJob_save id r).
Proof. intros db H. unfold RepairJob_save. destruct (validRepairJob r); exact H. Qed.

Lemma kept_Warranty_create db0 now w : preserves (voidKept db0) (Warranty_create now w).
Proof.
  intros db H. unfold Warranty_create. destruct (validWarranty w); [|exact H].
  intros id w0 Hw0 Hst. cbn. apply lookup_app_l_Some. now apply H.
Qed.

(** [updateMany] with [status: ACTIVE] in its filter passes over a voided
    warranty. *)
Lemma kept_voidWarrantiesOf db0 sale product by_ reason :
  preserves (voidKept db0) (voidWarrantiesOf sale product by_ reason).
Proof.
  intros db H id w Hw Hst. cbn. rewrite lookup_map, (H id w Hw Hst). cbn.
  destruct (w_sale w); [|reflexivity]. now rewrite Hst.
Qed.

Create HintDb kept.
#[local] Hint Resolve kept_getOrCreate kept_save kept_adjustment kept_Sale_create
  kept_Sale_save kept_Return_create kept_RepairJob_create kept_RepairJob_save
  kept_Warranty_create kept_voidWarrantiesOf : kept.

Ltac kept := repeat first [ solve [auto with kept] | step_preserves ].

Lemma kept_consumeParts db0 ctx repairId repair parts : forall processedParts,
  preserves (voidKept db0) (consumeParts ctx repairId repair parts processedParts).
Proof.
  induction parts as [|part rest IH]; intros processedParts; cbn [consumeParts].
  - kept.
  - unfold Product_findById, Stock_findOne. kept.
Qed.

(** The steps of [createClaim] between reading the warranty and saving it
    leave the warranties as they are. *)
Lemma claim_branches_keep_warranties ctx warrantyId warranty issue body claim db0 :
  preserves (fun db => warranties db = warranties db0)
    (if strictEq (cc_resolution body) (prop CLAIM_RESOLUTIONS "REPAIR")
     then claimRepair ctx warranty issue body claim
     else if strictEq (cc_resolution body) (prop CLAIM_RESOLUTIONS "REPLACE")
     then claimReplace ctx warrantyId warranty body claim
     else if strictEq (cc_resolution body) (prop CLAIM_RESOLUTIONS "REFUND")
     then claimRefund ctx warranty issue claim
     else ret (warranty, claim)).
Proof.
  assert (forall p, preserves (fun db => warranties db = warranties db0) (Stock_getOrCreate p))
    as H1 by (intros p db H; unfold Stock_getOrCreate; destruct (stocks db !! p); exact H).
  assert (forall p q, preserves (fun db => warranties db = warranties db0) (Stock_save p q))
    as H2 by (intros p q db H; unfold Stock_save; destruct (q <? 0); exact H).
  assert (forall a, preserves (fun db => warranties db = warranties db0)
                      (StockAdjustment_create a))
    as H3 by (intros a db H; unfold StockAdjustment_create;
              destruct (validStockAdjustment a); exact H).
  assert (forall r, preserves (fun db => warranties db = warranties db0) (Return_create r))
    as H4 by (intros r db H; unfold Return_create; destruct (validReturn r); exact H).
  assert (forall r, preserves (fun db => warranties db = warranties db0) (RepairJob_create r))
    as H5 by (intros r db H; unfold RepairJob_create; destruct (validRepairJob r);
              exact H).
  unfold claimRepair, claimReplace, claimRefund, RepairJob_findById, Product_findById.
  repeat first [ solve [auto] | step_preserves ].
Qed.

Lemma checkValidity_not_void now w : checkValidity now w = true -> w_status w <> VOID.
Proof. unfold checkValidity. intros H E. rewrite E in H. discriminate. Qed.

Lemma kept_Warranty_save db0 now id w found db :
  voidKept db0 db -> warranties db !! id = Some found -> w_status found <> VOID ->
  voidKept db0 (fst (Warranty_save now id w db)).
Proof.
  intros H Hfound Hst. unfold Warranty_save. destruct (validWarranty w); [|exact H].
  intros id0 w0 Hw0 Hv. cbn. specialize (H id0 w0 Hw0 Hv).
  destruct (decide (id = id0)) as [->|Hne]; [congruence|].
  now rewrite list_lookup_insert_ne.
Qed.

Lemma kept_createClaim db0 ctx warrantyId body :
  preserves (voidKept db0) (createClaim ctx warrantyId body).
Proof.
  intros db H. unfold createClaim.
  destruct (negb (truthyS (cc_issue body))); [exact H|].
  erewrite bind_ok by reflexivity.
  destruct (warranties db !! warrantyId) as [warranty|] eqn:Hw; [|exact H].
  destruct (negb (checkValidity (now ctx) warranty)) eqn:Hvalid; [exact H|].
  apply negb_false_iff, checkValidity_not_void in Hvalid.
  pose proof (claim_branches_keep_warranties ctx warrantyId warranty
                (default "" (cc_issue body)) body
                (newClaim ctx (default "" (cc_issue body)) body) db db eq_refl) as Hsame.
  cbv zeta. unfold bind at 1.
  cbv beta in Hsame.
  match type of Hsame with
  | warranties (fst ?run) = _ => destruct run as [db1 [resolved|e]]
  end; cbn [fst] in Hsame.
  - assert (H1 : voidKept db0 db1) by (intros id w; rewrite Hsame; apply H).
    rewrite <- Hsame in Hw.
    pose proof (kept_Warranty_save db0 (now ctx) warrantyId
                  (match w_status (withClaim (fst resolved) (snd resolved)) with
                   | ACTIVE => withStatus (withClaim (fst resolved) (snd resolved)) CLAIMED
                   | _ => withClaim (fst resolved) (snd resolved)
                   end) warranty db1 H1 Hw Hvalid) as Hsave.
    unfold bind.
    destruct (Warranty_save _ _ _ db1) as [db2 [[]|e]]; exact Hsave.
  - cbn [fst]. intros id w. rewrite Hsame. apply H.
Qed.

Lemma kept_handle db0 cr : preserves (voidKept db0) (handle cr).
Proof.
  destruct cr as [ctx []]; unfold handle; cbn [fst snd];
    (apply preserves_bind; [| intros ?; apply preserves_ret]).
  - unfold adjustStock, Product_findById. kept.
  - unfold createSale, deductItem, issueWarranties, Product_findById.
    destruct (cs_items body); kept.
  - unfold voidSale, Sale_findById, restoreItem. kept.
  - unfold createReturn, Sale_findById, restoreReturned. kept.
  - unfold createExchange, Sale_findById, restoreReturned, deductNewItem. kept.
  - unfold completeRepair, RepairJob_findById.
    pose proof (kept_consumeParts db0 ctx repairId) as Hparts. kept.
  - unfold cancelRepair, RepairJob_findById, restorePart. kept.
  - apply kept_createClaim.
Qed.

Lemma revised_same (claims : list Claim) : Forall2 revised claims claims.
Proof. induction claims; constructor; [repeat split | assumption]. Qed.

Lemma revised_insert (claims : list Claim) body : forall claimId claim,
  claims !! claimId = Some claim ->
  Forall2 revised claims (<[claimId := updatedClaim body claim]> claims).
Proof.
  induction claims as [|c claims IH]; intros [|claimId] claim H; try discriminate.
  - injection H as ->. cbn. constructor; [repeat split | apply revised_same].
  - cbn. constructor; [repeat split | now apply IH].
Qed.

(** X7: a warranty that is VOID stays VOID, with its void record.  Whatever
    stock-mutating request is served (a claim on this very warranty, a return
    of its product and a sale included) and whenever the expiry sweep runs,
    it is on file unchanged afterwards; voiding it again is refused as
    already voided and a claim on it is refused, both with nothing written.
    [updateClaim] does not look at the status: it still saves the voided
    warranty, with the resolution, the repair job and the notes of the claim
    it names as the only fields that may differ. *)
Theorem voided_warranty_stays_void (db : DB) (id : ObjectId) (w : Warranty) :
  warranties db !! id = Some w ->
  w_status w = VOID ->
  (forall cr, warranties (fst (handle cr db)) !! id = Some w) /\
  (forall now, warranties (fst (updateExpiredWarranties now db)) !! id = Some w) /\
  (forall ctx reason,
     truthyS reason = true ->
     voidWarranty ctx id reason db = (db, Ok (Refused (inr WarrantyAlreadyVoided) 400))) /\
  (forall ctx body,
     truthyS (cc_issue body) = true ->
     createClaim ctx id body db = (db, Err (AppError CannotCreateClaim 400))) /\
  (forall ctx claimId body,
     exists w',
       warranties (fst (updateClaim ctx id claimId body db)) !! id = Some w' /\
       w' = withClaims w (w_claims w') /\
       w_status w' = VOID /\
       Forall2 revised (w_claims w) (w_claims w') /\
       (forall i, i <> claimId -> w_claims w' !! i = w_claims w !! i)) /\
  (forall ctx other claimId body,
     other <> id ->
     warranties (fst (updateClaim ctx other claimId body db)) !! id = Some w).
Proof.
  intros Hw Hst.
  assert (Hself : w = withClaims w (w_claims w)) by now destruct w.
  split; [|split; [|split; [|split; [|split]]]].
  - intros cr. exact (kept_handle db cr db (voidKept_refl db) id w Hw Hst).
  - intros now. cbn. rewrite lookup_map, Hw. cbn. unfold pastEndDate. now rewrite Hst.
  - intros ctx reason Hreason. unfold voidWarranty. rewrite Hreason. cbn [negb].
    erewrite bind_ok by reflexivity. now rewrite Hw, Hst.
  - intros ctx body Hissue. unfold createClaim. rewrite Hissue. cbn [negb].
    erewrite bind_ok by reflexivity. rewrite Hw. unfold checkValidity. now rewrite Hst.
  - intros ctx claimId body.
    assert (Hkept : exists w',
               warranties db !! id = Some w' /\ w' = withClaims w (w_claims w') /\
               w_status w' = VOID /\ Forall2 revised (w_claims w) (w_claims w') /\
               (forall i, i <> claimId -> w_claims w' !! i = w_claims w !! i)).
    { exists w. split; [exact Hw|]. split; [exact Hself|]. split; [exact Hst|].
      split; [apply revised_same | reflexivity]. }
    unfold updateClaim. erewrite bind_ok by reflexivity. rewrite Hw.
    destruct (w_claims w !! claimId) as [claim|] eqn:Hclaim; [|exact Hkept].
    cbv zeta. unfold bind, Warranty_save.
    destruct (validWarranty _); [|exact Hkept].
    exists (withClaims w (<[claimId := updatedClaim body claim]> (w_claims w))).
    split; [|split; [reflexivity|split; [exact Hst|split]]].
    + cbn [fst warranties withWarranties ret].
      replace (warrantyPreSave (now ctx) _)
        with (withClaims w (<[claimId := updatedClaim body claim]> (w_claims w)))
        by (unfold warrantyPreSave; cbn [withClaims w_status]; now rewrite Hst).
      apply list_lookup_insert_eq. now apply lookup_lt_Some in Hw.
    + cbn [withClaims w_claims]. now apply revised_insert.
    + intros i Hi. cbn [withClaims w_claims]. now apply list_lookup_insert_ne.
  - intros ctx other claimId body Hother.
    unfold updateClaim. erewrite bind_ok by reflexivity.
    destruct (warranties db !! other) as [w0|] eqn:Hw0; [|exact Hw].
    destruct (w_claims w0 !! claimId) as [claim|]; [|exact Hw].
    cbv zeta. unfold bind, Warranty_save.
    destruct (validWarranty _); [|exact Hw].
    cbn [fst warranties withWarranties ret].
    rewrite list_lookup_insert_ne by exact Hother. exact Hw.
Qed.

(** *** A claim that is recorded *)

Lemma strictEq_Some (a : option string) (s : string) :
  strictEq a (Some s) = true <-> a = Some s.
Proof.
  destruct a as [x|]; cbn; [|split; discriminate].
  rewrite String.eqb_eq. split; congruence.
Qed.

(** The REPLACE branch never gets past [StockAdjustment.create]: the type it
    passes, [ADJUSTMENT_TYPES.WARRANTY_REPLACE], does not exist. *)
Lemma claimReplace_never_succeeds ctx warrantyId warranty body claim db db' resolved :
  claimReplace ctx warrantyId warranty body claim db <> (db', Ok resolved).
Proof.
  unfold claimReplace. intros H.
  apply bind_inv in H. destruct H as (db1 & found & _ & H).
  destruct found as [product|]; [|discriminate].
  apply bind_inv in H. destruct H as (db2 & prev & _ & H).
  destruct (prev <? 1); [discriminate|].
  apply bind_inv in H. destruct H as (db3 & [] & _ & H).
  apply bind_inv in H. destruct H as (db4 & [] & H & _).
  unfold StockAdjustment_create in H. cbn in H. discriminate.
Qed.

Lemma claimRefund_never_succeeds ctx warranty issue claim db db' resolved :
  claimRefund ctx warranty issue claim db <> (db', Ok resolved).
Proof.
  unfold claimRefund. intros H.
  apply bind_inv in H. destruct H as (db1 & found & _ & H).
  destruct found as [product|]; [|discriminate].
  apply bind_inv in H. destruct H as (db2 & amount & _ & H).
  apply bind_inv in H. destruct H as (db3 & sale & _ & H).
  apply bind_inv in H. destruct H as (db4 & returnId & H & _).
  unfold Return_create in H. rewrite validReturn_needs_type in H by reflexivity.
  discriminate.
Qed.

(** What the branch taken for the resolution has done when it went
    through. *)
Lemma claim_branches_run ctx warrantyId warranty issue body claim db db1 resolved :
  (if strictEq (cc_resolution body) (prop CLAIM_RESOLUTIONS "REPAIR")
   then claimRepair ctx warranty issue body claim
   else if strictEq (cc_resolution body) (prop CLAIM_RESOLUTIONS "REPLACE")
   then claimReplace ctx warrantyId warranty body claim
   else if strictEq (cc_resolution body) (prop CLAIM_RESOLUTIONS "REFUND")
   then claimRefund ctx warranty issue claim
   else ret (warranty, claim)) db = (db1, Ok resolved) ->
  cc_resolution body <> Some "REPLACE" /\
  cc_resolution body <> Some "REFUND" /\
  fst resolved = warranty /\
  cl_claimNumber (snd resolved) = cl_claimNumber claim /\
  cl_issue (snd resolved) = cl_issue claim /\
  cl_resolution (snd resolved) = cl_resolution claim /\
  stocks db1 = stocks db /\ adjustments db1 = adjustments db /\
  sales db1 = sales db /\ returns db1 = returns db /\
  warranties db1 = warranties db /\
  (cc_resolution body <> Some "REPAIR" -> repairs db1 = repairs db).
Proof.
  change (prop CLAIM_RESOLUTIONS "REPAIR") with (Some "REPAIR").
  change (prop CLAIM_RESOLUTIONS "REPLACE") with (Some "REPLACE").
  change (prop CLAIM_RESOLUTIONS "REFUND") with (Some "REFUND").
  destruct (strictEq (cc_resolution body) (Some "REPAIR")) eqn:E1.
  - apply strictEq_Some in E1. rewrite E1. unfold claimRepair.
    destruct (cc_repairJobId body) as [repairJobId|].
    + intros H. apply bind_inv in H. destruct H as (db0 & found & Hf & H).
      unfold RepairJob_findById, gets in Hf. injection Hf as <- <-.
      destruct (repairs db !! repairJobId); [|discriminate].
      injection H as <- <-. repeat split; try discriminate; try reflexivity.
    + intros H. apply bind_inv in H. destruct H as (db0 & rid & Hc & H).
      unfold RepairJob_create in Hc.
      destruct (validRepairJob _); [|discriminate]. injection Hc as <- <-.
      injection H as <- <-. repeat split; try discriminate; try reflexivity. congruence.
  - destruct (strictEq (cc_resolution body) (Some "REPLACE")) eqn:E2.
    { intros H. now apply claimReplace_never_succeeds in H. }
    destruct (strictEq (cc_resolution body) (Some "REFUND")) eqn:E3.
    { intros H. now apply claimRefund_never_succeeds in H. }
    intros [= <- <-]. repeat split; try reflexivity.
    + intros E. apply strictEq_Some in E. congruence.
    + intros E. apply strictEq_Some in E. congruence.
Qed.

Lemma warrantyPreSave_claims now w : w_claims (warrantyPreSave now w) = w_claims w.
Proof.
  unfold warrantyPreSave. destruct (w_status w); try reflexivity.
  now destruct (w_endDate w <? now).
Qed.

(** X8: a claim that [createClaim] accepted was made on a warranty
    that passed [checkValidity], and its resolution is neither REPLACE nor
    REFUND (these two never get through).  The warranty is saved with the
    claims it had and the new claim after them; it is CLAIMED when it was
    ACTIVE and keeps its status otherwise, so it is never ACTIVE afterwards.
    No stock record, adjustment, sale or return is written, and no repair
    job unless the resolution is REPAIR. *)
Theorem createClaim_records_the_claim ctx warrantyId body db db' saved :
  createClaim ctx warrantyId body db = (db', Ok saved) ->
  exists warranty claim issue,
    cc_issue body = Some issue /\ issue <> "" /\
    warranties db !! warrantyId = Some warranty /\
    checkValidity (now ctx) warranty = true /\
    cc_resolution body <> Some "REPLACE" /\
    cc_resolution body <> Some "REFUND" /\
    w_claims saved = w_claims warranty ++ [claim] /\
    cl_claimNumber claim = claimNumber ctx /\
    cl_issue claim = issue /\
    cl_resolution claim = orNull (cc_resolution body) /\
    w_status saved
    = match w_status warranty with ACTIVE => CLAIMED | status => status end /\
    w_status saved <> ACTIVE /\ w_status saved <> VOID /\
    warranties db' = <[warrantyId := saved]> (warranties db) /\
    stocks db' = stocks db /\ adjustments db' = adjustments db /\
    sales db' = sales db /\ returns db' = returns db /\
    (cc_resolution body <> Some "REPAIR" -> repairs db' = repairs db).
Proof.
  unfold createClaim.
  destruct (cc_issue body) as [issue|] eqn:Hissue; [|discriminate].
  destruct (negb (truthyS (Some issue))) eqn:Htruthy; [discriminate|].
  intros H. apply bind_inv in H. destruct H as (db0 & found & Hfind & H).
  unfold Warranty_findById, gets in Hfind. injection Hfind as <- <-.
  destruct (warranties db !! warrantyId) as [warranty|] eqn:Hw; [|discriminate].
  destruct (negb (checkValidity (now ctx) warranty)) eqn:Hvalid; [discriminate|].
  apply negb_false_iff in Hvalid.
  cbv zeta in H. apply bind_inv in H. destruct H as (db1 & resolved & Hbranch & H).
  apply claim_branches_run in Hbranch.
  destruct Hbranch as (Hn1 & Hn2 & Hfst & Hnum & Hiss & Hres & Hs & Ha & Hsl & Hrt & Hwr & Hrp).
  apply bind_inv in H. destruct H as (db2 & [] & Hsave & H).
  injection H as <- Hsaved. unfold Warranty_save in Hsave.
  destruct (validWarranty _); [|discriminate]. injection Hsave as <-.
  rewrite Hsaved. rewrite Hfst in Hsaved.
  pose proof (checkValidity_not_void _ _ Hvalid) as Hnv.
  assert (Hne : issue <> "") by (intros ->; discriminate).
  cbn in Hnum, Hiss, Hres.
  assert (Hstatus :
    w_status saved = match w_status warranty with ACTIVE => CLAIMED | status => status end).
  { rewrite <- Hsaved. unfold warrantyPreSave.
    destruct (w_status warranty) eqn:Hst;
      repeat (progress (cbn [withStatus withClaim w_status]; rewrite ?Hst));
      reflexivity. }
  assert (Hclaims : w_claims saved = w_claims warranty ++ [snd resolved]).
  { rewrite <- Hsaved, warrantyPreSave_claims. cbn [withClaim w_status].
    now destruct (w_status warranty). }
  exists warranty, (snd resolved), issue.
  repeat (split; [first [assumption | reflexivity]|]).
  split; [rewrite Hstatus; now destruct (w_status warranty)|].
  split; [rewrite Hstatus; now destruct (w_status warranty)|].
  split; [cbn; now rewrite Hwr|].
  repeat (split; [assumption|]). exact Hrp.
Qed.

(** A REJECTED claim on the phone's warranty: the claim is recorded, the
    warranty becomes CLAIMED and the stock is as it was. *)
Lemma createClaim_records_the_claim_witness :
  exists db' saved,
    createClaim clerk 0%nat (claimWith "REJECTED") servicedShop = (db', Ok saved) /\
    w_status saved = CLAIMED /\
    length (w_claims saved) = 1%nat /\
    stocks db' = stocks servicedShop.
Proof.
  destruct (createClaim clerk 0%nat (claimWith "REJECTED") servicedShop)
    as [db' [saved|e]] eqn:E; [|vm_compute in E; discriminate].
  exists db', saved. split; [reflexivity|].
  destruct (createClaim_records_the_claim _ _ _ _ _ _ E)
    as (w & c & issue & _ & _ & Hw & _ & _ & _ & Hc & _ & _ & _ & Hst & _ & _ & _
        & Hs & _).
  vm_compute in Hw. injection Hw as <-.
  split; [exact Hst|]. split; [rewrite Hc; reflexivity | exact Hs].
Defined.

(** The recalled phone: a claim for repair leaves its warranty as it was,
    it cannot be voided again, and its open claim can still be rejected. *)
Lemma voided_warranty_stays_void_witness :
  warranties (fst (handle (clerk, CreateClaim 0%nat (claimWith "REPAIR")) withdrawnShop))
    !! 0%nat = Some withdrawn /\
  voidWarranty clerk 0%nat (Some "recalled twice") withdrawnShop
  = (withdrawnShop, Ok (Refused (inr WarrantyAlreadyVoided) 400)) /\
  exists w',
    warranties (fst (updateClaim clerk 0%nat 0%nat rejectIt withdrawnShop)) !! 0%nat
    = Some w' /\
    w_status w' = VOID /\
    List.map cl_resolution (w_claims withdrawn) = [None] /\
    List.map cl_resolution (w_claims w') = [Some "REJECTED"].
Proof.
  destruct (voided_warranty_stays_void withdrawnShop 0%nat withdrawn eq_refl eq_refl)
    as (Hkept & _ & Hvoid & _ & Hupdate & _).
  split; [apply Hkept|]. split; [now apply Hvoid|].
  destruct (Hupdate clerk 0%nat rejectIt) as (w' & Hlook & _ & Hst & _).
  exists w'. split; [exact Hlook|]. split; [exact Hst|]. split; [reflexivity|].
  vm_compute in Hlook. injection Hlook as <-. reflexivity.
Defined.

(** ** The low stock report *)

Section Sorting.

Context {A : Type} (compare : A -> A -> Z).

Hypothesis compare_total : forall x y, 0 < compare x y -> compare y x <= 0.
Hypothesis compare_trans :
  forall x y z, compare x y <= 0 -> compare y z <= 0 -> compare x z <= 0.

Lemma insertSorted_Permutation (x : A) (l : list A) :
  Permutation (insertSorted compare x l) (x :: l).
Proof.
  induction l as [|y l IH]; cbn [insertSorted]; [reflexivity|].
  destruct (compare x y <=? 0); [reflexivity|].
  rewrite IH. apply perm_swap.
Qed.

Lemma sortBy_Permutation (l : list A) : Permutation (sortBy compare l) l.
Proof.
  induction l as [|x l IH]; cbn [sortBy List.fold_right]; [reflexivity|].
  fold (sortBy compare l). now rewrite insertSorted_Permutation, IH.
Qed.

Lemma insertSorted_sorted (x : A) (l : list A) :
  StronglySorted (fun a b => compare a b <= 0) l ->
  StronglySorted (fun a b => compare a b <= 0) (insertSorted compare x l).
Proof.
  induction l as [|y l IH]; intros Hs; cbn [insertSorted].
  - repeat constructor.
  - inversion Hs as [|? ? Hl Hy]; subst.
    destruct (compare x y <=? 0) eqn:E.
    + apply Z.leb_le in E. constructor; [exact Hs|].
      constructor; [exact E|].
      eapply List.Forall_impl; [|exact Hy]. intros z Hz. now apply (compare_trans x y z).
    + apply Z.leb_gt in E. constructor; [now apply IH|].
      rewrite (insertSorted_Permutation x l).
      constructor; [now apply compare_total | exact Hy].
Qed.

Lemma sortBy_sorted (l : list A) :
  StronglySorted (fun a b => compare a b <= 0) (sortBy compare l).
Proof.
  induction l as [|x l IH]; cbn [sortBy List.fold_right]; [constructor|].
  now apply insertSorted_sorted.
Qed.

End Sorting.

Lemma StronglySorted_weaken {A} (R R' : A -> A -> Prop) (l : list A) :
  (forall a b, R a b -> R' a b) -> StronglySorted R l -> StronglySorted R' l.
Proof.
  intros HR H. induction H as [|a l Hl IH Ha]; constructor; [exact IH|].
  eapply List.Forall_impl; [|exact Ha]. intros b. apply HR.
Qed.

Lemma fold_left_push {A B} (keep : A -> bool) (item : A -> B) (l : list A) :
  forall acc,
    List.fold_left (fun acc x => if keep x then acc ++ [item x] else acc) l acc
    = acc ++ List.map item (List.filter keep l).
Proof.
  induction l as [|x l IH]; intros acc; cbn [List.fold_left List.filter List.map].
  - now rewrite app_nil_r.
  - rewrite IH. destruct (keep x); [|reflexivity].
    cbn [List.map]. now rewrite <- app_assoc.
Qed.

(** The items before the sort. *)
Lemma getLowStock_unsorted catalogue db :
  getLowStock catalogue db
  = sortBy (fun a b => shortfall b - shortfall a)
      (List.map (lowStockItem db)
         (List.filter
            (fun product => quantityOf db (pl_id product) <=? pl_minStockLevel product)
            (List.filter pl_isActive catalogue))).
Proof.
  unfold getLowStock. cbv zeta. f_equal.
  exact (fold_left_push
           (fun product => quantityOf db (pl_id product) <=? pl_minStockLevel product)
           (lowStockItem db) (List.filter pl_isActive catalogue) []).
Qed.

(** X9: [Stock.getLowStock] reports exactly the active products
    whose quantity on hand (0 without a stock record) is at or below their
    minimum level, each once per product document, with the quantity on hand,
    the minimum level and a shortfall that is their difference and never
    negative; the report is sorted by shortfall, largest first. *)
Theorem getLowStock_reports_shortfalls (catalogue : list ProductLevel) (db : DB) :
  Permutation (getLowStock catalogue db)
    (List.map (lowStockItem db)
       (List.filter
          (fun product =>
             (pl_isActive product
              && (quantityOf db (pl_id product) <=? pl_minStockLevel product))%bool)
          catalogue)) /\
  StronglySorted (fun a b => shortfall b <= shortfall a) (getLowStock catalogue db) /\
  Forall (fun item =>
            currentQuantity item = quantityOf db (ls_product item) /\
            currentQuantity item <= minStockLevel item /\
            shortfall item = minStockLevel item - currentQuantity item /\
            0 <= shortfall item)
         (getLowStock catalogue db).
Proof.
  rewrite getLowStock_unsorted.
  assert (Hperm :
    Permutation
      (sortBy (fun a b => shortfall b - shortfall a)
         (List.map (lowStockItem db)
            (List.filter
               (fun product => quantityOf db (pl_id product) <=? pl_minStockLevel product)
               (List.filter pl_isActive catalogue))))
      (List.map (lowStockItem db)
         (List.filter
            (fun product =>
               (pl_isActive product
                && (quantityOf db (pl_id product) <=? pl_minStockLevel product))%bool)
            catalogue))).
  { rewrite sortBy_Permutation. apply Permutation_map.
    replace (List.filter
               (fun product => quantityOf db (pl_id product) <=? pl_minStockLevel product)
               (List.filter pl_isActive catalogue))
      with (List.filter
              (fun product =>
                 (pl_isActive product
                  && (quantityOf db (pl_id product) <=? pl_minStockLevel product))%bool)
              catalogue); [reflexivity|].
    induction catalogue as [|product l IH]; cbn [List.filter]; [reflexivity|].
    destruct (pl_isActive product); cbn [andb List.filter]; [|exact IH].
    destruct (_ <=? _); now rewrite IH. }
  split; [exact Hperm|]. split.
  - eapply StronglySorted_weaken;
      [| apply (sortBy_sorted (fun a b : LowStockItem => shortfall b - shortfall a))].
    + intros a b H. cbv beta in H. lia.
    + intros x y H. lia.
    + intros x y z. lia.
  - apply List.Forall_forall. intros item Hin.
    apply (Permutation_in _ Hperm) in Hin.
    apply List.in_map_iff in Hin. destruct Hin as [product [<- Hin]].
    apply List.filter_In in Hin. destruct Hin as [_ Hlow].
    apply andb_true_iff in Hlow. destruct Hlow as [_ Hlow]. apply Z.leb_le in Hlow.
    cbn [lowStockItem currentQuantity ls_product minStockLevel shortfall].
    repeat split; lia.
Qed.

(** ** The directions the dropdown reports *)

(** What [adjustStock] has checked and computed when it answers 201. *)
Lemma adjustStock_accepts ctx body db db' moved :
  adjustStock ctx body db = (db', Ok moved) ->
  exists type quantity,
    as_type body = Some type /\ as_quantity body = Some quantity /\
    In type (values ADJUSTMENT_TYPES) /\ 0 < quantity /\
    newQuantity moved
    = (if includes ["ADDITION"; "PURCHASE"; "RETURN"; "TRANSFER_IN"; "CORRECTION"] type
       then previousQuantity moved + quantity
       else previousQuantity moved - quantity) /\
    0 <= newQuantity moved.
Proof.
  unfold adjustStock.
  destruct (as_productId body) as [productId|]; [|discriminate].
  destruct (as_type body) as [type|]; [|discriminate].
  destruct (as_quantity body) as [quantity|]; [|discriminate].
  destruct (_ || _)%bool; [discriminate|].
  destruct (includes (values ADJUSTMENT_TYPES) type) eqn:Htype; [|discriminate].
  cbn [negb]. destruct (quantity <=? 0) eqn:Hq; [discriminate|].
  unfold bind, Product_findById, gets.
  destruct (products db !! productId); [|discriminate].
  destruct (Stock_getOrCreate productId db) as [db1 [prev|e]]; [|discriminate].
  match goal with
  | |- context [if ?n <? 0 then _ else _] => set (new := n); destruct (new <? 0) eqn:Hneg
  end; [discriminate|].
  destruct (Stock_save productId new db1) as [db2 [[]|e]]; [|discriminate].
  destruct (StockAdjustment_create _ db2) as [db3 [[]|e]]; [|discriminate].
  intros [= _ <-]. cbn [newQuantity previousQuantity].
  exists type, quantity. apply includes_In in Htype. apply Z.leb_gt in Hq.
  apply Z.ltb_ge in Hneg.
  repeat split; try assumption.
  subst new. now destruct (String.eqb type "CORRECTION").
Qed.

(** X10: for every adjustment [adjustStock] carries out, the type
    is one that [getAdjustmentTypes] lists, and the direction listed for it
    is the direction the stock moved in: IN exactly when the quantity went
    up, OUT exactly when it went down.  CORRECTION is the exception: it is
    listed as OUT and always moves the stock up. *)
Theorem getAdjustmentTypes_direction ctx body db db' moved :
  adjustStock ctx body db = (db', Ok moved) ->
  exists reported,
    In reported getAdjustmentTypes /\
    as_type body = Some (at_value reported) /\
    (at_value reported <> "CORRECTION" ->
     (at_direction reported = "IN" <-> previousQuantity moved < newQuantity moved) /\
     (at_direction reported = "OUT" <-> newQuantity moved < previousQuantity moved)) /\
    (at_value reported = "CORRECTION" ->
     at_direction reported = "OUT" /\ previousQuantity moved < newQuantity moved).
Proof.
  intros H. apply adjustStock_accepts in H.
  destruct H as (type & quantity & Ht & _ & Hin & Hq & Hnew & _).
  exists {| at_key := type; at_value := type; at_direction := reportedDirection type |}.
  cbn [at_value at_direction].
  split; [|split; [exact Ht|]].
  - cbn in Hin. unfold getAdjustmentTypes. cbn [ADJUSTMENT_TYPES List.map fst snd].
    repeat (destruct Hin as [<-|Hin]; [cbn; tauto|]). destruct Hin.
  - cbn in Hin.
    repeat (destruct Hin as [<-|Hin];
            [cbn in Hnew |- *; split;
             [ intros Hne; try congruence; split; split; intros Hd;
               first [reflexivity | discriminate | lia | exfalso; lia]
             | intros E; first [discriminate E | split; [reflexivity | lia]] ]|]).
    destruct Hin.
Qed.

(** Two damaged phones are written off: DAMAGE is listed as OUT, and the
    stock went down. *)
Lemma getAdjustmentTypes_direction_witness :
  exists reported,
    In reported getAdjustmentTypes /\
    as_type (adjustBody "DAMAGE" 2) = Some (at_value reported) /\
    at_direction reported = "OUT".
Proof.
  destruct (adjustStock clerk (adjustBody "DAMAGE" 2) shop) as [db' [moved|e]] eqn:E;
    [|vm_compute in E; discriminate].
  destruct (getAdjustmentTypes_direction _ _ _ _ _ E) as (reported & Hin & Ht & Hd & _).
  exists reported. split; [exact Hin|]. split; [exact Ht|].
  injection Ht as Ht.
  destruct Hd as [_ [_ Hout]]; [rewrite <- Ht; discriminate|].
  apply Hout. vm_compute in E. injection E as _ <-. reflexivity.
Defined.

(** ** The adjustment history as a chain *)

Lemma replay_app product history a : forall q,
  replay product (history ++ [a]) q
  = match replay product history q with
    | Some q' =>
        if Nat.eqb (sa_product a) product
        then if Z.eqb (sa_previousQuantity a) q' then Some (sa_newQuantity a) else None
        else Some q'
    | None => None
    end.
Proof.
  induction history as [|b history IH]; intros q; cbn [replay app].
  - reflexivity.
  - destruct (Nat.eqb (sa_product b) product); [|apply IH].
    destruct (Z.eqb (sa_previousQuantity b) q); [apply IH | reflexivity].
Qed.

(** A chain adds up: the quantity it ends at is the quantity it started
    from plus the changes of its links. *)
Lemma replay_ledgerChange product history : forall q q',
  replay product history q = Some q' -> q' = q + ledgerChange product history.
Proof.
  induction history as [|a history IH]; intros q q'; cbn [replay ledgerChange].
  - intros [= <-]. lia.
  - destruct (Nat.eqb (sa_product a) product).
    + destruct (Z.eqb_spec (sa_previousQuantity a) q) as [E|]; [|discriminate].
      intros H. apply IH in H. unfold change. lia.
    + intros H. apply IH in H. lia.
Qed.

Lemma ledgerChained_balanced db : ledgerChained db -> ledgerBalanced db.
Proof.
  intros H p. specialize (H p). apply replay_ledgerChange in H. lia.
Qed.

Lemma ledgerOnly_chained : ledgerOnly ledgerChained.
Proof.
  intros db db' H Hc p. rewrite (quantityOf_sameLedger _ _ _ H).
  destruct H as [_ Ha]. rewrite Ha. apply Hc.
Qed.

Lemma ledgerOnly_pendingLink product prev new : ledgerOnly (pendingLink product prev new).
Proof.
  intros db db' H [Hq Hp]. split.
  - now rewrite (quantityOf_sameLedger _ _ _ H).
  - intros p. rewrite (quantityOf_sameLedger _ _ _ H).
    destruct H as [_ Ha]. rewrite Ha. apply Hp.
Qed.

Lemma chained_getOrCreate product :
  onSuccess ledgerChained (Stock_getOrCreate product)
    (fun prev db => ledgerChained db /\ prev = quantityOf db product).
Proof.
  intros db db' prev H E.
  pose proof (getOrCreate_result db product) as Hr.
  pose proof (quantityOf_getOrCreate db product) as Hq.
  pose proof (getOrCreate_keeps db product) as Hk.
  rewrite E in Hr, Hq, Hk. cbn in Hr, Hq, Hk. injection Hr as ->. split.
  - intros p. rewrite Hq. destruct Hk as [-> _]. apply H.
  - now rewrite Hq.
Qed.

Lemma chained_save product prev new :
  onSuccess (fun db => ledgerChained db /\ prev = quantityOf db product)
    (Stock_save product new) (fun _ => pendingLink product prev new).
Proof.
  intros db db' [] [Hc ->]. unfold Stock_save.
  destruct (new <? 0); [discriminate|]. intros [= <-]. split.
  - rewrite quantityOf_insert. now rewrite Nat.eqb_refl.
  - intros p. rewrite quantityOf_insert. cbn [adjustments withStocks]. rewrite Hc.
    now destruct (Nat.eqb_spec product p) as [->|].
Qed.

Lemma chained_adjustment a product prev new :
  sa_product a = product -> sa_previousQuantity a = prev -> sa_newQuantity a = new ->
  onSuccess (pendingLink product prev new) (StockAdjustment_create a)
    (fun _ => ledgerChained).
Proof.
  intros Hp Hprev Hnew db db' [] [Hq H]. unfold StockAdjustment_create.
  destruct (validStockAdjustment a); [|discriminate]. intros [= <-] p.
  cbn [adjustments withAdjustments]. rewrite replay_app, H, Hp, Hprev, Hnew.
  change (quantityOf (withAdjustments db (adjustments db ++ [a])) p)
    with (quantityOf db p).
  destruct (Nat.eqb_spec product p) as [<-|]; [|reflexivity].
  now rewrite Z.eqb_refl, Hq.
Qed.

Ltac bind_neutral_chained :=
  eapply onSuccess_bind;
  [ apply onSuccess_neutral; [apply ledgerOnly_chained | intros ?; solve [neutral]]
  | intros ? ].

Ltac bind_any_chained :=
  eapply (onSuccess_bind _ (fun _ => ledgerChained)); [ | intros ? ].

Ltac step_chained :=
  lazymatch goal with
  | |- onSuccess _ (let _ := _ in _) _ => cbv zeta
  | |- onSuccess _ (ret _) _ => apply onSuccess_ret
  | |- onSuccess _ (throw _) _ => apply onSuccess_throw
  | |- onSuccess _ (lift _) _ => apply onSuccess_lift
  | |- onSuccess _ (attempt _) _ => apply onSuccess_attempt
  | |- onSuccess _ (bind ?m _) _ =>
      lazymatch m with
      | Stock_getOrCreate _ =>
          eapply onSuccess_bind; [apply chained_getOrCreate | intros ?]
      | Stock_save _ _ =>
          eapply onSuccess_bind; [apply chained_save | intros ?]
      | StockAdjustment_create _ =>
          eapply onSuccess_bind; [apply chained_adjustment; reflexivity | intros ?]
      | forEach _ _ => first [ bind_neutral_chained | bind_any_chained ]
      | match _ with _ => _ end => first [ bind_neutral_chained | bind_any_chained ]
      | _ => bind_neutral_chained
      end
  | |- onSuccess _ (StockAdjustment_create _) _ =>
      apply chained_adjustment; reflexivity
  | |- onSuccess _ (forEach _ _) _ => apply onSuccess_forEach; intros ?
  | |- onSuccess _ (match ?x with _ => _ end) _ => destruct x
  | |- onSuccess _ _ _ =>
      apply onSuccess_neutral; [apply ledgerOnly_chained | intros ?; solve [neutral]]
  end.

Ltac chained := repeat step_chained.

Lemma chained_consumeParts ctx repairId repair parts : forall processedParts,
  onSuccess ledgerChained (consumeParts ctx repairId repair parts processedParts)
    (fun _ => ledgerChained).
Proof.
  induction parts as [|part rest IH]; intros processedParts; cbn [consumeParts].
  - chained.
  - unfold Product_findById.
    eapply onSuccess_bind; [apply onSuccess_gets | intros product].
    destruct product as [product|]; [|apply onSuccess_throw].
    eapply onSuccess_bind; [apply onSuccess_gets | intros stock].
    destruct (default 0 stock <? pin_quantity part); [apply onSuccess_throw|].
    destruct stock as [previousQuantity|]; [|apply onSuccess_throw].
    eapply onSuccess_bind.
    { eapply onSuccess_weaken; [apply (chained_save (pin_productId part) previousQuantity)| |].
      - intros db [[Hb _] Hs]. split; [exact Hb|]. unfold quantityOf. now rewrite <- Hs.
      - intros a db H. exact H. }
    intros ?. eapply onSuccess_bind; [apply chained_adjustment; reflexivity | intros ?].
    apply IH.
Qed.

Lemma chained_handle cr :
  onSuccess ledgerChained (handle cr) (fun _ => ledgerChained).
Proof.
  destruct cr as [ctx []]; unfold handle; cbn [fst snd];
    (eapply onSuccess_bind; [| intros ?; apply onSuccess_ret]).
  - unfold adjustStock, Product_findById. chained.
  - unfold createSale. destruct (cs_items body) as [|item items]; [chained|].
    pose proof same_issueWarranties as Hw. unfold deductItem. chained.
  - unfold voidSale, Sale_findById, restoreItem. chained.
  - unfold createReturn, Sale_findById, restoreReturned. chained.
  - unfold createExchange, Sale_findById, restoreReturned, deductNewItem. chained.
  - unfold completeRepair, RepairJob_findById.
    eapply onSuccess_bind; [apply onSuccess_neutral;
      [apply ledgerOnly_chained | intros ?; neutral] | intros repair].
    destruct repair as [repair|]; [|chained].
    destruct (negb _); [chained|].
    destruct (rj_status repair); try apply onSuccess_throw;
      (eapply onSuccess_bind; [apply chained_consumeParts | intros ?; chained]).
  - unfold cancelRepair, RepairJob_findById, restorePart. chained.
  - unfold createClaim, claimRepair, claimReplace, claimRefund, Warranty_findById,
      RepairJob_findById, Product_findById.
    chained.
Qed.

Lemma replay_split product h1 h2 : forall q,
  replay product (h1 ++ h2) q
  = match replay product h1 q with
    | Some q1 => replay product h2 q1
    | None => None
    end.
Proof.
  induction h1 as [|a h1 IH]; intros q; cbn [replay app]; [reflexivity|].
  destruct (Nat.eqb (sa_product a) product); [|apply IH].
  destruct (Z.eqb (sa_previousQuantity a) q); [apply IH | reflexivity].
Qed.

Lemma replay_others product history : forall q,
  Forall (fun c => sa_product c <> product) history ->
  replay product history q = Some q.
Proof.
  induction history as [|a history IH]; intros q H; cbn [replay]; [reflexivity|].
  inversion H as [|? ? Ha Hrest]; subst.
  destruct (Nat.eqb_spec (sa_product a) product); [contradiction|]. now apply IH.
Qed.

(** In a chain, an adjustment starts where the one before it for the same
    product ended, and the last one ends at the quantity the chain ends
    at. *)
Lemma replay_links product history q q' :
  replay product history q = Some q' ->
  (forall h1 a mid b h2,
     history = h1 ++ a :: mid ++ b :: h2 ->
     sa_product a = product -> sa_product b = product ->
     Forall (fun c => sa_product c <> product) mid ->
     sa_previousQuantity b = sa_newQuantity a) /\
  (forall h1 a rest,
     history = h1 ++ a :: rest ->
     sa_product a = product ->
     Forall (fun c => sa_product c <> product) rest ->
     sa_newQuantity a = q').
Proof.
  intros H. split.
  - intros h1 a mid b h2 -> Ha Hb Hmid.
    rewrite replay_split in H. destruct (replay product h1 q) as [q1|]; [|discriminate].
    cbn [replay] in H. rewrite Ha, Nat.eqb_refl in H.
    destruct (Z.eqb (sa_previousQuantity a) q1); [|discriminate].
    rewrite replay_split, (replay_others _ _ _ Hmid) in H.
    cbn [replay] in H. rewrite Hb, Nat.eqb_refl in H.
    destruct (Z.eqb_spec (sa_previousQuantity b) (sa_newQuantity a)); [assumption|discriminate].
  - intros h1 a rest -> Ha Hrest.
    rewrite replay_split in H. destruct (replay product h1 q) as [q1|]; [|discriminate].
    cbn [replay] in H. rewrite Ha, Nat.eqb_refl in H.
    destruct (Z.eqb (sa_previousQuantity a) q1); [|discriminate].
    rewrite (replay_others _ _ _ Hrest) in H. now injection H.
Qed.

Lemma shop_chained : ledgerChained shop.
Proof.
  intros p. destruct (decide (p = 1%nat)) as [->|Hne]; [reflexivity|].
  unfold quantityOf. cbn [shop stocks]. rewrite lookup_singleton_ne by congruence.
  destruct p as [|[|p]]; [reflexivity | congruence | reflexivity].
Qed.

(** X11: every request that succeeds keeps the adjustment history a
    chain.  If, for every product, the history starts at 0, each adjustment
    starts at the quantity the product's previous adjustment ended at, and
    the last one ends at the quantity on hand, then the same holds after the
    request: [previousQuantity] of an adjustment is [newQuantity] of the one
    before it for the same product, the last [newQuantity] is the stock on
    hand, and the first [previousQuantity] is 0. *)
Theorem ledger_chain_kept_on_success (cr : Ctx * Request) (db db' : DB) :
  ledgerChained db ->
  handle cr db = (db', Ok tt) ->
  ledgerChained db' /\
  (forall h1 a mid b h2,
     adjustments db' = h1 ++ a :: mid ++ b :: h2 ->
     sa_product b = sa_product a ->
     Forall (fun c => sa_product c <> sa_product a) mid ->
     sa_previousQuantity b = sa_newQuantity a) /\
  (forall h1 a rest,
     adjustments db' = h1 ++ a :: rest ->
     Forall (fun c => sa_product c <> sa_product a) rest ->
     sa_newQuantity a = quantityOf db' (sa_product a)) /\
  (forall h0 a h1,
     adjustments db' = h0 ++ a :: h1 ->
     Forall (fun c => sa_product c <> sa_product a) h0 ->
     sa_previousQuantity a = 0).
Proof.
  intros Hc Hrun.
  pose proof (chained_handle cr db db' tt Hc Hrun) as Hc'.
  split; [exact Hc'|]. split; [|split].
  - intros h1 a mid b h2 Hh Hb Hmid.
    exact (proj1 (replay_links _ _ _ _ (Hc' (sa_product a))) h1 a mid b h2 Hh eq_refl Hb Hmid).
  - intros h1 a rest Hh Hrest.
    exact (proj2 (replay_links _ _ _ _ (Hc' (sa_product a))) h1 a rest Hh eq_refl Hrest).
  - intros h0 a h1 Hh Hh0.
    specialize (Hc' (sa_product a)). rewrite Hh, replay_split in Hc'.
    rewrite (replay_others _ _ _ Hh0) in Hc'. cbn [replay] in Hc'.
    rewrite Nat.eqb_refl in Hc'.
    destruct (Z.eqb_spec (sa_previousQuantity a) 0); [assumption | discriminate].
Qed.

(** The sale of two phones: the delivery took the stock from 0 to 5, the
    sale takes it from 5 to 3. *)
Lemma ledger_chain_kept_on_success_witness :
  ledgerChained (fst (handle (clerk, CreateSale (saleOf [line 2])) shop)) /\
  List.map (fun a => (sa_previousQuantity a, sa_newQuantity a))
    (adjustments (fst (handle (clerk, CreateSale (saleOf [line 2])) shop)))
  = [(0, 5); (5, 3)].
Proof.
  split; [|reflexivity].
  refine (proj1 (ledger_chain_kept_on_success
                   (clerk, CreateSale (saleOf [line 2])) shop _ shop_chained _)).
  vm_compute. reflexivity.
Defined.

(** ** Requests that are turned away *)

Lemma failsInWrites_ret {A} (a : A) : failsInWrites (ret a).
Proof. intros db db' what statusCode [=]. Qed.

Lemma failsInWrites_gets {A} (f : DB -> A) : failsInWrites (gets f).
Proof. intros db db' what statusCode [=]. Qed.

Lemma failsInWrites_bind {A B} (m : M A) (f : A -> M B) :
  failsInWrites m -> (forall a, failsInWrites (f a)) -> failsInWrites (bind m f).
Proof.
  intros Hm Hf db db' what statusCode H. unfold bind in H.
  destruct (m db) as [db1 [a|e]] eqn:E.
  - exact (Hf a db1 db' what statusCode H).
  - injection H as <- ->. exact (Hm db db1 what statusCode E).
Qed.

Lemma failsInWrites_forEach {A} (f : A -> M unit) (l : list A) :
  (forall x, failsInWrites (f x)) -> failsInWrites (forEach f l).
Proof.
  intros Hf. induction l as [|x l IH]; cbn [forEach].
  - apply failsInWrites_ret.
  - apply failsInWrites_bind; [apply Hf | intros _; exact IH].
Qed.

Lemma failsInWrites_times (n : nat) (m : M unit) :
  failsInWrites m -> failsInWrites (times n m).
Proof.
  intros Hm. induction n as [|n IH]; cbn [times].
  - apply failsInWrites_ret.
  - apply failsInWrites_bind; [exact Hm | intros _; exact IH].
Qed.

Lemma failsInWrites_getOrCreate product : failsInWrites (Stock_getOrCreate product).
Proof.
  intros db db' what statusCode. unfold Stock_getOrCreate.
  destruct (stocks db !! product); discriminate.
Qed.

Lemma failsInWrites_save product q : failsInWrites (Stock_save product q).
Proof.
  intros db db' what statusCode. unfold Stock_save. destruct (q <? 0); discriminate.
Qed.

Lemma failsInWrites_adjustment a : failsInWrites (StockAdjustment_create a).
Proof.
  intros db db' what statusCode. unfold StockAdjustment_create.
  destruct (validStockAdjustment a); discriminate.
Qed.

Lemma failsInWrites_Sale_create s : failsInWrites (Sale_create s).
Proof.
  intros db db' what statusCode. unfold Sale_create. destruct (validSale s); discriminate.
Qed.

Lemma failsInWrites_Sale_save id s : failsInWrites (Sale_save id s).
Proof.
  intros db db' what statusCode. unfold Sale_save. destruct (validSale s); discriminate.
Qed.

Lemma failsInWrites_Return_create r : failsInWrites (Return_create r).
Proof.
  intros db db' what statusCode. unfold Return_create. destruct (validReturn r); discriminate.
Qed.

Lemma failsInWrites_RepairJob_save id r : failsInWrites (RepairJob_save id r).
Proof.
  intros db db' what statusCode. unfold RepairJob_save.
  destruct (validRepairJob r); discriminate.
Qed.

Lemma failsInWrites_Warranty_create now w : failsInWrites (Warranty_create now w).
Proof.
  intros db db' what statusCode. unfold Warranty_create.
  destruct (validWarranty w); discriminate.
Qed.

Lemma failsInWrites_voidWarrantiesOf sale product by_ reason :
  failsInWrites (voidWarrantiesOf sale product by_ reason).
Proof. intros db db' what statusCode. discriminate. Qed.

Lemma refusesUnwritten_throw {A} (e : Error) : refusesUnwritten (@throw A e).
Proof. intros db db' what statusCode [= <- _]. reflexivity. Qed.

Lemma refusesUnwritten_writes {A} (m : M A) : failsInWrites m -> refusesUnwritten m.
Proof. intros Hm db db' what statusCode H. now apply Hm in H. Qed.

(** A step that reads, and may refuse, goes before the rest. *)
Lemma refusesUnwritten_read {A B} (m : M A) (f : A -> M B) :
  (forall db, fst (m db) = db) -> (forall a, refusesUnwritten (f a)) ->
  refusesUnwritten (bind m f).
Proof.
  intros Hm Hf db db' what statusCode H. unfold bind in H.
  specialize (Hm db). destruct (m db) as [db1 [a|e]]; cbn in Hm; subst db1.
  - exact (Hf a db db' what statusCode H).
  - now injection H as <- _.
Qed.

Create HintDb writes.
#[local] Hint Resolve failsInWrites_ret failsInWrites_gets failsInWrites_getOrCreate
  failsInWrites_save failsInWrites_adjustment failsInWrites_Sale_create
  failsInWrites_Sale_save failsInWrites_Return_create failsInWrites_RepairJob_save
  failsInWrites_Warranty_create failsInWrites_voidWarrantiesOf : writes.

Ltac writes :=
  repeat first
    [ solve [auto with writes]
    | apply failsInWrites_bind; [| intros ?]
    | apply failsInWrites_forEach; intros ?
    | apply failsInWrites_times
    | match goal with
      | |- failsInWrites (match ?x with _ => _ end) => destruct x
      | |- failsInWrites (if ?x then _ else _) => destruct x
      end ].

Ltac refusals :=
  repeat first
    [ apply refusesUnwritten_throw
    | apply refusesUnwritten_read; [intros ?; reflexivity | intros ?]
    | match goal with
      | |- refusesUnwritten (let _ := _ in _) => cbv zeta
      | |- refusesUnwritten (match ?x with _ => _ end) => destruct x
      | |- refusesUnwritten (if ?x then _ else _) => destruct x
      end
    | apply refusesUnwritten_writes; solve [writes] ].

Lemma failsInWrites_issueWarranties ctx saleId customer name phone item :
  failsInWrites (issueWarranties ctx saleId customer name phone item).
Proof. unfold issueWarranties, Product_findById. writes. Qed.

(** X12: [createSale], [voidSale], [createReturn], [createExchange]
    and [cancelRepair] answer with an application error (a 400 or a 404)
    only before their first write: a request that ends in such an error has
    left the database exactly as it found it.  Whatever fails after the
    first write is the validation error of a write. *)
Theorem refused_requests_write_nothing (ctx : Ctx) :
  (forall body, refusesUnwritten (createSale ctx body)) /\
  (forall saleId reason, refusesUnwritten (voidSale ctx saleId reason)) /\
  (forall body, refusesUnwritten (createReturn ctx body)) /\
  (forall body, refusesUnwritten (createExchange ctx body)) /\
  (forall repairId reason, refusesUnwritten (cancelRepair ctx repairId reason)).
Proof.
  pose proof failsInWrites_issueWarranties as Hw.
  repeat split.
  - intros body. unfold createSale, deductItem. refusals.
  - intros saleId reason. unfold voidSale, Sale_findById, restoreItem. refusals.
  - intros body. unfold createReturn, Sale_findById, restoreReturned. refusals.
  - intros body. unfold createExchange, Sale_findById, restoreReturned, deductNewItem.
    refusals.
  - intros repairId reason. unfold cancelRepair, RepairJob_findById, restorePart.
    refusals.
Qed.

(** ** What a sale leaves behind *)

Lemma validSale_items s :
  validSale s = true -> Forall (fun item => 1 <= si_quantity item) (s_items s).
Proof.
  unfold validSale. rewrite !andb_true_iff. intros H.
  decompose [and] H. clear H.
  match goal with
  | Hf : List.forallb validSaleItem _ = true |- _ =>
      rewrite List.forallb_forall in Hf; apply List.Forall_forall; intros x Hx;
      specialize (Hf x Hx); unfold validSaleItem in Hf;
      rewrite !andb_true_iff in Hf; decompose [and] Hf
  end.
  now apply Z.leb_le.
Qed.

(** One turn of the loop that issues the warranties of a line. *)
Lemma issue_one_run ctx (w : nat -> Warranty) db db' :
  (do n <- gets (fun db => length (warranties db));
   exec Warranty_create (now ctx) (w n);
   ret tt) db = (db', Ok tt) ->
  warranties db'
  = warranties db ++ [warrantyPreSave (now ctx) (w (length (warranties db)))] /\
  products db' = products db /\ sales db' = sales db /\ stocks db' = stocks db /\
  adjustments db' = adjustments db.
Proof.
  intros H. apply bind_inv in H. destruct H as (db0 & n & Hn & H).
  unfold gets in Hn. injection Hn as <- <-.
  apply bind_inv in H. destruct H as (db1 & id & Hc & H).
  injection H as <-. unfold Warranty_create in Hc.
  destruct (validWarranty _); [|discriminate]. injection Hc as <- _.
  repeat split.
Qed.

Lemma times_issue_run ctx (w : nat -> Warranty) (P : Warranty -> Prop) k :
  (forall n, P (warrantyPreSave (now ctx) (w n))) ->
  forall db db',
    times k (do n <- gets (fun db => length (warranties db));
             exec Warranty_create (now ctx) (w n);
             ret tt) db = (db', Ok tt) ->
    exists issued,
      warranties db' = warranties db ++ issued /\ length issued = k /\
      Forall P issued /\
      products db' = products db /\ sales db' = sales db /\ stocks db' = stocks db /\
      adjustments db' = adjustments db.
Proof.
  intros HP. induction k as [|k IH]; intros db db' H; cbn [times] in H.
  - injection H as <-. exists []. rewrite app_nil_r. repeat split. constructor.
  - apply bind_inv in H. destruct H as (db1 & [] & H1 & H).
    apply issue_one_run in H1. destruct H1 as (Hw1 & Hp1 & Hs1 & Hst1 & Ha1).
    apply IH in H. destruct H as (issued & Hw & Hlen & Hall & Hp & Hs & Hst & Ha).
    eexists (_ :: issued). split; [|split; [|split]].
    + rewrite Hw, Hw1, <- app_assoc. reflexivity.
    + cbn. now rewrite Hlen.
    + constructor; [apply HP | exact Hall].
    + repeat split; congruence.
Qed.

(** What makes a warranty one that the sale [saleId] issued. *)
Lemma issueWarranties_run ctx saleId customer name phone item db db' :
  issueWarranties ctx saleId customer name phone item db = (db', Ok tt) ->
  exists issued,
    warranties db' = warranties db ++ issued /\
    length issued = warrantiesDue db item /\
    Forall (fun w => w_sale w = Some saleId /\ w_product w = si_product item /\
                     w_sourceType w = "SALE" /\ w_claims w = [] /\
                     (w_status w = ACTIVE \/ w_status w = EXPIRED)) issued /\
    products db' = products db /\ sales db' = sales db /\ stocks db' = stocks db /\
    adjustments db' = adjustments db.
Proof.
  unfold issueWarranties, warrantiesDue. intros H.
  apply bind_inv in H. destruct H as (db0 & found & Hf & H).
  unfold Product_findById, gets in Hf. injection Hf as <- <-.
  destruct (products db !! si_product item) as [product|].
  - destruct (0 <? p_warrantyDuration product).
    + eapply (times_issue_run ctx) in H; [exact H|].
      intros n. unfold warrantyPreSave. cbn [w_status w_endDate].
      destruct (_ <? _); cbn; repeat split; auto.
    + injection H as <-. exists []. rewrite app_nil_r. repeat split. constructor.
  - injection H as <-. exists []. rewrite app_nil_r. repeat split. constructor.
Qed.

Lemma forEach_issueWarranties ctx saleId customer name phone items : forall db db',
  forEach (issueWarranties ctx saleId customer name phone) items db = (db', Ok tt) ->
  exists issued,
    warranties db' = warranties db ++ issued /\
    length issued = list_sum (List.map (warrantiesDue db) items) /\
    Forall (fun w => w_sale w = Some saleId /\ w_sourceType w = "SALE" /\
                     w_claims w = [] /\
                     (w_status w = ACTIVE \/ w_status w = EXPIRED) /\
                     exists item, In item items /\ w_product w = si_product item)
           issued /\
    products db' = products db /\ sales db' = sales db /\ stocks db' = stocks db /\
    adjustments db' = adjustments db.
Proof.
  induction items as [|item items IH]; intros db db' H; cbn [forEach] in H.
  - injection H as <-. exists []. rewrite app_nil_r. repeat split. constructor.
  - apply bind_inv in H. destruct H as (db1 & [] & H1 & H).
    apply issueWarranties_run in H1.
    destruct H1 as (issued1 & Hw1 & Hlen1 & Hall1 & Hp1 & Hs1 & Hst1 & Ha1).
    apply IH in H. destruct H as (issued & Hw & Hlen & Hall & Hp & Hs & Hst & Ha).
    exists (issued1 ++ issued). split; [|split; [|split]].
    + rewrite Hw, Hw1, <- app_assoc. reflexivity.
    + rewrite length_app, Hlen1, Hlen. cbn [List.map list_sum].
      assert (List.map (warrantiesDue db1) items = List.map (warrantiesDue db) items)
        as -> by (apply List.map_ext; intros x; unfold warrantiesDue; now rewrite Hp1).
      reflexivity.
    + apply List.Forall_app. split.
      * eapply List.Forall_impl; [|exact Hall1]. intros w (A1 & A2 & A3 & A4 & A5).
        repeat split; auto. exists item. split; [now left | exact A2].
      * eapply List.Forall_impl; [|exact Hall]. intros w (A1 & A3 & A4 & A5 & x & Hx & A2).
        repeat split; auto. exists x. split; [now right | exact A2].
    + repeat split; congruence.
Qed.

Lemma warrantiesOwed_products db db' customer items :
  products db' = products db ->
  warrantiesOwed db' customer items = warrantiesOwed db customer items.
Proof.
  intros Hp. unfold warrantiesOwed. destruct customer as [customer|]; [|reflexivity].
  destruct (truthyS (c_phone customer) && truthyS (c_name customer))%bool; [|reflexivity].
  f_equal. apply List.map_ext. intros x. unfold warrantiesDue. now rewrite Hp.
Qed.

(** Everything a sale that was created has written. *)
Lemma createSale_run ctx body db db' saleId :
  createSale ctx body db = (db', Ok saleId) ->
  exists sale issued,
    saleId = length (sales db) /\
    sales db' = sales db ++ [sale] /\
    validSale sale = true /\
    s_status sale = SALE_COMPLETED /\
    s_amountPaid sale = snd (processPayments (default [] (cs_payments body)) ([], 0%Q)) /\
    s_changeGiven sale = round2 (Qmax 0 (s_amountPaid sale - s_grandTotal sale)) /\
    (forall p, quantityOf db' p = quantityOf db p - unitsOf p (s_items sale)) /\
    warranties db' = warranties db ++ issued /\
    length issued = warrantiesOwed db (cs_customer body) (s_items sale) /\
    Forall (fun w => w_sale w = Some saleId /\ w_sourceType w = "SALE" /\
                     w_claims w = [] /\
                     (w_status w = ACTIVE \/ w_status w = EXPIRED) /\
                     exists item, In item (s_items sale) /\ w_product w = si_product item)
           issued /\
    products db' = products db /\ returns db' = returns db /\ repairs db' = repairs db.
Proof.
  unfold createSale. destruct (cs_items body) as [|item items] eqn:Hitems;
    [discriminate|].
  intros H. apply bind_inv in H. destruct H as (db0 & processed & Hproc & H).
  unfold attempt in Hproc. injection Hproc as <- Hproc.
  cbv zeta in H. apply bind_inv in H. destruct H as (db1 & sid & Hsale & H).
  unfold Sale_create in Hsale.
  match type of Hsale with
  | context [validSale ?s] => set (sale := s) in *; destruct (validSale sale) eqn:Hvalid
  end; [|discriminate].
  injection Hsale as <- <-.
  apply bind_inv in H. destruct H as (db2 & [] & Hloop & H).
  apply forEach_deductItem in Hloop. destruct Hloop as (Hq & Ha & Hd).
  destruct Hd as (Hp2 & Hs2 & Hr2 & Hrp2 & Hw2).
  apply bind_inv in H. destruct H as (db3 & [] & Hw & H).
  injection H as <- <-.
  assert (exists issued,
            warranties db3 = warranties db2 ++ issued /\
            length issued = warrantiesOwed db2 (cs_customer body) (processedItems processed) /\
            Forall (fun w => w_sale w = Some (length (sales db)) /\ w_sourceType w = "SALE" /\
                             w_claims w = [] /\
                             (w_status w = ACTIVE \/ w_status w = EXPIRED) /\
                             exists item, In item (processedItems processed) /\
                                          w_product w = si_product item) issued /\
            products db3 = products db2 /\ sales db3 = sales db2 /\
            stocks db3 = stocks db2 /\ adjustments db3 = adjustments db2 /\
            returns db3 = returns db2 /\ repairs db3 = repairs db2)
    as (issued & Hw3 & Hlen & Hall & Hp3 & Hs3 & Hst3 & Ha3 & Hr3 & Hrp3).
  { assert (Hkeep : returns db3 = returns db2 /\ repairs db3 = repairs db2).
    { eapply (preserves_run (fun d0 d => returns d = returns d0 /\ repairs d = repairs d0));
        [| split; reflexivity | exact Hw].
      intros d0.
      assert (forall now w, preserves (fun d => returns d = returns d0 /\ repairs d = repairs d0)
                              (Warranty_create now w)) as Hc
        by (intros t w d Hd; unfold Warranty_create; destruct (validWarranty w); exact Hd).
      unfold issueWarranties, Product_findById.
      repeat first [ solve [auto] | step_preserves ]. }
    unfold warrantiesOwed. destruct (cs_customer body) as [customer|].
    - destruct (truthyS (c_phone customer) && truthyS (c_name customer))%bool.
      + apply forEach_issueWarranties in Hw.
        destruct Hw as (issued & A1 & A2 & A3 & A4 & A5 & A6 & A7).
        destruct Hkeep as [K1 K2]. exists issued. repeat split; assumption.
      + injection Hw as <-. exists []. rewrite app_nil_r.
        repeat split. constructor.
    - injection Hw as <-. exists []. rewrite app_nil_r. repeat split. constructor. }
  exists sale, issued. repeat split; try assumption; try reflexivity.
  - rewrite Hs3, Hs2. reflexivity.
  - intros p. unfold quantityOf. rewrite Hst3. apply Hq.
  - rewrite Hw3, Hw2. reflexivity.
  - rewrite Hlen. apply warrantiesOwed_products. exact Hp2.
  - now rewrite Hp3, Hp2.
  - now rewrite Hr3, Hr2.
  - now rewrite Hrp3, Hrp2.
Qed.

(** X13: a sale that [createSale] completes never sells more than
    there was.  With no negative quantity on file before the request, the
    stored sale has at least one line, every line is of at least one unit,
    and for every product the units on all its lines together are at most
    the quantity that was on hand, which the sale reduces by exactly these
    units. *)
Theorem createSale_never_oversells ctx body db db' saleId :
  stockNonNegative db ->
  createSale ctx body db = (db', Ok saleId) ->
  exists sale,
    sales db' !! saleId = Some sale /\
    s_items sale <> [] /\
    Forall (fun item => 1 <= si_quantity item) (s_items sale) /\
    (forall p, unitsOf p (s_items sale) <= quantityOf db p) /\
    (forall p, quantityOf db' p = quantityOf db p - unitsOf p (s_items sale)) /\
    stockNonNegative db'.
Proof.
  intros Hnn H.
  assert (Hnn' : stockNonNegative db').
  { pose proof (nonneg_createSale ctx body db Hnn) as Hp. now rewrite H in Hp. }
  apply createSale_run in H.
  destruct H as (sale & issued & Hid & Hsales & Hvalid & _ & _ & _ & Hq & _).
  exists sale. split; [|split; [|split; [|split; [|split]]]].
  - rewrite Hsales, Hid, lookup_app_r by lia. now rewrite Nat.sub_diag.
  - intros E. unfold validSale in Hvalid. rewrite E in Hvalid. cbn in Hvalid.
    rewrite andb_false_r in Hvalid. discriminate.
  - now apply validSale_items.
  - intros p. pose proof (quantityOf_nonneg db' p Hnn') as H0. rewrite Hq in H0. lia.
  - exact Hq.
  - exact Hnn'.
Qed.

(** X14: a sale that [createSale] completes issues one warranty per
    unit sold of every product that carries a warranty, when the customer
    left both a name and a phone number, and none otherwise.  The warranties
    are added after those on file, each linked to the sale and to the product
    of one of its lines, without claims, and ACTIVE (EXPIRED when the end
    date has already passed).  Voiding the sale afterwards leaves every one
    of them as it is, whether the void succeeds or not. *)
Theorem createSale_issues_a_warranty_per_unit ctx body db db' saleId :
  createSale ctx body db = (db', Ok saleId) ->
  exists sale issued,
    sales db' !! saleId = Some sale /\
    warranties db' = warranties db ++ issued /\
    length issued = warrantiesOwed db (cs_customer body) (s_items sale) /\
    Forall (fun w => w_sale w = Some saleId /\ w_sourceType w = "SALE" /\
                     w_claims w = [] /\
                     (w_status w = ACTIVE \/ w_status w = EXPIRED) /\
                     exists item, In item (s_items sale) /\ w_product w = si_product item)
           issued /\
    (forall ctx' reason,
       warranties (fst (voidSale ctx' saleId reason db')) = warranties db ++ issued).
Proof.
  intros H. apply createSale_run in H.
  destruct H as (sale & issued & Hid & Hsales & _ & _ & _ & _ & _ & Hw & Hlen & Hall & _).
  exists sale, issued. repeat split; try assumption.
  - rewrite Hsales, Hid, lookup_app_r by lia. now rewrite Nat.sub_diag.
  - intros ctx' reason. rewrite <- Hw.
    destruct (voidSale ctx' saleId reason db') as [db2 r] eqn:E. cbn [fst].
    eapply (preserves_run (fun d0 d => warranties d = warranties d0));
      [| reflexivity | exact E].
    intros d0.
    assert (forall p, preserves (fun d => warranties d = warranties d0) (Stock_getOrCreate p))
      as H1 by (intros p d Hd; unfold Stock_getOrCreate; destruct (stocks d !! p); exact Hd).
    assert (forall p q, preserves (fun d => warranties d = warranties d0) (Stock_save p q))
      as H2 by (intros p q d Hd; unfold Stock_save; destruct (q <? 0); exact Hd).
    assert (forall a, preserves (fun d => warranties d = warranties d0)
                        (StockAdjustment_create a))
      as H3 by (intros a d Hd; unfold StockAdjustment_create;
                destruct (validStockAdjustment a); exact Hd).
    assert (forall id s, preserves (fun d => warranties d = warranties d0) (Sale_save id s))
      as H4 by (intros id s d Hd; unfold Sale_save; destruct (validSale s); exact Hd).
    unfold voidSale, Sale_findById, restoreItem.
    repeat first [ solve [auto] | step_preserves ].
Qed.

(** Two phones are sold from the shop: two is at most the five on hand. *)
Lemma createSale_never_oversells_witness :
  exists sale,
    sales (fst (createSale clerk (saleOf [line 2]) shop)) !! 0%nat = Some sale /\
    unitsOf 1%nat (s_items sale) <= quantityOf shop 1%nat.
Proof.
  destruct (createSale clerk (saleOf [line 2]) shop) as [db' [saleId|e]] eqn:E;
    [|vm_compute in E; discriminate].
  destruct (createSale_never_oversells _ _ _ _ _ shop_nonneg E)
    as (sale & Hsale & _ & _ & Hunits & _).
  exists sale. split; [|apply Hunits].
  cbn [fst]. replace saleId with 0%nat in Hsale; [exact Hsale|].
  vm_compute in E. now injection E.
Defined.

(** Ada buys two phones that carry a warranty: two warranties are issued. *)
Lemma createSale_issues_a_warranty_per_unit_witness :
  exists issued,
    warranties (fst (createSale clerk (saleTo ada [line 2]) warrantyShop)) = issued /\
    length issued = 2%nat.
Proof.
  destruct (createSale clerk (saleTo ada [line 2]) warrantyShop) as [db' [saleId|e]] eqn:E;
    [|vm_compute in E; discriminate].
  destruct (createSale_issues_a_warranty_per_unit _ _ _ _ _ E)
    as (sale & issued & Hsale & Hw & Hlen & _).
  exists issued. cbn [fst]. split; [exact Hw|].
  rewrite Hlen. replace saleId with 0%nat in Hsale by (vm_compute in E; now injection E).
  vm_compute in E. injection E as <- _. vm_compute in Hsale. injection Hsale as <-.
  reflexivity.
Defined.

(** ** A sale that fails after it was stored *)

Lemma neverThrows_ret {A} e (a : A) : neverThrows e (ret a).
Proof. intros db db' [=]. Qed.

Lemma neverThrows_gets {A} e (f : DB -> A) : neverThrows e (gets f).
Proof. intros db db' [=]. Qed.

Lemma neverThrows_bind {A B} e (m : M A) (f : A -> M B) :
  neverThrows e m -> (forall a, neverThrows e (f a)) -> neverThrows e (bind m f).
Proof.
  intros Hm Hf db db' H. unfold bind in H.
  destruct (m db) as [db1 [a|e']] eqn:E.
  - exact (Hf a db1 db' H).
  - injection H as <- ->. exact (Hm db db1 E).
Qed.

Lemma neverThrows_forEach {A} e (f : A -> M unit) (l : list A) :
  (forall x, neverThrows e (f x)) -> neverThrows e (forEach f l).
Proof.
  intros Hf. induction l as [|x l IH]; cbn [forEach].
  - apply neverThrows_ret.
  - apply neverThrows_bind; [apply Hf | intros _; exact IH].
Qed.

Lemma neverThrows_times e (n : nat) (m : M unit) :
  neverThrows e m -> neverThrows e (times n m).
Proof.
  intros Hm. induction n as [|n IH]; cbn [times].
  - apply neverThrows_ret.
  - apply neverThrows_bind; [exact Hm | intros _; exact IH].
Qed.

Lemma Warranty_create_throws now w e :
  e <> ValidationError "Warranty" -> neverThrows e (Warranty_create now w).
Proof.
  intros He db db'. unfold Warranty_create. destruct (validWarranty w); [discriminate|].
  intros [= _ <-]. now apply He.
Qed.

Lemma issueWarranties_throws ctx saleId customer name phone item e :
  e <> ValidationError "Warranty" ->
  neverThrows e (issueWarranties ctx saleId customer name phone item).
Proof.
  intros He. unfold issueWarranties, Product_findById.
  apply neverThrows_bind; [apply neverThrows_gets | intros [product|]];
    [|apply neverThrows_ret].
  destruct (0 <? p_warrantyDuration product); [|apply neverThrows_ret].
  apply neverThrows_times.
  apply neverThrows_bind; [apply neverThrows_gets | intros n].
  apply neverThrows_bind; [now apply Warranty_create_throws | intros _].
  apply neverThrows_ret.
Qed.

(** [processItems] turns a sale away with an application error, never
    otherwise. *)
Lemma processItems_refuses db items : forall acc e,
  processItems db items acc = Err e -> exists what statusCode, e = AppError what statusCode.
Proof.
  induction items as [|item items IH]; intros acc e H; cbn [processItems] in H;
    [discriminate|].
  destruct (products db !! i_productId item) as [product|];
    [|injection H as <-; eauto].
  destruct (negb (p_isActive product)); [injection H as <-; eauto|].
  destruct (quantityOf db (i_productId item) <? i_quantity item);
    [injection H as <-; eauto|].
  exact (IH _ _ H).
Qed.


Lemma unitsOf_app p l1 l2 : unitsOf p (l1 ++ l2) = unitsOf p l1 + unitsOf p l2.
Proof. induction l1 as [|x l1 IH]; cbn [unitsOf app]; lia. Qed.

(** The lines [processItems] lets through were each covered by the stock on
    file. *)
Lemma processItems_checked db items : forall acc processed,
  processItems db items acc = Ok processed ->
  exists lines,
    processedItems processed = processedItems acc ++ lines /\
    Forall (fun item => si_quantity item <= quantityOf db (si_product item)) lines.
Proof.
  induction items as [|item items IH]; intros acc processed H; cbn [processItems] in H.
  - injection H as <-. exists []. rewrite app_nil_r. split; [reflexivity | constructor].
  - destruct (products db !! i_productId item) as [product|]; [|discriminate].
    destruct (negb (p_isActive product)); [discriminate|].
    destruct (quantityOf db (i_productId item) <? i_quantity item) eqn:Hq; [discriminate|].
    apply IH in H. destruct H as (lines & Hlines & Hall).
    cbn [processedItems] in Hlines. eexists (_ :: lines). split.
    + rewrite Hlines, <- app_assoc. reflexivity.
    + constructor; [|exact Hall]. cbn [si_quantity si_product].
      apply Z.ltb_ge in Hq. exact Hq.
Qed.

(** The inventory loop of [createSale], stopped by [stock.save()]: the lines
    before the one that was refused are deducted, and the refused line asked
    for more than was left. *)
Lemma forEach_deductItem_refused ctx saleId items : forall db db',
  forEach (deductItem ctx saleId) items db = (db', Err (ValidationError "Stock")) ->
  exists done item rest,
    items = done ++ item :: rest /\
    (forall p, quantityOf db' p = quantityOf db p - unitsOf p done) /\
    quantityOf db' (si_product item) < si_quantity item /\
    List.map entry (adjustments db')
    = List.map entry (adjustments db) ++ List.map saleEntry done /\
    sales db' = sales db /\ warranties db' = warranties db.
Proof.
  induction items as [|item items IH]; intros db db' H; cbn [forEach] in H;
    [discriminate|].
  apply bind_run in H. destruct H as [(e & H1 & He)|(db1 & [] & H1 & H2)].
  - injection He as <-. exists [], item, items. cbn [app unitsOf List.map].
    unfold deductItem in H1.
    apply bind_run in H1. destruct H1 as [(e & H1 & He)|(d1 & prev & H1 & H2)].
    { exfalso. unfold Stock_getOrCreate in H1.
      destruct (stocks db !! si_product item); discriminate. }
    pose proof (getOrCreate_result db (si_product item)) as Hr.
    pose proof (quantityOf_getOrCreate db (si_product item)) as Hq.
    pose proof (getOrCreate_keeps db (si_product item)) as Hk.
    rewrite H1 in Hr, Hq, Hk. cbn in Hr, Hq, Hk. injection Hr as ->.
    apply bind_run in H2. destruct H2 as [(e & H2 & He)|(d2 & [] & H2 & H3)].
    + unfold Stock_save in H2.
      destruct (quantityOf db (si_product item) - si_quantity item <? 0) eqn:Hneg;
        [|discriminate].
      injection H2 as <- _. apply Z.ltb_lt in Hneg.
      split; [reflexivity|]. split; [intros p; rewrite Hq; lia|].
      split; [rewrite Hq; lia|].
      destruct Hk as (-> & -> & _ & _ & -> & _).
      rewrite app_nil_r. repeat split.
    + exfalso. unfold StockAdjustment_create in H3.
      destruct (validStockAdjustment _); discriminate.
  - unfold deductItem in H1. apply stock_movement_run in H1.
    destruct H1 as (Hq1 & Ha1 & _ & _ & (_ & Hs1 & _ & _ & Hw1)).
    apply IH in H2.
    destruct H2 as (done & failing & rest & -> & Hq2 & Hfail & Ha2 & Hs2 & Hw2).
    exists (item :: done), failing, rest.
    split; [reflexivity|]. split; [|split; [|split; [|split]]].
    + intros p. rewrite Hq2, Hq1. cbn [unitsOf].
      destruct (Nat.eqb_spec (si_product item) p) as [<-|]; cbv beta; lia.
    + exact Hfail.
    + rewrite Ha2, Ha1, List.map_app.
      cbn [List.map entry sa_product sa_type sa_quantity saleEntry].
      now rewrite <- app_assoc.
    + congruence.
    + congruence.
Qed.

Lemma unitsOf_positive p items :
  0 < unitsOf p items ->
  exists item, In item items /\ si_product item = p /\ 0 < si_quantity item.
Proof.
  induction items as [|item items IH]; cbn [unitsOf]; [lia|].
  destruct (Nat.eqb_spec (si_product item) p) as [E|].
  - destruct (Z.lt_ge_cases 0 (si_quantity item)) as [Hpos|Hle].
    + intros _. exists item. split; [now left | split; assumption].
    + intros H. destruct IH as (x & Hx & Hp & Hq); [lia|].
      exists x. split; [now right | split; assumption].
  - intros H. destruct IH as (x & Hx & Hp & Hq); [lia|].
    exists x. split; [now right | split; assumption].
Qed.

(** X15: when [createSale] fails on the stock validator, the sale
    is already stored as COMPLETED; the lines before the refused one are
    deducted and in the adjustment history, no warranty is issued, and the
    refused line passed the stock check of the first loop: its product is on
    an earlier line of the same sale. *)
Theorem createSale_overdraws_only_on_a_repeated_product ctx body db db' :
  createSale ctx body db = (db', Err (ValidationError "Stock")) ->
  exists sale done item rest,
    sales db' = sales db ++ [sale] /\
    s_status sale = SALE_COMPLETED /\
    s_items sale = done ++ item :: rest /\
    (forall p, quantityOf db' p = quantityOf db p - unitsOf p done) /\
    List.map entry (adjustments db')
    = List.map entry (adjustments db) ++ List.map saleEntry done /\
    warranties db' = warranties db /\
    si_quantity item <= quantityOf db (si_product item) /\
    quantityOf db' (si_product item) < si_quantity item /\
    exists earlier,
      In earlier done /\ si_product earlier = si_product item /\
      0 < si_quantity earlier.
Proof.
  unfold createSale. destruct (cs_items body) as [|item0 items0] eqn:Hitems;
    [discriminate|].
  intros H. apply bind_run in H.
  destruct H as [(e & H & He)|(db0 & processed & Hproc & H)].
  { exfalso. unfold attempt in H. apply (f_equal snd) in H. cbn [snd] in H.
    apply processItems_refuses in H. destruct H as (what & statusCode & ->).
    discriminate. }
  unfold attempt in Hproc.
  assert (db0 = db) as -> by (now apply (f_equal fst) in Hproc).
  apply (f_equal snd) in Hproc. cbn [snd] in Hproc.
  apply processItems_checked in Hproc. destruct Hproc as (lines & Hlines & Hchecked).
  cbn [processedItems app] in Hlines.
  cbv zeta in H. apply bind_run in H.
  destruct H as [(e & H & He)|(db1 & sid & Hsale & H)].
  { exfalso. unfold Sale_create in H. destruct (validSale _); [discriminate|].
    injection H as _ <-. discriminate. }
  unfold Sale_create in Hsale.
  match type of Hsale with
  | context [validSale ?s] => set (sale := s) in *; destruct (validSale sale)
  end; [|discriminate].
  injection Hsale as <- <-.
  apply bind_run in H. destruct H as [(e & Hloop & He)|(db2 & [] & Hloop & H)].
  - injection He as <-. apply forEach_deductItem_refused in Hloop.
    destruct Hloop as (done & item & rest & Hsplit & Hq & Hfail & Ha & Hs & Hw).
    exists sale, done, item, rest.
    split; [exact Hs|]. split; [reflexivity|]. split; [exact Hsplit|].
    split; [exact Hq|]. split; [exact Ha|]. split; [exact Hw|].
    assert (Hcov : si_quantity item <= quantityOf db (si_product item)).
    { assert (lines = done ++ item :: rest) as Hl by congruence.
      rewrite Hl in Hchecked. apply List.Forall_app in Hchecked.
      destruct Hchecked as [_ Hc]. now inversion Hc. }
    split; [exact Hcov|]. split; [exact Hfail|].
    apply unitsOf_positive. specialize (Hq (si_product item)).
    change (quantityOf (withSales db (sales db ++ [sale])) (si_product item))
      with (quantityOf db (si_product item)) in Hq. lia.
  - exfalso. apply bind_run in H. destruct H as [(e & Hw & He)|(db3 & [] & Hw & H)];
      [|discriminate].
    injection He as <-.
    destruct (cs_customer body) as [customer|];
      [|cbv beta iota delta [ret] in Hw; discriminate Hw].
    destruct (truthyS (c_phone customer) && truthyS (c_name customer))%bool;
      [|cbv beta iota delta [ret] in Hw; discriminate Hw].
    revert Hw. apply neverThrows_forEach. intros x. now apply issueWarranties_throws.
Qed.

Lemma createSale_overdraws_only_on_a_repeated_product_witness :
  exists sale done item rest,
    sales (fst (createSale clerk (saleOf [line 3; line 3]) shop)) = sales shop ++ [sale] /\
    s_status sale = SALE_COMPLETED /\
    s_items sale = done ++ item :: rest /\
    (forall p, quantityOf (fst (createSale clerk (saleOf [line 3; line 3]) shop)) p
               = quantityOf shop p - unitsOf p done) /\
    List.map entry (adjustments (fst (createSale clerk (saleOf [line 3; line 3]) shop)))
    = List.map entry (adjustments shop) ++ List.map saleEntry done /\
    warranties (fst (createSale clerk (saleOf [line 3; line 3]) shop)) = warranties shop /\
    si_quantity item <= quantityOf shop (si_product item) /\
    quantityOf (fst (createSale clerk (saleOf [line 3; line 3]) shop)) (si_product item)
    < si_quantity item /\
    exists earlier,
      In earlier done /\ si_product earlier = si_product item /\
      0 < si_quantity earlier.
Proof.
  apply (createSale_overdraws_only_on_a_repeated_product clerk (saleOf [line 3; line 3]) shop).
  vm_compute. reflexivity.
Defined.

(** ** A sale without payment *)

Lemma blind_ret {A} (a : A) : blindToSales (ret a).
Proof. intros db db' H. split; [exact H | reflexivity]. Qed.

Lemma blind_gets {A} (f : DB -> A) :
  (forall db db', sameButSales db db' -> f db' = f db) -> blindToSales (gets f).
Proof. intros Hf db db' H. split; [exact H | cbn; f_equal; now apply Hf]. Qed.

Lemma blind_bind {A B} (m : M A) (f : A -> M B) :
  blindToSales m -> (forall a, blindToSales (f a)) -> blindToSales (bind m f).
Proof.
  intros Hm Hf db db' H. unfold bind. specialize (Hm db db' H).
  destruct (m db) as [d1 [a|e]], (m db') as [d1' [a'|e']]; cbn in Hm;
    destruct Hm as [Hd Hr]; try discriminate.
  - injection Hr as ->. now apply Hf.
  - injection Hr as ->. split; [exact Hd | reflexivity].
Qed.

Lemma blind_forEach {A} (f : A -> M unit) (l : list A) :
  (forall x, blindToSales (f x)) -> blindToSales (forEach f l).
Proof.
  intros Hf. induction l as [|x l IH]; cbn [forEach].
  - apply blind_ret.
  - apply blind_bind; [apply Hf | intros _; exact IH].
Qed.

Lemma blind_times (n : nat) (m : M unit) : blindToSales m -> blindToSales (times n m).
Proof.
  intros Hm. induction n as [|n IH]; cbn [times].
  - apply blind_ret.
  - apply blind_bind; [exact Hm | intros _; exact IH].
Qed.

Lemma blind_getOrCreate product : blindToSales (Stock_getOrCreate product).
Proof.
  intros db db' (Hp & Hs & Ha & Hr & Hrp & Hw). unfold Stock_getOrCreate. rewrite Hs.
  destruct (stocks db !! product); cbn; repeat split; try assumption;
    try (now rewrite ?Hs).
Qed.

Lemma blind_save product q : blindToSales (Stock_save product q).
Proof.
  intros db db' (Hp & Hs & Ha & Hr & Hrp & Hw). unfold Stock_save.
  destruct (q <? 0); cbn; repeat split; try assumption; try (now rewrite ?Hs).
Qed.

Lemma blind_adjustment a : blindToSales (StockAdjustment_create a).
Proof.
  intros db db' (Hp & Hs & Ha & Hr & Hrp & Hw). unfold StockAdjustment_create.
  destruct (validStockAdjustment a); cbn; repeat split; try assumption;
    try (now rewrite ?Ha).
Qed.

Lemma blind_Warranty_create now w : blindToSales (Warranty_create now w).
Proof.
  intros db db' (Hp & Hs & Ha & Hr & Hrp & Hw). unfold Warranty_create.
  destruct (validWarranty w); cbn; repeat split; try assumption;
    try (now rewrite ?Hw).
Qed.

Lemma blind_deductItem ctx saleId item : blindToSales (deductItem ctx saleId item).
Proof.
  unfold deductItem.
  apply blind_bind; [apply blind_getOrCreate | intros prev].
  apply blind_bind; [apply blind_save | intros _]. apply blind_adjustment.
Qed.

Lemma blind_issueWarranties ctx saleId customer name phone item :
  blindToSales (issueWarranties ctx saleId customer name phone item).
Proof.
  unfold issueWarranties, Product_findById.
  apply blind_bind.
  { apply blind_gets. intros db db' (Hp & _). now rewrite Hp. }
  intros [product|]; [|apply blind_ret].
  destruct (0 <? p_warrantyDuration product); [|apply blind_ret].
  apply blind_times. apply blind_bind.
  { apply blind_gets. intros db db' (_ & _ & _ & _ & _ & Hw). now rewrite Hw. }
  intros n. apply blind_bind; [apply blind_Warranty_create | intros _; apply blind_ret].
Qed.

Lemma round2_0 : round2 0 = (0 # 100)%Q.
Proof. reflexivity. Qed.

Lemma Qmax_0_owed (total : Q) : Qle_bool 0 total = true -> Qmax 0 (0 - total) = 0%Q.
Proof.
  intros H. unfold Qmax.
  assert (Qle_bool (0 - total) 0 = true) as ->; [|reflexivity].
  apply Qle_bool_iff. apply Qle_bool_iff in H.
  apply (Qplus_le_l _ _ total). ring_simplify. exact H.
Qed.

(** X16: [createSale] asks for no payment.  Whenever it completes
    a sale, the same request without its payments is completed as well, under
    the same id: the sale is stored as COMPLETED with the same items and the
    same total, with nothing paid, and, when the total is positive, its
    [paymentStatus] reads UNPAID; stock, adjustment history and warranties end
    as they do for the paid sale. *)
Theorem createSale_asks_for_no_payment ctx body db db' saleId :
  createSale ctx body db = (db', Ok saleId) ->
  exists db'' sale unpaid,
    createSale ctx (withoutPayments body) db = (db'', Ok saleId) /\
    sales db' = sales db ++ [sale] /\
    sales db'' = sales db ++ [unpaid] /\
    s_status unpaid = SALE_COMPLETED /\
    s_items unpaid = s_items sale /\
    s_grandTotal unpaid = s_grandTotal sale /\
    s_payments unpaid = [] /\
    s_amountPaid unpaid = 0%Q /\
    ((0 < s_grandTotal unpaid)%Q -> paymentStatus unpaid = "UNPAID") /\
    sameButSales db' db''.
Proof.
  unfold createSale. cbn [cs_items withoutPayments].
  destruct (cs_items body) as [|item items] eqn:Hitems; [discriminate|].
  intros H. apply bind_inv in H. destruct H as (db0 & processed & Hproc & H).
  erewrite bind_ok by exact Hproc.
  unfold attempt in Hproc. assert (db0 = db) as -> by (now apply (f_equal fst) in Hproc).
  clear Hproc.
  cbv zeta in H. apply bind_inv in H. destruct H as (db1 & sid & Hsale & H).
  unfold Sale_create in Hsale.
  match type of Hsale with
  | context [validSale ?s] => set (sale := s) in *; destruct (validSale sale) eqn:Hvalid
  end; [|discriminate].
  injection Hsale as <- <-.
  cbv zeta. cbn [cs_payments cs_discountType cs_discountValue cs_customer cs_notes default
                 processPayments fst snd].
  match goal with
  | |- context [Sale_create ?s] => set (unpaid := s)
  end.
  assert (Hvalid' : validSale unpaid = true).
  { unfold validSale in *.
    cbn [s_saleNumber s_items s_payments s_subtotal s_discountType s_discountValue
         s_discountTotal s_grandTotal s_amountPaid s_changeGiven s_notes s_voidReason
         sale unpaid] in *.
    rewrite !andb_true_iff in Hvalid.
    destruct Hvalid as ((((((((((((V1 & V2) & V3) & V4) & V5) & V6) & V7) & V8) & V9)
                             & V10) & V11) & V12) & V13).
    rewrite !andb_true_iff. repeat split; try assumption; try reflexivity.
    match type of V9 with
    | Qle_bool 0 ?g = true => change (Qle_bool 0 (round2 (Qmax 0 (0 - g))) = true)
    end.
    rewrite (Qmax_0_owed _ V9). reflexivity. }
  assert (Hcreate : Sale_create unpaid db
                    = (withSales db (sales db ++ [unpaid]), Ok (length (sales db))))
    by (unfold Sale_create; now rewrite Hvalid').
  erewrite bind_ok by exact Hcreate.
  set (rest := fun saleId : ObjectId =>
         exec forEach (deductItem ctx saleId) (processedItems processed);
         exec match cs_customer body with
              | Some customer =>
                  if (truthyS (c_phone customer) && truthyS (c_name customer))%bool
                  then forEach
                         (issueWarranties ctx saleId customer
                            (default "" (c_name customer)) (default "" (c_phone customer)))
                         (processedItems processed)
                  else ret tt
              | None => ret tt
              end;
         ret saleId).
  change (rest (length (sales db)) (withSales db (sales db ++ [sale])) = (db', Ok saleId))
    in H.
  change (exists db'' sale0 unpaid0,
            rest (length (sales db)) (withSales db (sales db ++ [unpaid]))
            = (db'', Ok saleId) /\
            sales db' = sales db ++ [sale0] /\
            sales db'' = sales db ++ [unpaid0] /\
            s_status unpaid0 = SALE_COMPLETED /\
            s_items unpaid0 = s_items sale0 /\
            s_grandTotal unpaid0 = s_grandTotal sale0 /\
            s_payments unpaid0 = [] /\
            s_amountPaid unpaid0 = 0%Q /\
            ((0 < s_grandTotal unpaid0)%Q -> paymentStatus unpaid0 = "UNPAID") /\
            sameButSales db' db'').
  assert (Hblind : blindToSales (rest (length (sales db)))).
  { unfold rest. apply blind_bind.
    { apply blind_forEach. intros x. apply blind_deductItem. }
    intros _. apply blind_bind; [|intros _; apply blind_ret].
    destruct (cs_customer body) as [customer|]; [|apply blind_ret].
    destruct (truthyS (c_phone customer) && truthyS (c_name customer))%bool;
      [|apply blind_ret].
    apply blind_forEach. intros x. apply blind_issueWarranties. }
  assert (Hkeeps : forall d d' r, rest (length (sales db)) d = (d', r) -> sales d' = sales d).
  { intros d d' r Hrun.
    eapply (preserves_run (fun d0 d1 => sales d1 = sales d0)); [| reflexivity | exact Hrun].
    intros d0. unfold rest.
    assert (forall p, preserves (fun d1 => sales d1 = sales d0) (Stock_getOrCreate p))
      as H1 by (intros p x Hx; unfold Stock_getOrCreate; destruct (stocks x !! p); exact Hx).
    assert (forall p q, preserves (fun d1 => sales d1 = sales d0) (Stock_save p q))
      as H2 by (intros p q x Hx; unfold Stock_save; destruct (q <? 0); exact Hx).
    assert (forall a, preserves (fun d1 => sales d1 = sales d0) (StockAdjustment_create a))
      as H3 by (intros a x Hx; unfold StockAdjustment_create;
                destruct (validStockAdjustment a); exact Hx).
    assert (forall t w, preserves (fun d1 => sales d1 = sales d0) (Warranty_create t w))
      as H4 by (intros t w x Hx; unfold Warranty_create; destruct (validWarranty w);
                exact Hx).
    unfold deductItem, issueWarranties, Product_findById.
    repeat first [ solve [auto] | step_preserves ]. }
  specialize (Hblind (withSales db (sales db ++ [sale]))
                (withSales db (sales db ++ [unpaid]))).
  destruct Hblind as [Hsame Hres]; [repeat split|].
  rewrite H in Hsame, Hres. cbn [fst snd] in Hsame, Hres.
  destruct (rest (length (sales db)) (withSales db (sales db ++ [unpaid])))
    as [db'' r] eqn:Hrun.
  cbn [fst snd] in Hsame, Hres. subst r.
  exists db'', sale, unpaid.
  split; [reflexivity|].
  split; [exact (Hkeeps _ _ _ H)|]. split; [exact (Hkeeps _ _ _ Hrun)|].
  repeat (split; [reflexivity|]).
  split; [|exact Hsame].
  intros Hpos. unfold paymentStatus.
  change (s_amountPaid unpaid) with 0%Q.
  destruct (Qle_bool (s_grandTotal unpaid) 0) eqn:E; [|reflexivity].
  apply Qle_bool_iff in E. exfalso. exact (Qlt_not_le _ _ Hpos E).
Qed.

Lemma createSale_asks_for_no_payment_witness :
  exists db'' sale unpaid,
    createSale clerk (withoutPayments paidInFull) shop = (db'', Ok 0%nat) /\
    sales (fst (createSale clerk paidInFull shop)) = sales shop ++ [sale] /\
    sales db'' = sales shop ++ [unpaid] /\
    s_status unpaid = SALE_COMPLETED /\
    s_items unpaid = s_items sale /\
    s_grandTotal unpaid = s_grandTotal sale /\
    s_payments unpaid = [] /\
    s_amountPaid unpaid = 0%Q /\
    ((0 < s_grandTotal unpaid)%Q -> paymentStatus unpaid = "UNPAID") /\
    sameButSales (fst (createSale clerk paidInFull shop)) db''.
Proof.
  apply (createSale_asks_for_no_payment clerk paidInFull shop).
  vm_compute. reflexivity.
Defined.

(** ** What a return leaves behind *)

Lemma voidWarrantiesOf_run sale product by_ reason db :
  exists f,
    voidWarrantiesOf sale product by_ reason db
    = (withWarranties db (List.map f (warranties db)), Ok tt) /\
    forall w, if reached sale product w
              then w_status (f w) = VOID /\ w_sale (f w) = w_sale w /\
                   w_product (f w) = w_product w /\
                   w_warrantyNumber (f w) = w_warrantyNumber w /\
                   w_claims (f w) = w_claims w
              else f w = w.
Proof.
  eexists. split; [reflexivity|]. intros w. unfold reached. cbv beta.
  destruct (w_sale w) as [s|]; [|reflexivity].
  destruct (w_status w); try reflexivity.
  destruct (Nat.eqb s sale && Nat.eqb (w_product w) product)%bool; [|reflexivity].
  repeat split.
Qed.

(** One turn of the stock loop of a return that went through. *)
Lemma restoreReturned_run ctx returnId saleId text voidText item db db' :
  restoreReturned ctx returnId saleId text voidText item db = (db', Ok tt) ->
  exists f,
    (forall p, quantityOf db' p
               = if Nat.eqb (ri_product item) p
                 then quantityOf db (ri_product item) + ri_quantity item
                 else quantityOf db p) /\
    List.map entry (adjustments db')
    = List.map entry (adjustments db) ++ [returnedEntry item] /\
    1 <= ri_quantity item /\
    maxlength 500 (Some text) = true /\
    warranties db' = List.map f (warranties db) /\
    (forall w, if reached saleId (ri_product item) w
               then w_status (f w) = VOID /\ w_sale (f w) = w_sale w /\
                    w_product (f w) = w_product w /\
                    w_warrantyNumber (f w) = w_warrantyNumber w /\
                    w_claims (f w) = w_claims w
               else f w = w) /\
    products db' = products db /\ sales db' = sales db /\ returns db' = returns db /\
    repairs db' = repairs db.
Proof.
  unfold restoreReturned. intros H.
  apply bind_inv in H. destruct H as (db1 & prev & H1 & H).
  apply bind_inv in H. destruct H as (db2 & [] & H2 & H).
  apply bind_inv in H. destruct H as (db3 & [] & H3 & H).
  assert (Hmove :
    (do prev <- Stock_getOrCreate (ri_product item);
     exec Stock_save (ri_product item) ((fun prev => prev + ri_quantity item) prev);
     StockAdjustment_create
       ((fun prev =>
           {| sa_product := ri_product item;
              sa_type := prop ADJUSTMENT_TYPES "RETURN";
              sa_quantity := ri_quantity item;
              sa_previousQuantity := prev;
              sa_newQuantity := prev + ri_quantity item;
              sa_reason := Some text;
              sa_reference := Some (toString returnId);
              sa_referenceType := Some "Sale";
              sa_createdBy := userId ctx |}) prev)) db = (db3, Ok tt)).
  { erewrite bind_ok by exact H1. cbv beta. erewrite bind_ok by exact H2. exact H3. }
  apply stock_movement_run in Hmove.
  destruct Hmove as (Hq & Ha & _ & Hvalid & Hp & Hs & Hr & Hrp & Hw).
  destruct (voidWarrantiesOf_run saleId (ri_product item) (userId ctx) voidText db3)
    as (f & Hrun & Hf).
  rewrite Hrun in H. injection H as <-.
  exists f. split; [|split; [|split; [|split; [|split; [|split]]]]].
  - intros p. exact (Hq p).
  - cbn [adjustments withWarranties]. rewrite Ha, List.map_app. reflexivity.
  - unfold validStockAdjustment in Hvalid.
    cbn [sa_type sa_quantity sa_reason sa_referenceType] in Hvalid.
    rewrite !andb_true_iff in Hvalid. destruct Hvalid as [[[[_ _] Hq1] _] _].
    now apply Z.leb_le.
  - unfold validStockAdjustment in Hvalid.
    cbn [sa_type sa_quantity sa_reason sa_referenceType] in Hvalid.
    rewrite !andb_true_iff in Hvalid. tauto.
  - cbn. now rewrite Hw.
  - exact Hf.
  - repeat split; assumption.
Qed.

Lemma Forall2_map_left {A B} (P : A -> B -> Prop) (f : A -> A) (l : list A) (l' : list B) :
  Forall2 P (List.map f l) l' -> Forall2 (fun x y => P (f x) y) l l'.
Proof.
  revert l'. induction l as [|x l IH]; intros l' H; cbn in H.
  - inversion H. constructor.
  - inversion H; subst. constructor; [assumption | now apply IH].
Qed.

Lemma Forall2_same {A} (P : A -> A -> Prop) (l : list A) :
  (forall x, P x x) -> Forall2 P l l.
Proof. intros H. induction l; constructor; auto. Qed.

(** The stock loop of a return, when every item went through. *)
Lemma forEach_restoreReturned ctx returnId saleId text voidText items : forall db db',
  forEach (restoreReturned ctx returnId saleId text voidText) items db = (db', Ok tt) ->
  (forall p, quantityOf db' p = quantityOf db p + returnedUnits p items) /\
  List.map entry (adjustments db')
  = List.map entry (adjustments db) ++ List.map returnedEntry items /\
  Forall (fun item => 1 <= ri_quantity item) items /\
  (items <> [] -> maxlength 500 (Some text) = true) /\
  Forall2 (voidedByReturn saleId items) (warranties db) (warranties db') /\
  products db' = products db /\ sales db' = sales db /\ returns db' = returns db /\
  repairs db' = repairs db.
Proof.
  induction items as [|item items IH]; intros db db' H; cbn [forEach] in H.
  - injection H as <-. cbn [returnedUnits List.map]. rewrite app_nil_r.
    repeat split; try constructor; try (intros p; lia); try congruence.
    apply Forall2_same. intros w. reflexivity.
  - apply bind_inv in H. destruct H as (db1 & [] & H1 & H2).
    apply restoreReturned_run in H1.
    destruct H1 as (f & Hq1 & Ha1 & Hone & Hlen & Hw1 & Hf & Hp1 & Hs1 & Hr1 & Hrp1).
    apply IH in H2. destruct H2 as (Hq2 & Ha2 & Hall & _ & Hw2 & Hp2 & Hs2 & Hr2 & Hrp2).
    split; [|split; [|split; [|split; [|split]]]].
    + intros p. rewrite Hq2, Hq1. cbn [returnedUnits].
      destruct (Nat.eqb_spec (ri_product item) p) as [<-|]; lia.
    + rewrite Ha2, Ha1. cbn [List.map]. now rewrite <- app_assoc.
    + constructor; assumption.
    + intros _. exact Hlen.
    + rewrite Hw1 in Hw2. apply Forall2_map_left in Hw2.
      eapply Forall2_impl; [exact Hw2|]. intros w w'. cbv beta.
      unfold voidedByReturn. cbn [List.existsb]. specialize (Hf w).
      destruct (reached saleId (ri_product item) w) eqn:Hreach; cbn [orb].
      * destruct Hf as (B1 & B2 & B3 & B4 & B5).
        assert (List.existsb (fun item0 => reached saleId (ri_product item0) (f w)) items
                = false) as ->.
        { clear -B1. induction items as [|x xs IHx]; cbn; [reflexivity|].
          rewrite IHx. unfold reached. rewrite B1. now destruct (w_sale (f w)). }
        intros ->. repeat split; assumption.
      * rewrite Hf. tauto.
    + repeat split; congruence.
Qed.

(** A return that was created, step by step. *)
Lemma createReturn_run ctx body db db' made :
  createReturn ctx body db = (db', Ok made) ->
  exists originalSaleId originalSale processed db1 reason,
    cr_originalSaleId body = Some originalSaleId /\
    cr_reason body = Some reason /\ reason <> "" /\
    sales db !! originalSaleId = Some originalSale /\
    s_status originalSale <> SALE_VOIDED /\
    processReturnItems originalSale (cr_items body)
      {| returnedItems := []; totalRefund := 0 |} = Ok processed /\
    made = {| rt_returnNumber := returnNumber ctx;
              rt_originalSale := Some originalSaleId;
              rt_returnType := prop RETURN_TYPES "REFUND";
              rt_items := returnedItems processed;
              rt_totalRefund := round2 (totalRefund processed);
              rt_exchangeSale := None;
              rt_exchangeAmountDue := 0;
              rt_reason := Some reason;
              rt_refundMethod := Some (orS (cr_refundMethod body) "CASH");
              rt_status := prop RETURN_STATUS "COMPLETED";
              rt_notes := cr_notes body;
              rt_createdBy := userId ctx |} /\
    validReturn made = true /\
    db1 = withReturns db (returns db ++ [made]) /\
    forEach
      (restoreReturned ctx (length (returns db)) originalSaleId
         ("Return: " +:+ returnNumber ctx +:+ " - " +:+ reason)
         ("Product returned: " +:+ returnNumber ctx))
      (rt_items made) db1 = (db', Ok tt).
Proof.
  unfold createReturn.
  destruct (cr_originalSaleId body) as [originalSaleId|]; [|discriminate].
  destruct (cr_items body) as [|item0 items0] eqn:Hitems; [discriminate|].
  rewrite <- Hitems. clear Hitems.
  destruct (cr_reason body) as [reason|] eqn:Hreason; [|discriminate].
  destruct (negb (truthyS (Some reason))) eqn:Htruthy; [discriminate|].
  assert (Hne : reason <> "") by (intros ->; discriminate).
  intros H. apply bind_inv in H. destruct H as (db0 & found & Hfind & H).
  unfold Sale_findById, gets in Hfind. injection Hfind as <- <-.
  destruct (sales db !! originalSaleId) as [originalSale|] eqn:Hsale; [|discriminate].
  assert (Hst : s_status originalSale <> SALE_VOIDED)
    by (destruct (s_status originalSale); [discriminate..| discriminate H]).
  exists originalSaleId, originalSale.
  cbn [default] in H.
  destruct (s_status originalSale); [ | | contradiction];
    (apply bind_inv in H; destruct H as (db0 & processed & Hproc & H);
     unfold lift in Hproc; injection Hproc as <- Hproc;
     cbv zeta in H; apply bind_inv in H; destruct H as (db1 & returnId & Hcreate & H);
     apply bind_inv in H; destruct H as (db2 & [] & Hloop & H);
     injection H as <- <-;
     unfold Return_create in Hcreate;
     destruct (validReturn _) eqn:Hvalid; [|discriminate];
     injection Hcreate as <- <-;
     exists processed, (withReturns db (returns db ++ [
       {| rt_returnNumber := returnNumber ctx;
          rt_originalSale := Some originalSaleId;
          rt_returnType := prop RETURN_TYPES "REFUND";
          rt_items := returnedItems processed;
          rt_totalRefund := round2 (totalRefund processed);
          rt_exchangeSale := None;
          rt_exchangeAmountDue := 0;
          rt_reason := Some reason;
          rt_refundMethod := Some (orS (cr_refundMethod body) "CASH");
          rt_status := prop RETURN_STATUS "COMPLETED";
          rt_notes := cr_notes body;
          rt_createdBy := userId ctx |}])), reason;
     repeat (split; [first [assumption | reflexivity | discriminate]|]);
     exact Hloop).
Qed.

Lemma returns_keep_quantities db r p :
  quantityOf (withReturns db r) p = quantityOf db p.
Proof. reflexivity. Qed.

(** X17: a return that [createReturn] accepts puts every returned
    unit back: the quantity on hand of every product goes up by the units of
    it on the return, one RETURN adjustment per item joins the history, and
    every warranty of the original sale for a returned product that was
    ACTIVE is VOID afterwards, so that none of them is still ACTIVE; every
    other warranty, the sales, the products and the repair jobs are as they
    were. *)
Theorem createReturn_restocks_and_voids ctx body db db' made :
  createReturn ctx body db = (db', Ok made) ->
  exists originalSaleId,
    cr_originalSaleId body = Some originalSaleId /\
    (forall p, quantityOf db' p = quantityOf db p + returnedUnits p (rt_items made)) /\
    List.map entry (adjustments db')
    = List.map entry (adjustments db) ++ List.map returnedEntry (rt_items made) /\
    Forall2 (voidedByReturn originalSaleId (rt_items made)) (warranties db) (warranties db') /\
    (forall w item,
       In w (warranties db') -> In item (rt_items made) ->
       w_sale w = Some originalSaleId -> w_product w = ri_product item ->
       w_status w <> ACTIVE) /\
    sales db' = sales db /\ products db' = products db /\ repairs db' = repairs db.
Proof.
  intros H. apply createReturn_run in H.
  destruct H as (sid & sale & processed & db1 & reason & Hid & _ & _ & _ & _ & _ & Hmade
                 & _ & -> & Hloop).
  apply forEach_restoreReturned in Hloop.
  destruct Hloop as (Hq & Ha & _ & _ & Hw & Hp & Hs & _ & Hrp).
  exists sid. repeat split; try assumption.
  intros w' item Hin Hitem Hsale Hprod Hactive.
  cbn [warranties withReturns] in Hw.
  apply List.In_nth_error in Hin. destruct Hin as [i Hi].
  assert (exists w, voidedByReturn sid (rt_items made) w w') as [w Hv].
  { clear -Hw Hi. revert i Hi. induction Hw as [|x y l l' Hxy Hl IH]; intros [|i] Hi;
      cbn in Hi; try discriminate.
    - injection Hi as <-. now exists x.
    - now apply (IH i). }
  unfold voidedByReturn in Hv.
  destruct (List.existsb _ _) eqn:E.
  - destruct Hv as [Hvoid _]. congruence.
  - subst w'. rewrite <- Bool.not_true_iff_false in E. apply E.
    apply List.existsb_exists. exists item. split; [exact Hitem|].
    unfold reached. rewrite Hsale, Hactive, Hprod, !Nat.eqb_refl. reflexivity.
Qed.

(** The stock loop of a return goes through on any stock without a negative
    quantity. *)
Lemma forEach_restoreReturned_succeeds ctx returnId saleId text voidText items :
  forall db,
    stockNonNegative db ->
    Forall (fun item => 1 <= ri_quantity item) items ->
    maxlength 500 (Some text) = true ->
    exists db', forEach (restoreReturned ctx returnId saleId text voidText) items db
                = (db', Ok tt).
Proof.
  induction items as [|item items IH]; intros db Hnn Hitems Hlen; cbn [forEach].
  - now exists db.
  - inversion Hitems as [|? ? Hq Hrest]; subst.
    destruct (stock_movement_succeeds (ri_product item)
                (fun prev => prev + ri_quantity item)
                (fun prev =>
                   {| sa_product := ri_product item;
                      sa_type := prop ADJUSTMENT_TYPES "RETURN";
                      sa_quantity := ri_quantity item;
                      sa_previousQuantity := prev;
                      sa_newQuantity := prev + ri_quantity item;
                      sa_reason := Some text;
                      sa_reference := Some (toString returnId);
                      sa_referenceType := Some "Sale";
                      sa_createdBy := userId ctx |}) db) as [db1 Hstep].
    { pose proof (quantityOf_nonneg db (ri_product item) Hnn). cbv beta. lia. }
    { unfold validStockAdjustment.
      cbn [sa_type sa_quantity sa_reason sa_referenceType]. rewrite Hlen.
      replace (1 <=? ri_quantity item) with true by (symmetry; now apply Z.leb_le).
      reflexivity. }
    apply bind_inv in Hstep. destruct Hstep as (d1 & prev & H1 & Hstep).
    apply bind_inv in Hstep. destruct Hstep as (d2 & [] & H2 & H3).
    destruct (voidWarrantiesOf_run saleId (ri_product item) (userId ctx) voidText db1)
      as (f & Hvoid & _).
    assert (Hone : restoreReturned ctx returnId saleId text voidText item db
                   = (withWarranties db1 (List.map f (warranties db1)), Ok tt)).
    { unfold restoreReturned. erewrite bind_ok by exact H1.
      erewrite bind_ok by exact H2. erewrite bind_ok by exact H3. exact Hvoid. }
    assert (Hnn1 : stockNonNegative (withWarranties db1 (List.map f (warranties db1)))).
    { assert (preserves stockNonNegative
                (restoreReturned ctx returnId saleId text voidText item)) as Hp.
      { unfold restoreReturned.
        repeat first
          [ apply nonneg_getOrCreate | apply nonneg_save | apply nonneg_adjustment
          | apply nonneg_voidWarrantiesOf | step_preserves ]. }
      specialize (Hp db Hnn). now rewrite Hone in Hp. }
    destruct (IH _ Hnn1 Hrest Hlen) as (db2 & Hloop).
    exists db2. erewrite bind_ok by exact Hone. exact Hloop.
Qed.

(** X18: [createReturn] keeps no count of what was returned before.
    A return that was accepted is accepted again when the same request is
    sent once more (under a fresh return number that the adjustment reason
    has room for): the second return record holds the same items and the
    same refund as the first, and the stock has gone up by the returned
    units twice. *)
Theorem createReturn_can_be_repeated ctx ctx' body db db1 made :
  stockNonNegative db ->
  createReturn ctx body db = (db1, Ok made) ->
  returnNumber ctx' <> "" ->
  ~ In (returnNumber ctx') (List.map rt_returnNumber (returns db1)) ->
  maxlength 500
    (Some ("Return: " +:+ returnNumber ctx' +:+ " - " +:+ default "" (cr_reason body)))
  = true ->
  exists db2 again,
    createReturn ctx' body db1 = (db2, Ok again) /\
    rt_originalSale again = rt_originalSale made /\
    rt_items again = rt_items made /\
    rt_totalRefund again = rt_totalRefund made /\
    returns db2 = returns db ++ [made; again] /\
    (forall p, quantityOf db2 p = quantityOf db p + 2 * returnedUnits p (rt_items made)).
Proof.
  intros Hnn Hrun Hnumber _ Hlen.
  assert (Hnn1 : stockNonNegative db1).
  { pose proof (nonneg_createReturn ctx body db Hnn) as Hp. now rewrite Hrun in Hp. }
  apply createReturn_run in Hrun.
  destruct Hrun as (sid & sale & processed & d1 & reason & Hid & Hreason & Hne & Hsale
                    & Hst & Hproc & Hmade & Hvalid & -> & Hloop).
  pose proof (forEach_restoreReturned _ _ _ _ _ _ _ _ Hloop)
    as (Hq1 & _ & Hitems & _ & _ & _ & Hs1 & Hr1 & _).
  cbn [sales returns withReturns] in Hs1, Hr1.
  set (again :=
         {| rt_returnNumber := returnNumber ctx';
            rt_originalSale := Some sid;
            rt_returnType := prop RETURN_TYPES "REFUND";
            rt_items := returnedItems processed;
            rt_totalRefund := round2 (totalRefund processed);
            rt_exchangeSale := None;
            rt_exchangeAmountDue := 0;
            rt_reason := Some reason;
            rt_refundMethod := Some (orS (cr_refundMethod body) "CASH");
            rt_status := prop RETURN_STATUS "COMPLETED";
            rt_notes := cr_notes body;
            rt_createdBy := userId ctx' |}).
  assert (Hvalid' : validReturn again = true).
  { rewrite Hmade in Hvalid. unfold validReturn in *.
    cbn [rt_returnNumber rt_originalSale rt_returnType rt_items rt_totalRefund rt_reason
         rt_refundMethod rt_status rt_notes again] in *.
    rewrite !andb_true_iff in *.
    repeat match goal with H : _ /\ _ |- _ => destruct H end.
    repeat split; try assumption.
    apply negb_true_iff. now apply String.eqb_neq. }
  rewrite Hreason in Hlen. cbn [default] in Hlen.
  assert (Hitems' : rt_items made = returnedItems processed) by (now rewrite Hmade).
  rewrite Hitems' in *.
  destruct (forEach_restoreReturned_succeeds ctx' (length (returns db1)) sid
              ("Return: " +:+ returnNumber ctx' +:+ " - " +:+ reason)
              ("Product returned: " +:+ returnNumber ctx')
              (returnedItems processed)
              (withReturns db1 (returns db1 ++ [again])))
    as (db2 & Hloop2); [exact Hnn1 | exact Hitems | exact Hlen |].
  exists db2, again.
  pose proof (forEach_restoreReturned _ _ _ _ _ _ _ _ Hloop2)
    as (Hq2 & _ & _ & _ & _ & _ & _ & Hr2 & _).
  cbn [returns withReturns] in Hr2.
  split; [|split; [|split; [|split; [|split]]]].
  - unfold createReturn. rewrite Hid.
    assert (cr_items body <> []) as Hnonempty.
    { intros E. rewrite E in Hproc. cbn in Hproc. injection Hproc as <-.
      rewrite Hmade in Hvalid. unfold validReturn in Hvalid. cbn in Hvalid.
      rewrite !andb_false_r in Hvalid. cbn in Hvalid.
      repeat rewrite ?andb_false_r, ?andb_false_l in Hvalid. discriminate. }
    destruct (cr_items body) as [|item0 items0] eqn:Hlist; [contradiction|].
    rewrite <- Hlist in Hproc |- *. clear Hlist. rewrite Hreason.
    replace (negb (truthyS (Some reason))) with false
      by (cbn; apply String.eqb_neq in Hne; now rewrite Hne).
    erewrite bind_ok by reflexivity. rewrite Hs1, Hsale. cbn [default].
    assert (Hrest :
      (do processed0 <-
         lift (processReturnItems sale (cr_items body)
                 {| returnedItems := []; totalRefund := 0 |});
       let returnRecord :=
         {| rt_returnNumber := returnNumber ctx';
            rt_originalSale := Some sid;
            rt_returnType := prop RETURN_TYPES "REFUND";
            rt_items := returnedItems processed0;
            rt_totalRefund := round2 (totalRefund processed0);
            rt_exchangeSale := None;
            rt_exchangeAmountDue := 0;
            rt_reason := Some reason;
            rt_refundMethod := Some (orS (cr_refundMethod body) "CASH");
            rt_status := prop RETURN_STATUS "COMPLETED";
            rt_notes := cr_notes body;
            rt_createdBy := userId ctx' |} in
       do returnId <- Return_create returnRecord;
       exec forEach
         (restoreReturned ctx' returnId sid
            ("Return: " +:+ returnNumber ctx' +:+ " - " +:+ reason)
            ("Product returned: " +:+ returnNumber ctx'))
         (returnedItems processed0);
       ret returnRecord) db1 = (db2, Ok again)).
    { rewrite Hproc. erewrite bind_ok by reflexivity. cbv zeta.
      fold again.
      assert (Return_create again db1
              = (withReturns db1 (returns db1 ++ [again]), Ok (length (returns db1))))
        as Hc by (unfold Return_create; now rewrite Hvalid').
      erewrite bind_ok by exact Hc. erewrite bind_ok by exact Hloop2. reflexivity. }
    destruct (s_status sale); [exact Hrest | exact Hrest | contradiction].
  - now rewrite Hmade.
  - reflexivity.
  - now rewrite Hmade.
  - rewrite Hr2, Hr1, <- app_assoc. reflexivity.
  - intros p. rewrite Hq2. rewrite returns_keep_quantities, Hq1.
    rewrite returns_keep_quantities. lia.
Qed.

(** ** What an exchange leaves behind *)

(** The stock loop over the new items of an exchange, when every line went
    through. *)
Lemma forEach_deductNewItem ctx saleId items : forall db db',
  forEach (deductNewItem ctx saleId) items db = (db', Ok tt) ->
  (forall p, quantityOf db' p = quantityOf db p - unitsOf p items) /\
  List.map entry (adjustments db')
  = List.map entry (adjustments db) ++ List.map saleEntry items /\
  sameDocuments db db'.
Proof.
  induction items as [|item items IH]; intros db db' H; cbn [forEach] in H.
  - injection H as <-. cbn [unitsOf List.map]. rewrite app_nil_r.
    split; [intros p; lia | split; [reflexivity | apply sameDocuments_refl]].
  - apply bind_inv in H. destruct H as [db1 [[] [H1 H2]]].
    unfold deductNewItem in H1. apply stock_movement_run in H1.
    destruct H1 as (Hq1 & Ha1 & _ & _ & Hd1).
    apply IH in H2. destruct H2 as (Hq2 & Ha2 & Hd2).
    split; [|split].
    + intros p. rewrite Hq2, Hq1. cbn [unitsOf].
      destruct (Nat.eqb_spec (si_product item) p) as [<-|]; cbv beta; lia.
    + rewrite Ha2, Ha1, List.map_app.
      cbn [List.map entry sa_product sa_type sa_quantity saleEntry].
      now rewrite <- app_assoc.
    + exact (sameDocuments_trans _ _ _ Hd1 Hd2).
Qed.

(** X19: an exchange that [createExchange] accepts stores the new
    sale, COMPLETED, right after the sales on file and links it from the
    return record; the quantity on hand of every product goes up by the
    units returned and down by the units of the new sale, with one RETURN
    adjustment per returned item followed by one SALE adjustment per new
    line; the ACTIVE warranties of the original sale for the returned
    products are VOID afterwards; and when an amount is due, the payments
    cover it. *)
Theorem createExchange_moves_stock_both_ways ctx body db db' made :
  createExchange ctx body db = (db', Ok made) ->
  exists originalSaleId returned purchased newSale,
    ce_originalSaleId body = Some originalSaleId /\
    rt_items made = returnedItems returned /\
    rt_exchangeSale made = Some (length (sales db)) /\
    sales db' = sales db ++ [newSale] /\
    s_items newSale = processedNewItems purchased /\
    s_status newSale = SALE_COMPLETED /\
    s_grandTotal newSale = round2 (newItemsTotal purchased) /\
    (forall p, quantityOf db' p
               = quantityOf db p + returnedUnits p (rt_items made)
                 - unitsOf p (s_items newSale)) /\
    List.map entry (adjustments db')
    = List.map entry (adjustments db)
      ++ List.map returnedEntry (rt_items made) ++ List.map saleEntry (s_items newSale) /\
    Forall2 (voidedByReturn originalSaleId (rt_items made))
      (warranties db) (warranties db') /\
    ((0 < exchangeAmountDue (newItemsTotal purchased) (totalRefund returned))%Q ->
     (exchangeAmountDue (newItemsTotal purchased) (totalRefund returned)
      <= s_amountPaid newSale)%Q).
Proof.
  unfold createExchange.
  destruct (ce_originalSaleId body) as [originalSaleId|]; [|discriminate].
  destruct (ce_returnItems body) as [|r0 rs] eqn:Hr; [discriminate|].
  rewrite <- Hr. clear Hr.
  destruct (ce_newItems body) as [|n0 ns] eqn:Hn; [discriminate|].
  rewrite <- Hn. clear Hn.
  destruct (negb (truthyS (ce_reason body))); [discriminate|].
  intros H. apply bind_inv in H. destruct H as (db0 & found & Hfind & H).
  unfold Sale_findById, gets in Hfind. injection Hfind as <- <-.
  destruct (sales db !! originalSaleId) as [originalSale|] eqn:Hsale; [|discriminate].
  assert (Hst : s_status originalSale <> SALE_VOIDED)
    by (destruct (s_status originalSale); [discriminate..| discriminate H]).
  exists originalSaleId.
  destruct (s_status originalSale); [ | | contradiction];
    (apply bind_inv in H; destruct H as (db0 & returned & Hret & H);
     unfold lift in Hret; injection Hret as <- Hret;
     apply bind_inv in H; destruct H as (db0 & purchased & Hnew & H);
     unfold attempt in Hnew; injection Hnew as <- Hnew;
     cbv zeta in H;
     destruct (_ && _)%bool eqn:Hpay; [discriminate|];
     apply bind_inv in H; destruct H as (db1 & newSaleId & Hcreate & H);
     apply bind_inv in H; destruct H as (db2 & returnId & Hrec & H);
     apply bind_inv in H; destruct H as (db3 & [] & Hloop1 & H);
     apply bind_inv in H; destruct H as (db4 & [] & Hloop2 & H);
     injection H as <- <-;
     unfold Sale_create in Hcreate;
     match type of Hcreate with
     | context [validSale ?s] => set (newSale := s) in *; destruct (validSale newSale)
     end; [|discriminate];
     injection Hcreate as <- <-;
     unfold Return_create in Hrec;
     destruct (validReturn _); [|discriminate];
     injection Hrec as <- <-;
     apply forEach_restoreReturned in Hloop1;
     destruct Hloop1 as (Hq1 & Ha1 & _ & _ & Hw1 & _ & Hs1 & _ & _);
     apply forEach_deductNewItem in Hloop2;
     destruct Hloop2 as (Hq2 & Ha2 & (_ & Hs2 & _ & _ & Hw2));
     exists returned, purchased, newSale;
     cbn [rt_items rt_exchangeSale];
     split; [reflexivity|]; split; [reflexivity|]; split; [reflexivity|];
     split; [rewrite Hs2, Hs1; reflexivity|];
     split; [reflexivity|]; split; [reflexivity|]; split; [reflexivity|];
     split; [intros p; rewrite Hq2, Hq1; reflexivity|];
     split; [rewrite Ha2, Ha1, <- app_assoc; reflexivity|];
     split; [rewrite Hw2; exact Hw1|];
     intros Hdue;
     apply andb_false_iff in Hpay;
     destruct Hpay as [Hpay|Hpay];
     [ unfold Qlt_bool in Hpay; apply negb_false_iff, Qle_bool_iff in Hpay;
       exfalso; exact (Qlt_not_le _ _ Hdue Hpay)
     | unfold Qlt_bool in Hpay; apply negb_false_iff, Qle_bool_iff in Hpay;
       exact Hpay ]).
Qed.

(** One of the two chargers comes back: six are on hand instead of five. *)
Lemma createReturn_restocks_and_voids_witness :
  quantityOf discountShop 1%nat = 5 /\
  quantityOf (fst (createReturn clerk oneBack discountShop)) 1%nat = 6.
Proof.
  split; [reflexivity|].
  destruct (createReturn clerk oneBack discountShop) as [db' [made|e]] eqn:E;
    [|vm_compute in E; discriminate].
  destruct (createReturn_restocks_and_voids _ _ _ _ _ E) as (sid & _ & Hq & _).
  cbn [fst]. rewrite Hq. vm_compute in E. injection E as _ <-. reflexivity.
Defined.

(** The same charger is returned a second time: seven are on hand, although
    only two were ever sold. *)
Lemma createReturn_can_be_repeated_witness :
  exists db2 again,
    createReturn clerkAgain oneBack (fst (createReturn clerk oneBack discountShop))
    = (db2, Ok again) /\
    quantityOf db2 1%nat = 7.
Proof.
  destruct (createReturn clerk oneBack discountShop) as [db1 [made|e]] eqn:E;
    [|vm_compute in E; discriminate].
  pose proof E as E'. vm_compute in E'. injection E' as Hdb Hmade.
  destruct (createReturn_can_be_repeated clerk clerkAgain oneBack discountShop db1 made
              shop_nonneg E) as (db2 & again & Hrun & _ & _ & _ & _ & Hq).
  - discriminate.
  - rewrite <- Hdb. vm_compute. intros [H|H]; [discriminate H | exact H].
  - reflexivity.
  - exists db2, again. split; [exact Hrun|]. rewrite Hq, <- Hmade. reflexivity.
Defined.

(** Both chargers are exchanged for a phone: two come in and one goes out,
    six are on hand. *)
Lemma createExchange_moves_stock_both_ways_witness :
  quantityOf (fst (createExchange clerk bothForAPhone discountShop)) 1%nat = 6.
Proof.
  destruct (createExchange clerk bothForAPhone discountShop) as [db' [made|e]] eqn:E;
    [|vm_compute in E; discriminate].
  destruct (createExchange_moves_stock_both_ways _ _ _ _ _ E)
    as (sid & returned & purchased & newSale & _ & _ & _ & Hsales & _ & _ & _ & Hq & _).
  cbn [fst]. rewrite Hq. vm_compute in E. injection E as <- <-.
  cbn [sales withSales] in Hsales. vm_compute in Hsales. injection Hsales as <-.
  reflexivity.
Defined.

(** ** The parts of a repair *)

Lemma partUnitsOf_app p l1 l2 :
  partUnitsOf p (l1 ++ l2) = partUnitsOf p l1 + partUnitsOf p l2.
Proof. induction l1 as [|x l1 IH]; cbn [partUnitsOf app]; lia. Qed.

Lemma partsConsumed_none db : partsConsumed db db [].
Proof.
  repeat split; cbn [partUnitsOf List.map]; try lia; try constructor.
  now rewrite app_nil_r.
Qed.

(** One part whose two writes went through, and the parts after it. *)
Lemma partsConsumed_step db db3 db' part consumed prev a :
  stocks db !! pt_product part = Some prev ->
  0 <= prev - pt_quantity part ->
  validStockAdjustment a = true ->
  entry a = partSaleEntry part ->
  db3 = withAdjustments
          (withStocks db (<[pt_product part := prev - pt_quantity part]> (stocks db)))
          (adjustments db ++ [a]) ->
  partsConsumed db3 db' consumed ->
  partsConsumed db db' (part :: consumed).
Proof.
  intros Hprev Hnew Hvalid Hentry -> (Hq & Ha & Hall & Hd).
  split; [|split; [|split]].
  - intros p. rewrite Hq. cbn [partUnitsOf].
    unfold quantityOf at 1. cbn [stocks withAdjustments withStocks].
    rewrite lookup_insert.
    destruct (Nat.eqb_spec (pt_product part) p) as [<-|]; case_decide; try congruence.
    + cbn. unfold quantityOf. rewrite Hprev. cbn. lia.
    + fold (quantityOf db p). lia.
  - rewrite Ha. cbn [adjustments withAdjustments]. rewrite List.map_app.
    cbn [List.map]. rewrite Hentry, <- app_assoc. reflexivity.
  - constructor; [|exact Hall].
    unfold validStockAdjustment in Hvalid. rewrite !andb_true_iff in Hvalid.
    destruct Hvalid as [[[_ Hq1] _] _]. apply Z.leb_le in Hq1.
    assert (sa_quantity a = pt_quantity part) as <-; [|exact Hq1].
    unfold entry, partSaleEntry in Hentry. congruence.
  - destruct Hd as (D1 & D2 & D3 & D4 & D5). repeat split; assumption.
Qed.

Lemma consumeParts_outcome ctx repairId repair parts : forall acc db db' r,
  consumeParts ctx repairId repair parts acc db = (db', r) ->
  match r with
  | Ok processedParts =>
      exists consumed,
        processedParts = acc ++ consumed /\
        Forall2 booksPart parts consumed /\
        partsConsumed db db' consumed
  | Err (AppError what statusCode) =>
      exists done rest consumed,
        parts = done ++ rest /\ rest <> [] /\
        Forall2 booksPart done consumed /\
        partsConsumed db db' consumed
  | Err _ => True
  end.
Proof.
  induction parts as [|part rest IH]; intros acc db db' r H; cbn [consumeParts] in H.
  - injection H as <- <-. exists []. rewrite app_nil_r.
    split; [reflexivity|]. split; [constructor | apply partsConsumed_none].
  - assert (Hstop : forall what statusCode,
              (db', r) = (db, Err (AppError what statusCode)) ->
              match r with
              | Ok processedParts =>
                  exists consumed,
                    processedParts = acc ++ consumed /\
                    Forall2 booksPart (part :: rest) consumed /\
                    partsConsumed db db' consumed
              | Err (AppError what statusCode) =>
                  exists done rest0 consumed,
                    part :: rest = done ++ rest0 /\ rest0 <> [] /\
                    Forall2 booksPart done consumed /\
                    partsConsumed db db' consumed
              | Err _ => True
              end).
    { intros what statusCode [= -> ->]. exists [], (part :: rest), [].
      split; [reflexivity|]. split; [discriminate|].
      split; [constructor | apply partsConsumed_none]. }
    unfold bind at 1, Product_findById, gets in H.
    destruct (products db !! pin_productId part) as [product|];
      [|symmetry in H; exact (Hstop _ _ H)].
    unfold bind at 1, Stock_findOne, gets in H.
    destruct (default 0 (stocks db !! pin_productId part) <? pin_quantity part) eqn:Hcheck;
      [symmetry in H; exact (Hstop _ _ H)|].
    destruct (stocks db !! pin_productId part) as [prev|] eqn:Hprev;
      [|injection H as <- <-; exact I].
    cbn in Hcheck. apply Z.ltb_ge in Hcheck.
    unfold bind at 1, Stock_save in H.
    replace (prev - pin_quantity part <? 0) with false in H
      by (symmetry; apply Z.ltb_ge; lia).
    unfold bind at 1, StockAdjustment_create in H.
    match type of H with
    | context [validStockAdjustment ?x] =>
        set (a := x) in *; destruct (validStockAdjustment a) eqn:Hvalid
    end; [|injection H as <- <-; exact I].
    apply IH in H.
    match type of H with
    | context [acc ++ [?x]] => set (booked := x) in *
    end.
    assert (Hstep : forall consumed,
              partsConsumed
                (withAdjustments
                   (withStocks db
                      (<[pin_productId part := prev - pin_quantity part]> (stocks db)))
                   (adjustments
                      (withStocks db
                         (<[pin_productId part := prev - pin_quantity part]> (stocks db)))
                    ++ [a])) db' consumed ->
              partsConsumed db db' (booked :: consumed)).
    { intros consumed Hc.
      eapply (partsConsumed_step db _ db' booked consumed prev a);
        [exact Hprev | cbn; lia | exact Hvalid | reflexivity | reflexivity | exact Hc]. }
    destruct r as [processedParts|[what statusCode| |]]; try exact I.
    + destruct H as (consumed & -> & Hall & Hc).
      exists (booked :: consumed). split; [now rewrite <- app_assoc|].
      split; [constructor; [split; reflexivity | exact Hall] | now apply Hstep].
    + destruct H as (done & rest0 & consumed & -> & Hne & Hall & Hc).
      exists (part :: done), rest0, (booked :: consumed).
      split; [reflexivity|]. split; [exact Hne|].
      split; [constructor; [split; reflexivity | exact Hall] | now apply Hstep].
Qed.

(** Every way [completeRepair] can end, but for the validation error of a
    write and the read of a missing stock record. *)
Lemma completeRepair_outcome ctx repairId body db db' r :
  completeRepair ctx repairId body db = (db', r) ->
  match r with
  | Ok job =>
      exists repair consumed db1,
        repairs db !! repairId = Some repair /\
        rj_assignedTo repair = Some (userId ctx) /\
        (rj_status repair = RECEIVED \/ rj_status repair = IN_PROGRESS) /\
        Forall2 booksPart (default [] (cp_partsUsed body)) consumed /\
        partsConsumed db db1 consumed /\
        db' = withRepairs db1 (<[repairId := job]> (repairs db1)) /\
        rj_status job = READY /\
        rj_partsUsed job = consumed /\
        rj_completedBy job = Some (userId ctx)
  | Err (AppError what statusCode) =>
      exists done rest consumed,
        default [] (cp_partsUsed body) = done ++ rest /\
        Forall2 booksPart done consumed /\
        partsConsumed db db' consumed
  | Err _ => True
  end.
Proof.
  unfold completeRepair. intros H.
  assert (Hstop : forall what statusCode,
            (db', r) = (db, Err (AppError what statusCode)) ->
            match r with
            | Ok job =>
                exists repair consumed db1,
                  repairs db !! repairId = Some repair /\
                  rj_assignedTo repair = Some (userId ctx) /\
                  (rj_status repair = RECEIVED \/ rj_status repair = IN_PROGRESS) /\
                  Forall2 booksPart (default [] (cp_partsUsed body)) consumed /\
                  partsConsumed db db1 consumed /\
                  db' = withRepairs db1 (<[repairId := job]> (repairs db1)) /\
                  rj_status job = READY /\
                  rj_partsUsed job = consumed /\
                  rj_completedBy job = Some (userId ctx)
            | Err (AppError what statusCode) =>
                exists done rest consumed,
                  default [] (cp_partsUsed body) = done ++ rest /\
                  Forall2 booksPart done consumed /\
                  partsConsumed db db' consumed
            | Err _ => True
            end).
  { intros what statusCode [= -> ->]. exists [], (default [] (cp_partsUsed body)), [].
    split; [reflexivity|]. split; [constructor | apply partsConsumed_none]. }
  unfold bind at 1, RepairJob_findById, gets in H.
  destruct (repairs db !! repairId) as [repair|] eqn:Hjob;
    [|symmetry in H; exact (Hstop _ _ H)].
  destruct (rj_assignedTo repair) as [t|] eqn:Hassigned;
    [|symmetry in H; exact (Hstop _ _ H)].
  destruct (Nat.eqb_spec t (userId ctx)) as [->|Hne];
    [|symmetry in H; exact (Hstop _ _ H)].
  cbn [negb] in H.
  assert (Hstatus : (rj_status repair = RECEIVED \/ rj_status repair = IN_PROGRESS) \/
                    (db', r) = (db, Err (AppError (CannotComplete (rj_status repair)) 400))).
  { destruct (rj_status repair); auto. }
  destruct Hstatus as [Hstatus|Hrefused]; [|exact (Hstop _ _ Hrefused)].
  assert (Hrun :
    (do processedParts <-
       consumeParts ctx repairId repair (default [] (cp_partsUsed body)) [];
     exec RepairJob_save repairId (completed ctx repair body processedParts);
     ret (repairPreSave (completed ctx repair body processedParts))) db = (db', r)).
  { destruct Hstatus as [E|E]; rewrite E in H; exact H. }
  clear H. apply bind_run in Hrun. destruct Hrun as [(e & Hparts & ->)|Hrun].
  - apply consumeParts_outcome in Hparts. destruct e as [what statusCode| |]; try exact I.
    destruct Hparts as (done & rest & consumed & Hsplit & _ & Hall & Hc).
    now exists done, rest, consumed.
  - destruct Hrun as (db1 & processedParts & Hparts & Hrest).
    apply consumeParts_outcome in Hparts.
    destruct Hparts as (consumed & Hp & Hall & Hc). cbn [app] in Hp. subst processedParts.
    unfold bind, RepairJob_save, ret in Hrest.
    destruct (validRepairJob _); injection Hrest as <- <-; [|exact I].
    exists repair, consumed, db1. rewrite Hassigned.
    split; [reflexivity|]. split; [reflexivity|]. split; [exact Hstatus|].
    split; [exact Hall|]. split; [exact Hc|]. repeat split.
Qed.

(** X20: [completeRepair] checks and deducts its parts one after the
    other, so a request that is turned away with an application error may
    already have taken parts out of the stock.  The parts listed before the
    one that stopped the request stay deducted, each with its SALE
    adjustment, while the repair job is as it was: not READY, and without
    the parts on it. *)
Theorem completeRepair_refused_midway ctx repairId body db db' what statusCode :
  completeRepair ctx repairId body db = (db', Err (AppError what statusCode)) ->
  exists done rest consumed,
    default [] (cp_partsUsed body) = done ++ rest /\
    Forall2 booksPart done consumed /\
    (forall p, quantityOf db' p = quantityOf db p - partUnitsOf p consumed) /\
    List.map entry (adjustments db')
    = List.map entry (adjustments db) ++ List.map partSaleEntry consumed /\
    repairs db' = repairs db.
Proof.
  intros H. apply completeRepair_outcome in H.
  destruct H as (done & rest & consumed & Hsplit & Hall & Hq & Ha & _ & Hd).
  exists done, rest, consumed. repeat split; try assumption.
  now destruct Hd as (_ & _ & _ & ? & _).
Qed.

(** The inventory loop of [cancelRepair], when every part went through. *)
Lemma forEach_restorePart_run ctx repairId repair parts : forall db db',
  forEach (restorePart ctx repairId repair) parts db = (db', Ok tt) ->
  (forall p, quantityOf db' p = quantityOf db p + partUnitsOf p parts) /\
  List.map entry (adjustments db')
  = List.map entry (adjustments db) ++ List.map partEntry parts /\
  sameDocuments db db'.
Proof.
  induction parts as [|part parts IH]; intros db db' H; cbn [forEach] in H.
  - injection H as <-. cbn [partUnitsOf List.map]. rewrite app_nil_r.
    split; [intros p; lia | split; [reflexivity | apply sameDocuments_refl]].
  - apply bind_inv in H. destruct H as [db1 [[] [H1 H2]]].
    unfold restorePart in H1. apply stock_movement_run in H1.
    destruct H1 as (Hq1 & Ha1 & _ & _ & Hd1).
    apply IH in H2. destruct H2 as (Hq2 & Ha2 & Hd2).
    split; [|split].
    + intros p. rewrite Hq2, Hq1. cbn [partUnitsOf].
      destruct (Nat.eqb_spec (pt_product part) p) as [<-|]; cbv beta; lia.
    + rewrite Ha2, Ha1, List.map_app.
      cbn [List.map entry sa_product sa_type sa_quantity partEntry].
      now rewrite <- app_assoc.
    + exact (sameDocuments_trans _ _ _ Hd1 Hd2).
Qed.

(** What a cancellation that went through has done. *)
Lemma cancelRepair_run ctx repairId reason db db' job :
  cancelRepair ctx repairId reason db = (db', Ok job) ->
  exists repair text,
    reason = Some text /\
    repairs db !! repairId = Some repair /\
    rj_status repair <> COMPLETED /\
    job = repairPreSave (cancelled ctx repair text) /\
    repairs db' = <[repairId := job]> (repairs db) /\
    (forall p, quantityOf db' p = quantityOf db p + partUnitsOf p (rj_partsUsed repair)) /\
    List.map entry (adjustments db')
    = List.map entry (adjustments db) ++ List.map partEntry (rj_partsUsed repair).
Proof.
  unfold cancelRepair. destruct reason as [text|]; [|discriminate].
  destruct (negb (truthyS (Some text))); [discriminate|].
  intros H. apply bind_inv in H. destruct H as (db0 & found & Hfind & H).
  unfold RepairJob_findById, gets in Hfind. injection Hfind as <- <-.
  destruct (repairs db !! repairId) as [repair|] eqn:Hjob; [|discriminate].
  assert (rj_status repair <> COMPLETED /\
          (exec forEach (restorePart ctx repairId repair) (rj_partsUsed repair);
           exec RepairJob_save repairId (cancelled ctx repair (default "" (Some text)));
           ret (repairPreSave (cancelled ctx repair (default "" (Some text))))) db
          = (db', Ok job))
    as [Hst H'] by (destruct (rj_status repair); try discriminate; split; try exact H;
                    discriminate).
  clear H. cbn [default] in H'.
  apply bind_inv in H'. destruct H' as (db1 & [] & Hloop & H).
  apply forEach_restorePart_run in Hloop. destruct Hloop as (Hq & Ha & Hd).
  apply bind_inv in H. destruct H as (db2 & [] & Hsave & H).
  injection H as <- <-. unfold RepairJob_save in Hsave.
  destruct (validRepairJob _); [|discriminate]. injection Hsave as <-.
  exists repair, text. repeat split; try assumption.
  cbn. destruct Hd as (_ & _ & _ & -> & _). reflexivity.
Qed.

(** X21: a repair that [completeRepair] completed and [cancelRepair]
    then cancelled leaves the stock of every product at its level before the
    completion: the job holds one part per requested part, with the product
    and the quantity asked for, the completion took these quantities out (one
    SALE adjustment per part) and the cancellation puts the same quantities
    back (one RETURN adjustment per part); the job ends CANCELLED with its
    parts still on it. *)
Theorem cancelRepair_undoes_completeRepair
    ctx repairId body db db1 job ctx' reason db2 job' :
  completeRepair ctx repairId body db = (db1, Ok job) ->
  cancelRepair ctx' repairId reason db1 = (db2, Ok job') ->
  (forall p, quantityOf db2 p = quantityOf db p) /\
  (forall p, quantityOf db1 p = quantityOf db p - partUnitsOf p (rj_partsUsed job)) /\
  List.map entry (adjustments db2)
  = List.map entry (adjustments db)
    ++ List.map partSaleEntry (rj_partsUsed job)
    ++ List.map partEntry (rj_partsUsed job) /\
  Forall2 booksPart (default [] (cp_partsUsed body)) (rj_partsUsed job) /\
  rj_status job = READY /\
  rj_status job' = CANCELLED /\
  rj_partsUsed job' = rj_partsUsed job /\
  repairs db2 !! repairId = Some job'.
Proof.
  intros Hcomplete Hcancel.
  apply completeRepair_outcome in Hcomplete.
  destruct Hcomplete as (repair & consumed & d1 & Hjob & _ & _ & Hall & Hc & -> & Hst
                         & Hparts & _).
  destruct Hc as (Hq1 & Ha1 & _ & Hd1).
  assert (Hlook : repairs (withRepairs d1 (<[repairId := job]> (repairs d1))) !! repairId
                  = Some job).
  { cbn [repairs withRepairs]. apply list_lookup_insert_eq.
    destruct Hd1 as (_ & _ & _ & -> & _). now apply lookup_lt_Some in Hjob. }
  apply cancelRepair_run in Hcancel.
  destruct Hcancel as (found & text & -> & Hfound & _ & -> & Hrepairs & Hq2 & Ha2).
  rewrite Hlook in Hfound. injection Hfound as <-.
  rewrite Hparts in *.
  split; [|split; [|split; [|split; [|split; [|split; [|split]]]]]].
  - intros p. rewrite Hq2. change (quantityOf (withRepairs d1 _) p) with (quantityOf d1 p).
    rewrite Hq1. lia.
  - intros p. change (quantityOf (withRepairs d1 _) p) with (quantityOf d1 p). apply Hq1.
  - rewrite Ha2. cbn [adjustments withRepairs]. rewrite Ha1, <- app_assoc. reflexivity.
  - exact Hall.
  - exact Hst.
  - reflexivity.
  - cbn. exact Hparts.
  - rewrite Hrepairs. apply list_lookup_insert_eq.
    cbn [repairs withRepairs]. rewrite length_insert.
    destruct Hd1 as (_ & _ & _ & -> & _). now apply lookup_lt_Some in Hjob.
Qed.

(** ** The states of a repair job *)

(** [collectPayment] changes one validated field: the final payment. *)
Lemma validRepairJob_paid (repair : RepairJob) (amount : Q) :
  validRepairJob repair = true -> (0 <= amount)%Q ->
  validRepairJob (paidRepair repair amount) = true.
Proof.
  intros H Hamount. apply Qle_bool_iff in Hamount. unfold validRepairJob in *.
  cbn [paidRepair rj_jobNumber rj_priority rj_customer rj_device rj_problemDescription
       rj_diagnosisNotes rj_repairNotes rj_partsUsed rj_laborCost rj_partsTotal
       rj_totalCost rj_estimatedCost rj_advancePayment rj_finalPayment rj_paymentStatus
       rj_cancelReason].
  validators H. reflexivity.
Qed.

(** X22: the moves of a repair job.  [startRepair] takes a RECEIVED
    job to IN_PROGRESS, [completeRepair] a RECEIVED or IN_PROGRESS job to
    READY, [collectPayment] a READY job to COMPLETED, and [cancelRepair] any
    job that is not COMPLETED to CANCELLED; each saves the job under its id.
    No move leaves COMPLETED, the only move from CANCELLED is a cancellation
    again, and a READY job can only be paid for or cancelled. *)
Theorem repair_status_moves ctx repairId db db' :
  (forall job,
     startRepair ctx repairId db = (db', Ok (Done job)) ->
     exists repair,
       repairs db !! repairId = Some repair /\
       transition (rj_status repair) (rj_status job) /\
       rj_status job = IN_PROGRESS /\
       repairs db' = <[repairId := job]> (repairs db)) /\
  (forall body job,
     completeRepair ctx repairId body db = (db', Ok job) ->
     exists repair,
       repairs db !! repairId = Some repair /\
       transition (rj_status repair) (rj_status job) /\
       rj_status job = READY /\
       repairs db' = <[repairId := job]> (repairs db)) /\
  (forall amount job breakdown,
     collectPayment repairId amount db = (db', Ok (Done (job, breakdown))) ->
     exists repair,
       repairs db !! repairId = Some repair /\
       transition (rj_status repair) (rj_status job) /\
       rj_status job = COMPLETED /\
       repairs db' = <[repairId := job]> (repairs db)) /\
  (forall reason job,
     cancelRepair ctx repairId reason db = (db', Ok job) ->
     exists repair,
       repairs db !! repairId = Some repair /\
       transition (rj_status repair) (rj_status job) /\
       rj_status job = CANCELLED /\
       repairs db' = <[repairId := job]> (repairs db)) /\
  (forall status, ~ transition COMPLETED status) /\
  (forall status, transition CANCELLED status -> status = CANCELLED) /\
  (forall status, transition READY status -> status = COMPLETED \/ status = CANCELLED).
Proof.
  split; [|split; [|split; [|split; [|split; [|split]]]]].
  - intros job. unfold startRepair. intros H.
    apply bind_inv in H. destruct H as (db0 & found & Hfind & H).
    unfold RepairJob_findById, gets in Hfind. injection Hfind as <- <-.
    destruct (repairs db !! repairId) as [repair|]; [|discriminate].
    destruct (negb _); [discriminate|].
    destruct (rj_status repair) eqn:Hst; try discriminate.
    apply bind_inv in H. destruct H as (db1 & [] & Hsave & H).
    injection H as <- <-. unfold RepairJob_save in Hsave.
    destruct (validRepairJob _); [|discriminate]. injection Hsave as <-.
    exists repair. rewrite Hst. repeat split. constructor.
  - intros body job H. apply completeRepair_outcome in H.
    destruct H as (repair & consumed & db1 & Hjob & _ & Hst & _ & Hc & -> & Hready & _).
    exists repair. split; [exact Hjob|]. rewrite Hready.
    split; [destruct Hst as [-> | ->]; constructor|]. split; [reflexivity|].
    cbn. destruct Hc as (_ & _ & _ & (_ & _ & _ & -> & _)). reflexivity.
  - intros amount job breakdown. unfold collectPayment.
    destruct amount as [amount|]; [|discriminate].
    destruct (Qle_bool amount 0); [discriminate|]. intros H.
    apply bind_inv in H. destruct H as (db0 & found & Hfind & H).
    unfold RepairJob_findById, gets in Hfind. injection Hfind as <- <-.
    destruct (repairs db !! repairId) as [repair|]; [|discriminate].
    destruct (rj_status repair) eqn:Hst; try discriminate.
    cbv zeta in H. apply bind_inv in H. destruct H as (db1 & [] & Hsave & H).
    injection H as <- <- _. unfold RepairJob_save in Hsave.
    destruct (validRepairJob _); [|discriminate]. injection Hsave as <-.
    exists repair. rewrite Hst. repeat split. constructor.
  - intros reason job H. apply cancelRepair_run in H.
    destruct H as (repair & text & _ & Hjob & Hst & -> & Hrepairs & _).
    exists repair. split; [exact Hjob|]. split; [|split; [reflexivity | exact Hrepairs]].
    cbn. now constructor.
  - intros status H. inversion H. congruence.
  - intros status H. now inversion H.
  - intros status H. inversion H; auto.
Qed.

(** X23: [collectPayment] completes a READY job for any positive
    amount: the amount is stored as the final payment and is not compared
    with the balance due, which is the total cost less the advance, at least
    0.  The change reported is the amount less the balance due, and 0 when
    the amount falls short.  The job on file is taken to satisfy its schema,
    as every job the handlers saved does.  The job is final afterwards: a
    further payment, a cancellation, a completion and a start are all turned
    away with nothing written. *)
Theorem collectPayment_takes_any_amount repairId amount db repair :
  repairs db !! repairId = Some repair ->
  validRepairJob repair = true ->
  rj_status repair = READY ->
  (0 < amount)%Q ->
  exists job breakdown db',
    collectPayment repairId (Some amount) db = (db', Ok (Done (job, breakdown))) /\
    repairs db' !! repairId = Some job /\
    rj_status job = COMPLETED /\
    rj_finalPayment job = amount /\
    pb_balanceDue breakdown
    = Qmax 0 (rj_totalCost repair - rj_advancePayment repair) /\
    ((amount < pb_balanceDue breakdown)%Q -> pb_change breakdown = 0%Q) /\
    ((pb_balanceDue breakdown <= amount)%Q ->
     (pb_change breakdown == amount - pb_balanceDue breakdown)%Q) /\
    (forall again,
       (0 < again)%Q ->
       collectPayment repairId (Some again) db'
       = (db', Ok (Refused (inr (CannotCollectPayment COMPLETED)) 400))) /\
    (forall ctx reason,
       truthyS reason = true ->
       cancelRepair ctx repairId reason db'
       = (db', Err (AppError CannotCancelCompleted 400))) /\
    (forall ctx body,
       exists what statusCode,
         completeRepair ctx repairId body db'
         = (db', Err (AppError what statusCode))) /\
    (forall ctx,
       exists what statusCode,
         startRepair ctx repairId db' = (db', Ok (Refused what statusCode))).
Proof.
  intros Hjob Hvalid Hst Hpos.
  assert (Hamount : Qle_bool amount 0 = false).
  { destruct (Qle_bool amount 0) eqn:E; [|reflexivity].
    apply Qle_bool_iff in E. exfalso. exact (Qlt_not_le _ _ Hpos E). }
  pose proof (validRepairJob_paid repair amount Hvalid (Qlt_le_weak _ _ Hpos)) as Hpaid.
  set (job := repairPreSave (paidRepair repair amount)).
  set (db' := withRepairs db (<[repairId := job]> (repairs db))).
  assert (Hlook : repairs db' !! repairId = Some job).
  { cbn. apply list_lookup_insert_eq. now apply lookup_lt_Some in Hjob. }
  eexists job, _, db'.
  split; [|split; [exact Hlook|]].
  { unfold collectPayment. rewrite Hamount.
    erewrite bind_ok by reflexivity. rewrite Hjob, Hst. cbv zeta.
    unfold bind at 1, RepairJob_save. rewrite Hpaid. reflexivity. }
  cbn [pb_balanceDue pb_change].
  split; [reflexivity|]. split; [reflexivity|]. split; [reflexivity|].
  split; [|split; [|split; [|split; [|split]]]].
  - intros Hless. unfold Qmax at 1.
    assert (Qle_bool (amount - Qmax 0 (rj_totalCost repair - rj_advancePayment repair)) 0
            = true) as ->; [|reflexivity].
    apply Qle_bool_iff. apply Qlt_le_weak.
    apply (Qplus_lt_l _ _ (Qmax 0 (rj_totalCost repair - rj_advancePayment repair))).
    ring_simplify. exact Hless.
  - intros Hcovers. apply Qmax_0_nonneg.
    apply (Qplus_le_l _ _ (Qmax 0 (rj_totalCost repair - rj_advancePayment repair))).
    ring_simplify. exact Hcovers.
  - intros again Hagain. unfold collectPayment.
    assert (Qle_bool again 0 = false) as ->.
    { destruct (Qle_bool again 0) eqn:E; [|reflexivity].
      apply Qle_bool_iff in E. exfalso. exact (Qlt_not_le _ _ Hagain E). }
    erewrite bind_ok by reflexivity. rewrite Hlook. reflexivity.
  - intros ctx reason Hreason. unfold cancelRepair. rewrite Hreason. cbn [negb].
    erewrite bind_ok by reflexivity. rewrite Hlook. reflexivity.
  - intros ctx body. unfold completeRepair. erewrite bind_ok by reflexivity.
    rewrite Hlook. destruct (negb _); eexists; eexists; reflexivity.
  - intros ctx. unfold startRepair. erewrite bind_ok by reflexivity.
    rewrite Hlook. destruct (negb _); eexists; eexists; reflexivity.
Qed.

(** Two phones and then nine are asked for with five in stock: the request
    is refused for the nine, and the two stay deducted. *)
Lemma completeRepair_refused_midway_witness :
  snd (completeRepair clerk 0%nat (partsOf [2; 9]) bench)
  = Err (AppError (InsufficientStock 3 9) 400) /\
  exists done rest consumed,
    default [] (cp_partsUsed (partsOf [2; 9])) = done ++ rest /\
    Forall2 booksPart done consumed /\
    (forall p, quantityOf (fst (completeRepair clerk 0%nat (partsOf [2; 9]) bench)) p
               = quantityOf bench p - partUnitsOf p consumed) /\
    List.map entry (adjustments (fst (completeRepair clerk 0%nat (partsOf [2; 9]) bench)))
    = List.map entry (adjustments bench) ++ List.map partSaleEntry consumed /\
    repairs (fst (completeRepair clerk 0%nat (partsOf [2; 9]) bench)) = repairs bench.
Proof.
  split; [vm_compute; reflexivity|].
  apply (completeRepair_refused_midway clerk 0%nat (partsOf [2; 9]) bench
           (fst (completeRepair clerk 0%nat (partsOf [2; 9]) bench))
           (InsufficientStock 3 9) 400).
  vm_compute. reflexivity.
Defined.

(** Two phones go into a repair that is then cancelled: five are on hand
    again. *)
Lemma cancelRepair_undoes_completeRepair_witness :
  quantityOf (fst (completeRepair clerk 0%nat (partsOf [2]) bench)) 1%nat = 3 /\
  quantityOf
    (fst (cancelRepair clerk 0%nat (Some "customer left")
            (fst (completeRepair clerk 0%nat (partsOf [2]) bench)))) 1%nat = 5.
Proof.
  split; [reflexivity|].
  destruct (completeRepair clerk 0%nat (partsOf [2]) bench) as [db1 [job|e]] eqn:E1;
    [|vm_compute in E1; discriminate].
  cbn [fst].
  destruct (cancelRepair clerk 0%nat (Some "customer left") db1) as [db2 [job'|e]] eqn:E2.
  - destruct (cancelRepair_undoes_completeRepair _ _ _ _ _ _ _ _ _ _ E1 E2) as [Hq _].
    cbn [fst]. rewrite Hq. reflexivity.
  - exfalso. vm_compute in E1. injection E1 as <- _. vm_compute in E2. discriminate.
Defined.

(** A job that cost 350 is handed over for a payment of 1. *)
Lemma collectPayment_takes_any_amount_witness :
  exists job breakdown db',
    collectPayment 0%nat (Some 1%Q) counter = (db', Ok (Done (job, breakdown))) /\
    rj_status job = COMPLETED /\
    (pb_balanceDue breakdown == 350)%Q /\
    pb_change breakdown = 0%Q.
Proof.
  destruct (collectPayment_takes_any_amount 0%nat 1%Q counter readyJob
              eq_refl eq_refl eq_refl eq_refl)
    as (job & breakdown & db' & Hrun & _ & Hst & _ & Hdue & Hshort & _).
  exists job, breakdown, db'. split; [exact Hrun|]. split; [exact Hst|].
  split; [rewrite Hdue; vm_compute; reflexivity|].
  apply Hshort. rewrite Hdue. vm_compute. reflexivity.
Defined.

(** ** Repair jobs on file stay valid *)

Lemma Qsum_nonneg (l : list Q) :
  Forall (fun x => (0 <= x)%Q) l -> (0 <= Qsum l)%Q.
Proof.
  unfold Qsum.
  assert (forall a, (0 <= a)%Q -> Forall (fun x => (0 <= x)%Q) l ->
                    (0 <= List.fold_left Qplus l a)%Q) as Hgen.
  { induction l as [|x l IH]; intros b Hb Hl; cbn [List.fold_left]; [exact Hb|].
    inversion Hl as [|? ? Hx Hrest]; subst. apply IH; [|exact Hrest].
    rewrite <- (Qplus_0_r 0). now apply Qplus_le_compat. }
  intros Hl. apply Hgen; [apply Qle_refl | exact Hl].
Qed.

(** What the pre-save hook computes passes the validators as well: a job
    that was saved is valid as it stands on file. *)
Lemma validRepairJob_preSave (r : RepairJob) :
  validRepairJob r = true -> validRepairJob (repairPreSave r) = true.
Proof.
  intros H.
  assert (Hparts : (0 <= Qsum (List.map pt_total (rj_partsUsed r)))%Q).
  { apply Qsum_nonneg. apply List.Forall_forall. intros x Hx.
    apply List.in_map_iff in Hx. destruct Hx as (part & <- & Hin).
    unfold validRepairJob in H. validators H.
    match goal with
    | V : List.forallb validPart _ = true |- _ =>
        rewrite List.forallb_forall in V; specialize (V part Hin); unfold validPart in V;
        validators V
    end.
    now apply Qle_bool_iff. }
  assert (Hlabor : (0 <= rj_laborCost r)%Q).
  { unfold validRepairJob in H. validators H. now apply Qle_bool_iff. }
  assert (Htotal : (0 <= rj_laborCost r + Qsum (List.map pt_total (rj_partsUsed r)))%Q).
  { rewrite <- (Qplus_0_r 0). now apply Qplus_le_compat. }
  apply Qle_bool_iff in Hparts, Htotal.
  unfold validRepairJob in *.
  cbn [repairPreSave rj_jobNumber rj_priority rj_customer rj_device rj_problemDescription
       rj_diagnosisNotes rj_repairNotes rj_partsUsed rj_laborCost rj_partsTotal
       rj_totalCost rj_estimatedCost rj_advancePayment rj_finalPayment rj_paymentStatus
       rj_cancelReason].
  validators H.
  now repeat match goal with |- context [if ?c then _ else _] => destruct c end.
Qed.

Lemma valid_RepairJob_create r : preserves repairsValid (RepairJob_create r).
Proof.
  intros db H. unfold RepairJob_create. destruct (validRepairJob r) eqn:E; [|exact H].
  unfold repairsValid. cbn [fst repairs withRepairs]. apply Forall_app. split; [exact H|].
  constructor; [now apply validRepairJob_preSave | constructor].
Qed.

Lemma valid_RepairJob_save id r : preserves repairsValid (RepairJob_save id r).
Proof.
  intros db H. unfold RepairJob_save. destruct (validRepairJob r) eqn:E; [|exact H].
  unfold repairsValid. cbn [fst repairs withRepairs].
  apply Forall_insert; [exact H | now apply validRepairJob_preSave].
Qed.

Lemma valid_getOrCreate product : preserves repairsValid (Stock_getOrCreate product).
Proof.
  intros db H. unfold Stock_getOrCreate. destruct (stocks db !! product); exact H.
Qed.

Lemma valid_save product q : preserves repairsValid (Stock_save product q).
Proof. intros db H. unfold Stock_save. destruct (q <? 0); exact H. Qed.

Lemma valid_adjustment a : preserves repairsValid (StockAdjustment_create a).
Proof.
  intros db H. unfold StockAdjustment_create. destruct (validStockAdjustment a); exact H.
Qed.

Lemma valid_Sale_create s : preserves repairsValid (Sale_create s).
Proof. intros db H. unfold Sale_create. destruct (validSale s); exact H. Qed.

Lemma valid_Sale_save id s : preserves repairsValid (Sale_save id s).
Proof. intros db H. unfold Sale_save. destruct (validSale s); exact H. Qed.

Lemma valid_Return_create r : preserves repairsValid (Return_create r).
Proof. intros db H. unfold Return_create. destruct (validReturn r); exact H. Qed.

Lemma valid_Warranty_create now w : preserves repairsValid (Warranty_create now w).
Proof. intros db H. unfold Warranty_create. destruct (validWarranty w); exact H. Qed.

Lemma valid_Warranty_save now id w : preserves repairsValid (Warranty_save now id w).
Proof. intros db H. unfold Warranty_save. destruct (validWarranty w); exact H. Qed.

Lemma valid_voidWarrantiesOf sale product by_ reason :
  preserves repairsValid (voidWarrantiesOf sale product by_ reason).
Proof. intros db H. exact H. Qed.

Create HintDb valid.
#[local] Hint Resolve valid_getOrCreate valid_save valid_adjustment valid_Sale_create
  valid_Sale_save valid_Return_create valid_RepairJob_create valid_RepairJob_save
  valid_Warranty_create valid_Warranty_save valid_voidWarrantiesOf : valid.

Ltac valid := repeat first [ solve [auto with valid] | step_preserves ].

Lemma valid_consumeParts ctx repairId repair parts : forall processedParts,
  preserves repairsValid (consumeParts ctx repairId repair parts processedParts).
Proof.
  induction parts as [|part rest IH]; intros processedParts; cbn [consumeParts].
  - valid.
  - unfold Product_findById, Stock_findOne. valid.
Qed.

(** X24: the repair jobs on file stay valid.  When every repair job on file
    satisfies the validators of its schema, so does every repair job after
    any stock-mutating request, after [startRepair] and after
    [collectPayment], whether the request succeeded or not: a job is only
    written through [save] or [create], which validate it, and the totals
    and payment status the pre-save hook then computes pass the validators
    as well. *)
Theorem repair_jobs_stay_valid (db : DB) :
  repairsValid db ->
  (forall cr, repairsValid (fst (handle cr db))) /\
  (forall ctx repairId, repairsValid (fst (startRepair ctx repairId db))) /\
  (forall repairId amount, repairsValid (fst (collectPayment repairId amount db))).
Proof.
  intros Hvalid. split; [|split].
  - intros cr. revert db Hvalid.
    change (preserves repairsValid (handle cr)).
    destruct cr as [ctx []]; unfold handle; cbn [fst snd];
      (apply preserves_bind; [| intros ?; apply preserves_ret]).
    + unfold adjustStock, Product_findById. valid.
    + unfold createSale, deductItem, issueWarranties, Product_findById.
      destruct (cs_items body); valid.
    + unfold voidSale, Sale_findById, restoreItem. valid.
    + unfold createReturn, Sale_findById, restoreReturned. valid.
    + unfold createExchange, Sale_findById, restoreReturned, deductNewItem. valid.
    + unfold completeRepair, RepairJob_findById.
      pose proof (valid_consumeParts ctx repairId) as Hparts. valid.
    + unfold cancelRepair, RepairJob_findById, restorePart. valid.
    + unfold createClaim, claimRepair, claimReplace, claimRefund, Warranty_findById,
        RepairJob_findById, Product_findById. valid.
  - intros ctx repairId. revert db Hvalid.
    change (preserves repairsValid (startRepair ctx repairId)).
    unfold startRepair, RepairJob_findById. valid.
  - intros repairId amount. revert db Hvalid.
    change (preserves repairsValid (collectPayment repairId amount)).
    unfold collectPayment, RepairJob_findById. valid.
Qed.

(** The job at the counter is valid, and still valid once it is paid for. *)
Lemma repair_jobs_stay_valid_witness :
  repairsValid counter /\
  repairsValid (fst (collectPayment 0%nat (Some 1%Q) counter)).
Proof.
  assert (Hcounter : repairsValid counter) by (repeat constructor).
  split; [exact Hcounter|].
  exact (proj2 (proj2 (repair_jobs_stay_valid counter Hcounter)) 0%nat (Some 1%Q)).
Defined.
